(** * PyonFX: a shallow embedding of [pyonfx/core.py] and [pyonfx/types.py]

    The development follows the Python sources module by module.

    Conventions of the embedding:
    - a Python [str] is a [string]; the scanning functions work on the
      list of its characters;
    - a Python [float] is a double.  Where the code reads a float from
      text, writes one, or adds one half to round, the double is
      computed: the exact value is rounded to the nearest double
      ([PyNum.nearest]).  The arithmetic of the layout and of [resample]
      (and [Time], measured in seconds) is carried out on exact
      rationals [Q]; comparisons are comparisons of rationals ([Qeq],
      [Qlt]) and [round] is round-half-to-even;
    - an attribute that may be missing on an object is an [option];
    - code that may raise returns a [result], the exception being the
      one Python raises;
    - a mutable list that is shared between objects lives in a store
      ([gmap]) and objects hold its location. *)

From Stdlib Require Import ZArith QArith Qround Qabs Qpower Lia Lqa Bool Ascii
  String List.
From stdpp Require Import base option list gmap strings.
Import ListNotations.

Local Open Scope Z_scope.
Local Open Scope Q_scope.
Local Open Scope string_scope.
Local Open Scope list_scope.

(** ** Python exceptions and fallible computations *)

Inductive exn : Set :=
| ValueError
| TypeError
| AttributeError
| ZeroDivisionError
| KeyError
| IndexError
| MatchNotFoundError.

Inductive result (A : Type) : Type :=
| Ok (a : A)
| Raise (e : exn).
Arguments Ok {A} a.
Arguments Raise {A} e.

Definition rbind {A B} (c : result A) (k : A -> result B) : result B :=
  match c with
  | Ok a => k a
  | Raise e => Raise e
  end.

Notation "'do' x <- c ; k" := (rbind c (fun x => k))
  (at level 10, x pattern, c at level 100, k at level 200).

(** [getattr o] on an attribute that was never assigned. *)
Definition getattr {A} (o : option A) : result A :=
  match o with
  | Some a => Ok a
  | None => Raise AttributeError
  end.

(** ** Rational helpers standing for float operations *)

Definition Qltb (a b : Q) : bool := negb (Qle_bool b a).

(** ** Python [str] operations, on the list of characters

    Characters are [ascii]; the embedding covers text in that range. *)

Module PyStr.

Definition chars (s : string) : list ascii := list_ascii_of_string s.
Definition str (l : list ascii) : string := string_of_list_ascii l.

Definition code (c : ascii) : nat := nat_of_ascii c.

(** [c.isspace()], which is also the whitespace of [str.strip] and of
    [\s]: tab, newline, vertical tab, form feed, carriage return, the
    four separators 28-31, space, next line (133) and no-break space
    (160). *)
Definition is_space (c : ascii) : bool :=
  let n := code c in
  ((9 <=? n) && (n <=? 13) || (28 <=? n) && (n <=? 32)
   || (n =? 133) || (n =? 160))%nat.

(** The whitespace that [int] and [float] pass over at both ends of
    their argument: that of [isspace] but for the separators 28-31. *)
Definition is_blank (c : ascii) : bool :=
  let n := code c in
  is_space c && negb ((28 <=? n) && (n <=? 31))%nat.

Definition is_upper (c : ascii) : bool :=
  let n := code c in ((65 <=? n) && (n <=? 90))%nat.

Definition is_lower (c : ascii) : bool :=
  let n := code c in ((97 <=? n) && (n <=? 122))%nat.

Definition is_digit (c : ascii) : bool :=
  let n := code c in ((48 <=? n) && (n <=? 57))%nat.

Definition to_lower (c : ascii) : ascii :=
  if is_upper c then ascii_of_nat (code c + 32) else c.

Definition to_upper (c : ascii) : ascii :=
  if is_lower c then ascii_of_nat (code c - 32) else c.

Definition eqc (a b : ascii) : bool := Ascii.eqb a b.

(** [s.lower()] *)
Definition lower (s : list ascii) : list ascii := map to_lower s.

(** [s.title()]: a letter that follows a letter is lowercased, any
    other letter is uppercased. *)
Fixpoint title_from (prev_cased : bool) (s : list ascii) : list ascii :=
  match s with
  | [] => []
  | c :: s' =>
      if is_upper c || is_lower c
      then (if prev_cased then to_lower c else to_upper c) :: title_from true s'
      else c :: title_from false s'
  end.

Definition title (s : list ascii) : list ascii := title_from false s.

(** [s.startswith(p)] *)
Fixpoint startswith (p s : list ascii) : bool :=
  match p, s with
  | [], _ => true
  | _ :: _, [] => false
  | a :: p', b :: s' => eqc a b && startswith p' s'
  end.

(** [s.endswith(p)] *)
Definition endswith (p s : list ascii) : bool :=
  startswith (rev p) (rev s).

(** [s.replace(old, new)] for a non-empty [old]: occurrences are taken
    from left to right and do not overlap.  [skip] counts the characters
    of the occurrence just replaced that are still to be passed. *)
Fixpoint replace_from (old new : list ascii) (skip : nat) (s : list ascii)
  : list ascii :=
  match s with
  | [] => []
  | c :: s' =>
      match skip with
      | S n => replace_from old new n s'
      | O =>
          if startswith old s
          then new ++ replace_from old new (length old - 1) s'
          else c :: replace_from old new 0 s'
      end
  end.

Definition replace (old new s : list ascii) : list ascii :=
  replace_from old new 0 s.

(** [s.split(sep)] for a non-empty [sep]; [cur] is the field being read,
    in reverse. *)
Fixpoint split_from (sep : list ascii) (skip : nat) (cur : list ascii)
  (s : list ascii) : list (list ascii) :=
  match s with
  | [] => [rev cur]
  | c :: s' =>
      match skip with
      | S n => split_from sep n cur s'
      | O =>
          if startswith sep s
          then rev cur :: split_from sep (length sep - 1) [] s'
          else split_from sep 0 (c :: cur) s'
      end
  end.

Definition split (sep s : list ascii) : list (list ascii) :=
  split_from sep 0 [] s.

(** [sep.join(parts)] *)
Fixpoint join (sep : list ascii) (parts : list (list ascii)) : list ascii :=
  match parts with
  | [] => []
  | [p] => p
  | p :: ps => p ++ sep ++ join sep ps
  end.

Fixpoint lstrip_by (f : ascii -> bool) (s : list ascii) : list ascii :=
  match s with
  | c :: s' => if f c then lstrip_by f s' else s
  | [] => []
  end.

Definition strip_by (f : ascii -> bool) (s : list ascii) : list ascii :=
  rev (lstrip_by f (rev (lstrip_by f s))).

(** [s.strip()] *)
Definition strip (s : list ascii) : list ascii := strip_by is_space s.

(** [s.strip(cs)] *)
Definition strip_chars (cs s : list ascii) : list ascii :=
  strip_by (fun c => existsb (eqc c) cs) s.

(** [s.isspace()]: false on the empty string. *)
Definition isspace (s : list ascii) : bool :=
  match s with
  | [] => false
  | _ => forallb is_space s
  end.

(** [c * n] for a one-character string. *)
Definition times (c : ascii) (n : nat) : list ascii := repeat c n.

(** *** [int(s)] and [str(n)] *)

Definition digit_val (c : ascii) : Z := Z.of_nat (code c - 48).

(** Digits with single underscores allowed between them, as [int]
    accepts; [acc] is the value read so far, [after_digit] tells whether
    the previous character was a digit. *)
Fixpoint digits_value (acc : Z) (after_digit : bool) (s : list ascii)
  : option Z :=
  match s with
  | [] => if after_digit then Some acc else None
  | c :: s' =>
      if is_digit c then digits_value (10 * acc + digit_val c)%Z true s'
      else if eqc c "_"%char && after_digit then digits_value acc false s'
      else None
  end.

(** [int(s)]: surrounding whitespace, an optional sign, digits. *)
Definition int_of (s : list ascii) : option Z :=
  match strip_by is_blank s with
  | [] => None
  | c :: ds =>
      if eqc c "-" then option_map Z.opp (digits_value 0 false ds)
      else if eqc c "+" then digits_value 0 false ds
      else digits_value 0 false (c :: ds)
  end.

Definition digit_char (d : nat) : ascii := ascii_of_nat (48 + d).

Fixpoint dec_digits (fuel : nat) (n : Z) (acc : list ascii) : list ascii :=
  match fuel with
  | O => acc
  | S f =>
      let acc' := digit_char (Z.to_nat (n mod 10)) :: acc in
      if (n <? 10)%Z then acc' else dec_digits f (n / 10)%Z acc'
  end.

(** Decimal digits of a non-negative integer. *)
Definition str_of_nonneg (n : Z) : list ascii :=
  dec_digits (S (Z.to_nat (Z.log2 n))) n [].

(** [str(z)] *)
Definition str_of_int (z : Z) : list ascii :=
  if (z <? 0)%Z then "-"%char :: str_of_nonneg (- z) else str_of_nonneg z.

End PyStr.

(** ** The fragment of Python's [re] used by [core.py]

    A backtracking matcher with the priorities of [re]: alternatives
    are tried left to right, a greedy repetition tries one more
    iteration before stopping, a lazy one stops before trying more. *)

Module Re.
Import PyStr.

Inductive regex : Type :=
| Eps
| Chr (p : ascii -> bool)          (* one character: literal, class or [.] *)
| Seq (r1 r2 : regex)
| Alt (r1 r2 : regex)
| Star (greedy : bool) (r : regex)  (* [r*] and [r*?] *)
| Group (name : string) (r : regex) (* [(?P<name>r)], or [(r)] named by its number *)
| Bol                               (* [^] *)
| Eol                               (* [$] *)
| Ahead (r : regex)                 (* [(?=r)] *)
| NotBehind (r : regex).            (* [(?<!r)] for a zero-width [r] *)

(** Derived forms. *)
Definition Plus (greedy : bool) (r : regex) : regex := Seq r (Star greedy r).
Definition Opt (r : regex) : regex := Alt r Eps.
Definition Lit1 (c : ascii) : regex := Chr (eqc c).
Fixpoint Lit (s : list ascii) : regex :=
  match s with
  | [] => Eps
  | c :: s' => Seq (Lit1 c) (Lit s')
  end.
Definition newline : ascii := ascii_of_nat 10.
(** [.] matches anything but a newline. *)
Definition Dot : regex := Chr (fun c => negb (eqc c newline)).
Definition OneOf (cs : list ascii) : regex := Chr (fun c => existsb (eqc c) cs).
Definition NoneOf (cs : list ascii) : regex :=
  Chr (fun c => negb (existsb (eqc c) cs)).

(** A position in the subject: the text before it (in reverse), the
    text after it, and the groups captured so far, latest first. *)
Record mstate : Type := mkState {
  before : list ascii;
  rest : list ascii;
  caps : list (string * list ascii)
}.

Definition at_bol (multiline : bool) (s : mstate) : bool :=
  match before s with
  | [] => true
  | c :: _ => multiline && eqc c newline
  end.

(** [$]: at the end, before a final newline, and in MULTILINE mode
    before any newline. *)
Definition at_eol (multiline : bool) (s : mstate) : bool :=
  match rest s with
  | [] => true
  | c :: tl => eqc c newline && (multiline || match tl with [] => true | _ => false end)
  end.

(** The text consumed between two positions of one subject. *)
Definition consumed (s s1 : mstate) : list ascii :=
  firstn (length (rest s) - length (rest s1)) (rest s).

Definition capture (name : string) (s s1 : mstate) : mstate :=
  mkState (before s1) (rest s1) ((name, consumed s s1) :: caps s1).

(** The repetition of a [body] at most [n] more times, followed by the
    continuation [k].  An iteration must consume something to count. *)
Fixpoint star_loop (body : mstate -> (mstate -> option mstate) -> option mstate)
  (greedy : bool) (k : mstate -> option mstate) (n : nat) (s : mstate)
  : option mstate :=
  match n with
  | O => k s
  | S n' =>
      let more (_ : unit) :=
        body s (fun s1 =>
          if (length (rest s1) <? length (rest s))%nat
          then star_loop body greedy k n' s1 else None) in
      if greedy
      then match more tt with Some s' => Some s' | None => k s end
      else match k s with Some s' => Some s' | None => more tt end
  end.

Fixpoint rmatch (ml : bool) (r : regex) (s : mstate)
  (k : mstate -> option mstate) {struct r} : option mstate :=
  match r with
  | Eps => k s
  | Chr p =>
      match rest s with
      | c :: tl => if p c then k (mkState (c :: before s) tl (caps s)) else None
      | [] => None
      end
  | Seq r1 r2 => rmatch ml r1 s (fun s1 => rmatch ml r2 s1 k)
  | Alt r1 r2 =>
      match rmatch ml r1 s k with
      | Some s' => Some s'
      | None => rmatch ml r2 s k
      end
  | Star greedy r1 => star_loop (rmatch ml r1) greedy k (S (length (rest s))) s
  | Group name r1 => rmatch ml r1 s (fun s1 => k (capture name s s1))
  | Bol => if at_bol ml s then k s else None
  | Eol => if at_eol ml s then k s else None
  | Ahead r1 =>
      match rmatch ml r1 s Some with
      | Some _ => k s
      | None => None
      end
  | NotBehind r1 =>
      match rmatch ml r1 s Some with
      | Some _ => None
      | None => k s
      end
  end.

(** The matches a pattern allows, without regard to priority: [matches
    ml r s s1] when [r] can take the position [s] to the position [s1]. *)
Inductive matches (ml : bool) : regex -> mstate -> mstate -> Prop :=
| M_Eps s : matches ml Eps s s
| M_Chr p s c tl :
    rest s = c :: tl -> p c = true ->
    matches ml (Chr p) s (mkState (c :: before s) tl (caps s))
| M_Seq r1 r2 s s1 s2 :
    matches ml r1 s s1 -> matches ml r2 s1 s2 -> matches ml (Seq r1 r2) s s2
| M_Alt_l r1 r2 s s1 : matches ml r1 s s1 -> matches ml (Alt r1 r2) s s1
| M_Alt_r r1 r2 s s1 : matches ml r2 s s1 -> matches ml (Alt r1 r2) s s1
| M_Star_stop g r s : matches ml (Star g r) s s
| M_Star_more g r s s1 s2 :
    matches ml r s s1 -> matches ml (Star g r) s1 s2 ->
    matches ml (Star g r) s s2
| M_Group name r s s1 :
    matches ml r s s1 -> matches ml (Group name r) s (capture name s s1)
| M_Bol s : at_bol ml s = true -> matches ml Bol s s
| M_Eol s : at_eol ml s = true -> matches ml Eol s s
| M_Ahead r s : matches ml (Ahead r) s s
| M_NotBehind r s : matches ml (NotBehind r) s s.

(** A match object: the text skipped since the previous match (or the
    start), the matched text, and the groups. *)
Record rematch : Type := mkMatch {
  m_skipped : list ascii;
  m_text : list ascii;
  m_groups : list (string * list ascii)
}.

(** [m.groupdict()[name]], [m[n]]: the last capture of the group. *)
Fixpoint lookup_group (name : string) (gs : list (string * list ascii))
  : list ascii :=
  match gs with
  | [] => []
  | (n, v) :: gs' => if String.eqb n name then v else lookup_group name gs'
  end.

Definition group (m : rematch) (name : string) : list ascii :=
  lookup_group name (m_groups m).

(** A match starting exactly at [s]; with [must_advance] an empty match
    is refused. *)
Definition match_here (ml : bool) (r : regex) (must_advance : bool)
  (s : mstate) : option mstate :=
  rmatch ml r (mkState (before s) (rest s) []) (fun s1 =>
    if must_advance && (length (rest s1) =? length (rest s))%nat
    then None else Some s1).

(** [pattern.match(text)] *)
Definition re_match (ml : bool) (r : regex) (text : list ascii)
  : option rematch :=
  let s := mkState [] text [] in
  match match_here ml r false s with
  | Some s1 => Some (mkMatch [] (consumed s s1) (caps s1))
  | None => None
  end.

(** The leftmost match at or after [s]; [skipped] is the text passed
    over, in reverse. *)
Fixpoint search (ml : bool) (r : regex) (must_advance : bool)
  (bef : list ascii) (skipped : list ascii) (text : list ascii)
  : option (rematch * mstate) :=
  let s := mkState bef text [] in
  match match_here ml r must_advance s with
  | Some s1 => Some (mkMatch (rev skipped) (consumed s s1) (caps s1), s1)
  | None =>
      match text with
      | [] => None
      | c :: tl => search ml r false (c :: bef) (c :: skipped) tl
      end
  end.

(** [pattern.finditer(text)]: successive matches, each search resuming
    where the previous match ended; after an empty match the next one
    may not be empty at the same place.  Returns the matches and the
    text after the last one. *)
Fixpoint finditer_from (ml : bool) (r : regex) (fuel : nat)
  (must_advance : bool) (bef text : list ascii)
  : list rematch * list ascii :=
  match fuel with
  | O => ([], text)
  | S fuel' =>
      match search ml r must_advance bef [] text with
      | None => ([], text)
      | Some (m, s1) =>
          let '(ms, tl) :=
            finditer_from ml r fuel'
              (match m_text m with [] => true | _ => false end)
              (before s1) (rest s1) in
          (m :: ms, tl)
      end
  end.

Definition finditer_tail (ml : bool) (r : regex) (text : list ascii)
  : list rematch * list ascii :=
  finditer_from ml r (2 * length text + 2) false [] text.

Definition finditer (ml : bool) (r : regex) (text : list ascii)
  : list rematch :=
  fst (finditer_tail ml r text).

(** [pattern.sub(repl, text)] for a literal replacement. *)
Definition sub (ml : bool) (r : regex) (repl text : list ascii) : list ascii :=
  let '(ms, tl) := finditer_tail ml r text in
  concat (map (fun m => m_skipped m ++ repl) ms) ++ tl.

(** [pattern.split(text)] for a pattern without groups. *)
Definition re_split (ml : bool) (r : regex) (text : list ascii)
  : list (list ascii) :=
  let '(ms, tl) := finditer_tail ml r text in
  map m_skipped ms ++ [tl].

End Re.

(** ** Numbers *)

Module PyNum.

(** [round(q)]: to the nearest integer, ties to the even one. *)
Definition round (q : Q) : Z :=
  let f := Qfloor q in
  match Qcompare (q - inject_Z f) (1 # 2) with
  | Lt => f
  | Gt => (f + 1)%Z
  | Eq => if Z.even f then f else (f + 1)%Z
  end.

(** [round(q, 5)] *)
Definition round5 (q : Q) : Q := inject_Z (round (q * 100000)) / 100000.

(** [abs(q)] *)
Definition abs (q : Q) : Q := Qabs q.

(** [a / b] on numbers. *)
Definition div (a b : Q) : result Q :=
  if Qeq_bool b 0 then Raise ZeroDivisionError else Ok (a / b).

(** *** Doubles

    A Python [float] is an IEEE 754 double.  A finite double is held as
    the rational number it is equal to, in lowest terms; the values that
    are no rational number, or that a rational number cannot tell apart
    from another double, have constructors of their own. *)

Inductive float : Type :=
| Finite (q : Q)
| NegZero
| Inf (neg : bool)
| NaN.

(** [2^e] and [10^e] for an exponent of either sign. *)
Definition pow2 (e : Z) : Q := Qpower 2 e.
Definition pow10 (e : Z) : Q := Qpower 10 e.

(** The integer part of the binary logarithm of a positive rational. *)
Definition ilog2 (q : Q) : Z :=
  let g := (Z.log2 (Qnum q) - Z.log2 (Zpos (Qden q)))%Z in
  if Qle_bool (pow2 g) q then g else (g - 1)%Z.

(** The integer part of the decimal logarithm of a positive rational of
    the size of a double. *)
Definition ilog10 (q : Q) : Z :=
  let p := (ilog2 q * 30103 / 100000)%Z in
  if Qltb q (pow10 p) then (p - 1)%Z
  else if Qle_bool (pow10 (p + 1)) q then (p + 1)%Z
  else p.

(** Rounding of a positive rational to 53 significant bits, the last
    one no smaller than [2^-1074]: to the nearest such number, a tie
    going to the one whose last bit is 0. *)
Definition nearest_pos (q : Q) : Q :=
  let e := Z.max (ilog2 q - 52) (-1074) in
  Qred (inject_Z (round (q / pow2 e)) * pow2 e).

(** The same for a rational of either sign.  This is the result of an
    arithmetic operation whose exact value is [q], as long as it does
    not overflow. *)
Definition nearest (q : Q) : Q :=
  match Qcompare q 0 with
  | Eq => 0
  | Gt => nearest_pos q
  | Lt => Qred (- nearest_pos (- q))
  end.

(** The double that the magnitude [a] and the sign [neg] round to:
    what is rounded to [2^1024] or more overflows to an infinity, what
    is rounded to zero keeps its sign. *)
Definition of_magnitude (neg : bool) (a : Q) : float :=
  let r := if Qeq_bool a 0 then 0 else nearest_pos a in
  if Qle_bool (pow2 1024) r then Inf neg
  else if Qeq_bool r 0 then (if neg then NegZero else Finite 0)
  else Finite (if neg then Qred (- r) else r).

(** *** [float(s)] *)

(** The check and the removal of the underscores of a numeric text: an
    underscore must stand between two digits.  [prev] is the character
    before. *)
Fixpoint drop_underscores (prev : option ascii) (s : list ascii)
  : option (list ascii) :=
  match s with
  | [] =>
      match prev with
      | Some p => if PyStr.eqc p "_" then None else Some []
      | None => Some []
      end
  | c :: s' =>
      if PyStr.eqc c "_" then
        match prev with
        | Some p =>
            if PyStr.is_digit p then drop_underscores (Some c) s' else None
        | None => None
        end
      else
        match prev with
        | Some p =>
            if PyStr.eqc p "_" && negb (PyStr.is_digit c) then None
            else option_map (cons c) (drop_underscores (Some c) s')
        | None => option_map (cons c) (drop_underscores (Some c) s')
        end
  end.

(** The digits a text starts with, and what follows them. *)
Fixpoint take_digits (s : list ascii) : list ascii * list ascii :=
  match s with
  | c :: s' =>
      if PyStr.is_digit c
      then let '(ds, r) := take_digits s' in (c :: ds, r)
      else ([], s)
  | [] => ([], [])
  end.

Definition digits_Z (ds : list ascii) : Z :=
  fold_left (fun a c => (10 * a + PyStr.digit_val c)%Z) ds 0%Z.

(** What follows the [e] of an exponent, up to the end of the text: an
    optional sign and at least one digit. *)
Definition parse_exponent (s : list ascii) : option Z :=
  let '(neg, t) :=
    match s with
    | c :: t =>
        if PyStr.eqc c "-" then (true, t)
        else if PyStr.eqc c "+" then (false, t)
        else (false, s)
    | [] => (false, s)
    end in
  match take_digits t with
  | (c :: ds, []) =>
      Some (if neg then - digits_Z (c :: ds) else digits_Z (c :: ds))%Z
  | _ => None
  end.

(** An unsigned decimal number, up to the end of the text: digits with
    an optional point among them, at least one digit in all, and an
    optional exponent.  The result is the exact value written. *)
Definition parse_number (s : list ascii) : option Q :=
  let '(ip, r1) := take_digits s in
  let '(fp, r2) :=
    match r1 with
    | c :: t => if PyStr.eqc c "." then take_digits t else ([], r1)
    | [] => ([], r1)
    end in
  match ip ++ fp with
  | [] => None
  | ds =>
      match (match r2 with
             | [] => Some 0%Z
             | c :: t =>
                 if PyStr.eqc (PyStr.to_lower c) "e" then parse_exponent t
                 else None
             end) with
      | Some e =>
          Some (inject_Z (digits_Z ds) * pow10 (e - Z.of_nat (length fp)))
      | None => None
      end
  end.

Definition same_text (a b : list ascii) : bool :=
  String.eqb (PyStr.str a) (PyStr.str b).

(** An unsigned float text: [inf], [infinity] or [nan] in any case, or
    a decimal number. *)
Definition parse_unsigned (neg : bool) (s : list ascii) : option float :=
  let l := PyStr.lower s in
  if same_text l (PyStr.chars "inf") || same_text l (PyStr.chars "infinity")
  then Some (Inf neg)
  else if same_text l (PyStr.chars "nan") then Some NaN
  else option_map (of_magnitude neg) (parse_number s).

(** [float(s)]: surrounding whitespace, underscores between digits, an
    optional sign; [None] stands for [ValueError]. *)
Definition float_of (s : list ascii) : option float :=
  match drop_underscores None (PyStr.strip s) with
  | None => None
  | Some [] => None
  | Some (c :: t) =>
      if PyStr.eqc c "-" then parse_unsigned true t
      else if PyStr.eqc c "+" then parse_unsigned false t
      else parse_unsigned false (c :: t)
  end.

(** *** [str(x)] for a float *)

(** The [n]-digit significand [c] nearest to the double [v] among
    those for which [c * 10^(p - n + 1)] is read back as [v], if there
    is one; [p] is the decimal exponent of [v]. *)
Definition candidate (v : Q) (p n : Z) : option Z :=
  let u := pow10 (p - n + 1) in
  let s := v / u in
  let lo := Qfloor s in
  let hi := (lo + 1)%Z in
  let back (c : Z) := Qeq_bool (nearest_pos (inject_Z c * u)) v in
  match back lo, back hi with
  | true, true =>
      match Qcompare (s - inject_Z lo) (1 # 2) with
      | Lt => Some lo
      | Gt => Some hi
      | Eq => Some (if Z.even lo then lo else hi)
      end
  | true, false => Some lo
  | false, true => Some hi
  | false, false => None
  end.

(** The shortest significand that is read back as [v]: the number of
    digits [n] is tried from 1 on, and 17 digits always do. *)
Fixpoint shortest (fuel : nat) (v : Q) (p n : Z) : Z * Z :=
  match fuel with
  | O => (round (v / pow10 (p - n + 1)), n)
  | S f =>
      match candidate v p n with
      | Some c => (c, n)
      | None => shortest f v p (n + 1)%Z
      end
  end.

Fixpoint drop_zeros (rds : list ascii) : list ascii :=
  match rds with
  | c :: r => if PyStr.eqc c "0" then drop_zeros r else rds
  | [] => []
  end.

(** The digits of the shortest text of the positive double [v], without
    zeros at the end, and the position of the decimal point after the
    first of them. *)
Definition digits_of (v : Q) : list ascii * Z :=
  let p := ilog10 v in
  let '(c, n) := shortest 16 v p 1 in
  let ds := PyStr.str_of_nonneg c in
  (rev (drop_zeros (rev ds)), (p + 1 + (Z.of_nat (length ds) - n))%Z).

(** [repr] of a positive double from its digits: the exponent form
    when the decimal point is more than 16 places after the first digit
    or more than 3 zeros before it. *)
Definition format_digits (ds : list ascii) (decpt : Z) : list ascii :=
  if (decpt <=? -4)%Z || (16 <? decpt)%Z then
    let e := (decpt - 1)%Z in
    let es := PyStr.str_of_nonneg (Z.abs e) in
    (match ds with
     | [] => []
     | [d] => [d]
     | d :: r => d :: "."%char :: r
     end)
    ++ "e"%char :: (if (e <? 0)%Z then "-"%char else "+"%char)
    :: (match es with [_] => "0"%char :: es | _ => es end)
  else if (decpt <=? 0)%Z then
    "0"%char :: "."%char :: repeat "0"%char (Z.to_nat (- decpt)) ++ ds
  else if (decpt <? Z.of_nat (length ds))%Z then
    firstn (Z.to_nat decpt) ds ++ "."%char :: skipn (Z.to_nat decpt) ds
  else
    ds ++ repeat "0"%char (Z.to_nat decpt - length ds)
    ++ PyStr.chars ".0".

(** [str(x)], which is [repr(x)]. *)
Definition str_of_float (x : float) : list ascii :=
  match x with
  | Finite q =>
      match Qcompare q 0 with
      | Eq => PyStr.chars "0.0"
      | Gt => let '(ds, decpt) := digits_of q in format_digits ds decpt
      | Lt => let '(ds, decpt) := digits_of (- q) in
              "-"%char :: format_digits ds decpt
      end
  | NegZero => PyStr.chars "-0.0"
  | Inf neg => PyStr.chars (if neg then "-inf" else "inf")
  | NaN => PyStr.chars "nan"
  end.

(** [bool(x)] *)
Definition nonzero (x : float) : bool :=
  match x with
  | Finite q => negb (Qeq_bool q 0)
  | NegZero => false
  | Inf _ | NaN => true
  end.

(** [x == y]: the two zeros are equal, [nan] is equal to nothing. *)
Definition float_eqb (x y : float) : bool :=
  match x, y with
  | Finite p, Finite q => Qeq_bool p q
  | Finite p, NegZero | NegZero, Finite p => Qeq_bool p 0
  | NegZero, NegZero => true
  | Inf a, Inf b => Bool.eqb a b
  | _, _ => false
  end.

(** The same double, written the same way. *)
Definition same_float (x y : float) : bool :=
  match x, y with
  | Finite p, Finite q => (Qnum p =? Qnum q)%Z && (Qden p =? Qden q)%positive
  | NegZero, NegZero => true
  | Inf a, Inf b => Bool.eqb a b
  | NaN, NaN => true
  | _, _ => false
  end.

End PyNum.

(** ** [ptime.Time] *)

Module PTime.

(** Modelled from the spec: the [Time] class of [ptime.py], which is
    not part of the sources at hand.  A time is a non-negative number of
    seconds; addition and subtraction are clamped at zero. *)
Definition Time : Type := Q.

Definition clamp0 (q : Q) : Time := if Qle_bool 0 q then q else 0.

(** [Time(x)] *)
Definition of_number (q : Q) : Time := clamp0 q.

(** [t + x] *)
Definition add (t : Time) (q : Q) : Time := clamp0 (t + q).

(** [t - x] *)
Definition sub (t : Time) (q : Q) : Time := clamp0 (t - q).

Definition two_digits (s : list ascii) : option Z :=
  match s with
  | [a; b] => if PyStr.is_digit a && PyStr.is_digit b
              then Some (10 * PyStr.digit_val a + PyStr.digit_val b)%Z else None
  | _ => None
  end.

Definition all_digits (s : list ascii) : option Z :=
  if forallb PyStr.is_digit s then PyStr.digits_value 0 false s else None.

(** Modelled from the spec: [Time.from_ts], reading an ASS timestamp
    [H:MM:SS.CC]; malformed text is a fatal error. *)
Definition from_ts (ts : string) : result Time :=
  match PyStr.split [":"%char] (PyStr.chars ts) with
  | [h; m; sc] =>
      match PyStr.split ["."%char] sc with
      | [s; c] =>
          match all_digits h, two_digits m, two_digits s, two_digits c with
          | Some h, Some m, Some s, Some c =>
              Ok (inject_Z (h * 3600 + m * 60 + s) + inject_Z c / 100)
          | _, _, _, _ => Raise ValueError
          end
      | _ => Raise ValueError
      end
  | _ => Raise ValueError
  end.

End PTime.

(** * [pyonfx/core.py]: the data model *)

Module Core.
Import PyStr.

(** ** Values of the fields of the Meta sections *)

(** The annotations used by [ScriptInfo] and [ProjectGarbage]. *)
Inductive annot : Set := TStr | TInt | TFloat | TAssBool.

Inductive value : Type :=
| VStr (s : string)
| VInt (z : Z)
| VFloat (x : PyNum.float)
| VAssBool (b : bool).

(** Modelled from the spec: [ptypes.AssBool], a custom boolean built
    from the text [yes] or [no] and printing itself the same way; any
    other text fails to coerce. *)
Definition AssBool_new (v : string) : result value :=
  if String.eqb v "yes" then Ok (VAssBool true)
  else if String.eqb v "no" then Ok (VAssBool false)
  else Raise ValueError.

(** [eval(annotation)(v)] *)
Definition coerce (a : annot) (v : string) : result value :=
  match a with
  | TStr => Ok (VStr v)
  | TInt =>
      match int_of (chars v) with
      | Some z => Ok (VInt z)
      | None => Raise ValueError
      end
  | TFloat =>
      match PyNum.float_of (chars v) with
      | Some x => Ok (VFloat x)
      | None => Raise ValueError
      end
  | TAssBool => AssBool_new v
  end.

(** [repr(v)] for a custom boolean, [str(v)] otherwise, as the f-string
    of [as_text] formats a value. *)
Definition render (v : value) : string :=
  match v with
  | VStr s => s
  | VInt z => str (str_of_int z)
  | VFloat x => str (PyNum.str_of_float x)
  | VAssBool b => if b then "yes" else "no"
  end.

(** [bool(v)] *)
Definition truthy (v : value) : bool :=
  match v with
  | VStr s => negb (String.eqb s "")
  | VInt z => negb (z =? 0)%Z
  | VFloat x => PyNum.nonzero x
  | VAssBool b => b
  end.

(** ** Classes built by [AutoSlots] *)

(** Modelled from the spec: the tables the [AutoSlots] metaclass of
    [ptypes.py] attaches to a class.  [annotations] is the class body's
    annotations in declaration order, [__slots__] their names,
    [__slots_ex__] the names of the properties that expose an
    underscore-prefixed field, and [__all_slots__] the declaration order
    with such a property placed right after its field. *)
Record MetaDataClass : Type := mkClass {
  annotations : list (string * annot);
  slots_ex : list string
}.

Definition slots (cls : MetaDataClass) : list string :=
  map fst (annotations cls).

Definition mem (k : string) (l : list string) : bool :=
  existsb (String.eqb k) l.

Definition is_private (k : string) : bool :=
  startswith ["_"%char] (chars k).

Definition all_slots (cls : MetaDataClass) : list string :=
  flat_map (fun n =>
    match n with
    | String "_" p => if mem p (slots_ex cls) then [n; p] else [n]
    | _ => [n]
    end) (slots cls).

Fixpoint annotation_of (k : string) (l : list (string * annot)) : result annot :=
  match l with
  | [] => Raise KeyError
  | (n, a) :: l' => if String.eqb n k then Ok a else annotation_of k l'
  end.

(** An instance: the attributes assigned so far, by slot name. *)
Abbreviation attrs := (gmap string value).

(** [getattr(self, name)]; a property reads its underscore field. *)
Definition getattr_md (cls : MetaDataClass) (self : attrs) (name : string)
  : option value :=
  if mem name (slots cls) then self !! name
  else if mem name (slots_ex cls) then self !! String "_" name
  else None.

(** [setattr(self, name, v)]; a property setter given a value of the
    custom class stores it in the underscore field. *)
Definition setattr_md (cls : MetaDataClass) (self : attrs) (name : string)
  (v : value) : attrs :=
  if mem name (slots cls) then <[name := v]> self
  else <[String "_" name := v]> self.

(** [_DataCore.__iter__]: the assigned attributes in [__all_slots__] order. *)
Definition iter_md (cls : MetaDataClass) (self : attrs)
  : list (string * value) :=
  flat_map (fun name =>
    match getattr_md cls self name with
    | Some v => [(name, v)]
    | None => []
    end) (all_slots cls).

(** [class ScriptInfo(_MetaData, slots_ex=True, slots_ex_exclude='play_res')] *)
Definition ScriptInfo : MetaDataClass := {|
  annotations := [
    ("title", TStr); ("script_type", TStr); ("wrap_style", TInt);
    ("_scaled_border_and_shadow", TAssBool);
    ("y_cb_cr__matrix", TStr); ("play_res_x", TInt); ("play_res_y", TInt);
    ("original__script", TStr); ("original__translation", TStr);
    ("original__editing", TStr); ("original__timing", TStr);
    ("synch__point", TStr); ("script__updated__by", TStr);
    ("update__details", TStr) ];
  slots_ex := ["scaled_border_and_shadow"]
|}.

(** [class ProjectGarbage(_MetaData)] *)
Definition ProjectGarbage : MetaDataClass := {|
  annotations := [
    ("automation__scripts", TStr); ("export__encoding", TStr);
    ("last__style__storage", TStr); ("audio__file", TStr);
    ("video__file", TStr); ("video__a_r__mode", TInt);
    ("video__a_r__value", TFloat); ("video__zoom__percent", TFloat);
    ("video__position", TInt); ("active__line", TInt);
    ("keyframes__file", TStr) ];
  slots_ex := []
|}.

(** ** [_MetaData] *)

Module MetaData.

(** [re.compile(r'(?<!^)(?=[A-Z])')] *)
Definition camel_boundary : Re.regex :=
  Re.Seq (Re.NotBehind Re.Bol) (Re.Ahead (Re.Chr is_upper)).

(** The pattern of [from_text], in MULTILINE mode: at the start of a
    line a greedy group [name] of any characters, a colon and a space, a
    greedy group [value] of any characters, the end of the line. *)
Definition name_value : Re.regex :=
  Re.Seq Re.Bol
    (Re.Seq (Re.Group "name" (Re.Star true Re.Dot))
      (Re.Seq (Re.Lit (chars ": "))
        (Re.Seq (Re.Group "value" (Re.Star true Re.Dot)) Re.Eol))).

(** [pattern.sub('_', k.replace(' ', '_')).lower()] *)
Definition attr_name (k : list ascii) : string :=
  str (lower (Re.sub false camel_boundary (chars "_")
                (replace (chars " ") (chars "_") k))).

(** One iteration of the loop of [from_text]. *)
Definition from_text_step (cls : MetaDataClass) (self : attrs)
  (m : Re.rematch) : result attrs :=
  let k := attr_name (Re.group m "name") in
  let v := str (Re.group m "value") in
  if mem k (slots cls) then
    do a <- annotation_of k (annotations cls);
    do x <- coerce a v;
    Ok (setattr_md cls self k x)
  else if mem k (slots_ex cls) && negb (mem k (slots cls)) then
    do a <- annotation_of (String "_" k) (annotations cls);
    do x <- coerce a v;
    Ok (setattr_md cls self k x)
  else Ok self.

Fixpoint from_text_loop (cls : MetaDataClass) (self : attrs)
  (ms : list Re.rematch) : result attrs :=
  match ms with
  | [] => Ok self
  | m :: ms' =>
      do self' <- from_text_step cls self m;
      from_text_loop cls self' ms'
  end.

(** [_MetaData.from_text] *)
Definition from_text (cls : MetaDataClass) (text : string) : result attrs :=
  from_text_loop cls ∅ (Re.finditer true name_value (chars text)).

(** The name written for attribute [k]: each [_]-separated piece in
    title case, an empty piece standing for a space. *)
Definition key_name (k : string) : list ascii :=
  concat (map (fun w => title (match w with [] => [" "%char] | _ => w end))
              (split ["_"%char] (chars k))).

(** [_MetaData.as_text] *)
Definition as_text (cls : MetaDataClass) (self : attrs)
  (comment : list string) : string :=
  let head :=
    match comment with
    | [] => []
    | _ => join (chars "; ") (map chars comment) ++ [Re.newline]
    end in
  str (head ++
       flat_map (fun '(k, v) =>
         if is_private k then []
         else key_name k ++ chars ": " ++ chars (render v) ++ [Re.newline])
         (iter_md cls self)).

End MetaData.

(** ** [Meta] *)

Record Meta : Type := mkMeta {
  script_info : option attrs;
  project_garbage : option attrs;
  fps : option Q
}.

(** Reading an integer attribute of a [ScriptInfo]. *)
Definition int_attr (si : attrs) (name : string) : result Z :=
  match getattr_md ScriptInfo si name with
  | Some (VInt z) => Ok z
  | Some _ => Raise TypeError
  | None => Raise AttributeError
  end.

(** [script_info.play_res]: the pair of [play_res_x] and [play_res_y]. *)
Definition play_res (si : attrs) : result (Z * Z) :=
  do rx <- int_attr si "play_res_x";
  do ry <- int_attr si "play_res_y";
  Ok (rx, ry).

(** [bool(script_info.scaled_border_and_shadow)] *)
Definition scaled_border_and_shadow (si : attrs) : result bool :=
  do v <- getattr (getattr_md ScriptInfo si "scaled_border_and_shadow");
  Ok (truthy v).

(** ** [Style] *)

(** The fields of a style that the layout and resampling code reads.
    Colours, opacities and the four font flags are values of classes of
    other modules and play no part here. *)
Module Style.

Record t : Type := mk {
  name : string;
  fontname : string;
  fontsize : Q;
  scale_x : Q;
  scale_y : Q;
  spacing : Q;
  angle : Q;
  outline : Q;
  shadow : Q;
  alignment : Z;
  margin_l : Z;
  margin_r : Z;
  margin_v : Z;
  encoding : Z
}.

Definition an_in (s : t) (l : list Z) : bool :=
  existsb (Z.eqb (alignment s)) l.

Definition an_is_left (s : t) : bool := an_in s [1; 4; 7]%Z.
Definition an_is_center (s : t) : bool := an_in s [2; 5; 8]%Z.
Definition an_is_right (s : t) : bool := an_in s [3; 6; 9]%Z.
Definition an_is_top (s : t) : bool := an_in s [7; 8; 9]%Z.
Definition an_is_middle (s : t) : bool := an_in s [4; 5; 6]%Z.
Definition an_is_bottom (s : t) : bool := an_in s [1; 2; 3]%Z.

(** [Style.get_default()]: the fields read from the built-in style line
    [Default,Arial,20,...,100,100,0,0,1,2,2,2,10,10,10,1]. *)
Definition get_default : t := {|
  name := "Default"; fontname := "Arial"; fontsize := 20;
  scale_x := 100; scale_y := 100; spacing := 0; angle := 0;
  outline := 2; shadow := 2; alignment := 2;
  margin_l := 10; margin_r := 10; margin_v := 10; encoding := 1
|}.

Definition set_name (s : t) (n : string) : t :=
  mk n (fontname s) (fontsize s) (scale_x s) (scale_y s) (spacing s)
    (angle s) (outline s) (shadow s) (alignment s) (margin_l s) (margin_r s)
    (margin_v s) (encoding s).

(** The three kinds of [src_res] that [resample] distinguishes. *)
Inductive src_res : Type :=
| SrcMeta (m : Meta)
| SrcScriptInfo (si : attrs)
| SrcTuple (res : Z * Z).

(** The first part of [resample]: the source resolution and the final
    value of [scaled_border_and_shadow]. *)
Definition resample_source (src : src_res) (sbas : bool)
  : result (Z * Z * bool) :=
  match src with
  | SrcMeta m =>
      do si <- getattr (script_info m);
      do r <- play_res si;
      do b <- (if sbas then Ok true else scaled_border_and_shadow si);
      Ok (r, b)
  | SrcScriptInfo si =>
      do r <- play_res si;
      do b <- (if sbas then Ok true else scaled_border_and_shadow si);
      Ok (r, b)
  | SrcTuple r => Ok (r, sbas)
  end.

(** [Style.resample] *)
Definition resample (self : t) (src : src_res) (target_res : Z * Z)
  (sbas : bool) : result t :=
  do source <- resample_source src sbas;
  let '(src_res_x, src_res_y, sbas) := source in
  let '(target_res_x, target_res_y) := target_res in
  do scale_width <- PyNum.div (inject_Z target_res_x) (inject_Z src_res_x);
  do scale_height <- PyNum.div (inject_Z target_res_y) (inject_Z src_res_y);
  do old_ar <- PyNum.div (inject_Z src_res_x) (inject_Z src_res_y);
  do new_ar <- PyNum.div (inject_Z target_res_x) (inject_Z target_res_y);
  do delta <- PyNum.div (PyNum.abs (old_ar - new_ar)) new_ar;
  do horizontal_stretch <-
    (if Qltb (1 # 100) delta then PyNum.div new_ar old_ar else Ok 1);
  Ok {|
    name := name self;
    fontname := fontname self;
    fontsize := inject_Z (PyNum.round (fontsize self * scale_height));
    scale_x := scale_x self * horizontal_stretch;
    scale_y := scale_y self;
    spacing := spacing self * scale_width;
    angle := angle self;
    outline := if sbas then PyNum.round5 (outline self * scale_height)
               else outline self;
    shadow := if sbas then PyNum.round5 (shadow self * scale_height)
              else shadow self;
    alignment := alignment self;
    margin_l := PyNum.round (inject_Z (margin_l self) * scale_width);
    margin_r := PyNum.round (inject_Z (margin_r self) * scale_width);
    margin_v := PyNum.round (inject_Z (margin_v self) * scale_height);
    encoding := encoding self
  |}.

End Style.

(** ** The font engine *)

(** The interface of [font.Font] that the layout passes call:
    [text_extents(text)] gives a width and a height, [metrics] the
    ascent, descent, internal and external leading. *)
Record Font : Type := mkFont {
  text_extents : string -> Q * Q;
  metrics : Q * Q * Q * Q
}.

(** ** [_PositionedText] and [_AssText] *)

Record PositionedText : Type := mkPos {
  x : option Q;
  y : option Q;
  left : option Q;
  center : option Q;
  right : option Q;
  top : option Q;
  middle : option Q;
  bottom : option Q
}.

Definition unplaced : PositionedText :=
  mkPos None None None None None None None None.

(** The attributes of [_AssText], shared by lines, words, syllables and
    chars.  Those assigned by every constructor modelled here are plain
    fields; the others may be missing. *)
Record AssText : Type := mkText {
  pos : PositionedText;
  i : nat;
  start_time : PTime.Time;
  end_time : PTime.Time;
  duration : Q;
  text : string;
  style : option Style.t;
  meta : option Meta;
  width : option Q;
  height : option Q;
  ascent : option Q;
  descent : option Q;
  internal_leading : option Q;
  external_leading : option Q
}.

Definition set_pos (a : AssText) (p : PositionedText) : AssText :=
  mkText p (i a) (start_time a) (end_time a) (duration a) (text a) (style a)
    (meta a) (width a) (height a) (ascent a) (descent a) (internal_leading a)
    (external_leading a).

Definition set_text (a : AssText) (t : string) : AssText :=
  mkText (pos a) (i a) (start_time a) (end_time a) (duration a) t (style a)
    (meta a) (width a) (height a) (ascent a) (descent a) (internal_leading a)
    (external_leading a).

Definition set_style_meta (a : AssText) (s : option Style.t) (m : option Meta)
  : AssText :=
  mkText (pos a) (i a) (start_time a) (end_time a) (duration a) (text a) s m
    (width a) (height a) (ascent a) (descent a) (internal_leading a)
    (external_leading a).

Definition set_size (a : AssText) (w h : Q) : AssText :=
  mkText (pos a) (i a) (start_time a) (end_time a) (duration a) (text a)
    (style a) (meta a) (Some w) (Some h) (ascent a) (descent a)
    (internal_leading a) (external_leading a).

(** [a.width, a.height = font.text_extents(a.text)] followed by the
    assignment of the four [font.metrics]. *)
Definition measure (font : Font) (a : AssText) : AssText :=
  let wh := text_extents font (text a) in
  let m := metrics font in
  mkText (pos a) (i a) (start_time a) (end_time a) (duration a) (text a)
    (style a) (meta a) (Some (fst wh)) (Some (snd wh))
    (Some (fst (fst (fst m)))) (Some (snd (fst (fst m)))) (Some (snd (fst m)))
    (Some (snd m)).

(** Assigning [left], [center], [right] and [x]. *)
Definition place_h (a : AssText) (l c r x : Q) : AssText :=
  let p := pos a in
  set_pos a (mkPos (Some x) (y p) (Some l) (Some c) (Some r)
                   (top p) (middle p) (bottom p)).

(** Assigning [top], [middle], [bottom] and [y]. *)
Definition place_v (a : AssText) (t m b y : Q) : AssText :=
  let p := pos a in
  set_pos a (mkPos (x p) (Some y) (left p) (center p) (right p)
                   (Some t) (Some m) (Some b)).

(** Single assignments of position attributes. *)
Definition set_x (a : AssText) (q : Q) : AssText :=
  let p := pos a in
  set_pos a (mkPos (Some q) (y p) (left p) (center p) (right p)
                   (top p) (middle p) (bottom p)).

Definition set_left (a : AssText) (q : Q) : AssText :=
  let p := pos a in
  set_pos a (mkPos (x p) (y p) (Some q) (center p) (right p)
                   (top p) (middle p) (bottom p)).

Definition set_center (a : AssText) (q : Q) : AssText :=
  let p := pos a in
  set_pos a (mkPos (x p) (y p) (left p) (Some q) (right p)
                   (top p) (middle p) (bottom p)).

Definition set_right (a : AssText) (q : Q) : AssText :=
  let p := pos a in
  set_pos a (mkPos (x p) (y p) (left p) (center p) (Some q)
                   (top p) (middle p) (bottom p)).

(** Assigning [top], [middle] and [bottom]. *)
Definition set_tmb (a : AssText) (t m b : Q) : AssText :=
  let p := pos a in
  set_pos a (mkPos (x p) (y p) (left p) (center p) (right p)
                   (Some t) (Some m) (Some b)).

(** Assigning [left], [center] and [right]. *)
Definition set_lcr (a : AssText) (l c r : Q) : AssText :=
  let p := pos a in
  set_pos a (mkPos (x p) (y p) (Some l) (Some c) (Some r)
                   (top p) (middle p) (bottom p)).

(** A freshly built text object: [cls()] followed by the assignments of
    index, times and text. *)
Definition new_text (i : nat) (st et : PTime.Time) (d : Q) (t : string)
  : AssText :=
  mkText unplaced i st et d t None None None None None None None None.

(** [except AttributeError: return None] around a block of reads. *)
Definition try_attrs {A} (c : result A) : result (option A) :=
  match c with
  | Ok a => Ok (Some a)
  | Raise AttributeError => Ok None
  | Raise e => Raise e
  end.

(** [meta.script_info.play_res_x], [meta.script_info.play_res_y] *)
Definition meta_play_res (m : option Meta) : result (Z * Z) :=
  do m <- getattr m;
  do si <- getattr (script_info m);
  play_res si.

(** ** [Word], [Syllable] and [Char] *)

Module Unit.

Inductive class : Set := Word | Syllable | Char.

Record t : Type := mk {
  cls : class;
  base : AssText;
  prespace : option nat;
  postspace : option nat;
  word_i : option nat;
  inline_fx : option (list string);
  tags : option (list string);
  syl_i : option nat;
  syl_char_i : option nat
}.

Definition set_base (u : t) (a : AssText) : t :=
  mk (cls u) a (prespace u) (postspace u) (word_i u) (inline_fx u) (tags u)
     (syl_i u) (syl_char_i u).

Definition map_base (f : AssText -> AssText) (u : t) : t :=
  set_base u (f (base u)).

End Unit.

(** [max(f(u) for u in l)], which raises on an empty sequence. *)
Definition max_of (l : list Q) : result Q :=
  match l with
  | [] => Raise ValueError
  | q :: l' => Ok (fold_left (fun m v => if Qltb m v then v else m) l' q)
  end.

(** [sum((f(u) for u in l), 0.)] *)
Definition sum_of (l : list Q) : Q := fold_left Qplus l 0.

(** An [OrderedSet] as the list of its elements; [s.add(v)]. *)
Definition set_add (v : string) (s : list string) : list string :=
  if mem v s then s else s ++ [v].

(** ** [Line] *)

Module Line.

Record t : Type := mk {
  base : AssText;
  comment : bool;
  layer : Z;
  leadin : option Q;
  leadout : option Q;
  actor : string;
  margin_l : Z;
  margin_r : Z;
  margin_v : Z;
  effect : string;
  raw_text : string;
  words : option (list Unit.t);
  syls : option (list Unit.t);
  chars : option (list Unit.t)
}.

Definition set_base (l : t) (a : AssText) : t :=
  mk a (comment l) (layer l) (leadin l) (leadout l) (actor l) (margin_l l)
     (margin_r l) (margin_v l) (effect l) (raw_text l) (words l) (syls l)
     (chars l).

Definition set_words (l : t) (ws : list Unit.t) : t :=
  mk (base l) (comment l) (layer l) (leadin l) (leadout l) (actor l)
     (margin_l l) (margin_r l) (margin_v l) (effect l) (raw_text l) (Some ws)
     (syls l) (chars l).

Definition set_syls (l : t) (ss : list Unit.t) : t :=
  mk (base l) (comment l) (layer l) (leadin l) (leadout l) (actor l)
     (margin_l l) (margin_r l) (margin_v l) (effect l) (raw_text l) (words l)
     (Some ss) (chars l).

Definition set_chars (l : t) (cs : list Unit.t) : t :=
  mk (base l) (comment l) (layer l) (leadin l) (leadout l) (actor l)
     (margin_l l) (margin_r l) (margin_v l) (effect l) (raw_text l) (words l)
     (syls l) (Some cs).

Definition set_leads (l : t) (lin lout : Q) : t :=
  mk (base l) (comment l) (layer l) (Some lin) (Some lout) (actor l)
     (margin_l l) (margin_r l) (margin_v l) (effect l) (raw_text l) (words l)
     (syls l) (chars l).

(** Reads of the position attributes of the line. *)
Definition get_left (l : t) : result Q := getattr (left (pos (base l))).
Definition get_center (l : t) : result Q := getattr (center (pos (base l))).
Definition get_right (l : t) : result Q := getattr (right (pos (base l))).
Definition get_top (l : t) : result Q := getattr (top (pos (base l))).
Definition get_middle (l : t) : result Q := getattr (middle (pos (base l))).
Definition get_bottom (l : t) : result Q := getattr (bottom (pos (base l))).
Definition get_y (l : t) : result Q := getattr (y (pos (base l))).

(** *** [Line.from_text] *)

(** The line pattern: group 1 is [Dialogue] or [Comment], then a colon
    and a space, then group 2, a lazy run of at least one character up
    to the end. *)
Definition line_pattern : Re.regex :=
  Re.Seq (Re.Group "1" (Re.Alt (Re.Lit (PyStr.chars "Dialogue"))
                               (Re.Lit (PyStr.chars "Comment"))))
    (Re.Seq (Re.Lit (PyStr.chars ": "))
      (Re.Seq (Re.Group "2" (Re.Plus false Re.Dot)) Re.Eol)).

(** [linesplit[n]] *)
Definition field (linesplit : list (list ascii)) (n : nat) : result string :=
  match nth_error linesplit n with
  | Some f => Ok (PyStr.str f)
  | None => Raise IndexError
  end.

(** [int(s)] *)
Definition int (s : string) : result Z :=
  match PyStr.int_of (PyStr.chars s) with
  | Some z => Ok z
  | None => Raise ValueError
  end.

(** [_styles_to_map]: a later style of the same name replaces an
    earlier one.  The [lru_cache] that the code puts in front of it is
    keyed on the style objects; the embedding has values and no object
    identity, and builds the map at each call, which is what the cache
    returns as long as no style is renamed in place between two
    calls. *)
Definition styles_to_map (styles : list Style.t) : gmap string Style.t :=
  fold_left (fun m s => <[Style.name s := s]> m) styles ∅.

(** The style of a line: the named one, else a copy of [Default] (or of
    the built-in default) renamed. *)
Definition resolve_style (styles : list Style.t) (sname : string) : Style.t :=
  match styles_to_map styles !! sname with
  | Some s => s
  | None =>
      Style.set_name
        (match styles_to_map styles !! "Default" with
         | Some d => d
         | None => Style.get_default
         end) sname
  end.

Section FromText.

(** [Time.from_assts(ts, fps, is_start)] of [ptime.py], used only when
    timestamps are fixed; it is not part of the sources at hand. *)
Variable from_assts : string -> Q -> bool -> result PTime.Time.

Definition from_text (text : string) (i : nat) (fps : Q)
  (meta : option Meta) (styles : list Style.t) (fix_timestamps : bool)
  : result t :=
  match Re.re_match false line_pattern (PyStr.chars text) with
  | None => Raise MatchNotFoundError
  | Some anal_line =>
      let comment := String.eqb (PyStr.str (Re.group anal_line "1")) "Comment" in
      let linesplit := PyStr.split [","%char] (Re.group anal_line "2") in
      do layer <- (do f <- field linesplit 0; int f);
      do start_time <-
        (do f <- field linesplit 1;
         if fix_timestamps then from_assts f fps true else PTime.from_ts f);
      do end_time <-
        (do f <- field linesplit 2;
         if fix_timestamps then from_assts f fps false else PTime.from_ts f);
      let duration := PTime.sub end_time start_time in
      do actor <- field linesplit 4;
      do margin_l <- (do f <- field linesplit 5; int f);
      do margin_r <- (do f <- field linesplit 6; int f);
      do margin_v <- (do f <- field linesplit 7; int f);
      do effect <- field linesplit 8;
      let raw_text := PyStr.str (PyStr.join [","%char] (skipn 9 linesplit)) in
      do style <-
        (match styles with
         | [] => Ok None
         | _ => do sname <- field linesplit 3;
                Ok (Some (resolve_style styles sname))
         end);
      Ok (mk (set_style_meta (new_text i start_time end_time duration raw_text)
                style meta)
             comment layer None None actor margin_l margin_r margin_v effect
             raw_text None None None)
  end.

End FromText.

(** *** [Line.add_data] *)

(** A tag block: an opening brace, a lazy run of characters, a closing
    brace. *)
Definition tag_block : Re.regex :=
  Re.Seq (Re.Lit1 "{") (Re.Seq (Re.Star false Re.Dot) (Re.Lit1 "}")).

Definition strip_tags (raw : string) : string :=
  PyStr.str (Re.sub false tag_block [] (PyStr.chars raw)).

(** The reads of the [try] block shared by [add_data] and [add_words]. *)
Definition layout_context (self : t) : result (Z * Z * Style.t) :=
  do res <- meta_play_res (meta (base self));
  do style <- getattr (style (base self));
  Ok (res, style).

(** [self.margin_x if self.margin_x != 0 else style.margin_x] *)
Definition effective (line_margin style_margin : Z) : Z :=
  if (line_margin =? 0)%Z then style_margin else line_margin.

Definition add_data (font : Font) (self : t) : result t :=
  let a := measure font (set_text (base self) (strip_tags (raw_text self))) in
  do ctx <- try_attrs (layout_context (set_base self a));
  match ctx, width a, height a with
  | Some (play_res_x, play_res_y, style), Some width, Some height =>
      let margin_l := inject_Z (effective (margin_l self) (Style.margin_l style)) in
      let margin_r := inject_Z (effective (margin_r self) (Style.margin_r style)) in
      let margin_v := inject_Z (effective (margin_v self) (Style.margin_v style)) in
      let left :=
        if Style.an_is_left style then margin_l
        else if Style.an_is_center style then
          inject_Z play_res_x / 2 - width / 2 + margin_l / 2 - margin_r / 2
        else inject_Z play_res_x - margin_r - width in
      let center := left + width / 2 in
      let right := left + width in
      let x :=
        if Style.an_is_left style then left
        else if Style.an_is_center style then center
        else right in
      let top :=
        if Style.an_is_top style then margin_v
        else if Style.an_is_middle style then
          inject_Z play_res_y / 2 - height / 2
        else inject_Z play_res_y - margin_v - height in
      let middle := top + height / 2 in
      let bottom := top + height in
      let y :=
        if Style.an_is_top style then top
        else if Style.an_is_middle style then middle
        else bottom in
      Ok (set_base self
            (place_v (place_h a left center right x) top middle bottom y))
  | _, _, _ => Ok (set_base self a)
  end.

(** *** Helpers of the layout passes *)

Definition qnat (n : nat) : Q := inject_Z (Z.of_nat n).

Definition u_width (u : Unit.t) : result Q := getattr (width (Unit.base u)).
Definition u_height (u : Unit.t) : result Q := getattr (height (Unit.base u)).
Definition u_prespace (u : Unit.t) : result nat := getattr (Unit.prespace u).
Definition u_postspace (u : Unit.t) : result nat := getattr (Unit.postspace u).

(** [for u in l: body] where the body may raise. *)
Fixpoint mapM {A B} (f : A -> result B) (l : list A) : result (list B) :=
  match l with
  | [] => Ok []
  | a :: l' => do b <- f a; do bs <- mapM f l'; Ok (b :: bs)
  end.

(** The [if]/[elif]/[else] choice of [x] in the word and syllable passes. *)
Definition x_of (style : Style.t) (left center right : Q) : Q :=
  if Style.an_is_left style then left
  else if Style.an_is_center style then center
  else right.

(** [u.top = self.top] ... [u.y = self.y] *)
Definition copy_vertical (self : t) (a : AssText) : result AssText :=
  do top <- get_top self;
  do middle <- get_middle self;
  do bottom <- get_bottom self;
  do y <- get_y self;
  Ok (place_v a top middle bottom y).

(** The vertical part of the top-to-bottom passes: the unit is put at
    [cur_y]. *)
Definition stack_v (a : AssText) (cur_y h : Q) : AssText :=
  place_v a cur_y (cur_y + h / 2) (cur_y + h) (cur_y + h / 2).

(** *** [Line.add_words] *)

(** Leading whitespace (group 1), a run of non-space characters
    (group 2), trailing whitespace (group 3), all greedy. *)
Definition word_pattern : Re.regex :=
  Re.Seq (Re.Group "1" (Re.Star true (Re.Chr PyStr.is_space)))
    (Re.Seq (Re.Group "2" (Re.Plus true (Re.Chr (fun c => negb (PyStr.is_space c)))))
            (Re.Group "3" (Re.Star true (Re.Chr PyStr.is_space)))).

Definition new_word (font : Font) (self : t) (wi : nat) (m : Re.rematch)
  : result Unit.t :=
  do meta <- getattr (meta (base self));
  do style <- getattr (style (base self));
  let a := new_text wi (start_time (base self)) (end_time (base self))
             (duration (base self)) (PyStr.str (Re.group m "2")) in
  Ok (Unit.mk Unit.Word
        (measure font (set_style_meta a (Some style) (Some meta)))
        (Some (length (Re.group m "1"))) (Some (length (Re.group m "3")))
        None None None None None).

Fixpoint new_words (font : Font) (self : t) (wi : nat) (ms : list Re.rematch)
  : result (list Unit.t) :=
  match ms with
  | [] => Ok []
  | m :: ms' =>
      do w <- new_word font self wi m;
      do ws <- new_words font self (S wi) ms';
      Ok (w :: ws)
  end.

Fixpoint words_h (self : t) (style : Style.t) (space_width cur_x : Q)
  (ws : list Unit.t) : result (list Unit.t) :=
  match ws with
  | [] => Ok []
  | word :: ws' =>
      do pre <- u_prespace word;
      do post <- u_postspace word;
      do w <- u_width word;
      let cur_x := cur_x + (qnat pre * space_width + Style.spacing style) in
      let left := cur_x in
      let center := left + w / 2 in
      let right := left + w in
      do a <- copy_vertical self
                (place_h (Unit.base word) left center right
                   (x_of style left center right));
      let cur_x :=
        cur_x + (w + qnat post * (space_width + Style.spacing style)
                 + Style.spacing style) in
      do rest <- words_h self style space_width cur_x ws';
      Ok (Unit.set_base word a :: rest)
  end.

Fixpoint words_v (self : t) (style : Style.t) (play_res_x : Z)
  (max_width cur_y : Q) (ws : list Unit.t) : result (list Unit.t) :=
  match ws with
  | [] => Ok []
  | word :: ws' =>
      do w <- u_width word;
      do h <- u_height word;
      let x_fix := (max_width - w) / 2 in
      do hz <-
        (if (Style.alignment style =? 4)%Z then
           do sl <- get_left self;
           let left := sl + x_fix in Ok (left, left)
         else if (Style.alignment style =? 5)%Z then
           let left := inject_Z play_res_x / 2 - w / 2 in Ok (left, left + w / 2)
         else
           do sr <- get_right self;
           let left := sr - w - x_fix in Ok (left, left + w));
      let '(left, x) := hz in
      let a := stack_v (place_h (Unit.base word) left (left + w / 2) (left + w) x)
                 cur_y h in
      do rest <- words_v self style play_res_x max_width (cur_y + h) ws';
      Ok (Unit.set_base word a :: rest)
  end.

(** The second part of [add_words]: the positions of the words [ws]
    just stored in the line. *)
Definition place_words (font : Font) (self : t) (ws : list Unit.t)
  : result t :=
  do ctx <- try_attrs (layout_context self);
  match ctx with
  | None => Ok self
  | Some (play_res_x, play_res_y, style) =>
      let space_width := fst (text_extents font " ") in
      if Style.an_is_top style || Style.an_is_bottom style then
        do cur_x <- get_left self;
        do ws' <- words_h self style space_width cur_x ws;
        Ok (set_words self ws')
      else
        do ww <- mapM u_width ws;
        do max_width <- max_of ww;
        do hs <- mapM u_height ws;
        let cur_y := inject_Z play_res_y / 2 - sum_of hs / 2 in
        do ws' <- words_v self style play_res_x max_width cur_y ws;
        Ok (set_words self ws')
  end.

Definition add_words (font : Font) (self : t) : result t :=
  do ws <- new_words font self 0
             (Re.finditer false word_pattern (PyStr.chars (text (base self))));
  place_words font (set_words self ws) ws.

(** *** [Line.add_syls] *)

Definition backslash : ascii := ascii_of_nat 92.

(** The karaoke pattern [syldata]: an opening brace, the lazy group
    [pretags], a backslash, [k] or [K], an optional [o] or [f], the
    digits of group [kdur], the group [posttags] of characters other
    than a closing brace, the closing brace, and the group [syltext] of
    characters other than an opening brace. *)
Definition syldata : Re.regex :=
  Re.Seq (Re.Lit1 "{")
  (Re.Seq (Re.Group "pretags" (Re.Star false Re.Dot))
  (Re.Seq (Re.Lit1 backslash)
  (Re.Seq (Re.OneOf (PyStr.chars "kK"))
  (Re.Seq (Re.Opt (Re.OneOf (PyStr.chars "of")))
  (Re.Seq (Re.Group "kdur" (Re.Plus true (Re.Chr PyStr.is_digit)))
  (Re.Seq (Re.Group "posttags" (Re.Star true (Re.NoneOf (PyStr.chars "}"))))
  (Re.Seq (Re.Lit1 "}")
          (Re.Group "syltext" (Re.Star true (Re.NoneOf (PyStr.chars "{")))))))))))%char.

(** The pattern [slash]: two backslashes in a row. *)
Definition slash : Re.regex := Re.Lit [backslash; backslash].

(** The pattern [ppsyl]: leading whitespace (group 1), a lazy run of
    characters, trailing whitespace (group 2), the end. *)
Definition ppsyl : Re.regex :=
  Re.Seq (Re.Group "1" (Re.Star true (Re.Chr PyStr.is_space)))
    (Re.Seq (Re.Star false Re.Dot)
      (Re.Seq (Re.Group "2" (Re.Star true (Re.Chr PyStr.is_space))) Re.Eol)).

(** The text handed to [syldata.finditer]. *)
Definition karaoke_text (raw : string) : list ascii :=
  PyStr.replace (PyStr.chars "{}") []
    (PyStr.replace (backslash :: PyStr.chars "k")
                   (PyStr.chars "}{" ++ backslash :: PyStr.chars "k")
       (PyStr.replace (PyStr.chars "}{") [] (PyStr.chars raw))).

(** [syl.prespace, syl.postspace]; left unassigned when [ppsyl] does not
    match. *)
Definition syl_spaces (syltext : list ascii) : option (nat * nat) :=
  match syltext with
  | [] => Some (0, 0)%nat
  | _ =>
      if PyStr.isspace syltext then Some (0, 0)%nat
      else match Re.re_match false ppsyl syltext with
           | Some m => Some (length (Re.group m "1"), length (Re.group m "2"))
           | None => None
           end
  end.

(** The loop over [pretags] and [posttags] filling [inline_fx] and [tags]. *)
Fixpoint sort_tags (ptags : list (list ascii))
  (fx tags : option (list string)) : option (list string) * option (list string) :=
  match ptags with
  | [] => (fx, tags)
  | ptag :: rest =>
      if PyStr.startswith [backslash; "-"%char] ptag then
        let v := PyStr.str (PyStr.strip_chars [backslash; "-"%char] ptag) in
        sort_tags rest (Some (match fx with Some s => set_add v s | None => [v] end)) tags
      else match ptag with
           | [] => sort_tags rest fx tags
           | _ => let v := PyStr.str ptag in
                  sort_tags rest fx
                    (Some (match tags with Some s => set_add v s | None => [v] end))
           end
  end.

Definition syl_tags (k0 : Re.rematch) : option (list string) * option (list string) :=
  sort_tags
    (flat_map (fun tagspos =>
       Re.re_split false slash
         (PyStr.replace (PyStr.chars "}{") [] (Re.group k0 tagspos)))
       ["pretags"; "posttags"])
    None None.

(** The first loop of [add_syls], over the matches [ks]; [k1] is the
    head of the remaining matches. *)
Fixpoint new_syls (font : Font) (si word_i : nat) (last_time : PTime.Time)
  (ks : list Re.rematch) : result (list Unit.t) :=
  match ks with
  | [] => Ok []
  | k0 :: ks' =>
      let syltext := Re.group k0 "syltext" in
      let spaces := syl_spaces syltext in
      let next_word_i :=
        if PyStr.endswith [" "%char] syltext
           || match ks' with
              | k1 :: _ => PyStr.startswith [" "%char] (Re.group k1 "syltext")
              | [] => false
              end
        then S word_i else word_i in
      do kdur <- int (PyStr.str (Re.group k0 "kdur"));
      let end_time := PTime.add last_time (inject_Z kdur / 100) in
      let a := measure font
                 (new_text si last_time end_time (inject_Z kdur / 100)
                    (PyStr.str syltext)) in
      let '(fx, tags) := syl_tags k0 in
      let syl := Unit.mk Unit.Syllable a (option_map fst spaces)
                   (option_map snd spaces) (Some word_i) fx tags None None in
      do rest <- new_syls font (S si) next_word_i end_time ks';
      Ok (syl :: rest)
  end.

Fixpoint syls_h (self : t) (style : Style.t) (meta : Meta)
  (space_width cur_x : Q) (ss : list Unit.t) : result (list Unit.t) :=
  match ss with
  | [] => Ok []
  | syl :: ss' =>
      do pre <- u_prespace syl;
      let cur_x := cur_x + qnat pre * (space_width + Style.spacing style) in
      do w <- u_width syl;
      let left := cur_x in
      let center := left + w / 2 in
      let right := left + w in
      do post <- u_postspace syl;
      let cur_x :=
        cur_x + (w + qnat post * (space_width + Style.spacing style)
                 + Style.spacing style) in
      do a <- copy_vertical self
                (place_h (set_style_meta (Unit.base syl) (Some style) (Some meta))
                   left center right (x_of style left center right));
      do rest <- syls_h self style meta space_width cur_x ss';
      Ok (Unit.set_base syl a :: rest)
  end.

Fixpoint syls_v (self : t) (style : Style.t) (meta : Meta)
  (max_width cur_y : Q) (ss : list Unit.t) : result (list Unit.t) :=
  match ss with
  | [] => Ok []
  | syl :: ss' =>
      do w <- u_width syl;
      let x_fix := (max_width - w) / 2 in
      do hz <-
        (if (Style.alignment style =? 4)%Z then
           do sl <- get_left self;
           let left := sl + x_fix in Ok (left, left)
         else if (Style.alignment style =? 5)%Z then
           do sc <- get_center self;
           let left := sc - w / 2 in Ok (left, left + w / 2)
         else
           do sr <- get_right self;
           let left := sr - w - x_fix in Ok (left, left + w));
      let '(left, x) := hz in
      do h <- u_height syl;
      let a := stack_v
                 (place_h (set_style_meta (Unit.base syl) (Some style) (Some meta))
                    left (left + w / 2) (left + w) x)
                 cur_y h in
      do rest <- syls_v self style meta max_width (cur_y + h) ss';
      Ok (Unit.set_base syl a :: rest)
  end.

(** The second part of [add_syls]: the positions of the syllables [ss]
    just stored in the line. *)
Definition place_syls (font : Font) (vertical_kanji : bool) (self : t)
  (ss : list Unit.t) : result t :=
  do ctx <- try_attrs (do style <- getattr (style (base self));
                       do meta <- getattr (meta (base self));
                       Ok (style, meta));
  match ctx with
  | None => Ok self
  | Some (style, meta) =>
      let space_width := fst (text_extents font " ") in
      if Style.an_is_top style || Style.an_is_bottom style || negb vertical_kanji
      then
        do cur_x <- get_left self;
        do ss' <- syls_h self style meta space_width cur_x ss;
        Ok (set_syls self ss')
      else if vertical_kanji then
        do ww <- mapM u_width ss;
        do max_width <- max_of ww;
        do hs <- mapM u_height ss;
        do si <- getattr (script_info meta);
        do play_res_y <- int_attr si "play_res_y";
        let cur_y := inject_Z play_res_y / 2 - sum_of hs / 2 in
        do ss' <- syls_v self style meta max_width cur_y ss;
        Ok (set_syls self ss')
      else Ok self
  end.

Definition add_syls (font : Font) (vertical_kanji : bool) (self : t)
  : result t :=
  do ss <- new_syls font 0 0 (PTime.of_number 0)
             (Re.finditer false syldata (karaoke_text (raw_text self)));
  place_syls font vertical_kanji (set_syls self ss) ss.

(** *** [Line.add_chars] *)

(** [int(s.isspace())] for a neighbour that is one character or the
    empty fill value. *)
Definition space_flag (c : option ascii) : nat :=
  match c with
  | Some c => if PyStr.is_space c then 1 else 0
  | None => 0
  end.

(** The inner loop of the first part of [add_chars], over the characters
    of [el_text]: [prev] is the character before, [ci] the position in
    [el_text], [char_index] the running index. *)
Fixpoint new_chars (font : Font) (self : t) (el : Unit.t)
  (char_index ci : nat) (prev : option ascii) (el_text : list ascii)
  : result (list Unit.t) :=
  match el_text with
  | [] => Ok []
  | c :: tl =>
      do meta <- getattr (meta (base self));
      do style <- getattr (style (base self));
      let a := new_text char_index (start_time (Unit.base el))
                 (end_time (Unit.base el)) (duration (Unit.base el))
                 (String c "") in
      let a := measure font (set_style_meta a (Some style) (Some meta)) in
      let ch :=
        match Unit.cls el with
        | Unit.Syllable =>
            Unit.mk Unit.Char a (Some (space_flag prev))
              (Some (space_flag (head tl))) (Unit.word_i el) None None
              (Some (i (Unit.base el))) (Some ci)
        | _ =>
            Unit.mk Unit.Char a (Some (space_flag prev))
              (Some (space_flag (head tl))) (Some (i (Unit.base el))) None None
              None None
        end in
      do rest <- new_chars font self el (S char_index) (S ci) (Some c) tl;
      Ok (ch :: rest)
  end.

(** The outer loop: [char_index] restarts from the position of each
    element, as the [enumerate] rebinds it. *)
Fixpoint chars_of (font : Font) (self : t) (char_index : nat)
  (els : list Unit.t) : result (list Unit.t) :=
  match els with
  | [] => Ok []
  | el :: els' =>
      do pre <- u_prespace el;
      do post <- u_postspace el;
      let el_text := PyStr.times " " pre ++ PyStr.chars (text (Unit.base el))
                     ++ PyStr.times " " post in
      do cs <- new_chars font self el char_index 0 None el_text;
      do rest <- chars_of font self (S char_index) els';
      Ok (cs ++ rest)
  end.

(** The left-to-right pass over the chars.  The choice of [x] is an
    [if] followed by a separate [if]/[else]. *)
Fixpoint chars_h (self : t) (style : Style.t) (cur_x : Q)
  (cs : list Unit.t) : result (list Unit.t) :=
  match cs with
  | [] => Ok []
  | char :: cs' =>
      do w <- u_width char;
      let left := cur_x in
      let center := left + w / 2 in
      let right := left + w in
      let a := set_lcr (Unit.base char) left center right in
      let a := if Style.an_is_left style then set_x a left else a in
      let a := if Style.an_is_center style then set_x a center
               else set_x a right in
      let cur_x := cur_x + (w + Style.spacing style) in
      do a <- copy_vertical self a;
      do rest <- chars_h self style cur_x cs';
      Ok (Unit.set_base char a :: rest)
  end.

(** The back-propagation of the block bounds onto the line in the
    top-to-bottom pass. *)
Definition fix_line (self : t) (style : Style.t) (play_res_y : Z)
  (max_width sum_height cur_y : Q) : result t :=
  let a := set_size
             (set_tmb (base self) cur_y (inject_Z play_res_y / 2)
                (cur_y + sum_height))
             max_width sum_height in
  if (Style.alignment style =? 4)%Z then
    do sl <- get_left self;
    Ok (set_base self
          (set_right (set_center a (sl + max_width / 2)) (sl + max_width)))
  else if (Style.alignment style =? 5)%Z then
    do sc <- get_center self;
    let left := sc - max_width / 2 in
    Ok (set_base self (set_right (set_left a left) (left + max_width)))
  else
    do sr <- get_right self;
    let left := sr - max_width in
    Ok (set_base self (set_center (set_left a left) (left + max_width / 2))).

Fixpoint chars_v (self : t) (style : Style.t) (si : attrs)
  (max_width cur_y : Q) (cs : list Unit.t) : result (list Unit.t) :=
  match cs with
  | [] => Ok []
  | char :: cs' =>
      do w <- u_width char;
      let x_fix := (max_width - w) / 2 in
      do hz <-
        (if (Style.alignment style =? 4)%Z then
           do sl <- get_left self;
           let left := sl + x_fix in Ok (left, left)
         else if (Style.alignment style =? 5)%Z then
           do play_res_x <- int_attr si "play_res_x";
           let left := inject_Z play_res_x / 2 - w / 2 in Ok (left, left + w / 2)
         else
           do sr <- get_right self;
           let left := sr - w - x_fix in Ok (left, left + w));
      let '(left, x) := hz in
      do h <- u_height char;
      let a := stack_v (place_h (Unit.base char) left (left + w / 2) (left + w) x)
                 cur_y h in
      do rest <- chars_v self style si max_width (cur_y + h) cs';
      Ok (Unit.set_base char a :: rest)
  end.

(** The second part of [add_chars]: the positions of the chars [cs]
    just stored in the line. *)
Definition place_chars (vertical_kanji : bool) (self : t) (cs : list Unit.t)
  : result t :=
  do ctx <- try_attrs (do meta <- getattr (meta (base self));
                       do style <- getattr (style (base self));
                       Ok (meta, style));
  match ctx with
  | None => Ok self
  | Some (meta, style) =>
      if Style.an_is_top style || Style.an_is_bottom style
         || negb vertical_kanji
      then
        do cur_x <- get_left self;
        do cs' <- chars_h self style cur_x cs;
        Ok (set_chars self cs')
      else
        do ww <- mapM u_width cs;
        do max_width <- max_of ww;
        do hs <- mapM u_height cs;
        let sum_height := sum_of hs in
        do si <- getattr (script_info meta);
        do play_res_y <- int_attr si "play_res_y";
        let cur_y := inject_Z play_res_y / 2 - sum_height / 2 in
        do self <- fix_line self style play_res_y max_width sum_height cur_y;
        do cs' <- chars_v self style si max_width cur_y cs;
        Ok (set_chars self cs')
  end.

Definition add_chars (font : Font) (vertical_kanji : bool) (self : t)
  : result t :=
  let self := set_chars self [] in
  do ss <- getattr (syls self);
  do ws <- (match ss with [] => getattr (words self) | _ => Ok [] end);
  match ss, ws with
  | [], [] => Ok self
  | _, _ =>
      let words_or_syls := match ss with [] => ws | _ => ss end in
      do cs <- chars_of font self 0 words_or_syls;
      place_chars vertical_kanji (set_chars self cs) cs
  end.

End Line.

(** ** [_DataCore.__eq__]: equality of the attribute dictionaries *)

Module Eq.

Definition opt {A} (eqb : A -> A -> bool) (a b : option A) : bool :=
  match a, b with
  | Some u, Some v => eqb u v
  | None, None => true
  | _, _ => false
  end.

Fixpoint seq {A} (eqb : A -> A -> bool) (a b : list A) : bool :=
  match a, b with
  | [], [] => true
  | u :: a', v :: b' => eqb u v && seq eqb a' b'
  | _, _ => false
  end.

(** An int and a float that denote the same number are equal. *)
Definition val (a b : value) : bool :=
  match a, b with
  | VStr u, VStr v => String.eqb u v
  | VInt u, VInt v => (u =? v)%Z
  | VFloat u, VFloat v => PyNum.float_eqb u v
  | VInt u, VFloat v | VFloat v, VInt u =>
      PyNum.float_eqb (PyNum.Finite (inject_Z u)) v
  | VAssBool u, VAssBool v => Bool.eqb u v
  | _, _ => false
  end.

Definition included (a b : attrs) : bool :=
  forallb (fun kv => opt val (Some (snd kv)) (b !! fst kv)) (map_to_list a).

Definition obj (a b : attrs) : bool := included a b && included b a.

Definition meta (a b : Meta) : bool :=
  opt obj (script_info a) (script_info b)
  && opt obj (project_garbage a) (project_garbage b)
  && opt Qeq_bool (fps a) (fps b).

Definition style (a b : Style.t) : bool :=
  String.eqb (Style.name a) (Style.name b)
  && String.eqb (Style.fontname a) (Style.fontname b)
  && Qeq_bool (Style.fontsize a) (Style.fontsize b)
  && Qeq_bool (Style.scale_x a) (Style.scale_x b)
  && Qeq_bool (Style.scale_y a) (Style.scale_y b)
  && Qeq_bool (Style.spacing a) (Style.spacing b)
  && Qeq_bool (Style.angle a) (Style.angle b)
  && Qeq_bool (Style.outline a) (Style.outline b)
  && Qeq_bool (Style.shadow a) (Style.shadow b)
  && (Style.alignment a =? Style.alignment b)%Z
  && (Style.margin_l a =? Style.margin_l b)%Z
  && (Style.margin_r a =? Style.margin_r b)%Z
  && (Style.margin_v a =? Style.margin_v b)%Z
  && (Style.encoding a =? Style.encoding b)%Z.

Definition position (a b : PositionedText) : bool :=
  opt Qeq_bool (x a) (x b) && opt Qeq_bool (y a) (y b)
  && opt Qeq_bool (left a) (left b) && opt Qeq_bool (center a) (center b)
  && opt Qeq_bool (right a) (right b) && opt Qeq_bool (top a) (top b)
  && opt Qeq_bool (middle a) (middle b) && opt Qeq_bool (bottom a) (bottom b).

Definition ass_text (a b : AssText) : bool :=
  position (pos a) (pos b)
  && (i a =? i b)%nat
  && Qeq_bool (start_time a) (start_time b)
  && Qeq_bool (end_time a) (end_time b)
  && Qeq_bool (duration a) (duration b)
  && String.eqb (text a) (text b)
  && opt style (Core.style a) (Core.style b)
  && opt meta (Core.meta a) (Core.meta b)
  && opt Qeq_bool (width a) (width b)
  && opt Qeq_bool (height a) (height b)
  && opt Qeq_bool (ascent a) (ascent b)
  && opt Qeq_bool (descent a) (descent b)
  && opt Qeq_bool (internal_leading a) (internal_leading b)
  && opt Qeq_bool (external_leading a) (external_leading b).

Definition class (a b : Unit.class) : bool :=
  match a, b with
  | Unit.Word, Unit.Word | Unit.Syllable, Unit.Syllable
  | Unit.Char, Unit.Char => true
  | _, _ => false
  end.

(** Equality of two words, syllables or chars. *)
Definition unit (a b : Unit.t) : bool :=
  class (Unit.cls a) (Unit.cls b)
  && ass_text (Unit.base a) (Unit.base b)
  && opt Nat.eqb (Unit.prespace a) (Unit.prespace b)
  && opt Nat.eqb (Unit.postspace a) (Unit.postspace b)
  && opt Nat.eqb (Unit.word_i a) (Unit.word_i b)
  && opt (seq String.eqb) (Unit.inline_fx a) (Unit.inline_fx b)
  && opt (seq String.eqb) (Unit.tags a) (Unit.tags b)
  && opt Nat.eqb (Unit.syl_i a) (Unit.syl_i b)
  && opt Nat.eqb (Unit.syl_char_i a) (Unit.syl_char_i b).

End Eq.

(** ** [PList] *)

Module PList.

Section Elements.

(** The elements: any class of text objects, with its [==], its [text]
    and its [duration]. *)
Context {A : Type}.
Variable py_eq : A -> A -> bool.
Variable text_of : A -> string.
Variable duration_of : A -> Q.

(** [x.text.strip() != '' and x.duration > 0] *)
Definition nonempty (x : A) : bool :=
  negb (String.eqb (PyStr.str (PyStr.strip (PyStr.chars (text_of x)))) "")
  && Qltb 0 (duration_of x).

(** [data.remove(x)]: the first element equal to [x] goes; [ValueError]
    when there is none. *)
Fixpoint remove (x : A) (data : list A) : result (list A) :=
  match data with
  | [] => Raise ValueError
  | y :: data' =>
      if py_eq y x then Ok data'
      else do r <- remove x data'; Ok (y :: r)
  end.

(** The [for] loop of [strip_empty] over the list it is mutating: the
    iterator holds an index [i] and stops when [i] is past the end of
    the list as it is at that moment. *)
Fixpoint strip_loop (fuel i : nat) (data : list A) : result (list A) :=
  match fuel with
  | O => Ok data
  | S fuel' =>
      match nth_error data i with
      | None => Ok data
      | Some x =>
          if nonempty x then strip_loop fuel' (S i) data
          else do data' <- remove x data; strip_loop fuel' (S i) data'
      end
  end.

(** The loop run to its end: it makes at most [length data] steps. *)
Definition strip_data (data : list A) : result (list A) :=
  strip_loop (length data) 0 data.

(** The store of list objects: the [data] list of each [PList]. *)
Abbreviation store := (gmap positive (list A)).

(** A new [PList] holding a copy of [data]. *)
Definition alloc (h : store) (data : list A) : positive * store :=
  let l := fresh (dom h) in (l, <[l := data]> h).

(** [self.strip_empty(return_new)].  With [return_new] the loop runs on
    [self.copy()] and a new list built from the result is returned;
    otherwise it runs on [self.data] and nothing is returned. *)
Definition strip_empty (self : positive) (return_new : bool) (h : store)
  : result (option positive * store) :=
  do data <- getattr (h !! self);
  if return_new then
    let '(copy, h) := alloc h data in
    do data' <- strip_data data;
    let h := <[copy := data']> h in
    let '(new, h) := alloc h data' in
    Ok (Some new, h)
  else
    do data' <- strip_data data;
    Ok (None, <[self := data']> h).

End Elements.

End PList.

(** ** [Ass.__init__]: the extended decomposition and the leads *)

Module Ass.

(** [zip_longest] of three sequences, filled with [None]. *)
Fixpoint zip_longest3 {A} (fuel : nat) (a b c : list (option A))
  : list (option A * option A * option A) :=
  match fuel with
  | O => []
  | S fuel' =>
      match a, b, c with
      | [], [], [] => []
      | _, _, _ =>
          (mjoin (head a), mjoin (head b), mjoin (head c))
          :: zip_longest3 fuel' (tail a) (tail b) (tail c)
      end
  end.

(** [zip_offset(l, l, l, offsets=(-1, 0, 1), longest=True)] *)
Definition zip_offset3 {A} (l : list A)
  : list (option A * option A * option A) :=
  zip_longest3 (S (length l)) (None :: map Some l) (map Some l)
    (map Some (tail l)).

(** [lines_by_styles]: for each style name, in order of first use, the
    lines of that style; a line is referred to by its position in
    [self._lines]. *)
Abbreviation groups := (list (string * list nat)).

(** [lines_by_styles[name].append(line)] *)
Fixpoint append_to (name : string) (line : nat) (g : groups) : groups :=
  match g with
  | [] => [(name, [line])]
  | (n, ls) :: g' =>
      if String.eqb n name then (n, ls ++ [line]) :: g'
      else (n, ls) :: append_to name line g'
  end.

Section Init.

(** [font.get_font] *)
Variable get_font : Style.t -> Font.
Variable vertical_kanji : bool.

(** The loop over [self._lines]: a line without style is passed over,
    any other is recorded under its style name and decomposed. *)
Fixpoint decompose (idx : nat) (lines : list Line.t) (g : groups)
  : result (list Line.t * groups) :=
  match lines with
  | [] => Ok ([], g)
  | line :: lines' =>
      match style (Line.base line) with
      | None =>
          do r <- decompose (S idx) lines' g;
          Ok (line :: fst r, snd r)
      | Some line_style =>
          let g := append_to (Style.name line_style) idx g in
          let font := get_font line_style in
          do line <- Line.add_data font line;
          do line <- Line.add_words font line;
          do line <- Line.add_syls font vertical_kanji line;
          do line <- Line.add_chars font vertical_kanji line;
          do r <- decompose (S idx) lines' g;
          Ok (line :: fst r, snd r)
      end
  end.

(** [1 / float(fps) * round(fps)] *)
Definition default_lead (fps : Q) : result Q :=
  do frame <- PyNum.div 1 fps;
  Ok (frame * inject_Z (PyNum.round fps)).

(** The body of the loop over the triples of one style. *)
Definition set_lead (default : Q) (lines : list Line.t)
  (z : option nat * option nat * option nat) : list Line.t :=
  let '(pre, cur, post) := z in
  match cur with
  | None => lines
  | Some c =>
      match lines !! c with
      | None => lines
      | Some curline =>
          let leadin :=
            match pre ≫= (lines !!.) with
            | None => default
            | Some preline =>
                PTime.sub (start_time (Line.base curline))
                          (end_time (Line.base preline))
            end in
          let leadout :=
            match post ≫= (lines !!.) with
            | None => default
            | Some postline =>
                PTime.sub (start_time (Line.base postline))
                          (end_time (Line.base curline))
            end in
          <[c := Line.set_leads curline leadin leadout]> lines
      end
  end.

Definition add_leads (default : Q) (g : groups) (lines : list Line.t)
  : list Line.t :=
  fold_left (set_lead default) (flat_map (fun ng => zip_offset3 (snd ng)) g)
    lines.

(** The part of [Ass.__init__] that follows the reading of the lines,
    when [extended] is set. *)
Definition init_extended (fps : Q) (lines : list Line.t)
  : result (list Line.t) :=
  do r <- decompose 0 lines [];
  do default <- default_lead fps;
  Ok (add_leads default (snd r) (fst r)).

End Init.

End Ass.

End Core.

(** * [pyonfx/types.py] *)

Module PTypes.

(** What [check] may receive for [val]: a float, a bare int, or an
    iterable of numbers. *)
Inductive pyval : Type :=
| PyFloat (v : Q)
| PyInt (v : Z)
| PyIter (vs : list Q).

(** [class ValueRangeIncInc]: the two bounds stored by [__init__]. *)
Record ValueRangeIncInc : Type := mkRange { x : Q; y : Q }.

(** [self.x < v < self.y] *)
Definition strictly_inside (r : ValueRangeIncInc) (v : Q) : bool :=
  Qltb (x r) v && Qltb v (y r).

(** [for v in val: if not self.x < v < self.y: raise ValueError(...)] *)
Fixpoint check_each (r : ValueRangeIncInc) (vs : list Q) : result unit :=
  match vs with
  | [] => Ok tt
  | v :: vs' =>
      if negb (strictly_inside r v) then Raise ValueError else check_each r vs'
  end.

(** [ValueRangeIncInc.check].  [isinstance(val, float)] is false for a
    bare int, and iterating an int raises [TypeError]. *)
Definition check (r : ValueRangeIncInc) (val : pyval) : result unit :=
  match val with
  | PyFloat v => check_each r [v]
  | PyIter vs => check_each r vs
  | PyInt _ => Raise TypeError
  end.

(** The values the loop of [check] compares against the bounds. *)
Definition checked_values (val : pyval) : list Q :=
  match val with
  | PyFloat v => [v]
  | PyIter vs => vs
  | PyInt _ => []
  end.

(** [Alignment = Annotated[int, ValueRangeIncInc(0, 9)]] *)
Definition Alignment : ValueRangeIncInc := mkRange 0 9.

End PTypes.

(** * [pyonfx/misc.py] *)

Module Misc.

(** [clamp_value(val, min_val, max_val)] *)
Definition clamp_value (val min_val max_val : Q) : Q :=
  if Qltb val min_val then min_val
  else if Qltb max_val val then max_val
  else val.

(** [tuple(islice(niter, size))] called again and again on the one
    iterator [niter], until it gives the empty tuple. *)
Fixpoint chunk_iter {A} (fuel : nat) (niter : list A) (size : nat)
  : list (list A) :=
  match fuel with
  | O => []
  | S fuel' =>
      match firstn size niter with
      | [] => []
      | t => t :: chunk_iter fuel' (skipn size niter) size
      end
  end.

(** [chunk(iterable, size)], read to its end.  [islice] refuses a
    negative [size] with [ValueError] at the first call. *)
Definition chunk {A} (iterable : list A) (size : Z) : result (list (list A)) :=
  if (size <? 0)%Z then Raise ValueError
  else Ok (chunk_iter (S (length iterable)) iterable (Z.to_nat size)).

(** [cround(x)] for a finite double [x]: the sum [x + 0.5] and the
    difference [x - 0.5] are doubles, the nearest ones to the exact
    values, and they do not overflow. *)
Definition cround (x : Q) : Z :=
  if Qltb 0 x then Qfloor (PyNum.nearest (x + (1 # 2)))
  else Qceiling (PyNum.nearest (x - (1 # 2))).

End Misc.

(** * [pyonfx/types.py]: the other range, the named sequence, the deque *)

Module PySeq.

(** [seq[i]] on a tuple, a list or a deque: a negative index counts from
    the end, and an index outside the sequence raises [IndexError]. *)
Definition index {A} (l : list A) (i : Z) : result A :=
  let n := Z.of_nat (length l) in
  let j := if (i <? 0)%Z then (i + n)%Z else i in
  if (0 <=? j)%Z && (j <? n)%Z then
    match nth_error l (Z.to_nat j) with
    | Some a => Ok a
    | None => Raise IndexError
    end
  else Raise IndexError.

(** A [slice] object: each of [start], [stop] and [step] may be [None]. *)
Record slice : Type := mkSlice {
  start : option Z;
  stop : option Z;
  step : option Z
}.

(** [range(a, b)] *)
Definition range (a b : Z) : list Z :=
  map (fun k => (a + Z.of_nat k)%Z) (seq 0 (Z.to_nat (b - a))).

(** Running a fallible function over a list, stopping at the first
    exception. *)
Fixpoint mapM {A B} (f : A -> result B) (l : list A) : result (list B) :=
  match l with
  | [] => Ok []
  | a :: l' => do b <- f a; do bs <- mapM f l'; Ok (b :: bs)
  end.

End PySeq.

Module ValueRangeInclExcl.
Import PTypes.

(** [class ValueRangeInclExcl]: the two bounds stored by [__init__]. *)
Record t : Type := mk { x : Q; y : Q }.

(** [self.x < v <= self.y] *)
Definition inside (r : t) (v : Q) : bool :=
  Qltb (x r) v && Qle_bool v (y r).

(** [for v in val: if not self.x < v <= self.y: raise ValueError(...)] *)
Fixpoint check_each (r : t) (vs : list Q) : result unit :=
  match vs with
  | [] => Ok tt
  | v :: vs' => if negb (inside r v) then Raise ValueError else check_each r vs'
  end.

(** [ValueRangeInclExcl.check] *)
Definition check (r : t) (val : pyval) : result unit :=
  match val with
  | PyFloat v => check_each r [v]
  | PyIter vs => check_each r vs
  | PyInt _ => Raise TypeError
  end.

(** [Nb8bit = Annotated[int, ValueRangeInclExcl(0, 256)]] *)
Definition Nb8bit : t := mk 0 256.

(** [Nb16bit = Annotated[int, ValueRangeInclExcl(0, 65536)]] *)
Definition Nb16bit : t := mk 0 65536.

End ValueRangeInclExcl.

Module NamedMutableSequence.
Import PySeq.

Section Values.

(** The values held by the attributes; Python's [None] is [None]. *)
Context {V : Type}.

(** The class's [__slots__], in order. *)
Variable slots : list string.

(** An instance: the slots assigned so far. *)
Abbreviation obj := (gmap string (option V)).

(** [__init__(self, *args, **kwargs)]: every slot first receives
    [kwargs.get(k)], then the positional arguments are assigned to the
    first slots. *)
Definition init (args : list (option V)) (kwargs : gmap string (option V)) : obj :=
  let self :=
    fold_left (fun (self : obj) k => <[k := default None (kwargs !! k)]> self)
              slots ∅ in
  fold_left (fun (self : obj) kv => <[fst kv := snd kv]> self)
            (combine slots args) self.

(** [self.__getattribute__(self.__slots__[i])] *)
Definition getitem_int (self : obj) (i : Z) : result (option V) :=
  do k <- index slots i;
  getattr (self !! k).

(** [__getitem__] with a slice: the attributes of the slots numbered
    [range(index.start, index.stop)]; [range] refuses [None]. *)
Definition getitem_slice (self : obj) (s : slice) : result (list (option V)) :=
  match start s, stop s with
  | Some a, Some b => mapM (getitem_int self) (range a b)
  | _, _ => Raise TypeError
  end.

(** [__setitem__] *)
Definition setitem (self : obj) (item : Z) (value : option V) : result obj :=
  do k <- index slots item;
  Ok (<[k := value]> self).

(** [__len__] *)
Definition len : nat := length slots.

End Values.

End NamedMutableSequence.

Module SliceableDeque.
Import PySeq.

Section Elements.
Context {T : Type}.

(** [deque.rotate(n)]: [n] steps to the right, to the left when [n] is
    negative; nothing on an empty deque. *)
Definition rotate (n : Z) (d : list T) : list T :=
  match d with
  | [] => []
  | _ =>
      let len := length d in
      let k := Z.to_nat (n mod Z.of_nat len) in
      skipn (len - k) d ++ firstn (len - k) d
  end.

(** [_resolve_slice] *)
Definition resolve_bound (len : nat) (dflt : Z) (b : option Z) : Z :=
  match b with
  | None => dflt
  | Some v => if (0 <=? v)%Z then v else (Z.of_nat len + v)%Z
  end.

Definition resolve_slice (d : list T) (s : slice) : Z * Z * option Z :=
  (resolve_bound (length d) 0 (start s),
   resolve_bound (length d) (Z.of_nat (length d)) (stop s),
   step s).

(** [islice(it, 0, n, step)] read to its end: of the first [n]
    elements, the one at hand is yielded when the countdown [skip] is at
    zero, and the countdown then starts again from [step - 1]. *)
Fixpoint islice_from (skip step : nat) (l : list T) : list T :=
  match l with
  | [] => []
  | a :: l' =>
      match skip with
      | O => a :: islice_from (step - 1) step l'
      | S k => islice_from k step l'
      end
  end.

Definition islice (it : list T) (n : nat) (step : nat) : list T :=
  islice_from 0 step (firstn n it).

(** [__getitem__] with a slice, as the exception or the new deque it
    gives, together with the deque itself afterwards.  [islice] refuses
    a negative stop and a step below one with [ValueError] when it is
    built, that is after the first [rotate]. *)
Definition getitem_slice (d : list T) (s : slice) : result (list T) * list T :=
  let '(a, b, st) := resolve_slice d s in
  let d1 := rotate (- a) d in
  if (b - a <? 0)%Z then (Raise ValueError, d1)
  else
    match st with
    | Some k =>
        if (k <? 1)%Z then (Raise ValueError, d1)
        else (Ok (islice d1 (Z.to_nat (b - a)) (Z.to_nat k)), rotate a d1)
    | None => (Ok (islice d1 (Z.to_nat (b - a)) 1), rotate a d1)
    end.

(** [__getitem__] with an index. *)
Definition getitem_int (d : list T) (i : Z) : result T := index d i.

(** One round of the loop of [__delitem__]:
    [self.rotate(- idx + i); self.popleft(); self.rotate(idx - i)]. *)
Definition delete_step (d : list T) (i idx : Z) : result unit * list T :=
  match rotate (- idx + i) d with
  | [] => (Raise IndexError, [])
  | _ :: d1 => (Ok tt, rotate (idx - i) d1)
  end.

Fixpoint delete_loop (d : list T) (i : Z) (idxs : list Z) : result unit * list T :=
  match idxs with
  | [] => (Ok tt, d)
  | idx :: idxs' =>
      match delete_step d i idx with
      | (Ok _, d') => delete_loop d' (i + 1) idxs'
      | (Raise e, d') => (Raise e, d')
      end
  end.

(** [range(a, b, k)] for a step [k] that is not zero. *)
Definition range3 (a b k : Z) : list Z :=
  let n := if (0 <? k)%Z then ((b - a + k - 1) / k)%Z
           else ((a - b - k - 1) / (- k))%Z in
  map (fun j => (a + Z.of_nat j * k)%Z) (seq 0 (Z.to_nat n)).

(** [__delitem__] with a slice: [range(index.start, index.stop,
    index.step)] refuses [None] with [TypeError] and a zero step with
    [ValueError], before the deque is touched. *)
Definition delitem_slice (d : list T) (s : slice) : result unit * list T :=
  match start s, stop s, step s with
  | Some a, Some b, Some k =>
      if (k =? 0)%Z then (Raise ValueError, d)
      else delete_loop d 0 (range3 a b k)
  | _, _, _ => (Raise TypeError, d)
  end.

End Elements.

End SliceableDeque.

(** * [Line.clean_tags] *)

Module LineTags.
Import Core.

(** [Line.clean_tags]: the tag blocks are removed from [raw_text], and
    [text] is made the same. *)
Definition clean_tags (self : Line.t) : Line.t :=
  let raw := Line.strip_tags (Line.raw_text self) in
  Line.mk (set_text (Line.base self) raw) (Line.comment self) (Line.layer self)
    (Line.leadin self) (Line.leadout self) (Line.actor self)
    (Line.margin_l self) (Line.margin_r self) (Line.margin_v self)
    (Line.effect self) raw (Line.words self) (Line.syls self)
    (Line.chars self).

End LineTags.

(** * [Ass.save]: the original events *)

Module Save.
Import PyStr.

Definition cr : ascii := ascii_of_nat 13.

(** The characters at which [str.splitlines] cuts a text: newline,
    vertical tab, form feed, carriage return, the separators 28-30 and
    the next-line character 133. *)
Definition is_linebreak (c : ascii) : bool :=
  existsb (Nat.eqb (code c)) [10; 11; 12; 13; 28; 29; 30; 133]%nat.

(** [s.splitlines()]: the lines without their ends; a carriage return
    followed by a newline is one line end, and a text that ends with a
    line end has no empty last line.  [cur] is the line being read, in
    reverse. *)
Fixpoint splitlines_from (cur : list ascii) (s : list ascii)
  : list (list ascii) :=
  match s with
  | [] => match cur with [] => [] | _ => [rev cur] end
  | c :: tl =>
      if is_linebreak c then
        rev cur ::
          match tl with
          | c' :: tl' =>
              if eqc c cr && eqc c' Re.newline then splitlines_from [] tl'
              else splitlines_from [] tl
          | [] => []
          end
      else splitlines_from (c :: cur) tl
  end.

Definition splitlines (s : list ascii) : list (list ascii) :=
  splitlines_from [] s.

(** [^Dialogue:|Comment:] *)
Definition original_event : Re.regex :=
  Re.Alt (Re.Seq Re.Bol (Re.Lit (chars "Dialogue:")))
         (Re.Lit (chars "Comment:")).

(** [''.join(text.strip().splitlines()[1:])] *)
Definition events_txt (text : list ascii) : list ascii :=
  join [] (tl (splitlines (strip text))).

(** What [save] writes between the [Format:] line of the events and the
    lines added by [add_line]: nothing unless [comment_original] is set
    and the input had an events section, of text [events]; otherwise
    the original events after the substitution, and a newline. *)
Definition write_original (comment_original : bool)
  (events : option (list ascii)) : list ascii :=
  if comment_original then
    match events with
    | None => []
    | Some text =>
        Re.sub true original_event (chars "Comment:") (events_txt text)
        ++ [Re.newline]
    end
  else [].

End Save.

(** * [Ass.__init__]: the lines of the events section *)

Module Load.
Import Core.

Section Events.

Variable from_assts : string -> Q -> bool -> result PTime.Time.
Variables (fps : Q) (meta : option Meta) (styles : list Style.t)
  (fix_timestamps : bool).

(** The loop over the lines of the section: an empty line is passed
    over without taking a number from the counter [n]. *)
Fixpoint read_lines (n : nat) (ltexts : list (list ascii))
  : result (list Line.t) :=
  match ltexts with
  | [] => Ok []
  | ltext :: ltexts' =>
      match ltext with
      | [] => read_lines n ltexts'
      | _ :: _ =>
          do line <- Line.from_text from_assts (PyStr.str ltext) n fps meta
                       styles fix_timestamps;
          do lines <- read_lines (S n) ltexts';
          Ok (line :: lines)
      end
  end.

(** [self._lines] for an events section of text [text]: the first line
    of the stripped text is dropped, whatever it holds. *)
Definition read_events (text : list ascii) : result (list Line.t) :=
  read_lines 0 (tl (Save.splitlines (PyStr.strip text))).

End Events.

End Load.

(** * Sample inputs *)

Module Samples.
Import Core.

(** A font engine giving every character a 10 by 20 box. *)
Definition font0 : Font :=
  mkFont (fun s => (inject_Z (Z.of_nat (String.length s)) * 10, 20))
         (15, 5, 3, 0).

Definition get_font0 (_ : Style.t) : Font := font0.

(** A [Script Info] holding a play resolution of 1920 by 1080. *)
Definition script_info0 : attrs :=
  <["play_res_y" := VInt 1080]> (<["play_res_x" := VInt 1920]> ∅).

Definition fps0 : Q := 24000 # 1001.

Definition meta0 : Meta := mkMeta (Some script_info0) None (Some fps0).

(** A stand-in for [Time.from_assts], never called when timestamps are
    not fixed. *)
Definition no_assts (_ : string) (_ : Q) (_ : bool) : result PTime.Time :=
  Raise ValueError.

Definition bs : string := String Line.backslash "".

(** [Dialogue: 0,0:00:01.00,0:00:03.00,Default,,0,0,0,,{\k50}Hel{\k50}lo] *)
Definition dialogue1 : string :=
  "Dialogue: 0,0:00:01.00,0:00:03.00,Default,,0,0,0,,{" ++ bs ++ "k50}Hel{"
  ++ bs ++ "k50}lo".

(** A line whose first two syllables have no text:
    [{\k10}{\k10}{\k10}a]. *)
Definition dialogue2 : string :=
  "Dialogue: 0,0:00:01.00,0:00:03.00,Default,,0,0,0,,{" ++ bs ++ "k10}{"
  ++ bs ++ "k10}{" ++ bs ++ "k10}a".

(** Reading one line and decomposing it as [Ass.__init__] does. *)
Definition load (ltext : string) (styles : list Style.t) (vertical_kanji : bool)
  : result Line.t :=
  do line <- Line.from_text no_assts ltext 0 fps0 (Some meta0) styles false;
  do line <- Line.add_data font0 line;
  do line <- Line.add_words font0 line;
  do line <- Line.add_syls font0 vertical_kanji line;
  Line.add_chars font0 vertical_kanji line.

(** The syllables of a loaded line. *)
Definition syls_of (r : result Line.t) : list Unit.t :=
  match r with
  | Ok line => default [] (Line.syls line)
  | Raise _ => []
  end.

(** A style with alignment 5 and no margins, and a line of that style
    whose text is ten characters, hence 100 units, wide. *)
Definition style5 : Style.t :=
  Style.mk "Default" "Arial" 20 100 100 0 0 2 2 5 0 0 0 1.

Definition line5 : Line.t :=
  Line.mk (set_style_meta (new_text 0 1 3 2 "HelloWorld") (Some style5)
             (Some meta0))
          false 0 None None "" 0 0 0 "" "HelloWorld" None None None.

(** A left-aligned style (alignment 7), and the first sample line in
    that style before and after [add_chars]. *)
Definition style7 : Style.t :=
  Style.mk "Default" "Arial" 20 100 100 0 0 2 2 7 10 10 10 1.

Definition before_chars7 : Line.t :=
  Eval vm_compute in
    match (do line <- Line.from_text no_assts dialogue1 0 fps0 (Some meta0)
                        [style7] false;
           do line <- Line.add_data font0 line;
           do line <- Line.add_words font0 line;
           Line.add_syls font0 false line) with
    | Ok line => line
    | Raise _ => line5
    end.

Definition after_chars7 : Line.t :=
  Eval vm_compute in
    match Line.add_chars font0 false before_chars7 with
    | Ok line => line
    | Raise _ => line5
    end.

(** The raw text of [dialogue1]. *)
Definition karaoke1 : string := "{" ++ bs ++ "k50}Hel{" ++ bs ++ "k50}lo".

(** [dialogue1] as read by [from_text], then after [add_data] and
    [add_words], then after [add_syls], in the built-in default style. *)
Definition parsed1 : Line.t :=
  Eval vm_compute in
    match Line.from_text no_assts dialogue1 0 fps0 (Some meta0)
            [Style.get_default] false with
    | Ok line => line
    | Raise _ => line5
    end.

Definition before_syls1 : Line.t :=
  Eval vm_compute in
    match (do line <- Line.add_data font0 parsed1; Line.add_words font0 line) with
    | Ok line => line
    | Raise _ => line5
    end.

Definition after_syls1 : Line.t :=
  Eval vm_compute in
    match Line.add_syls font0 false before_syls1 with
    | Ok line => line
    | Raise _ => line5
    end.

(** A document of three lines, the second in another style. *)
Definition style_alt : Style.t :=
  Style.mk "Alt" "Arial" 20 100 100 0 0 2 2 8 10 10 10 1.

Definition dialogue3 : string :=
  "Dialogue: 0,0:00:04.00,0:00:04.50,Alt,,0,0,0,,Hi".

Definition dialogue4 : string :=
  "Dialogue: 0,0:00:05.00,0:00:06.00,Default,,0,0,0,,Bye".

Fixpoint read_lines (n : nat) (ltexts : list string) : list Line.t :=
  match ltexts with
  | [] => []
  | ltext :: rest =>
      match Line.from_text no_assts ltext n fps0 (Some meta0)
              [Style.get_default; style_alt] false with
      | Ok line => line :: read_lines (S n) rest
      | Raise _ => read_lines (S n) rest
      end
  end.

Definition doc_lines : list Line.t :=
  Eval vm_compute in read_lines 0 [dialogue1; dialogue3; dialogue4].

Definition doc_loaded : list Line.t :=
  Eval vm_compute in
    match Ass.init_extended get_font0 false fps0 doc_lines with
    | Ok lines => lines
    | Raise _ => []
    end.

(** A style with a font size of 24. *)
Definition style24 : Style.t :=
  Style.mk "Default" "Arial" 24 100 100 0 0 2 2 2 10 10 10 1.

Definition u_text (u : Unit.t) : string := text (Unit.base u).
Definition u_duration (u : Unit.t) : Q := duration (Unit.base u).

(** The syllables of [dialogue2], normalised so that they can be
    displayed. *)
Definition empty_syls : list Unit.t :=
  Eval vm_compute in syls_of (load dialogue2 [Style.get_default] false).

(** Two lines in the top-left style [style7], whose margins are 10: one
    with no margin of its own, one with the margins 30, 40 and 50. *)
Definition line7 : Line.t :=
  Line.mk (set_style_meta (new_text 0 1 3 2 "HelloWorld") (Some style7)
             (Some meta0))
          false 0 None None "" 0 0 0 "" "HelloWorld" None None None.

Definition line7m : Line.t :=
  Line.mk (set_style_meta (new_text 0 1 3 2 "HelloWorld") (Some style7)
             (Some meta0))
          false 0 None None "" 30 40 50 "" "HelloWorld" None None None.

(** The same two lines in a bottom-right style. *)
Definition style3 : Style.t :=
  Style.mk "Default" "Arial" 20 100 100 0 0 2 2 3 10 10 10 1.

Definition line3 : Line.t :=
  Line.mk (set_style_meta (new_text 0 1 3 2 "HelloWorld") (Some style3)
             (Some meta0))
          false 0 None None "" 0 0 0 "" "HelloWorld" None None None.

Definition line3m : Line.t :=
  Line.mk (set_style_meta (new_text 0 1 3 2 "HelloWorld") (Some style3)
             (Some meta0))
          false 0 None None "" 30 40 50 "" "HelloWorld" None None None.

End Samples.

(** * The properties stated of the program *)

Module PListProps.

Section Elements.
Context {A : Type}.
Variable py_eq : A -> A -> bool.

(** Every element is equal to itself under the elements' [==]. *)
Definition self_equal (data : list A) : Prop :=
  forallb (fun x => py_eq x x) data = true.

End Elements.

End PListProps.

Module CharProps.
Import Core.

(** A char whose [x] is its right edge, the left edge plus the width. *)
Definition x_is_right (c : Unit.t) : Prop :=
  exists l w,
    left (pos (Unit.base c)) = Some l /\
    width (Unit.base c) = Some w /\
    right (pos (Unit.base c)) = Some (l + w) /\
    x (pos (Unit.base c)) = Some (l + w) /\
    (l + w == l -> w == 0).

End CharProps.

Module ResampleProps.
Import Core.

Definition within_one (a b : Q) : Prop := Qabs (a - b) <= 1.

End ResampleProps.

Module ReProps.
Import PyStr Re.

(** A match found at a position. *)
Definition found (ml : bool) (r : regex) (m : rematch) : Prop :=
  exists bef text s1,
    matches ml r (mkState bef text []) s1 /\
    m_groups m = caps s1 /\
    m_text m = consumed (mkState bef text []) s1.

(** Patterns without groups whose characters all satisfy [P]. *)
Fixpoint only (P : ascii -> Prop) (r : regex) : Prop :=
  match r with
  | Chr p => forall c, p c = true -> P c
  | Seq r1 r2 | Alt r1 r2 => only P r1 /\ only P r2
  | Star _ r1 => only P r1
  | Group _ _ => False
  | _ => True
  end.

(** The least number of characters a pattern consumes. *)
Fixpoint minlen (r : regex) : nat :=
  match r with
  | Chr _ => 1
  | Seq r1 r2 => minlen r1 + minlen r2
  | Alt r1 r2 => Nat.min (minlen r1) (minlen r2)
  | Group _ r1 => minlen r1
  | _ => 0
  end.

End ReProps.

Module SylProps.
Import PyStr Re Core ReProps.

Definition u_start (u : Unit.t) : Q := start_time (Unit.base u).

Definition u_end (u : Unit.t) : Q := end_time (Unit.base u).

Definition u_dur (u : Unit.t) : Q := duration (Unit.base u).

(** The syllables follow one another from time [t] on. *)
Fixpoint contiguous_from (t : Q) (ss : list Unit.t) : Prop :=
  match ss with
  | [] => True
  | s :: ss' =>
      u_start s = t /\ u_end s = t + u_dur s /\ 0 <= t /\ 0 <= u_dur s /\
      contiguous_from (u_end s) ss'
  end.

(** Two units with the same times and text. *)
Definition same_timing (a b : Unit.t) : Prop :=
  u_start a = u_start b /\ u_end a = u_end b /\ u_dur a = u_dur b /\
  text (Unit.base a) = text (Unit.base b).

End SylProps.

Module LeadProps.
Import Core.

Definition same_line (a b : Line.t) : Prop :=
  style (Line.base a) = style (Line.base b) /\
  start_time (Line.base a) = start_time (Line.base b) /\
  end_time (Line.base a) = end_time (Line.base b).

Definition style_name (l : Line.t) : option string :=
  option_map Style.name (style (Line.base l)).

(** The positions, counted from [idx], of the lines whose style is named
    [n], in their order. *)
Fixpoint indices_of (n : string) (idx : nat) (lines : list Line.t) : list nat :=
  match lines with
  | [] => []
  | l :: ls =>
      match style_name l with
      | Some m => if String.eqb m n then idx :: indices_of n (S idx) ls
                  else indices_of n (S idx) ls
      | None => indices_of n (S idx) ls
      end
  end.

(** [lines_by_styles[n]], empty when there is no such key. *)
Fixpoint members (n : string) (g : list (string * list nat)) : list nat :=
  match g with
  | [] => []
  | (m, ls) :: g' => if String.eqb m n then ls else members n g'
  end.

(** The triples (previous, current, next) of a list, [prev] standing
    before its head, and a last triple without current element. *)
Fixpoint triples {A} (prev : option A) (l : list A)
  : list (option A * option A * option A) :=
  match l with
  | [] => [(prev, None, None)]
  | a :: l' => (prev, Some a, head l') :: triples (Some a) l'
  end.

Definition cur_of (z : option nat * option nat * option nat) : option nat :=
  snd (fst z).

(** The lead-in and lead-out computed for line [l] from its neighbours
    [pre] and [post] in its style, looked up in [L]. *)
Definition lead_in (d : Q) (L : list Line.t) (pre : option nat) (l : Line.t) : Q :=
  match pre ≫= (L !!.) with
  | None => d
  | Some pl => PTime.sub (start_time (Line.base l)) (end_time (Line.base pl))
  end.

Definition lead_out (d : Q) (L : list Line.t) (post : option nat) (l : Line.t) : Q :=
  match post ≫= (L !!.) with
  | None => d
  | Some nl => PTime.sub (start_time (Line.base nl)) (end_time (Line.base l))
  end.

End LeadProps.

Module GreedyProps.
Import PyStr Re.

(** What a greedy repetition of one character class does: it runs as
    far as the class allows and comes back one character at a time until
    the continuation accepts. *)
Fixpoint greedy (p : ascii -> bool) (k : mstate -> option mstate)
  (bef txt : list ascii) (cs : list (string * list ascii)) : option mstate :=
  match txt with
  | c :: tl =>
      if p c then
        match greedy p k (c :: bef) tl cs with
        | Some r => Some r
        | None => k (mkState bef txt cs)
        end
      else k (mkState bef txt cs)
  | [] => k (mkState bef txt cs)
  end.

(** The run stops where the class stops. *)
Definition stops (p : ascii -> bool) (c : list ascii) : Prop :=
  match c with
  | [] => True
  | x :: _ => p x = false
  end.

End GreedyProps.

Module LineMatchProps.
Import PyStr Re GreedyProps.

Definition nl : ascii := newline.

Definition sep : list ascii := [":"; " "]%char.

Definition dotp (c : ascii) : bool := negb (eqc c nl).

(** [w] occurs somewhere in [s]. *)
Fixpoint contains (w s : list ascii) : bool :=
  startswith w s ||
  match s with
  | [] => false
  | _ :: s' => contains w s'
  end.

(** Text that stays on one line. *)
Definition one_line (s : list ascii) : bool := forallb dotp s.

(** What may follow a line: nothing, or a newline. *)
Definition line_end (tail : list ascii) : Prop :=
  tail = [] \/ exists tl, tail = nl :: tl.

End LineMatchProps.

Module BlockProps.
Import PyStr Re GreedyProps LineMatchProps.

Abbreviation name_value := Core.MetaData.name_value.

(** A block of [key: value] lines, each ended by a newline. *)
Definition line (kv : list ascii * list ascii) : list ascii :=
  fst kv ++ sep ++ snd kv ++ [nl].

Definition block (fs : list (list ascii * list ascii)) : list ascii :=
  concat (map line fs).

(** The groups captured on a line. *)
Definition line_groups (kv : list ascii * list ascii)
  : list (string * list ascii) :=
  [("value", snd kv); ("name", fst kv)].

(** A line the pattern reads back as it was written. *)
Definition readable (kv : list ascii * list ascii) : bool :=
  one_line (fst kv) && one_line (snd kv) && negb (contains sep (snd kv)).

(** The matches found from the result of a search on. *)
Definition scan (fuel : nat) (res : option (rematch * mstate)) : list rematch :=
  match res with
  | None => []
  | Some (m, s1) =>
      m :: fst (finditer_from true name_value fuel
                  (match m_text m with [] => true | _ => false end)
                  (before s1) (rest s1))
  end.

End BlockProps.

Module RoundTripProps.
Import PyStr Core Core.MetaData LineMatchProps BlockProps.

(** The attribute names that [as_text] writes, in the order it writes
    them. *)
Definition publics (cls : MetaDataClass) : list string :=
  List.filter (fun n => negb (is_private n)) (all_slots cls).

(** The slot that holds the public attribute [k]. *)
Definition store_key (cls : MetaDataClass) (k : string) : string :=
  if mem k (slots cls) then k else String "_" k.

(** The annotation [from_text] evaluates for the public attribute [k]. *)
Definition annot_for (cls : MetaDataClass) (k : string) : option annot :=
  match annotation_of (store_key cls k) (annotations cls) with
  | Ok a => if mem k (slots cls) || mem k (slots_ex cls) then Some a else None
  | Raise _ => None
  end.

(** The value [from_text] stores for the field [k: v]. *)
Definition decode (cls : MetaDataClass) (kv : string * string) : option value :=
  match annot_for cls (fst kv) with
  | Some a => match coerce a (snd kv) with Ok x => Some x | Raise _ => None end
  | None => None
  end.

(** A field whose value is on one line, holds no colon-space, and is
    written back by [as_text] exactly as it was read. *)
Definition canonical (cls : MetaDataClass) (kv : string * string) : bool :=
  one_line (chars (snd kv)) && negb (contains sep (chars (snd kv)))
  && match decode cls kv with
     | Some x => String.eqb (render x) (snd kv)
     | None => false
     end.

(** [ks] can be read off [names] from left to right. *)
Fixpoint subseq (ks names : list string) : bool :=
  match ks, names with
  | [], _ => true
  | _ :: _, [] => false
  | k :: ks', n :: ns => if String.eqb k n then subseq ks' ns else subseq ks ns
  end.

Fixpoint nodupb (l : list string) : bool :=
  match l with
  | [] => true
  | x :: l' => negb (mem x l') && nodupb l'
  end.

(** The text of a block: one [Name: Value] line per field, each ended
    by a newline. *)
Definition enc (kv : string * string) : list ascii * list ascii :=
  (key_name (fst kv), chars (snd kv)).

Definition block_text (fields : list (string * string)) : string :=
  str (block (map enc fields)).

(** What the class tables must satisfy for the two directions to
    agree; it holds of [ScriptInfo] and of [ProjectGarbage]. *)
Definition name_ok (cls : MetaDataClass) (n : string) : bool :=
  (mem n (slots cls) || mem n (slots_ex cls)) && negb (is_private n)
  && String.eqb (attr_name (key_name n)) n && one_line (key_name n).

Definition well_formed (cls : MetaDataClass) : bool :=
  forallb (name_ok cls) (publics cls)
  && nodupb (map (store_key cls) (publics cls)).

(** The object after the fields have been stored one after the other. *)
Definition store_all (cls : MetaDataClass) (o : attrs)
  (fields : list (string * string)) : attrs :=
  fold_left (fun o kv =>
    match decode cls kv with
    | Some x => <[store_key cls (fst kv) := x]> o
    | None => o
    end) fields o.

(** What [as_text] writes for the attribute names [names]. *)
Definition emit (cls : MetaDataClass) (o : attrs) (names : list string)
  : list ascii :=
  flat_map (fun name =>
    match getattr_md cls o name with
    | Some v =>
        if is_private name then []
        else key_name name ++ chars ": " ++ chars (render v) ++ [Re.newline]
    | None => []
    end) names.

Definition fields0 : list (string * string) :=
  [("title", "x"); ("script_type", "v4.00+"); ("wrap_style", "0");
   ("scaled_border_and_shadow", "yes"); ("play_res_x", "1920")].

(** Fields of a [ProjectGarbage] with two floats, written as [str]
    writes them. *)
Definition fields_floats : list (string * string) :=
  [("video__a_r__mode", "4"); ("video__a_r__value", "1e-05");
   ("video__zoom__percent", "0.5")].

(** The same small number written without exponent. *)
Definition fields_plain : list (string * string) :=
  [("video__a_r__value", "0.00001")].

(** The text [ScriptType: v4.00+] then [Title: x], one per line. *)
Definition swapped : string :=
  block_text [("script_type", "v4.00+"); ("title", "x")].

End RoundTripProps.

Module StripProps.
Import Core PList.

Section Elements.
Context {A : Type}.
Variable py_eq : A -> A -> bool.
Variable text_of : A -> string.
Variable duration_of : A -> Q.

(** Elements of [data] that are equal under [==] are both empty or
    both not. *)
Definition eq_keeps_emptiness (data : list A) : bool :=
  forallb (fun x =>
    forallb (fun y =>
      implb (py_eq y x)
            (Bool.eqb (nonempty text_of duration_of y)
                      (nonempty text_of duration_of x))) data) data.

(** The same, as a proposition. *)
Definition respects (data : list A) : Prop :=
  forall x y, In x data -> In y data -> py_eq y x = true ->
    nonempty text_of duration_of y = nonempty text_of duration_of x.

(** No empty element comes right after another empty element. *)
Fixpoint no_adjacent_empty (data : list A) : bool :=
  match data with
  | x :: (y :: _) as data' =>
      (nonempty text_of duration_of x || nonempty text_of duration_of y)
      && no_adjacent_empty data'
  | _ => true
  end.

End Elements.

End StripProps.

Module DecodeProps.
Import PyStr Core Core.MetaData LineMatchProps BlockProps RoundTripProps.

(** The slot and the annotation that [from_text] uses for a line whose
    name is [key]; [None] when the name is that of no field. *)
Definition recognised (cls : MetaDataClass) (key : list ascii)
  : option (string * annot) :=
  let k := attr_name key in
  match annot_for cls k with
  | Some a => Some (store_key cls k, a)
  | None => None
  end.

(** The slot and the value that the line [kv] leaves in the object. *)
Definition stored (cls : MetaDataClass) (kv : list ascii * list ascii)
  : option (string * value) :=
  match recognised cls (fst kv) with
  | Some (s, a) =>
      match coerce a (str (snd kv)) with
      | Ok x => Some (s, x)
      | Raise _ => None
      end
  | None => None
  end.

(** The value that the last of the lines naming the slot [s] gives it. *)
Fixpoint last_value (cls : MetaDataClass) (s : string)
  (fs : list (list ascii * list ascii)) : option value :=
  match fs with
  | [] => None
  | kv :: fs' =>
      match last_value cls s fs' with
      | Some x => Some x
      | None =>
          match stored cls kv with
          | Some (s', x) => if String.eqb s' s then Some x else None
          | None => None
          end
      end
  end.


(** Every property of [__slots_ex__] has its underscore field among the
    annotations. *)
Definition annotated (cls : MetaDataClass) : bool :=
  forallb (fun n =>
    match annotation_of (String "_" n) (annotations cls) with
    | Ok _ => true
    | Raise _ => false
    end) (slots_ex cls).

(** Equality of two values, component by component. *)
Definition value_eqb (a b : value) : bool :=
  match a, b with
  | VStr s, VStr t => String.eqb s t
  | VInt m, VInt n => (m =? n)%Z
  | VFloat x, VFloat y => PyNum.same_float x y
  | VAssBool c, VAssBool d => Bool.eqb c d
  | _, _ => false
  end.

(** The fields that [as_text] writes for the object [o], with the text
    of their values, over the attribute names [names]. *)
Definition fields_from (cls : MetaDataClass) (o : attrs) (names : list string)
  : list (string * string) :=
  flat_map (fun n =>
    match o !! store_key cls n with
    | Some x => [(n, render x)]
    | None => []
    end) names.

Definition fields_of (cls : MetaDataClass) (o : attrs) : list (string * string) :=
  fields_from cls o (publics cls).

(** The text of each value of [o] is read back as that very value. *)
Definition decodes_back (cls : MetaDataClass) (o : attrs) : bool :=
  forallb (fun n =>
    match o !! store_key cls n with
    | Some x =>
        match decode cls (n, render x) with
        | Some x' => value_eqb x' x
        | None => false
        end
    | None => true
    end) (publics cls).

(** An object that the text written by [as_text] determines: only
    slots that [as_text] writes are assigned, and their values are
    written on one line, without colon-space, in a text that is read
    back as the same value. *)
Definition encodable (cls : MetaDataClass) (o : attrs) : bool :=
  forallb (canonical cls) (fields_of cls o)
  && decodes_back cls o
  && forallb (fun s => mem s (map (store_key cls) (publics cls)))
             (map fst (map_to_list o)).

(** Sample lines and objects. *)
Definition lines0 : list (list ascii * list ascii) :=
  [(chars "Title", chars "a"); (chars "Foo", chars "1");
   (chars "Title", chars "b"); (chars "Title: x", chars "c");
   (chars "PlayResX", chars "1920")].

Definition decoded0 : attrs :=
  <["play_res_x" := VInt 1920]> (<["title" := VStr "b"]> ∅).



Definition object0 : attrs :=
  <["_scaled_border_and_shadow" := VAssBool true]>
    (<["wrap_style" := VInt 0]> (<["title" := VStr "Default Aegisub file"]> ∅)).

End DecodeProps.

Module CharIndexProps.
Import Core.

(** The text of an element with its spaces written out:
    [" " * el.prespace + el.text + " " * el.postspace]. *)
Definition element_text (el : Unit.t) : list ascii :=
  PyStr.times " " (default 0%nat (Unit.prespace el))
  ++ PyStr.chars (text (Unit.base el))
  ++ PyStr.times " " (default 0%nat (Unit.postspace el)).

(** The indexes given to the chars of the elements [els], the first of
    which has position [k]: those of each element count up from the
    position of the element. *)
Fixpoint index_runs (k : nat) (els : list Unit.t) : list nat :=
  match els with
  | [] => []
  | el :: els' => seq k (length (element_text el)) ++ index_runs (S k) els'
  end.

Definition char_index (c : Unit.t) : nat := i (Unit.base c).
Definition char_text (c : Unit.t) : string := text (Unit.base c).

(** The elements that [add_chars] goes through: the syllables when
    there are some, the words otherwise. *)
Definition words_or_syls (self : Line.t) : list Unit.t :=
  match Line.syls self with
  | Some (s :: ss) => s :: ss
  | _ => default [] (Line.words self)
  end.

End CharIndexProps.

Module WordProps.
Import PyStr Re Core.

(** A character that is not whitespace. *)
Definition nonspace (c : ascii) : bool := negb (is_space c).

Definition is_nil {A} (l : list A) : bool :=
  match l with [] => true | _ => false end.

(** A text cut into words: each word, a run of characters that are not
    whitespace and not empty, comes with the whitespace that follows it,
    which may be missing only after the last word. *)
Fixpoint spaced (ws : list (list ascii * list ascii)) : bool :=
  match ws with
  | [] => true
  | (w, s) :: ws' =>
      negb (is_nil w) && forallb nonspace w && forallb is_space s
      && (is_nil ws' || negb (is_nil s)) && spaced ws'
  end.

(** The text made of the words and of the whitespace after each. *)
Definition flat (ws : list (list ascii * list ascii)) : list ascii :=
  concat (map (fun p => fst p ++ snd p) ws).

(** The groups of the matches of the word pattern: only the first word
    has whitespace before it, [sp]. *)
Fixpoint word_groups (sp : list ascii) (ws : list (list ascii * list ascii))
  : list (list (string * list ascii)) :=
  match ws with
  | [] => []
  | (w, s) :: ws' => [("3", s); ("2", w); ("1", sp)] :: word_groups [] ws'
  end.

(** The spaces counted before each word. *)
Definition prespaces (sp : list ascii) (ws : list (list ascii * list ascii))
  : list (option nat) :=
  match ws with
  | [] => []
  | _ :: ws' => Some (length sp) :: map (fun _ => Some 0%nat) ws'
  end.

(** A line whose text is [ Hello  world ], before and after
    [add_words]. *)
Definition spaced_line : Line.t :=
  Eval vm_compute in
    match (do line <- Line.from_text Samples.no_assts
                        "Dialogue: 0,0:00:01.00,0:00:03.00,Default,,0,0,0,, Hello  world "
                        0 Samples.fps0 (Some Samples.meta0) [Style.get_default] false;
           Line.add_data Samples.font0 line) with
    | Ok line => line
    | Raise _ => Samples.line5
    end.

Definition spaced_line_words : Line.t :=
  Eval vm_compute in
    match Line.add_words Samples.font0 spaced_line with
    | Ok line => line
    | Raise _ => Samples.line5
    end.

End WordProps.

Module LazyProps.
Import PyStr Re.

(** What a lazy repetition of one character class does: it stops as
    soon as the continuation accepts, and otherwise takes one more
    character of the class. *)
Fixpoint lazy (p : ascii -> bool) (k : mstate -> option mstate)
  (bef txt : list ascii) (cs : list (string * list ascii)) : option mstate :=
  match k (mkState bef txt cs) with
  | Some r => Some r
  | None =>
      match txt with
      | c :: tl => if p c then lazy p k (c :: bef) tl cs else None
      | [] => None
      end
  end.

End LazyProps.

Module ParseProps.
Import PyStr Re Core LineMatchProps.

(** Text without a comma. *)
Definition comma_free (s : list ascii) : bool :=
  forallb (fun c => negb (eqc "," c)) s.

(** A field of a line: on one line and without a comma. *)
Definition plain_field (s : list ascii) : bool := one_line s && comma_free s.

(** The [n]-th of the fields [fs], empty when there is none. *)
Definition nth_field (fs : list (list ascii)) (n : nat) : list ascii :=
  nth n fs [].

(** The fields of a sample line, whose text holds a comma. *)
Definition fields1 : list (list ascii) :=
  map chars ["3"; "0:00:01.00"; "0:00:03.00"; "Default"; "me"; "1"; "2"; "4"; "fx"]%string.

Definition text1 : list ascii := chars "Hello, world".

End ParseProps.

Module TagProps.
Import PyStr Re Core LineMatchProps.

(** Text without an opening brace. *)
Definition open_free (s : list ascii) : bool :=
  forallb (fun c => negb (eqc "{" c)) s.

(** Text without a closing brace. *)
Definition close_free (s : list ascii) : bool :=
  forallb (fun c => negb (eqc "}" c)) s.

(** A piece of a raw text: plain text without opening brace, followed
    by a tag block whose inside is on one line and has no closing
    brace. *)
Definition piece_ok (pt : list ascii * list ascii) : bool :=
  open_free (fst pt) && one_line (snd pt) && close_free (snd pt).

(** The raw text made of the pieces, each plain text followed by its
    tag block in braces. *)
Definition tagged (pts : list (list ascii * list ascii)) : list ascii :=
  concat (map (fun pt => fst pt ++ "{"%char :: snd pt ++ ["}"%char]) pts).

(** The plain text of the pieces. *)
Definition plain (pts : list (list ascii * list ascii)) : list ascii :=
  concat (map fst pts).

End TagProps.

Module AdjacentProps.
Import Core.

(** Chars laid side by side from [x0] on: each one starts where the one
    before ends plus [spacing], has its centre and right edge at half
    and at the whole of its width, and is at the height of the line. *)
Fixpoint side_by_side (spacing x0 : Q) (self : Line.t) (cs : list Unit.t) : Prop :=
  match cs with
  | [] => True
  | c :: rest =>
      exists w,
        width (Unit.base c) = Some w /\
        left (pos (Unit.base c)) = Some x0 /\
        center (pos (Unit.base c)) = Some (x0 + w / 2) /\
        right (pos (Unit.base c)) = Some (x0 + w) /\
        top (pos (Unit.base c)) = top (pos (Line.base self)) /\
        middle (pos (Unit.base c)) = middle (pos (Line.base self)) /\
        bottom (pos (Unit.base c)) = bottom (pos (Line.base self)) /\
        y (pos (Unit.base c)) = y (pos (Line.base self)) /\
        side_by_side spacing (x0 + (w + spacing)) self rest
  end.

End AdjacentProps.

Module SaveProps.
Import PyStr.

(** A text on one line: no character at which [splitlines] cuts. *)
Definition unbroken (s : list ascii) : Prop :=
  Forall (fun c => Save.is_linebreak c = false) s.

(** An events section of three lines after the [Format:] line. *)
Definition events3 : list ascii :=
  Eval vm_compute in
    chars (String Re.newline
             ("Format: Layer, Start" ++ String Re.newline
                ("Dialogue: 0,a" ++ String Re.newline
                   ("Dialogue: 0,b" ++ String Re.newline
                      ("Comment: 0,c" ++ String Re.newline ""))))).

End SaveProps.

Module LoadProps.
Import Core.

(** The lines that [__init__] reads: the ones after the first that are
    not empty. *)
Definition event_lines (text : list ascii) : list (list ascii) :=
  List.filter (fun l => match l with [] => false | _ => true end)
    (tl (Save.splitlines (PyStr.strip text))).

(** An events section with an empty line between two dialogues. *)
Definition events_blank : list ascii :=
  Eval vm_compute in
    PyStr.chars
      ("Format: Layer, Start" ++ String Re.newline
         ("Dialogue: 0,0:00:01.00,0:00:02.00,Default,,0,0,0,,a" ++ String Re.newline
            (String Re.newline
               ("Comment: 0,0:00:02.00,0:00:03.00,Default,,0,0,0,,b"
                  ++ String Re.newline "")))).

(** An events section whose third line holds two spaces only. *)
Definition events_spaces : list ascii :=
  Eval vm_compute in
    PyStr.chars
      ("Format: Layer, Start" ++ String Re.newline
         ("Dialogue: 0,0:00:01.00,0:00:02.00,Default,,0,0,0,,a" ++ String Re.newline
            ("  " ++ String Re.newline
               ("Comment: 0,0:00:02.00,0:00:03.00,Default,,0,0,0,,b"
                  ++ String Re.newline "")))).

End LoadProps.

Module CroundProps.

(** The double [0.49999999999999994], the one just below one half:
    [1/2 - 2^-54]. *)
Definition just_below_half : Q := 9007199254740991 # 18014398509481984.

End CroundProps.

Module GridProps.

(** Exactly one of three tests holds. *)
Definition exactly_one (a b c : bool) : Prop :=
  (a = true /\ b = false /\ c = false) \/
  (a = false /\ b = true /\ c = false) \/
  (a = false /\ b = false /\ c = true).

End GridProps.

(** * Properties of [pyonfx/types.py] *)

Lemma Qltb_lt a b : Qltb a b = true <-> a < b.
Proof.
  unfold Qltb. rewrite negb_true_iff, <- not_true_iff_false, Qle_bool_iff.
  split; [apply Qnot_le_lt | apply Qlt_not_le].
Qed.

Module PTypesFacts.
Import PTypes.

Lemma strictly_inside_spec r v :
  strictly_inside r v = true <-> x r < v /\ v < y r.
Proof. unfold strictly_inside. now rewrite andb_true_iff, !Qltb_lt. Qed.

Lemma check_each_raises r vs :
  check_each r vs = Raise ValueError <->
  exists v, In v vs /\ ~ (x r < v /\ v < y r).
Proof.
  induction vs as [|v vs IH]; simpl.
  - split; [discriminate | intros (v & [] & _)].
  - destruct (strictly_inside r v) eqn:E; simpl.
    + rewrite IH. apply strictly_inside_spec in E.
      split; intros (w & Hw & Hn).
      * exists w; auto.
      * destruct Hw as [<- | Hw]; [contradiction | exists w; auto].
    + split; [intros _ | reflexivity].
      exists v; split; [now left |].
      rewrite <- strictly_inside_spec, E. discriminate.
Qed.

(** C10.  [ValueRangeIncInc.check] raises [ValueError] exactly when one
    of the values it compares fails the strict test [x < v < y]; both
    bounds are therefore rejected, and the [Alignment] range (0, 9)
    rejects the alignment values 9 and 0, whether given as a float, in
    an iterable, or as a bare int (the latter with [TypeError]). *)
Theorem check_rejects_bounds :
  (forall r val,
     check r val = Raise ValueError <->
     exists v, In v (checked_values val) /\ ~ (x r < v /\ v < y r)) /\
  (forall r,
     check r (PyFloat (x r)) = Raise ValueError /\
     check r (PyFloat (y r)) = Raise ValueError) /\
  check Alignment (PyFloat 9) = Raise ValueError /\
  check Alignment (PyFloat 0) = Raise ValueError /\
  check Alignment (PyIter [9]) = Raise ValueError /\
  check Alignment (PyIter [0]) = Raise ValueError /\
  (forall z, check Alignment (PyInt z) = Raise TypeError) /\
  check Alignment (PyFloat 5) = Ok tt.
Proof.
  split; [| split; [| repeat split]].
  - intros r [v | z | vs]; simpl checked_values.
    + apply (check_each_raises r [v]).
    + simpl. split; [discriminate | intros (v & [] & _)].
    + apply check_each_raises.
  - intros r. split; apply (check_each_raises r [_]).
    + exists (x r). split; [now left |]. intros [H _]. now apply Qlt_irrefl in H.
    + exists (y r). split; [now left |]. intros [_ H]. now apply Qlt_irrefl in H.
Qed.

End PTypesFacts.

(** * Properties of [PList] *)

Module PListFacts.
Import Core PList.

Section Elements.
Context {A : Type}.
Variable py_eq : A -> A -> bool.
Variable text_of : A -> string.
Variable duration_of : A -> Q.

Abbreviation remove := (remove py_eq).
Abbreviation strip_loop := (strip_loop py_eq text_of duration_of).
Abbreviation strip_data := (strip_data py_eq text_of duration_of).
Abbreviation strip_empty := (strip_empty py_eq text_of duration_of).

Abbreviation self_equal := (PListProps.self_equal py_eq).

Lemma remove_member x data :
  In x data -> py_eq x x = true ->
  exists data', remove x data = Ok data' /\ S (length data') = length data /\
                (forall z, In z data' -> In z data).
Proof.
  intros Hin Hx. induction data as [|y data IH]; [destruct Hin |].
  simpl. destruct (py_eq y x) eqn:E.
  - exists data. repeat split; auto using in_cons.
  - destruct Hin as [-> | Hin]; [congruence |].
    destruct (IH Hin) as (d & -> & Hl & Hsub). simpl.
    exists (y :: d). repeat split; simpl; [lia |].
    intros z [-> | Hz]; [now left | right; auto].
Qed.

Lemma self_equal_In data x : self_equal data -> In x data -> py_eq x x = true.
Proof.
  unfold PListProps.self_equal. rewrite forallb_forall. auto.
Qed.

Lemma self_equal_sub data data' :
  (forall z, In z data' -> In z data) -> self_equal data -> self_equal data'.
Proof.
  unfold PListProps.self_equal. rewrite !forallb_forall. auto.
Qed.

(** The loop returns: removing the element just read cannot fail. *)
Lemma strip_loop_total fuel : forall i data,
  self_equal data ->
  exists data', strip_loop fuel i data = Ok data' /\
                (forall z, In z data' -> In z data).
Proof.
  induction fuel as [|fuel IH]; intros i data Hse; simpl.
  - eauto.
  - destruct (nth_error data i) as [x|] eqn:Hx; [| eauto].
    destruct (nonempty text_of duration_of x); [apply IH; auto |].
    apply nth_error_In in Hx.
    destruct (remove_member x data Hx (self_equal_In _ _ Hse Hx))
      as (d & -> & _ & Hsub).
    simpl. destruct (IH (S i) d (self_equal_sub _ _ Hsub Hse)) as (d' & -> & Hsub').
    eauto.
Qed.

Lemma remove_length x data data' :
  remove x data = Ok data' -> S (length data') = length data.
Proof.
  revert data'. induction data as [|y data IH]; intros data'; simpl; [discriminate |].
  destruct (py_eq y x).
  - now intros [= ->].
  - destruct (remove x data) as [d|]; simpl; [| discriminate].
    intros [= <-]. simpl. now rewrite (IH d).
Qed.

(** More fuel than the length of the list changes nothing: the loop has
    stopped by then. *)
Lemma strip_loop_fuel fuel : forall i data,
  (length data <= i + fuel)%nat ->
  forall extra, strip_loop (fuel + extra) i data = strip_loop fuel i data.
Proof.
  induction fuel as [|fuel IH]; intros i data Hlen extra.
  - simpl. destruct extra; simpl; [reflexivity |].
    destruct (nth_error data i) eqn:E; [| reflexivity].
    assert (i < length data)%nat by (apply nth_error_Some; congruence). lia.
  - simpl. destruct (nth_error data i) as [x|] eqn:Hx; [| reflexivity].
    destruct (nonempty text_of duration_of x).
    + apply IH. lia.
    + destruct (remove x data) as [d|] eqn:Hr; simpl; [| reflexivity].
      apply remove_length in Hr. apply IH. lia.
Qed.

(** C9.  Called with [return_new = True] on a list object of the store,
    [strip_empty] returns a list object that did not exist before and
    leaves the receiver, like every other list of the store, with the
    very same elements in the same order. *)
Theorem strip_empty_return_new_frame
  (self : positive) (data : list A) (h : gmap positive (list A))
  (Hself : h !! self = Some data) (Heq : self_equal data) :
  exists new data' h',
    strip_empty self true h = Ok (Some new, h') /\
    strip_data data = Ok data' /\
    new <> self /\ h !! new = None /\ h' !! new = Some data' /\
    h' !! self = Some data /\
    forall l, is_Some (h !! l) -> h' !! l = h !! l.
Proof.
  unfold strip_empty, PList.strip_data, alloc. rewrite Hself. simpl.
  destruct (strip_loop_total (length data) 0 data Heq) as (data' & Hd & _).
  fold (PList.strip_loop py_eq text_of duration_of) in *.
  rewrite Hd. simpl.
  set (copy := fresh (dom h)).
  set (h1 := <[copy := data']> (<[copy := data]> h)).
  set (new := fresh (dom h1)).
  assert (Hcopy : h !! copy = None).
  { apply not_elem_of_dom. apply is_fresh. }
  assert (Hnew : h1 !! new = None).
  { apply not_elem_of_dom. apply is_fresh. }
  assert (Hold : forall l, is_Some (h !! l) -> h1 !! l = h !! l /\ l <> new).
  { intros l [v Hl].
    assert (l <> copy) by congruence.
    assert (E : h1 !! l = h !! l).
    { unfold h1. now rewrite !lookup_insert_ne by congruence. }
    split; [exact E | congruence]. }
  exists new, data', (<[new := data']> h1).
  destruct (Hold self (mk_is_Some _ _ Hself)) as [Hs Hne].
  repeat split.
  - congruence.
  - destruct (h !! new) eqn:E; [| reflexivity].
    destruct (Hold new (mk_is_Some _ _ E)) as [_ Hc]. congruence.
  - apply lookup_insert_eq.
  - rewrite lookup_insert_ne by congruence. congruence.
  - intros l Hl. destruct (Hold l Hl) as [E Hn].
    rewrite lookup_insert_ne by congruence. exact E.
Qed.

End Elements.

Import Samples.

Lemma strip_empty_return_new_frame_witness :
  exists new data' h',
    strip_empty Eq.unit u_text u_duration 1%positive true {[1%positive := empty_syls]}
      = Ok (Some new, h') /\
    strip_data Eq.unit u_text u_duration empty_syls = Ok data' /\
    new <> 1%positive /\
    ({[1%positive := empty_syls]} : gmap positive (list Unit.t)) !! new = None /\
    h' !! new = Some data' /\
    h' !! 1%positive = Some empty_syls /\
    forall l, is_Some (({[1%positive := empty_syls]} : gmap positive (list Unit.t)) !! l) ->
              h' !! l = ({[1%positive := empty_syls]} : gmap positive (list Unit.t)) !! l.
Proof.
  apply (strip_empty_return_new_frame Eq.unit u_text u_duration 1%positive
           empty_syls {[1%positive := empty_syls]});
    vm_compute; reflexivity.
Defined.

(** C8 (the code departs from it).  On the syllables of
    [{\k10}{\k10}{\k10}a], whose first two have no text, one in-place
    [strip_empty] leaves the second empty syllable in the list, and a
    second call removes it: the element after a removed one is passed
    over by the loop. *)
Theorem strip_empty_skips_after_removal :
  exists e a h1 h2,
    strip_empty Eq.unit u_text u_duration 1%positive false
      {[1%positive := empty_syls]} = Ok (None, h1) /\
    h1 !! 1%positive = Some [e; a] /\
    u_text e = "" /\
    nonempty u_text u_duration e = false /\
    strip_empty Eq.unit u_text u_duration 1%positive false h1 = Ok (None, h2) /\
    h2 !! 1%positive = Some [a] /\
    u_text a = "a".
Proof.
  do 4 eexists. repeat split; vm_compute; reflexivity.
Qed.

End PListFacts.

(** * Inversion of fallible computations *)

Lemma rbind_ok {A B} (c : result A) (k : A -> result B) b :
  rbind c k = Ok b -> exists a, c = Ok a /\ k a = Ok b.
Proof. destruct c as [a|e]; simpl; [eauto | discriminate]. Qed.

Lemma getattr_ok {A} (o : option A) a : getattr o = Ok a -> o = Some a.
Proof. destruct o; simpl; congruence. Qed.

(** Splits a hypothesis [do x <- c; k = Ok b] into its two steps. *)
Ltac inv_ok H :=
  let a := fresh "v" in
  let H1 := fresh H in
  apply rbind_ok in H; destruct H as (a & H1 & H).

Module CharFacts.
Import Core CharProps.

Lemma left_not_center s :
  Style.an_is_left s = true -> Style.an_is_center s = false.
Proof.
  unfold Style.an_is_center, Style.an_is_left, Style.an_in. simpl.
  repeat match goal with
         | |- context [Z.eqb ?a ?b] => destruct (Z.eqb_spec a b)
         end; simpl; try reflexivity; try discriminate; lia.
Qed.

Lemma chars_h_left self sty : forall cs cur_x cs',
  Style.an_is_left sty = true ->
  Line.chars_h self sty cur_x cs = Ok cs' ->
  Forall x_is_right cs'.
Proof.
  induction cs as [|c cs IH]; intros cur_x cs' Hleft H; simpl in H.
  - injection H as <-. constructor.
  - rewrite Hleft, (left_not_center _ Hleft) in H.
    inv_ok H. inv_ok H. inv_ok H. injection H as <-.
    apply getattr_ok in H0.
    constructor; [| eapply IH; eauto].
    unfold Line.copy_vertical in H1.
    inv_ok H1. inv_ok H1. inv_ok H1. inv_ok H1. injection H1 as <-.
    exists cur_x, v. simpl. rewrite H0.
    repeat split. intros E. lra.
Qed.

(** C4.  In the left-to-right pass of [add_chars] (top or bottom
    alignment, or [vertical_kanji] off), every char of a line whose
    alignment is 1, 4 or 7 ends with [x] equal to its [right], that is
    its [left] plus its width, and not to its [left]. *)
Theorem add_chars_left_x_is_right (font : Font) (vertical_kanji : bool)
  (self self' : Line.t) (sty : Style.t) (m : Meta)
  (Hrun : Line.add_chars font vertical_kanji self = Ok self')
  (Hsty : style (Line.base self) = Some sty)
  (Hmeta : meta (Line.base self) = Some m)
  (Hleft : Style.an_is_left sty = true)
  (Hpass : Style.an_is_top sty || Style.an_is_bottom sty
           || negb vertical_kanji = true) :
  exists cs, Line.chars self' = Some cs /\ Forall x_is_right cs.
Proof.
  unfold Line.add_chars in Hrun.
  inv_ok Hrun. inv_ok Hrun.
  assert (Hlay : forall cs0,
    Line.place_chars vertical_kanji (Line.set_chars (Line.set_chars self []) cs0) cs0
      = Ok self' ->
    exists cs, Line.chars self' = Some cs /\ Forall x_is_right cs).
  { intros cs0 H. unfold Line.place_chars in H. simpl in H.
    rewrite Hmeta, Hsty in H. simpl in H.
    rewrite Hpass in H. inv_ok H. inv_ok H. injection H as <-.
    simpl. eexists; split; [reflexivity |].
    eapply chars_h_left; eauto. }
  destruct v as [|s0 ss]; destruct v0 as [|w0 ws];
    try (injection Hrun as <-; simpl; eexists; split; [reflexivity | constructor]);
    inv_ok Hrun; eapply Hlay; exact Hrun.
Qed.

Lemma add_chars_left_x_is_right_witness :
  exists cs,
    Line.chars Samples.after_chars7 = Some cs /\ Forall x_is_right cs /\
    length cs = 5%nat.
Proof.
  destruct (add_chars_left_x_is_right Samples.font0 false Samples.before_chars7
              Samples.after_chars7 Samples.style7 Samples.meta0
              ltac:(vm_compute; reflexivity) ltac:(reflexivity)
              ltac:(reflexivity) ltac:(reflexivity) ltac:(reflexivity))
    as (cs & Hcs & Hall).
  exists cs. split; [exact Hcs |]. split; [exact Hall |].
  injection Hcs as <-. reflexivity.
Defined.

End CharFacts.

(** * Properties of the layout passes of [Line] *)

Module LayoutFacts.
Import Core.

(** The horizontal classes exclude one another. *)
Lemma center_not_left s :
  Style.an_is_center s = true -> Style.an_is_left s = false.
Proof.
  unfold Style.an_is_center, Style.an_is_left, Style.an_in. simpl.
  repeat match goal with
         | |- context [Z.eqb ?a ?b] => destruct (Z.eqb_spec a b)
         end; simpl; try reflexivity; try discriminate; lia.
Qed.

Lemma right_not_left_center s :
  Style.an_is_right s = true ->
  Style.an_is_left s = false /\ Style.an_is_center s = false.
Proof.
  unfold Style.an_is_center, Style.an_is_left, Style.an_is_right, Style.an_in.
  simpl.
  repeat match goal with
         | |- context [Z.eqb ?a ?b] => destruct (Z.eqb_spec a b)
         end; simpl; intros; try (split; reflexivity); try discriminate; lia.
Qed.

(** C5.  [add_data] on a line that has a style and a play resolution:
    with [margin_l] and [margin_r] the margins in effect (those of the
    line when they are not 0, else those of the style), [left] is
    [margin_l] for the left classes,
    [play_res_x/2 - width/2 + (margin_l - margin_r)/2] for the center
    classes and [play_res_x - margin_r - width] for the right classes;
    [x] is [left], [center] or [right] accordingly.  With alignment 5, a
    play width of 1920, zero effective margins and a width of 100 this
    gives [left = 910] and [x = center = 960]. *)
Theorem add_data_horizontal (font : Font) (self : Line.t) (rx ry : Z)
  (sty : Style.t)
  (Hres : meta_play_res (meta (Line.base self)) = Ok (rx, ry))
  (Hsty : style (Line.base self) = Some sty) :
  let w := fst (text_extents font (Line.strip_tags (Line.raw_text self))) in
  let ml := inject_Z (if (Line.margin_l self =? 0)%Z then Style.margin_l sty
                      else Line.margin_l self) in
  let mr := inject_Z (if (Line.margin_r self =? 0)%Z then Style.margin_r sty
                      else Line.margin_r self) in
  exists self' L C R X,
    Line.add_data font self = Ok self' /\
    width (Line.base self') = Some w /\
    left (pos (Line.base self')) = Some L /\
    center (pos (Line.base self')) = Some C /\
    right (pos (Line.base self')) = Some R /\
    x (pos (Line.base self')) = Some X /\
    C == L + w / 2 /\ R == L + w /\
    (Style.an_is_left sty = true -> L == ml /\ X = L) /\
    (Style.an_is_center sty = true ->
       L == inject_Z rx / 2 - w / 2 + (ml - mr) / 2 /\ X = C) /\
    (Style.an_is_right sty = true -> L == inject_Z rx - mr - w /\ X = R) /\
    (Style.alignment sty = 5%Z -> rx = 1920%Z -> ml == 0 -> mr == 0 ->
       w == 100 -> L == 910 /\ X == 960 /\ C == 960).
Proof.
  intros w ml mr. unfold Line.add_data.
  unfold Line.layout_context. simpl. rewrite Hres, Hsty. simpl.
  unfold Line.effective. fold w ml mr.
  do 5 eexists. split; [reflexivity |]. simpl.
  do 5 (split; [reflexivity |]).
  split; [reflexivity |]. split; [reflexivity |].
  split; [| split; [| split]].
  - intros H. rewrite H. split; reflexivity.
  - intros H. rewrite (center_not_left _ H), H. split; [| reflexivity].
    field.
  - intros H. destruct (right_not_left_center _ H) as [-> ->].
    split; reflexivity.
  - intros Han Hrx Hml Hmr Hw.
    unfold Style.an_is_left, Style.an_is_center, Style.an_in.
    rewrite Han, Hrx. simpl. rewrite Hml, Hmr, Hw.
    repeat split; reflexivity.
Qed.

(** The scenario of alignment 5; a left-aligned line that takes the
    margin 10 of its style, and one that keeps its own margin 30; a
    right-aligned line placed [margin_r] from the right edge, with the
    margin 10 of the style and with its own margin 40. *)
Lemma add_data_horizontal_witness :
  (exists self' L X,
     Line.add_data Samples.font0 Samples.line5 = Ok self' /\
     left (pos (Line.base self')) = Some L /\
     x (pos (Line.base self')) = Some X /\
     L == 910 /\ X == 960) /\
  (exists self' L,
     Line.add_data Samples.font0 Samples.line7 = Ok self' /\
     left (pos (Line.base self')) = Some L /\ L == 10) /\
  (exists self' L,
     Line.add_data Samples.font0 Samples.line7m = Ok self' /\
     left (pos (Line.base self')) = Some L /\ L == 30) /\
  (exists self' R,
     Line.add_data Samples.font0 Samples.line3 = Ok self' /\
     right (pos (Line.base self')) = Some R /\ R == 1920 - 10) /\
  (exists self' R,
     Line.add_data Samples.font0 Samples.line3m = Ok self' /\
     right (pos (Line.base self')) = Some R /\ R == 1920 - 40).
Proof.
  split; [| split; [| split; [| split]]].
  - destruct (add_data_horizontal Samples.font0 Samples.line5 1920 1080
                Samples.style5
                ltac:(vm_compute; reflexivity) ltac:(reflexivity))
      as (self' & L & C & R & X & Hrun & _ & HL & _ & _ & HX & _ & _ & _ & _ & _ & H5).
    exists self', L, X.
    destruct H5 as (H910 & H960 & _); try reflexivity.
    repeat split; assumption.
  - destruct (add_data_horizontal Samples.font0 Samples.line7 1920 1080
                Samples.style7
                ltac:(vm_compute; reflexivity) ltac:(reflexivity))
      as (self' & L & C & R & X & Hrun & _ & HL & _ & _ & _ & _ & _ & Hleft & _).
    exists self', L. destruct Hleft as [Hl _]; [reflexivity |].
    repeat split; assumption.
  - destruct (add_data_horizontal Samples.font0 Samples.line7m 1920 1080
                Samples.style7
                ltac:(vm_compute; reflexivity) ltac:(reflexivity))
      as (self' & L & C & R & X & Hrun & _ & HL & _ & _ & _ & _ & _ & Hleft & _).
    exists self', L. destruct Hleft as [Hl _]; [reflexivity |].
    repeat split; assumption.
  - destruct (add_data_horizontal Samples.font0 Samples.line3 1920 1080
                Samples.style3
                ltac:(vm_compute; reflexivity) ltac:(reflexivity))
      as (self' & L & C & R & X & Hrun & _ & _ & _ & HR & _ & _ & HRL & _ & _ & Hright & _).
    exists self', R. destruct Hright as [Hl _]; [reflexivity |].
    split; [exact Hrun |]. split; [exact HR |].
    rewrite HRL, Hl. cbn [Samples.line3 Samples.style3 Line.margin_r Style.margin_r Z.eqb].
    ring.
  - destruct (add_data_horizontal Samples.font0 Samples.line3m 1920 1080
                Samples.style3
                ltac:(vm_compute; reflexivity) ltac:(reflexivity))
      as (self' & L & C & R & X & Hrun & _ & _ & _ & HR & _ & _ & HRL & _ & _ & Hright & _).
    exists self', R. destruct Hright as [Hl _]; [reflexivity |].
    split; [exact Hrun |]. split; [exact HR |].
    rewrite HRL, Hl. cbn [Samples.line3m Samples.style3 Line.margin_r Style.margin_r Z.eqb].
    ring.
Defined.

End LayoutFacts.

(** * Properties of [Style.resample] *)

Module ResampleFacts.
Import Core ResampleProps.

(** [round] moves a number by at most one half. *)
Lemma round_near (q : Q) :
  q - (1 # 2) <= inject_Z (PyNum.round q) /\
  inject_Z (PyNum.round q) <= q + (1 # 2).
Proof.
  unfold PyNum.round.
  pose proof (Qfloor_le q) as Hlo.
  pose proof (Qlt_floor q) as Hhi.
  rewrite inject_Z_plus in Hhi.
  assert (E1 : inject_Z 1 == 1) by reflexivity.
  destruct (Qcompare_spec (q - inject_Z (Qfloor q)) (1 # 2)) as [H | H | H].
  - destruct (Z.even (Qfloor q)); [| rewrite inject_Z_plus]; split; lra.
  - split; lra.
  - rewrite inject_Z_plus. split; lra.
Qed.

Lemma round5_near (q : Q) :
  q - (1 # 200000) <= PyNum.round5 q /\ PyNum.round5 q <= q + (1 # 200000).
Proof.
  unfold PyNum.round5.
  destruct (round_near (q * 100000)) as [Hlo Hhi].
  set (r := inject_Z (PyNum.round (q * 100000))) in *.
  assert (E : r / 100000 == r * (1 # 100000)) by (field; discriminate).
  rewrite E. split; lra.
Qed.

Lemma div_ok (a b : Q) : ~ b == 0 -> PyNum.div a b = Ok (a / b).
Proof.
  intros H. unfold PyNum.div.
  destruct (Qeq_bool b 0) eqn:E; [| reflexivity].
  apply Qeq_bool_eq in E. contradiction.
Qed.

Lemma inject_pos (z : Z) : (0 < z)%Z -> 0 < inject_Z z.
Proof. intros H. change 0 with (inject_Z 0). now rewrite <- Zlt_Qlt. Qed.

Lemma inject_nonzero (z : Z) : (0 < z)%Z -> ~ inject_Z z == 0.
Proof. intros H E. apply inject_pos in H. lra. Qed.

(** Scaling up by [s], rounding, scaling back by [s'] and rounding
    again: the two half-unit errors add up to at most one unit. *)
Lemma there_and_back (q s s' e : Q) (f : Q -> Q) :
  (forall v, v - e <= f v /\ f v <= v + e) ->
  0 <= e -> e <= 1 # 2 -> 0 < s' -> s' <= 1 -> s * s' == 1 ->
  Qabs (f (f (q * s) * s') - q) <= 1.
Proof.
  intros Hf He0 He Hs'0 Hs'1 Hss.
  destruct (Hf (q * s)) as [H1 H2].
  destruct (Hf (f (q * s) * s')) as [H3 H4].
  set (v1 := f (q * s)) in *. set (v2 := f (v1 * s')) in *.
  assert (Hq : q * s * s' == q) by (rewrite <- Qmult_assoc, Hss; ring).
  assert (Ha : (q * s - e) * s' <= v1 * s') by (apply Qmult_le_compat_r; lra).
  assert (Hb : v1 * s' <= (q * s + e) * s') by (apply Qmult_le_compat_r; lra).
  assert (Hc : s' * e <= 1 * e) by (apply Qmult_le_compat_r; lra).
  apply Qabs_Qle_condition. split; lra.
Qed.

Lemma scale_back (a b : Z) :
  (0 < a)%Z -> (a <= b)%Z ->
  0 < inject_Z a / inject_Z b /\ inject_Z a / inject_Z b <= 1 /\
  inject_Z b / inject_Z a * (inject_Z a / inject_Z b) == 1.
Proof.
  intros Ha Hab.
  assert (Hb : (0 < b)%Z) by lia.
  pose proof (inject_pos _ Ha). pose proof (inject_pos _ Hb).
  assert (inject_Z a <= inject_Z b) by now rewrite <- Zle_Qle.
  repeat split.
  - apply Qlt_shift_div_l; lra.
  - apply Qle_shift_div_r; lra.
  - field. split; lra.
Qed.

(** [resample] from one positive resolution to another returns, and
    these are the fields it computes. *)
Lemma resample_tuple (s : Style.t) (ax ay bx by_ : Z) (sbas : bool) :
  (0 < ax)%Z -> (0 < ay)%Z -> (0 < bx)%Z -> (0 < by_)%Z ->
  let sw := inject_Z bx / inject_Z ax in
  let sh := inject_Z by_ / inject_Z ay in
  exists s1,
    Style.resample s (Style.SrcTuple (ax, ay)) (bx, by_) sbas = Ok s1 /\
    Style.fontsize s1 = inject_Z (PyNum.round (Style.fontsize s * sh)) /\
    Style.margin_l s1 = PyNum.round (inject_Z (Style.margin_l s) * sw) /\
    Style.margin_r s1 = PyNum.round (inject_Z (Style.margin_r s) * sw) /\
    Style.margin_v s1 = PyNum.round (inject_Z (Style.margin_v s) * sh) /\
    Style.outline s1 =
      (if sbas then PyNum.round5 (Style.outline s * sh) else Style.outline s) /\
    Style.shadow s1 =
      (if sbas then PyNum.round5 (Style.shadow s * sh) else Style.shadow s).
Proof.
  intros Hax Hay Hbx Hby sw sh.
  pose proof (inject_nonzero _ Hax) as Nax.
  pose proof (inject_nonzero _ Hay) as Nay.
  pose proof (inject_nonzero _ Hby) as Nby.
  pose proof (inject_pos _ Hax). pose proof (inject_pos _ Hay).
  pose proof (inject_pos _ Hbx). pose proof (inject_pos _ Hby).
  assert (Nnew : ~ inject_Z bx / inject_Z by_ == 0).
  { intros E. assert (0 < inject_Z bx / inject_Z by_)
      by (apply Qlt_shift_div_l; lra). lra. }
  assert (Nold : ~ inject_Z ax / inject_Z ay == 0).
  { intros E. assert (0 < inject_Z ax / inject_Z ay)
      by (apply Qlt_shift_div_l; lra). lra. }
  unfold Style.resample. simpl.
  rewrite !div_ok by assumption. simpl.
  rewrite div_ok by assumption. simpl.
  destruct (Qltb _ _); [rewrite div_ok by assumption |]; simpl;
    eexists; repeat split; reflexivity.
Qed.

(** C7, as amended.  When the target resolution is at least the source
    resolution in both dimensions, resampling a style from A to B and
    back from B to A returns, and the font size, the three margins, the
    outline and the shadow end within one unit of their original
    values. *)
Theorem resample_round_trip (s : Style.t) (ax ay bx by_ : Z) (sbas : bool)
  (Hax : (0 < ax)%Z) (Hay : (0 < ay)%Z)
  (Hbx : (ax <= bx)%Z) (Hby : (ay <= by_)%Z) :
  exists s1 s2,
    Style.resample s (Style.SrcTuple (ax, ay)) (bx, by_) sbas = Ok s1 /\
    Style.resample s1 (Style.SrcTuple (bx, by_)) (ax, ay) sbas = Ok s2 /\
    within_one (Style.fontsize s2) (Style.fontsize s) /\
    within_one (inject_Z (Style.margin_l s2)) (inject_Z (Style.margin_l s)) /\
    within_one (inject_Z (Style.margin_r s2)) (inject_Z (Style.margin_r s)) /\
    within_one (inject_Z (Style.margin_v s2)) (inject_Z (Style.margin_v s)) /\
    within_one (Style.outline s2) (Style.outline s) /\
    within_one (Style.shadow s2) (Style.shadow s).
Proof.
  assert (Hbx0 : (0 < bx)%Z) by lia. assert (Hby0 : (0 < by_)%Z) by lia.
  destruct (resample_tuple s ax ay bx by_ sbas Hax Hay Hbx0 Hby0)
    as (s1 & R1 & F1 & L1 & Rr1 & V1 & O1 & S1).
  destruct (resample_tuple s1 bx by_ ax ay sbas Hbx0 Hby0 Hax Hay)
    as (s2 & R2 & F2 & L2 & Rr2 & V2 & O2 & S2).
  destruct (scale_back ax bx Hax Hbx) as (Hw0 & Hw1 & Hww).
  destruct (scale_back ay by_ Hay Hby) as (Hh0 & Hh1 & Hhh).
  assert (Hround : forall v, v - (1 # 2) <= inject_Z (PyNum.round v) /\
                             inject_Z (PyNum.round v) <= v + (1 # 2))
    by apply round_near.
  exists s1, s2. split; [exact R1 |]. split; [exact R2 |].
  unfold within_one.
  rewrite F2, L2, Rr2, V2, O2, S2, F1, L1, Rr1, V1, O1, S1.
  repeat split.
  - apply (there_and_back _ _ _ (1 # 2) (fun v => inject_Z (PyNum.round v)));
      auto; lra.
  - apply (there_and_back _ _ _ (1 # 2) (fun v => inject_Z (PyNum.round v)));
      auto; lra.
  - apply (there_and_back _ _ _ (1 # 2) (fun v => inject_Z (PyNum.round v)));
      auto; lra.
  - apply (there_and_back _ _ _ (1 # 2) (fun v => inject_Z (PyNum.round v)));
      auto; lra.
  - destruct sbas.
    + apply (there_and_back _ _ _ (1 # 200000) PyNum.round5);
        auto using round5_near; lra.
    + apply Qabs_Qle_condition. split; lra.
  - destruct sbas.
    + apply (there_and_back _ _ _ (1 # 200000) PyNum.round5);
        auto using round5_near; lra.
    + apply Qabs_Qle_condition. split; lra.
Qed.

Lemma resample_round_trip_witness :
  exists s1 s2,
    Style.resample Samples.style24 (Style.SrcTuple (1280, 720)%Z) (1920, 1080)%Z true
      = Ok s1 /\
    Style.resample s1 (Style.SrcTuple (1920, 1080)%Z) (1280, 720)%Z true = Ok s2 /\
    within_one (Style.fontsize s2) (Style.fontsize Samples.style24).
Proof.
  destruct (resample_round_trip Samples.style24 1280 720 1920 1080 true
              ltac:(lia) ltac:(lia) ltac:(lia) ltac:(lia))
    as (s1 & s2 & H1 & H2 & H3 & _).
  exists s1, s2. repeat split; assumption.
Defined.

(** C7 as stated fails when the way there scales down: a font size of
    24 resampled from 1920x1080 to 192x108 becomes 2, and resampled
    back becomes 20. *)
Lemma resample_round_trip_counterexample :
  exists s1 s2,
    Style.resample Samples.style24 (Style.SrcTuple (1920, 1080)%Z) (192, 108)%Z true
      = Ok s1 /\
    Style.resample s1 (Style.SrcTuple (192, 108)%Z) (1920, 1080)%Z true = Ok s2 /\
    Style.fontsize s1 == 2 /\ Style.fontsize s2 == 20 /\
    ~ within_one (Style.fontsize s2) (Style.fontsize Samples.style24).
Proof.
  do 2 eexists. split; [vm_compute; reflexivity |].
  split; [vm_compute; reflexivity |].
  split; [vm_compute; reflexivity |]. split; [vm_compute; reflexivity |].
  unfold within_one. vm_compute. intros H. apply H. reflexivity.
Qed.

End ResampleFacts.

(** * Properties of the matcher *)

Module ReFacts.
Import PyStr Re ReProps.

(** Whatever the matcher returns went through a match of the pattern
    and was accepted by the continuation. *)
Lemma star_loop_sound ml r g k body :
  (forall s k s', body s k = Some s' ->
     exists s1, matches ml r s s1 /\ k s1 = Some s') ->
  forall n s s',
    star_loop body g k n s = Some s' ->
    exists s1, matches ml (Star g r) s s1 /\ k s1 = Some s'.
Proof.
  intros Hbody. induction n as [|n IH]; intros s s' H; simpl in H.
  - exists s. split; [constructor | exact H].
  - assert (Hmore :
      body s (fun s1 => if (length (rest s1) <? length (rest s))%nat
                        then star_loop body g k n s1 else None) = Some s' ->
      exists s1, matches ml (Star g r) s s1 /\ k s1 = Some s').
    { intros Hm. apply Hbody in Hm. destruct Hm as (s1 & M1 & Hk).
      destruct (length (rest s1) <? length (rest s))%nat; [| discriminate].
      apply IH in Hk. destruct Hk as (s2 & M2 & Hk).
      exists s2. split; [econstructor; eauto | exact Hk]. }
    destruct g.
    + destruct (body s _) eqn:E.
      * injection H as ->. auto.
      * exists s. split; [constructor | exact H].
    + destruct (k s) eqn:E.
      * injection H as ->. exists s. split; [constructor | exact E].
      * auto.
Qed.

Lemma rmatch_sound ml r : forall s k s',
  rmatch ml r s k = Some s' ->
  exists s1, matches ml r s s1 /\ k s1 = Some s'.
Proof.
  induction r as [| p | r1 IH1 r2 IH2 | r1 IH1 r2 IH2 | g r IH | name r IH
                 | | | r IH | r IH]; intros s k s' H; simpl in H.
  - exists s. split; [constructor | exact H].
  - destruct (rest s) as [|c tl] eqn:E; [discriminate |].
    destruct (p c) eqn:Ep; [| discriminate].
    eexists. split; [econstructor; eauto | exact H].
  - apply IH1 in H. destruct H as (s1 & M1 & H).
    apply IH2 in H. destruct H as (s2 & M2 & H).
    exists s2. split; [econstructor; eauto | exact H].
  - destruct (rmatch ml r1 s k) eqn:E.
    + injection H as ->. apply IH1 in E. destruct E as (s1 & M & Hk).
      exists s1. split; [now apply M_Alt_l | exact Hk].
    + apply IH2 in H. destruct H as (s1 & M & Hk).
      exists s1. split; [now apply M_Alt_r | exact Hk].
  - exact (star_loop_sound ml r g k (rmatch ml r) IH (S (length (rest s))) s s' H).
  - apply IH in H. destruct H as (s1 & M & Hk).
    eexists. split; [econstructor; eauto | exact Hk].
  - destruct (at_bol ml s) eqn:E; [| discriminate].
    exists s. split; [now constructor | exact H].
  - destruct (at_eol ml s) eqn:E; [| discriminate].
    exists s. split; [now constructor | exact H].
  - destruct (rmatch ml r s Some); [| discriminate].
    exists s. split; [constructor | exact H].
  - destruct (rmatch ml r s Some); [discriminate |].
    exists s. split; [constructor | exact H].
Qed.

Lemma match_here_found ml r adv s s1 :
  match_here ml r adv s = Some s1 ->
  matches ml r (mkState (before s) (rest s) []) s1.
Proof.
  unfold match_here. intros H. apply rmatch_sound in H.
  destruct H as (s2 & M & Hk).
  destruct (adv && _); [discriminate |]. now injection Hk as <-.
Qed.

Lemma search_found ml r : forall text adv bef skipped m s1,
  search ml r adv bef skipped text = Some (m, s1) -> found ml r m.
Proof.
  induction text as [|c text IH]; intros adv bef skipped m s1 H; simpl in H.
  - destruct (match_here ml r adv _) eqn:E; [| discriminate].
    injection H as <- <-. apply match_here_found in E.
    exists bef, [], m0. auto.
  - destruct (match_here ml r adv _) eqn:E.
    + injection H as <- <-. apply match_here_found in E.
      exists bef, (c :: text), m0. auto.
    + eapply IH; eauto.
Qed.

Lemma finditer_from_found ml r : forall fuel adv bef text m,
  In m (fst (finditer_from ml r fuel adv bef text)) -> found ml r m.
Proof.
  induction fuel as [|fuel IH]; intros adv bef text m H; simpl in H.
  - destruct H.
  - destruct (search ml r adv bef [] text) as [[m0 s1]|] eqn:E; [| destruct H].
    destruct (finditer_from ml r fuel _ (before s1) (rest s1)) as [ms tl] eqn:F.
    simpl in H. destruct H as [<- | H].
    + eapply search_found; eauto.
    + eapply IH. rewrite F. exact H.
Qed.

(** Every match returned by [finditer] is a match of the pattern. *)
Lemma finditer_found ml r text m :
  In m (finditer ml r text) -> found ml r m.
Proof. apply finditer_from_found. Qed.

Lemma matches_only ml P r s s1 :
  matches ml r s s1 -> only P r ->
  caps s1 = caps s /\
  exists t, rest s = t ++ rest s1 /\ Forall P t /\ (minlen r <= length t)%nat.
Proof.
  induction 1 as [s | p s c tl Hr Hp | r1 r2 s s1 s2 _ IH1 _ IH2
                 | r1 r2 s s1 _ IH | r1 r2 s s1 _ IH | g r s
                 | g r s s1 s2 _ IH1 _ IH2 | name r s s1 _ IH | s Hb | s He
                 | r s | r s]; intros Ho; simpl in Ho;
    try (split; [reflexivity
                | exists []; split; [reflexivity | split; [constructor | simpl; lia]]]).
  - simpl. split; [reflexivity |]. exists [c]. rewrite Hr. split; [reflexivity |].
    split; [constructor; [auto | constructor] | simpl; lia].
  - destruct Ho as [Ho1 Ho2].
    destruct (IH1 Ho1) as (C1 & t1 & R1 & F1 & L1).
    destruct (IH2 Ho2) as (C2 & t2 & R2 & F2 & L2).
    split; [congruence |]. exists (t1 ++ t2).
    rewrite R1, R2, app_assoc. split; [reflexivity |].
    split; [now apply Forall_app | rewrite length_app; simpl; lia].
  - destruct Ho as [Ho1 Ho2].
    destruct (IH Ho1) as (C1 & t1 & R1 & F1 & L1).
    split; [exact C1 |]. exists t1. repeat split; auto. simpl. lia.
  - destruct Ho as [Ho1 Ho2].
    destruct (IH Ho2) as (C1 & t1 & R1 & F1 & L1).
    split; [exact C1 |]. exists t1. repeat split; auto. simpl. lia.
  - destruct (IH1 Ho) as (C1 & t1 & R1 & F1 & L1).
    destruct (IH2 Ho) as (C2 & t2 & R2 & F2 & L2).
    split; [congruence |]. exists (t1 ++ t2).
    rewrite R1, R2, app_assoc. split; [reflexivity |].
    split; [now apply Forall_app | simpl; lia].
  - destruct Ho.
Qed.

Lemma consumed_app bef t tl c1 bef' c2 :
  consumed (mkState bef (t ++ tl) c1) (mkState bef' tl c2) = t.
Proof.
  unfold consumed. simpl. rewrite length_app.
  replace (length t + length tl - length tl)%nat with (length t) by lia.
  now rewrite firstn_app, Nat.sub_diag, firstn_all, app_nil_r.
Qed.

(** A group around such a pattern records the text it consumed. *)
Lemma matches_group ml P name r s s2 :
  matches ml (Group name r) s s2 -> only P r ->
  exists t, rest s = t ++ rest s2 /\ Forall P t /\ (minlen r <= length t)%nat /\
            caps s2 = (name, t) :: caps s.
Proof.
  intros M Ho. inversion M as [| | | | | | | n r' s' s1 M1 | | | |]; subst.
  destruct (matches_only _ _ _ _ _ M1 Ho) as (C & t & R & F & L).
  exists t. simpl. repeat split; auto.
  destruct s as [b rs cs], s1 as [b1 rs1 cs1]. simpl in *. subst.
  now rewrite consumed_app.
Qed.

Lemma matches_seq ml r1 r2 s s2 :
  matches ml (Seq r1 r2) s s2 ->
  exists s1, matches ml r1 s s1 /\ matches ml r2 s1 s2.
Proof. inversion 1; subst; eauto. Qed.

End ReFacts.

(** * Properties of [Line.add_syls] *)

Module SylFacts.
Import PyStr Re Core ReFacts ReProps SylProps.

(** ** Reading the digits of a karaoke duration *)

Lemma digit_not_space c : is_digit c = true -> is_space c = false.
Proof.
  unfold is_digit, is_space. intros H.
  apply andb_true_iff in H. destruct H as [H1 H2].
  apply Nat.leb_le in H1, H2.
  repeat match goal with
         | |- context [(?a <=? ?b)%nat] => destruct (Nat.leb_spec a b)
         | |- context [(?a =? ?b)%nat] => destruct (Nat.eqb_spec a b)
         end; try reflexivity; lia.
Qed.

Lemma digit_not_blank c : is_digit c = true -> is_blank c = false.
Proof. intros H. unfold is_blank. now rewrite (digit_not_space c H). Qed.

Lemma digit_not_sign c : is_digit c = true -> eqc c "-" = false /\ eqc c "+" = false.
Proof.
  intros H. split; unfold eqc; apply Ascii.eqb_neq; intros ->; discriminate.
Qed.

Lemma lstrip_by_head f c l : f c = false -> lstrip_by f (c :: l) = c :: l.
Proof. intros H. simpl. now rewrite H. Qed.

Lemma strip_digits l :
  Forall (fun c => is_digit c = true) l -> strip_by is_blank l = l.
Proof.
  intros H. unfold strip_by.
  assert (L : forall l', Forall (fun c => is_digit c = true) l' ->
                         lstrip_by is_blank l' = l').
  { intros [|c l'] F; [reflexivity |].
    apply lstrip_by_head, digit_not_blank. now inversion F. }
  rewrite (L l H), L, rev_involutive; [reflexivity |].
  now apply Forall_rev.
Qed.

Lemma digits_value_digits l : forall acc b,
  Forall (fun c => is_digit c = true) l -> (0 <= acc)%Z ->
  l <> [] \/ b = true ->
  exists z, digits_value acc b l = Some z /\ (0 <= z)%Z.
Proof.
  induction l as [|c l IH]; intros acc b F Hacc Hne; simpl.
  - destruct Hne as [Hne | ->]; [congruence | eauto].
  - inversion F as [|? ? Hc F']; subst. rewrite Hc.
    apply IH; auto. unfold digit_val. lia.
Qed.

Lemma int_digits l :
  Forall (fun c => is_digit c = true) l -> l <> [] ->
  exists z, Line.int (str l) = Ok z /\ (0 <= z)%Z.
Proof.
  intros F Hne. unfold Line.int, chars, str.
  rewrite list_ascii_of_string_of_list_ascii.
  unfold int_of. rewrite (strip_digits l F).
  destruct l as [|c l]; [congruence |].
  assert (Hc : is_digit c = true) by now inversion F.
  destruct (digit_not_sign c Hc) as [-> ->].
  destruct (digits_value_digits (c :: l) 0 false F) as (z & -> & Hz);
    [lia | now left |].
  eauto.
Qed.

(** ** The groups of a karaoke match *)

Ltac split_seq M :=
  let s := fresh "s" in
  let M1 := fresh "M" in
  apply matches_seq in M; destruct M as (s & M1 & M).

Lemma syldata_kdur m :
  found false Line.syldata m ->
  exists kd, Re.group m "kdur" = kd /\
             Forall (fun c => is_digit c = true) kd /\ kd <> [].
Proof.
  intros (bef & text & s9 & M & G & _).
  unfold Line.syldata in M.
  do 8 split_seq M.
  assert (T : forall r, only (fun _ => True) r -> forall a b,
            matches false r a b -> caps b = caps a).
  { intros r Ho a b Mab. now destruct (matches_only _ _ _ _ _ Mab Ho). }
  apply (matches_group _ (fun c => is_digit c = true)) in M5;
    [| simpl; auto].
  destruct M5 as (kd & _ & Fkd & Lkd & Ckd).
  apply (matches_group _ (fun _ => True)) in M6; [| simpl; auto].
  destruct M6 as (pt & _ & _ & _ & Cpt).
  apply T in M7; [| simpl; auto].
  apply (matches_group _ (fun _ => True)) in M; [| simpl; auto].
  destruct M as (st & _ & _ & _ & Cst).
  exists kd. split; [| split; [exact Fkd |]].
  - unfold Re.group. rewrite G, Cst, M7, Cpt, Ckd. reflexivity.
  - simpl in Lkd. destruct kd; [simpl in Lkd; lia | discriminate].
Qed.

Lemma syldata_int text :
  Forall (fun k => exists z, Line.int (str (Re.group k "kdur")) = Ok z /\ (0 <= z)%Z)
         (Re.finditer false Line.syldata text).
Proof.
  apply Forall_forall. intros k Hk.
  apply list_elem_of_In, finditer_found, syldata_kdur in Hk.
  destruct Hk as (kd & -> & F & Hne). now apply int_digits.
Qed.

(** ** The timing of the syllables *)

Lemma add_nonneg (t : Q) (z : Z) :
  0 <= t -> (0 <= z)%Z ->
  0 <= inject_Z z / 100 /\ PTime.add t (inject_Z z / 100) = t + inject_Z z / 100.
Proof.
  intros Ht Hz.
  assert (H : 0 <= inject_Z z / 100).
  { apply Qle_shift_div_l; [reflexivity |].
    change (0 * 100) with (inject_Z 0). now rewrite <- Zle_Qle. }
  split; [exact H |].
  unfold PTime.add, PTime.clamp0.
  destruct (Qle_bool 0 (t + inject_Z z / 100)) eqn:E; [reflexivity |].
  assert (Qle_bool 0 (t + inject_Z z / 100) = true)
    by (apply Qle_bool_iff; lra).
  congruence.
Qed.

(** The first loop of [add_syls] returns, and its syllables follow one
    another. *)
Lemma new_syls_contiguous font : forall ks si wi t,
  Forall (fun k => exists z, Line.int (str (Re.group k "kdur")) = Ok z /\ (0 <= z)%Z) ks ->
  0 <= t ->
  exists ss, Line.new_syls font si wi t ks = Ok ss /\ contiguous_from t ss.
Proof.
  induction ks as [|k ks IH]; intros si wi t F Ht; simpl.
  - exists []. split; [reflexivity | exact I].
  - inversion F as [|? ? (z & Hz & Hz0) F']; subst.
    rewrite Hz. simpl.
    destruct (add_nonneg t z Ht Hz0) as [Hd Hadd].
    destruct (Line.syl_tags k) as [fx tags].
    edestruct (IH (S si)) as (ss & -> & Hss); [exact F' | | ].
    + rewrite Hadd. lra.
    + simpl. eexists. split; [reflexivity |].
      simpl. unfold u_start, u_end, u_dur. simpl.
      repeat split; auto.
Qed.

Lemma contiguous_same_timing : forall ss ss' t,
  Forall2 same_timing ss ss' -> contiguous_from t ss -> contiguous_from t ss'.
Proof.
  induction ss as [|a ss IH]; intros ss' t F H;
    inversion F as [| a0 b ss0 ss1 Hs F']; subst; simpl.
  - exact I.
  - destruct H as (C1 & C2 & C3 & C4 & C5).
    destruct Hs as (E1 & E2 & E3 & E4).
    rewrite <- E1, <- E2, <- E3. repeat split; auto.
Qed.

Lemma copy_vertical_times self a a' :
  Line.copy_vertical self a = Ok a' ->
  start_time a' = start_time a /\ end_time a' = end_time a /\
  duration a' = duration a /\ text a' = text a.
Proof.
  unfold Line.copy_vertical. intros H.
  inv_ok H. inv_ok H. inv_ok H. inv_ok H. injection H as <-.
  repeat split.
Qed.

Lemma syls_h_timing self sty m sw : forall ss cur_x ss',
  Line.syls_h self sty m sw cur_x ss = Ok ss' -> Forall2 same_timing ss ss'.
Proof.
  induction ss as [|s ss IH]; intros cur_x ss' H; simpl in H.
  - injection H as <-. constructor.
  - inv_ok H. inv_ok H. inv_ok H. inv_ok H. inv_ok H. injection H as <-.
    constructor; [| eapply IH; eauto].
    apply copy_vertical_times in H3. destruct H3 as (E1 & E2 & E3 & E4).
    unfold same_timing, u_start, u_end, u_dur. simpl.
    rewrite E1, E2, E3, E4. repeat split.
Qed.

Lemma syls_v_timing self sty m mw : forall ss cur_y ss',
  Line.syls_v self sty m mw cur_y ss = Ok ss' -> Forall2 same_timing ss ss'.
Proof.
  induction ss as [|s ss IH]; intros cur_y ss' H; simpl in H.
  - injection H as <-. constructor.
  - inv_ok H. inv_ok H. destruct v0 as [l xx]. inv_ok H. inv_ok H.
    injection H as <-.
    constructor; [| eapply IH; eauto].
    unfold same_timing, u_start, u_end, u_dur. simpl. repeat split.
Qed.

Lemma same_timing_refl ss : Forall2 same_timing ss ss.
Proof. induction ss; constructor; auto. repeat split. Qed.

(** The second part of [add_syls] changes neither the line's own
    attributes nor the times and texts of the syllables. *)
Lemma place_syls_timing font vk self ss self' :
  Line.place_syls font vk (Line.set_syls self ss) ss = Ok self' ->
  Line.base self' = Line.base self /\
  exists ss', Line.syls self' = Some ss' /\ Forall2 same_timing ss ss'.
Proof.
  unfold Line.place_syls. intros H. inv_ok H.
  destruct v as [[sty m]|].
  - destruct (_ || _ || negb vk).
    + inv_ok H. inv_ok H. injection H as <-. simpl.
      split; [reflexivity |]. eexists. split; [reflexivity |].
      eapply syls_h_timing; eauto.
    + destruct vk.
      * do 6 inv_ok H. injection H as <-. simpl.
        split; [reflexivity |]. eexists. split; [reflexivity |].
        eapply syls_v_timing; eauto.
      * injection H as <-. simpl. split; [reflexivity |].
        eexists. split; [reflexivity | apply same_timing_refl].
  - injection H as <-. simpl. split; [reflexivity |].
    eexists. split; [reflexivity | apply same_timing_refl].
Qed.

Lemma sum_from (l : list Q) : forall a, fold_left Qplus l a == a + sum_of l.
Proof.
  unfold sum_of. induction l as [|q l IH]; intros a; simpl.
  - ring.
  - rewrite IH, (IH (0 + q)). ring.
Qed.

Lemma contiguous_first t ss a :
  contiguous_from t ss -> ss !! 0%nat = Some a -> u_start a = t.
Proof. destruct ss; simpl; [discriminate |]. intros (H & _) [= <-]. exact H. Qed.

Lemma contiguous_next : forall ss t i a b,
  contiguous_from t ss -> ss !! i = Some a -> ss !! S i = Some b ->
  u_end a = u_start b.
Proof.
  induction ss as [|s ss IH]; intros t i a b H Ha Hb; [discriminate |].
  destruct H as (_ & _ & _ & _ & H).
  destruct i as [|i].
  - injection Ha as <-. symmetry. eapply contiguous_first; eauto.
  - eapply IH; eauto.
Qed.

Lemma contiguous_each : forall ss t a,
  contiguous_from t ss -> In a ss ->
  u_start a <= u_end a /\ u_end a = u_start a + u_dur a.
Proof.
  induction ss as [|s ss IH]; intros t a H Ha; [destruct Ha |].
  destruct H as (H1 & H2 & H3 & H4 & H).
  destruct Ha as [<- | Ha]; [| eapply IH; eauto].
  rewrite H1, H2. split; [lra | reflexivity].
Qed.

Lemma contiguous_sum : forall ss t a,
  contiguous_from t ss -> last ss = Some a ->
  t + sum_of (map u_dur ss) == u_end a.
Proof.
  induction ss as [|s ss IH]; intros t a H Ha; [discriminate |].
  destruct H as (H1 & H2 & H3 & H4 & H).
  unfold sum_of. simpl. rewrite sum_from.
  destruct ss as [|s' ss].
  - injection Ha as <-. rewrite H2. unfold sum_of. simpl. ring.
  - rewrite <- (IH _ a H) by exact Ha. rewrite H2. ring.
Qed.

(** C1, as amended.  The syllables that [add_syls] stores in a line
    follow one another: the first starts at 0, each ends where the next
    starts, each lasts from its start for its duration, and the
    durations sum to the end time of the last syllable.  The duration of
    the line is left as it was; nothing relates it to that sum. *)
Theorem add_syls_contiguous (font : Font) (vertical_kanji : bool)
  (self self' : Line.t)
  (Hrun : Line.add_syls font vertical_kanji self = Ok self') :
  exists ss,
    Line.syls self' = Some ss /\
    (forall a, ss !! 0%nat = Some a -> u_start a = 0) /\
    (forall i a b, ss !! i = Some a -> ss !! S i = Some b -> u_end a = u_start b) /\
    (forall a, In a ss -> u_start a <= u_end a /\ u_end a = u_start a + u_dur a) /\
    (forall a, last ss = Some a -> sum_of (map u_dur ss) == u_end a) /\
    duration (Line.base self') = duration (Line.base self).
Proof.
  unfold Line.add_syls in Hrun.
  destruct (new_syls_contiguous font _ 0%nat 0%nat (PTime.of_number 0)
              (syldata_int (Line.karaoke_text (Line.raw_text self))))
    as (ss0 & E & C0); [discriminate |].
  rewrite E in Hrun. simpl in Hrun.
  apply place_syls_timing in Hrun. destruct Hrun as (Hb & ss & Hs & F).
  pose proof (contiguous_same_timing _ _ _ F C0) as C.
  exists ss. split; [exact Hs |].
  split; [intros a Ha; exact (contiguous_first _ _ _ C Ha) |].
  split; [intros j a b; exact (contiguous_next _ _ _ _ _ C) |].
  split; [intros a; exact (contiguous_each _ _ _ C) |].
  split; [| now rewrite Hb].
  intros a Ha. rewrite <- (contiguous_sum _ _ _ C Ha).
  change (PTime.of_number 0) with 0. ring.
Qed.

Lemma add_syls_contiguous_witness :
  exists s1 s2,
    Line.syls Samples.after_syls1 = Some [s1; s2] /\
    u_start s1 = 0 /\ u_end s1 = u_start s2 /\
    sum_of (map u_dur [s1; s2]) == u_end s2.
Proof.
  destruct (add_syls_contiguous Samples.font0 false Samples.before_syls1
              Samples.after_syls1 ltac:(vm_compute; reflexivity))
    as (ss & Hs & H0 & Hn & _ & Hsum & _).
  injection Hs as <-.
  do 2 eexists. split; [reflexivity |].
  split; [apply H0; reflexivity |].
  split; [apply (Hn 0%nat); reflexivity |].
  apply Hsum. reflexivity.
Defined.

(** C1 as stated fails on the sum: the two syllables of
    [{\k50}Hel{\k50}lo] last half a second each, one second in all,
    while the line read from [0:00:01.00,0:00:03.00] lasts two. *)
Lemma syllable_sum_counterexample :
  Line.from_text Samples.no_assts Samples.dialogue1 0 Samples.fps0
    (Some Samples.meta0) [Style.get_default] false = Ok Samples.parsed1 /\
  (do line <- Line.add_data Samples.font0 Samples.parsed1;
   Line.add_words Samples.font0 line) = Ok Samples.before_syls1 /\
  Line.add_syls Samples.font0 false Samples.before_syls1 = Ok Samples.after_syls1 /\
  exists ss,
    Line.syls Samples.after_syls1 = Some ss /\ (1 <= length ss)%nat /\
    sum_of (map u_dur ss) == 1 /\
    duration (Line.base Samples.after_syls1) == 2 /\
    ~ Qabs (sum_of (map u_dur ss) - duration (Line.base Samples.after_syls1))
        <= 1 # 2.
Proof.
  split; [vm_compute; reflexivity |].
  split; [vm_compute; reflexivity |].
  split; [vm_compute; reflexivity |].
  eexists. split; [reflexivity |].
  split; [simpl; lia |].
  split; [vm_compute; reflexivity |]. split; [vm_compute; reflexivity |].
  vm_compute. intros H. apply H. reflexivity.
Qed.

(** ** The first end-to-end scenario *)

(** Replaces a closed subterm by its value. *)
Ltac vm_eval t :=
  let v := eval vm_compute in t in
  replace t with v by (vm_compute; reflexivity).

Ltac vm_eval_in t H :=
  let v := eval vm_compute in t in
  replace t with v in H by (vm_compute; reflexivity).

(** C3.  Read with [fix_timestamps = False] at 24000/1001 fps, the line
    [Dialogue: 0,0:00:01.00,0:00:03.00,Default,,0,0,0,,{\k50}Hel{\k50}lo]
    lasts 2 seconds, and [add_syls] on a line with that raw text stores
    exactly two syllables, [Hel] and [lo], of half a second each; with
    the sample font and the default style the whole run succeeds. *)
Theorem scenario_two_syllables :
  (forall from_assts i meta styles,
     exists line,
       Line.from_text from_assts Samples.dialogue1 i Samples.fps0 meta styles
         false = Ok line /\
       Line.raw_text line = Samples.karaoke1 /\
       start_time (Line.base line) == 1 /\ end_time (Line.base line) == 3 /\
       duration (Line.base line) == 2) /\
  (forall font vertical_kanji self self',
     Line.raw_text self = Samples.karaoke1 ->
     Line.add_syls font vertical_kanji self = Ok self' ->
     exists s1 s2,
       Line.syls self' = Some [s1; s2] /\
       text (Unit.base s1) = "Hel" /\ text (Unit.base s2) = "lo" /\
       u_dur s1 == 1 # 2 /\ u_dur s2 == 1 # 2 /\
       duration (Line.base self') = duration (Line.base self)) /\
  Line.from_text Samples.no_assts Samples.dialogue1 0 Samples.fps0
    (Some Samples.meta0) [Style.get_default] false = Ok Samples.parsed1 /\
  (do line <- Line.add_data Samples.font0 Samples.parsed1;
   Line.add_words Samples.font0 line) = Ok Samples.before_syls1 /\
  Line.add_syls Samples.font0 false Samples.before_syls1 = Ok Samples.after_syls1.
Proof.
  split; [| split; [| repeat split; vm_compute; reflexivity]].
  - intros from_assts i meta styles. unfold Line.from_text.
    vm_eval (Re.re_match false Line.line_pattern (chars Samples.dialogue1)).
    cbv beta iota.
    match goal with
    | |- context [PyStr.split ?sep ?t] => vm_eval (PyStr.split sep t)
    end.
    cbv beta iota zeta.
    repeat match goal with
           | |- context [Line.field ?l ?n] => vm_eval (Line.field l n)
           end.
    simpl rbind.
    repeat match goal with
           | |- context [Line.int ?t] => vm_eval (Line.int t)
           | |- context [PTime.from_ts ?t] => vm_eval (PTime.from_ts t)
           end.
    simpl rbind.
    destruct styles as [|sty styles]; simpl rbind;
      eexists; (split; [reflexivity |]); simpl;
      (split; [vm_compute; reflexivity |]); repeat split; vm_compute; reflexivity.
  - intros font vk self self' Hraw Hrun.
    unfold Line.add_syls in Hrun. rewrite Hraw in Hrun.
    vm_eval_in (Re.finditer false Line.syldata (Line.karaoke_text Samples.karaoke1))
               Hrun.
    match type of Hrun with
    | context [Line.new_syls ?f ?a ?b ?c ?ks] =>
        vm_eval_in (Line.new_syls f a b c ks) Hrun
    end.
    simpl rbind in Hrun.
    apply place_syls_timing in Hrun. destruct Hrun as (Hb & ss & Hs & F).
    inversion F as [| a1 s1 l1 l1' T1 F1]; subst.
    inversion F1 as [| a2 s2 l2 l2' T2 F2]; subst.
    inversion F2; subst.
    destruct T1 as (_ & _ & D1 & X1). destruct T2 as (_ & _ & D2 & X2).
    exists s1, s2. split; [exact Hs |].
    rewrite <- X1, <- X2, <- D1, <- D2, Hb.
    repeat split; vm_compute; reflexivity.
Qed.

End SylFacts.

(** * Properties of the leads computed by [Ass.__init__] *)

Module LeadFacts.
Import Core LeadProps.

(** ** The decomposition passes keep the times and the style of a line *)

Lemma same_line_refl a : same_line a a.
Proof. repeat split. Qed.

Lemma same_line_trans a b c : same_line a b -> same_line b c -> same_line a c.
Proof. intros (A1 & A2 & A3) (B1 & B2 & B3). repeat split; congruence. Qed.

Lemma same_line_base a b : Line.base a = Line.base b -> same_line a b.
Proof. intros E. unfold same_line. now rewrite E. Qed.

Lemma add_data_same font self self' :
  Line.add_data font self = Ok self' -> same_line self self'.
Proof.
  unfold Line.add_data. intros H. inv_ok H.
  destruct v as [[[rx ry] sty]|]; simpl in H.
  - injection H as <-. repeat split.
  - injection H as <-. repeat split.
Qed.

Lemma add_words_same font self self' :
  Line.add_words font self = Ok self' -> same_line self self'.
Proof.
  unfold Line.add_words, Line.place_words. intros H. inv_ok H. inv_ok H.
  destruct v0 as [[[rx ry] sty]|].
  - destruct (_ || _).
    + inv_ok H. inv_ok H. injection H as <-. repeat split.
    + do 4 inv_ok H. injection H as <-. repeat split.
  - injection H as <-. repeat split.
Qed.

Lemma add_syls_same font vk self self' :
  Line.add_syls font vk self = Ok self' -> same_line self self'.
Proof.
  unfold Line.add_syls. intros H. inv_ok H.
  apply SylFacts.place_syls_timing in H. destruct H as (E & _).
  apply same_line_base. now rewrite E.
Qed.

Lemma fix_line_same self sty ry mw sh cy self' :
  Line.fix_line self sty ry mw sh cy = Ok self' -> same_line self self'.
Proof.
  unfold Line.fix_line. intros H.
  destruct (_ =? 4)%Z; [| destruct (_ =? 5)%Z];
    inv_ok H; injection H as <-; repeat split.
Qed.

Lemma add_chars_same font vk self self' :
  Line.add_chars font vk self = Ok self' -> same_line self self'.
Proof.
  unfold Line.add_chars. intros H. inv_ok H. inv_ok H.
  assert (P : forall cs l,
    Line.place_chars vk (Line.set_chars (Line.set_chars self []) cs) cs = Ok l ->
    same_line self l).
  { intros cs l Hp. unfold Line.place_chars in Hp. inv_ok Hp.
    destruct v1 as [[m sty]|].
    - destruct (_ || _ || negb vk).
      + inv_ok Hp. inv_ok Hp. injection Hp as <-. repeat split.
      + do 7 inv_ok Hp. injection Hp as <-.
        match goal with
        | F : Line.fix_line _ _ _ _ _ _ = Ok _ |- _ =>
            apply fix_line_same in F; destruct F as (A & B & C)
        end.
        repeat split; simpl in *; congruence.
    - injection Hp as <-. repeat split. }
  destruct v as [|s ss]; destruct v0 as [|w ws];
    try (injection H as <-; repeat split);
    inv_ok H; eapply P; eauto.
Qed.

(** ** The groups built by the decomposition loop *)

Lemma members_append_to n i m : forall g,
  members m (Ass.append_to n i g) =
  if String.eqb n m then members m g ++ [i] else members m g.
Proof.
  induction g as [|[k ls] g IH]; simpl.
  - destruct (String.eqb n m); reflexivity.
  - destruct (String.eqb_spec k n) as [-> | Hkn]; simpl.
    + destruct (String.eqb n m); reflexivity.
    + destruct (String.eqb_spec k m) as [-> | Hkm].
      * destruct (String.eqb_spec n m); [congruence | reflexivity].
      * apply IH.
Qed.

Lemma keys_append_to n i : forall g,
  NoDup (map fst g) ->
  NoDup (map fst (Ass.append_to n i g)) /\
  forall k, k ∈ map fst (Ass.append_to n i g) -> k = n \/ k ∈ map fst g.
Proof.
  induction g as [|[k ls] g IH]; simpl; intros ND.
  - split.
    + apply NoDup_cons. split; [apply not_elem_of_nil | apply NoDup_nil_2].
    + intros k H. apply elem_of_cons in H. destruct H; auto.
  - apply NoDup_cons in ND. destruct ND as [Hk ND].
    destruct (String.eqb_spec k n) as [-> | Hkn]; simpl.
    + split; [apply NoDup_cons; auto | intros k H; auto].
    + destruct (IH ND) as [ND' Hin]. split.
      * apply NoDup_cons. split; [| exact ND'].
        intros H. apply Hin in H. destruct H; [congruence | contradiction].
      * intros k' H. apply elem_of_cons in H. destruct H as [-> | H].
        -- right. apply elem_of_cons. auto.
        -- apply Hin in H. destruct H; [auto | right; apply elem_of_cons; auto].
Qed.

Lemma nonempty_append_to n i : forall g,
  Forall (fun ng => snd ng <> []) g ->
  Forall (fun ng => snd ng <> []) (Ass.append_to n i g).
Proof.
  induction g as [|[k ls] g IH]; simpl; intros F.
  - repeat constructor. discriminate.
  - inversion F; subst. destruct (String.eqb k n); constructor; auto.
    simpl. destruct ls; discriminate.
Qed.

Lemma indices_of_ge n : forall lines idx i,
  In i (indices_of n idx lines) -> (idx <= i)%nat.
Proof.
  induction lines as [|l ls IH]; intros idx i H; simpl in H; [destruct H |].
  destruct (style_name l) as [m|]; [destruct (String.eqb m n) |];
    try (destruct H as [<- | H]; [lia |]); apply IH in H; lia.
Qed.

Section Decompose.
Variable get_font : Style.t -> Font.
Variable vertical_kanji : bool.

Lemma decompose_spec : forall lines idx g lines1 g1,
  Ass.decompose get_font vertical_kanji idx lines g = Ok (lines1, g1) ->
  Forall2 same_line lines lines1 /\
  (forall n, members n g1 = members n g ++ indices_of n idx lines) /\
  (NoDup (map fst g) -> NoDup (map fst g1)) /\
  (Forall (fun ng => snd ng <> []) g -> Forall (fun ng => snd ng <> []) g1).
Proof.
  induction lines as [|l ls IH]; intros idx g lines1 g1 H; simpl in H.
  - injection H as <- <-. split; [constructor |].
    split; [intros n; now rewrite app_nil_r | auto].
  - unfold style_name in *.
    destruct (style (Line.base l)) as [sty|] eqn:Es.
    + do 5 inv_ok H. injection H as <- <-. destruct v3 as [ls1 g2]. simpl.
      apply IH in H4. destruct H4 as (F & M & K & N).
      split; [| split; [| split]].
      * constructor; [| exact F].
        eapply same_line_trans; [eapply add_data_same; eauto |].
        eapply same_line_trans; [eapply add_words_same; eauto |].
        eapply same_line_trans; [eapply add_syls_same; eauto |].
        eapply add_chars_same; eauto.
      * intros n. rewrite M, members_append_to. simpl.
        unfold style_name. rewrite Es. simpl.
        destruct (String.eqb (Style.name sty) n); [| reflexivity].
        now rewrite <- app_assoc.
      * intros ND. apply K. now apply keys_append_to.
      * intros NE. apply N. now apply nonempty_append_to.
    + inv_ok H. injection H as <- <-. destruct v as [ls1 g2]. simpl.
      apply IH in H0. destruct H0 as (F & M & K & N).
      split; [| split; [| split]]; auto.
      * constructor; [apply same_line_refl | exact F].
      * intros n. rewrite M. simpl. unfold style_name. now rewrite Es.
Qed.

End Decompose.

(** ** The triples of [zip_offset] *)

Lemma zip_longest3_triples {A} : forall (l : list A) p,
  Ass.zip_longest3 (S (length l)) (p :: map Some l) (map Some l)
    (map Some (tail l)) = triples p l.
Proof.
  induction l as [|a l IH]; intros p; [reflexivity |].
  change (Ass.zip_longest3 (S (length (a :: l))) (p :: map Some (a :: l))
            (map Some (a :: l)) (map Some (tail (a :: l))))
    with ((p, Some a, mjoin (head (map Some l)))
          :: Ass.zip_longest3 (S (length l)) (Some a :: map Some l) (map Some l)
               (tail (map Some l))).
  simpl triples. f_equal.
  - destruct l; reflexivity.
  - rewrite <- IH. destruct l; reflexivity.
Qed.

Lemma zip_offset3_triples {A} (l : list A) : Ass.zip_offset3 l = triples None l.
Proof. apply zip_longest3_triples. Qed.

Lemma curs_triples : forall l p, omap cur_of (triples p l) = l.
Proof.
  induction l as [|a l IH]; intros p; simpl; [reflexivity |]. now rewrite IH.
Qed.

Lemma in_triples : forall (l : list nat) p j c,
  l !! j = Some c ->
  (match j with O => p | S j' => l !! j' end, Some c, l !! S j) ∈ triples p l.
Proof.
  induction l as [|a l IH]; intros p j c H; [discriminate |].
  destruct j as [|j]; simpl in *.
  - injection H as ->. replace (l !! 0%nat) with (head l) by (now destruct l).
    apply elem_of_cons. now left.
  - apply elem_of_cons. right.
    specialize (IH (Some a) j c H).
    destruct j as [|j]; exact IH.
Qed.

(** ** The loop that assigns the leads *)

Lemma set_lead_cur d L pre c post l :
  L !! c = Some l ->
  Ass.set_lead d L (pre, Some c, post) =
  <[c := Line.set_leads l (lead_in d L pre l) (lead_out d L post l)]> L.
Proof. intros H. unfold Ass.set_lead, lead_in, lead_out. now rewrite H. Qed.

Lemma same_lines_refl L : Forall2 same_line L L.
Proof. induction L; constructor; auto using same_line_refl. Qed.

Lemma same_lines_trans L1 L2 L3 :
  Forall2 same_line L1 L2 -> Forall2 same_line L2 L3 -> Forall2 same_line L1 L3.
Proof.
  intros H. revert L3. induction H; intros L3 H3; inversion H3; subst;
    constructor; eauto using same_line_trans.
Qed.

Lemma same_lines_lookup L L1 i :
  Forall2 same_line L L1 ->
  match L !! i, L1 !! i with
  | Some a, Some b => same_line a b
  | None, None => True
  | _, _ => False
  end.
Proof.
  intros H. revert i. induction H as [|a b L L1 Hab H IH]; intros [|i]; simpl; auto.
  apply IH.
Qed.

Lemma lead_in_same d L L1 pre l l1 :
  Forall2 same_line L L1 -> same_line l l1 ->
  lead_in d L pre l = lead_in d L1 pre l1.
Proof.
  intros HL (_ & Hs & _). unfold lead_in. destruct pre as [p|]; simpl; [| reflexivity].
  pose proof (same_lines_lookup L L1 p HL) as H.
  destruct (L !! p), (L1 !! p); try contradiction; [| reflexivity].
  destruct H as (_ & _ & He). now rewrite Hs, He.
Qed.

Lemma lead_out_same d L L1 post l l1 :
  Forall2 same_line L L1 -> same_line l l1 ->
  lead_out d L post l = lead_out d L1 post l1.
Proof.
  intros HL (_ & _ & He). unfold lead_out. destruct post as [p|]; simpl; [| reflexivity].
  pose proof (same_lines_lookup L L1 p HL) as H.
  destruct (L !! p), (L1 !! p); try contradiction; [| reflexivity].
  destruct H as (_ & Hs & _). now rewrite Hs, He.
Qed.

Lemma set_lead_same d L z : Forall2 same_line L (Ass.set_lead d L z).
Proof.
  destruct z as [[pre [c|]] post]; simpl; [| apply same_lines_refl].
  destruct (L !! c) as [l|] eqn:E; [| apply same_lines_refl].
  rewrite <- (list_insert_id L c l E) at 1.
  apply Forall2_insert; [apply same_lines_refl | repeat split].
Qed.

Lemma set_lead_other d L z c :
  cur_of z <> Some c -> Ass.set_lead d L z !! c = L !! c.
Proof.
  destruct z as [[pre [c0|]] post]; unfold cur_of; simpl; intros H;
    [| reflexivity].
  destruct (L !! c0) as [l|] eqn:E; [| reflexivity].
  apply list_lookup_insert_ne. congruence.
Qed.

Lemma fold_leads d : forall T L,
  Forall2 same_line L (fold_left (Ass.set_lead d) T L) /\
  (forall c, c ∉ omap cur_of T ->
     fold_left (Ass.set_lead d) T L !! c = L !! c) /\
  (NoDup (omap cur_of T) ->
   forall pre c post l,
     (pre, Some c, post) ∈ T -> L !! c = Some l ->
     fold_left (Ass.set_lead d) T L !! c =
     Some (Line.set_leads l (lead_in d L pre l) (lead_out d L post l))).
Proof.
  induction T as [|z T IH]; intros L; simpl.
  - split; [apply same_lines_refl |]. split; [reflexivity |].
    intros _ pre c post l H. now apply elem_of_nil in H.
  - destruct (IH (Ass.set_lead d L z)) as (S1 & O1 & M1).
    pose proof (set_lead_same d L z) as S0.
    split; [eapply same_lines_trans; eauto |]. split.
    + intros c Hc. rewrite O1.
      * apply set_lead_other. intros E. apply Hc.
        destruct z as [[p0 c0] q0]. unfold cur_of in *. simpl in *.
        rewrite E. apply elem_of_cons. now left.
      * intros E. apply Hc.
        destruct z as [[p0 [c0|]] q0]; unfold cur_of at 1; simpl;
          [apply elem_of_cons; now right | exact E].
    + intros ND pre c post l Hin Hl.
      apply elem_of_cons in Hin. destruct Hin as [<- | Hin].
      * simpl in ND. apply NoDup_cons in ND. destruct ND as [Hc _].
        rewrite O1 by exact Hc.
        rewrite (set_lead_cur d L pre c post l Hl).
        apply list_lookup_insert_eq. now apply lookup_lt_Some in Hl.
      * assert (Hz : cur_of z <> Some c /\ NoDup (omap cur_of T)).
        { destruct z as [[p0 [c0|]] q0]; unfold cur_of in ND at 1; simpl in *.
          - apply NoDup_cons in ND. destruct ND as [Hc ND]. split; [| exact ND].
            intros [= ->]. apply Hc.
            apply list_elem_of_omap. exists (pre, Some c, post). auto.
          - split; [discriminate | exact ND]. }
        destruct Hz as [Hz ND'].
        rewrite (M1 ND' pre c post l Hin).
        -- now rewrite <- (lead_in_same d L _ pre l l S0 (same_line_refl l)),
                       <- (lead_out_same d L _ post l l S0 (same_line_refl l)).
        -- now rewrite set_lead_other.
Qed.

(** ** The groups hold the lines of each style, each line once *)

Lemma members_of_group : forall g n ls,
  NoDup (map fst g) -> (n, ls) ∈ g -> members n g = ls.
Proof.
  induction g as [|[k ks] g IH]; intros n ls ND H; [now apply elem_of_nil in H |].
  simpl in ND. apply NoDup_cons in ND. destruct ND as [Hk ND].
  apply elem_of_cons in H. simpl. destruct H as [[= <- <-] | H].
  - now rewrite String.eqb_refl.
  - destruct (String.eqb_spec k n) as [-> | _]; [| now apply IH].
    exfalso. apply Hk. apply list_elem_of_fmap. exists (n, ls). auto.
Qed.

Lemma group_of_members : forall g n,
  members n g <> [] -> (n, members n g) ∈ g.
Proof.
  induction g as [|[k ks] g IH]; intros n H; simpl in *; [congruence |].
  apply elem_of_cons.
  destruct (String.eqb_spec k n) as [-> | _]; [now left | right; auto].
Qed.

Lemma indices_of_name n : forall lines idx i,
  i ∈ indices_of n idx lines ->
  exists l, lines !! (i - idx)%nat = Some l /\ style_name l = Some n.
Proof.
  induction lines as [|l ls IH]; intros idx i H; simpl in H;
    [now apply elem_of_nil in H |].
  assert (T : i ∈ indices_of n (S idx) ls ->
              exists l0, (l :: ls) !! (i - idx)%nat = Some l0 /\ style_name l0 = Some n).
  { intros Hi. pose proof (indices_of_ge n ls (S idx) i) as G.
    rewrite <- list_elem_of_In in G. specialize (G Hi).
    destruct (IH _ _ Hi) as (l0 & E & N). exists l0. split; [| exact N].
    replace (i - idx)%nat with (S (i - S idx)) by lia. exact E. }
  destruct (style_name l) as [m|] eqn:E; [| auto].
  destruct (String.eqb_spec m n) as [-> | _]; [| auto].
  apply elem_of_cons in H. destruct H as [-> | H]; [| auto].
  exists l. rewrite Nat.sub_diag. auto.
Qed.

Lemma indices_of_NoDup n : forall lines idx, NoDup (indices_of n idx lines).
Proof.
  induction lines as [|l ls IH]; intros idx; simpl; [apply NoDup_nil_2 |].
  destruct (style_name l) as [m|]; [destruct (String.eqb m n) |]; auto.
  apply NoDup_cons. split; [| auto].
  intros H. apply list_elem_of_In, indices_of_ge in H. lia.
Qed.

Lemma groups_NoDup lines : forall g,
  NoDup (map fst g) ->
  (forall n ls, (n, ls) ∈ g -> ls = indices_of n 0 lines) ->
  NoDup (concat (map snd g)).
Proof.
  induction g as [|[k ks] g IH]; intros ND H; simpl; [apply NoDup_nil_2 |].
  simpl in ND. apply NoDup_cons in ND. destruct ND as [Hk ND].
  assert (Ek : ks = indices_of k 0 lines) by (apply H, elem_of_cons; now left).
  apply NoDup_app. split; [rewrite Ek; apply indices_of_NoDup |].
  split; [| apply IH; [exact ND | intros n ls Hn; apply H, elem_of_cons; now right]].
  intros i Hi Hc. rewrite Ek in Hi.
  apply list_elem_of_In, in_concat in Hc. destruct Hc as (ls & Hls & Hils).
  apply list_elem_of_In in Hils.
  apply list_elem_of_In, list_elem_of_fmap in Hls.
  destruct Hls as ([n ls'] & -> & Hg).
  simpl in Hils.
  rewrite (H n ls') in Hils by (apply elem_of_cons; now right).
  apply indices_of_name in Hi, Hils.
  destruct Hi as (l1 & E1 & N1), Hils as (l2 & E2 & N2).
  assert (k = n) by congruence. subst n.
  apply Hk. apply list_elem_of_fmap. exists (k, ls'). auto.
Qed.

Lemma curs_of_groups : forall g : list (string * list nat),
  omap cur_of (flat_map (fun ng => Ass.zip_offset3 (snd ng)) g)
  = concat (map snd g).
Proof.
  induction g as [|[k ks] g IH]; [reflexivity |].
  cbn [flat_map map concat snd].
  now rewrite omap_app, IH, zip_offset3_triples, curs_triples.
Qed.

(** C6, as amended.  After the extended part of [Ass.__init__], for the
    lines of one style name taken in their original order: the lead-in
    of a line is its start time minus the end time of the line just
    before it in that style, its lead-out is the start time of the line
    just after it in that style minus its own end time (both as [Time]
    differences), and where there is no such neighbour the lead is
    [1 / fps * round(fps)], that is [round(fps)] frames, about one
    second. *)
Theorem leads_within_style (get_font : Style.t -> Font) (vertical_kanji : bool)
  (fps : Q) (lines lines' : list Line.t)
  (Hrun : Ass.init_extended get_font vertical_kanji fps lines = Ok lines') :
  exists d,
    Ass.default_lead fps = Ok d /\
    d == inject_Z (PyNum.round fps) / fps /\
    Forall2 same_line lines lines' /\
    forall sname j c l,
      indices_of sname 0 lines !! j = Some c -> lines !! c = Some l ->
      exists l',
        lines' !! c = Some l' /\
        (j = 0%nat -> Line.leadin l' = Some d) /\
        (forall j' p lp,
           j = S j' -> indices_of sname 0 lines !! j' = Some p ->
           lines !! p = Some lp ->
           Line.leadin l' =
           Some (PTime.sub (start_time (Line.base l)) (end_time (Line.base lp)))) /\
        (indices_of sname 0 lines !! S j = None -> Line.leadout l' = Some d) /\
        (forall n ln,
           indices_of sname 0 lines !! S j = Some n -> lines !! n = Some ln ->
           Line.leadout l' =
           Some (PTime.sub (start_time (Line.base ln)) (end_time (Line.base l)))).
Proof.
  unfold Ass.init_extended in Hrun. inv_ok Hrun. inv_ok Hrun.
  injection Hrun as <-. destruct v as [lines1 g1]. simpl.
  apply decompose_spec in Hrun0. destruct Hrun0 as (F & M & K & _).
  specialize (K (NoDup_nil_2 (A:=string))).
  assert (G : forall n ls, (n, ls) ∈ g1 -> ls = indices_of n 0 lines).
  { intros n ls H. rewrite <- (members_of_group g1 n ls K H). now rewrite M. }
  destruct (fold_leads v0 (flat_map (fun ng => Ass.zip_offset3 (snd ng)) g1) lines1)
    as (S1 & _ & M1).
  rewrite curs_of_groups in M1. specialize (M1 (groups_NoDup lines g1 K G)).
  exists v0. split; [exact Hrun1 |]. split.
  { unfold Ass.default_lead, PyNum.div in Hrun1.
    destruct (Qeq_bool fps 0) eqn:E; [discriminate |].
    simpl in Hrun1. injection Hrun1 as <-.
    apply Qeq_bool_neq in E. field. exact E. }
  split; [eapply same_lines_trans; eauto |].
  intros sname j c l Hj Hl.
  pose proof (same_lines_lookup lines lines1 c F) as Hc. rewrite Hl in Hc.
  destruct (lines1 !! c) as [l1|] eqn:El1; [| contradiction].
  assert (Hin : (match j with O => None | S j' => indices_of sname 0 lines !! j' end,
                 Some c, indices_of sname 0 lines !! S j)
                ∈ flat_map (fun ng => Ass.zip_offset3 (snd ng)) g1).
  { apply list_elem_of_In, in_flat_map.
    exists (sname, members sname g1). split.
    - apply list_elem_of_In, group_of_members. rewrite M. simpl.
      intros E. rewrite E in Hj. discriminate.
    - cbn [snd]. rewrite zip_offset3_triples, M. cbn [members app].
      apply list_elem_of_In. now apply in_triples. }
  specialize (M1 _ _ _ l1 Hin El1).
  unfold Ass.add_leads. rewrite M1.
  eexists. split; [reflexivity |]. simpl.
  rewrite <- (lead_in_same v0 lines lines1 _ l l1 F Hc).
  rewrite <- (lead_out_same v0 lines lines1 _ l l1 F Hc).
  unfold lead_in, lead_out.
  split; [intros ->; reflexivity |].
  split; [intros j' p lp -> Hp Hlp; rewrite Hp; simpl; now rewrite Hlp |].
  split; [intros ->; reflexivity |].
  intros n ln Hn Hln. rewrite Hn. simpl. now rewrite Hln.
Qed.

Lemma leads_within_style_witness :
  exists d l0 l1 l2 gap,
    Samples.doc_loaded = [l0; l1; l2] /\
    Ass.default_lead Samples.fps0 = Ok d /\
    Line.leadin l0 = Some d /\
    Line.leadout l0 = Some gap /\
    Line.leadin l2 = Some gap /\
    Line.leadout l2 = Some d /\
    gap == 2.
Proof.
  destruct (leads_within_style Samples.get_font0 false Samples.fps0
              Samples.doc_lines Samples.doc_loaded
              ltac:(vm_compute; reflexivity))
    as (d & Hd & _ & _ & H).
  destruct (H "Default" 0%nat 0%nat _ eq_refl eq_refl)
    as (l0 & E0 & In0 & _ & _ & Out0).
  destruct (H "Default" 1%nat 2%nat _ eq_refl eq_refl)
    as (l2 & E2 & _ & In2 & Out2 & _).
  injection E0 as <-. injection E2 as <-.
  exists d. do 4 eexists. split; [reflexivity |].
  split; [exact Hd |].
  split; [apply In0; reflexivity |].
  split; [exact (Out0 2%nat _ eq_refl eq_refl) |].
  split; [exact (In2 0%nat 0%nat _ eq_refl eq_refl eq_refl) |].
  split; [apply Out2; reflexivity |].
  vm_compute. reflexivity.
Defined.

(** C6 as stated fails on the default: a document made of the single
    line of scenario 1, at 24000/1001 fps, gets a lead-in and a lead-out
    of 1.001 seconds, which is 24 frames and not the duration of one
    frame. *)
Lemma default_lead_counterexample :
  exists l' d,
    Ass.init_extended Samples.get_font0 false Samples.fps0 [Samples.parsed1]
      = Ok [l'] /\
    Line.leadin l' = Some d /\ Line.leadout l' = Some d /\
    d == 1001 # 1000 /\
    ~ d == 1 / Samples.fps0.
Proof.
  do 2 eexists. split; [vm_compute; reflexivity |].
  split; [reflexivity |]. split; [reflexivity |].
  split; [reflexivity | discriminate].
Qed.

End LeadFacts.

(** * Properties of the Meta sections: decoding and encoding *)

Module GreedyFacts.
Import PyStr Re GreedyProps.

Lemma star_greedy ml p k : forall txt n bef cs,
  (length txt < n)%nat ->
  star_loop (rmatch ml (Chr p)) true k n (mkState bef txt cs)
  = greedy p k bef txt cs.
Proof.
  induction txt as [|c tl IH]; intros n bef cs Hn;
    (destruct n as [|n]; [simpl in Hn; lia |]); simpl.
  - reflexivity.
  - destruct (p c); [| reflexivity].
    replace (length tl <? S (length tl))%nat with true
      by (symmetry; apply Nat.ltb_lt; lia).
    rewrite IH by (simpl in Hn; lia). reflexivity.
Qed.

Lemma rmatch_star_greedy ml p k bef txt cs :
  rmatch ml (Star true (Chr p)) (mkState bef txt cs) k
  = greedy p k bef txt cs.
Proof.
  change (star_loop (rmatch ml (Chr p)) true k (S (length txt))
            (mkState bef txt cs) = greedy p k bef txt cs).
  apply star_greedy. lia.
Qed.

(** No way back is needed when the continuation accepts the longest run. *)
Lemma greedy_longest p k cs r : forall a bef c,
  Forall (fun x => p x = true) a -> stops p c ->
  k (mkState (rev a ++ bef) c cs) = Some r ->
  greedy p k bef (a ++ c) cs = Some r.
Proof.
  induction a as [|x a IH]; intros bef c Fa Hc Hk; simpl in *.
  - destruct c as [|y c]; simpl; [exact Hk |]. simpl in Hc. now rewrite Hc.
  - inversion Fa as [|? ? Hx Fa']; subst. rewrite Hx.
    rewrite (IH (x :: bef) c Fa' Hc); [reflexivity |].
    now rewrite <- app_assoc in Hk.
Qed.

(** When the continuation refuses every way of taking some of [b], the
    run over [b] comes back to its start. *)
Lemma greedy_refused p k cs : forall b bef c,
  Forall (fun x => p x = true) b -> stops p c ->
  (forall b1 b2, b = b1 ++ b2 -> b1 <> [] ->
     k (mkState (rev b1 ++ bef) (b2 ++ c) cs) = None) ->
  greedy p k bef (b ++ c) cs = k (mkState bef (b ++ c) cs).
Proof.
  induction b as [|x b IH]; intros bef c Fb Hc Hk; simpl.
  - destruct c as [|y c]; simpl; [reflexivity |]. simpl in Hc. now rewrite Hc.
  - inversion Fb as [|? ? Hx Fb']; subst. rewrite Hx.
    rewrite (IH (x :: bef) c Fb' Hc).
    + pose proof (Hk [x] b eq_refl ltac:(discriminate)) as H0.
      simpl in H0. now rewrite H0.
    + intros b1 b2 E Hne. specialize (Hk (x :: b1) b2).
      simpl in Hk. rewrite <- app_assoc in Hk. simpl in Hk.
      apply Hk; [now rewrite E | discriminate].
Qed.

(** The run comes back to the split after [a] when the continuation
    accepts there and refuses every longer split. *)
Lemma greedy_back p k cs r : forall a bef b c,
  Forall (fun x => p x = true) a -> Forall (fun x => p x = true) b ->
  stops p c ->
  (forall b1 b2, b = b1 ++ b2 -> b1 <> [] ->
     k (mkState (rev b1 ++ rev a ++ bef) (b2 ++ c) cs) = None) ->
  k (mkState (rev a ++ bef) (b ++ c) cs) = Some r ->
  greedy p k bef (a ++ b ++ c) cs = Some r.
Proof.
  induction a as [|x a IH]; intros bef b c Fa Fb Hc Hno Hk; simpl in *.
  - rewrite greedy_refused; auto.
  - inversion Fa as [|? ? Hx Fa']; subst. rewrite Hx.
    rewrite (IH (x :: bef) b c Fa' Fb Hc); [reflexivity | |].
    + intros b1 b2 E Hne. specialize (Hno b1 b2 E Hne).
      now rewrite <- app_assoc in Hno.
    + now rewrite <- app_assoc in Hk.
Qed.

(** A literal matches exactly where the text starts with it. *)
Lemma rmatch_lit ml k : forall w bef txt cs,
  rmatch ml (Lit w) (mkState bef txt cs) k =
  if startswith w txt
  then k (mkState (rev w ++ bef) (skipn (length w) txt) cs)
  else None.
Proof.
  induction w as [|c w IH]; intros bef txt cs; simpl.
  - destruct txt; reflexivity.
  - destruct txt as [|x txt]; [reflexivity |]. simpl.
    unfold Lit1, eqc. destruct (Ascii.eqb_spec c x) as [<- | Hne]; simpl.
    + rewrite IH. rewrite <- app_assoc. reflexivity.
    + reflexivity.
Qed.

End GreedyFacts.

Module LineMatchFacts.
Import PyStr Re GreedyFacts GreedyProps LineMatchProps.

Lemma line_end_stops tail : line_end tail -> stops dotp tail.
Proof. intros [-> | (tl & ->)]; [exact I | reflexivity]. Qed.

Lemma one_line_Forall s : one_line s = true -> Forall (fun c => dotp c = true) s.
Proof.
  unfold one_line. induction s as [|c s IH]; simpl; [constructor |].
  intros H. apply andb_true_iff in H. destruct H. constructor; auto.
Qed.

Lemma rmatch_seq ml r1 r2 s k :
  rmatch ml (Seq r1 r2) s k = rmatch ml r1 s (fun s1 => rmatch ml r2 s1 k).
Proof. reflexivity. Qed.

Lemma rmatch_group ml name r s k :
  rmatch ml (Group name r) s k = rmatch ml r s (fun s1 => k (capture name s s1)).
Proof. reflexivity. Qed.

Lemma rmatch_dots ml k bef txt cs :
  rmatch ml (Star true Dot) (mkState bef txt cs) k = greedy dotp k bef txt cs.
Proof. apply rmatch_star_greedy. Qed.

Lemma at_eol_line_end bef tail cs :
  line_end tail -> at_eol true (mkState bef tail cs) = true.
Proof.
  intros [-> | (tl & ->)]; reflexivity.
Qed.

(** The value group and the end of line, from the start of the value. *)
Lemma match_value k r bef v tail cs :
  one_line v = true -> line_end tail ->
  k (mkState (rev v ++ bef) tail (("value", v) :: cs)) = Some r ->
  rmatch true (Seq (Group "value" (Star true Dot)) Eol)
    (mkState bef (v ++ tail) cs) k = Some r.
Proof.
  intros Hv Ht Hk.
  rewrite rmatch_seq, rmatch_group, rmatch_dots.
  apply greedy_longest; [now apply one_line_Forall | now apply line_end_stops |].
  unfold capture. cbn [before rest caps rmatch].
  rewrite (at_eol_line_end _ _ _ Ht).
  now rewrite ReFacts.consumed_app.
Qed.

Lemma no_sep_in_suffix : forall v v1 v2 tail,
  contains sep v = false -> v = v1 ++ v2 -> line_end tail ->
  startswith sep (v2 ++ tail) = false.
Proof.
  intros v v1. revert v. induction v1 as [|x v1 IH]; intros v v2 tail Hc E Ht.
  - simpl in E. subst v2.
    destruct v as [|a [|b v]].
    + destruct Ht as [-> | (tl & ->)]; reflexivity.
    + destruct Ht as [-> | (tl & ->)]; simpl; apply andb_false_r.
    + simpl in Hc. apply orb_false_iff in Hc. destruct Hc as [Hc _].
      simpl. exact Hc.
  - subst v. simpl in Hc. apply orb_false_iff in Hc. destruct Hc as [_ Hc].
    eapply IH; eauto.
Qed.

Lemma no_sep_after v b1 b2 tail :
  contains sep v = false -> sep ++ v = b1 ++ b2 -> b1 <> [] -> line_end tail ->
  startswith sep (b2 ++ tail) = false.
Proof.
  intros Hc E Hne Ht.
  destruct b1 as [|x [|y b1]]; [congruence | |].
  - simpl in E. injection E as <- <-. reflexivity.
  - simpl in E. injection E as <- <- E.
    eapply no_sep_in_suffix; eauto.
Qed.

(** The pattern of [from_text] at the start of a line [key: v]: the
    name is the text before the last colon-space, the value the rest of
    the line. *)
Lemma match_line adv bef key v tail cs0 :
  at_bol true (mkState bef [] []) = true ->
  one_line key = true -> one_line v = true -> contains sep v = false ->
  line_end tail ->
  match_here true Core.MetaData.name_value adv
    (mkState bef (key ++ sep ++ v ++ tail) cs0)
  = Some (mkState (rev v ++ rev sep ++ rev key ++ bef) tail
            [("value", v); ("name", key)]).
Proof.
  intros Hbol Hkey Hv Hc Ht.
  unfold match_here, Core.MetaData.name_value. cbn [before rest].
  rewrite rmatch_seq.
  change (rmatch true Bol ?s ?k) with (if at_bol true s then k s else None).
  replace (at_bol true (mkState bef (key ++ sep ++ v ++ tail) []))
    with true by (symmetry; exact Hbol).
  rewrite rmatch_seq, rmatch_group, rmatch_dots.
  replace (key ++ sep ++ v ++ tail) with (key ++ (sep ++ v) ++ tail)
    by (now rewrite <- !app_assoc).
  apply greedy_back.
  - now apply one_line_Forall.
  - apply Forall_app. split; [repeat constructor | now apply one_line_Forall].
  - now apply line_end_stops.
  - intros b1 b2 E Hne.
    unfold capture. cbn [before rest caps].
    rewrite rmatch_seq, rmatch_lit.
    change (chars ": ") with sep.
    now rewrite (no_sep_after v b1 b2 tail Hc E Hne Ht).
  - unfold capture. cbn [before rest caps].
    rewrite rmatch_seq, rmatch_lit.
    change (chars ": ") with sep.
    rewrite <- app_assoc. cbn [sep app startswith length skipn].
    unfold eqc. rewrite !Ascii.eqb_refl. cbn [andb].
    apply match_value; auto.
    replace (consumed _ _) with key.
    + destruct adv; [| reflexivity].
      cbn [andb rest].
      replace (length tail =? _)%nat with false; [reflexivity |].
      symmetry. apply Nat.eqb_neq.
      rewrite length_app. simpl. rewrite length_app. lia.
    + symmetry.
      replace (key ++ ":"%char :: " "%char :: v ++ tail)
        with (key ++ (":"%char :: " "%char :: v ++ tail)) by reflexivity.
      apply ReFacts.consumed_app.
Qed.

End LineMatchFacts.

Module BlockFacts.
Import PyStr Re GreedyFacts GreedyProps LineMatchFacts LineMatchProps BlockProps.

Lemma search_unfold ml r adv bef sk txt :
  search ml r adv bef sk txt =
  match match_here ml r adv (mkState bef txt []) with
  | Some s1 =>
      Some (mkMatch (rev sk) (consumed (mkState bef txt []) s1) (caps s1), s1)
  | None =>
      match txt with
      | [] => None
      | c :: tl => search ml r false (c :: bef) (c :: sk) tl
      end
  end.
Proof. destruct txt; reflexivity. Qed.

Lemma search_end adv bef sk : search true name_value adv bef sk [] = None.
Proof.
  rewrite search_unfold.
  replace (match_here true name_value adv (mkState bef [] [])) with (@None mstate);
    [reflexivity |].
  unfold match_here, name_value, Core.MetaData.name_value. cbn [before rest].
  rewrite rmatch_seq.
  change (rmatch true Bol ?s ?k) with (if at_bol true s then k s else None).
  destruct (at_bol true _); [| reflexivity].
  rewrite rmatch_seq, rmatch_group, rmatch_dots. cbn [greedy].
  unfold capture. cbn [before rest caps].
  now rewrite rmatch_seq, rmatch_lit.
Qed.

Lemma search_newline adv c bef sk txt :
  dotp c = true ->
  search true name_value adv (c :: bef) sk (nl :: txt)
  = search true name_value false (nl :: c :: bef) (nl :: sk) txt.
Proof.
  intros Hc. rewrite search_unfold.
  replace (match_here true name_value adv (mkState (c :: bef) (nl :: txt) []))
    with (@None mstate); [reflexivity |].
  unfold match_here, name_value, Core.MetaData.name_value. cbn [before rest].
  rewrite rmatch_seq.
  change (rmatch true Bol ?s ?k) with (if at_bol true s then k s else None).
  unfold at_bol. cbn [before andb]. unfold dotp in Hc.
  apply negb_true_iff in Hc. unfold nl in Hc. now rewrite Hc.
Qed.

Lemma search_line adv bef sk kv tail :
  at_bol true (mkState bef [] []) = true -> readable kv = true ->
  line_end tail ->
  search true name_value adv bef sk (fst kv ++ sep ++ snd kv ++ tail)
  = Some (mkMatch (rev sk) (fst kv ++ sep ++ snd kv) (line_groups kv),
          mkState (rev (snd kv) ++ rev sep ++ rev (fst kv) ++ bef) tail
            (line_groups kv)).
Proof.
  intros Hb Hr Ht. unfold readable in Hr.
  apply andb_true_iff in Hr. destruct Hr as [Hr Hc].
  apply andb_true_iff in Hr. destruct Hr as [Hk Hv].
  apply negb_true_iff in Hc.
  rewrite search_unfold, (match_line adv bef _ _ tail [] Hb Hk Hv Hc Ht).
  cbn [caps]. do 3 f_equal.
  replace (fst kv ++ sep ++ snd kv ++ tail)
    with ((fst kv ++ sep ++ snd kv) ++ tail) by (now rewrite <- !app_assoc).
  apply ReFacts.consumed_app.
Qed.

Lemma finditer_from_scan fuel adv bef txt :
  fst (finditer_from true name_value (S fuel) adv bef txt)
  = scan fuel (search true name_value adv bef [] txt).
Proof.
  cbn [finditer_from]. destruct (search _ _ _ _ _ _) as [[m s1]|]; [| reflexivity].
  cbn [scan]. now destruct (finditer_from _ _ _ _ _ _).
Qed.

Lemma line_last v key bef :
  one_line v = true ->
  exists c t, rev v ++ rev sep ++ rev key ++ bef = c :: t /\ dotp c = true.
Proof.
  intros Hv. destruct (rev v) as [|c t] eqn:E.
  - simpl. eauto.
  - exists c, (t ++ rev sep ++ rev key ++ bef). split; [reflexivity |].
    apply one_line_Forall in Hv. apply Forall_rev in Hv. rewrite E in Hv.
    now inversion Hv.
Qed.

Lemma scan_block : forall fs fuel adv bef sk,
  at_bol true (mkState bef [] []) = true ->
  (length fs <= fuel)%nat ->
  forallb readable fs = true ->
  map m_groups (scan fuel (search true name_value adv bef sk (block fs)))
  = map line_groups fs.
Proof.
  induction fs as [|kv fs IH]; intros fuel adv bef sk Hb Hf Hr.
  - unfold block. cbn [map concat]. now rewrite search_end.
  - simpl in Hr. apply andb_true_iff in Hr. destruct Hr as [Hkv Hr].
    unfold block. cbn [map concat]. fold (block fs). unfold line at 1.
    rewrite <- !app_assoc. cbn [app].
    rewrite (search_line adv bef sk kv (nl :: block fs) Hb Hkv)
      by (right; eauto).
    cbn [scan m_text m_groups before rest map]. f_equal.
    destruct fuel as [|fuel]; [simpl in Hf; lia |].
    replace (match fst kv ++ sep ++ snd kv with [] => true | _ :: _ => false end)
      with false by (destruct (fst kv); reflexivity).
    rewrite finditer_from_scan.
    assert (Hv : one_line (snd kv) = true).
    { unfold readable in Hkv. apply andb_true_iff in Hkv. destruct Hkv as [Hkv _].
      apply andb_true_iff in Hkv. now destruct Hkv. }
    destruct (line_last (snd kv) (fst kv) bef Hv) as (c & t & -> & Hc).
    rewrite (search_newline false c t [] (block fs) Hc).
    apply IH; [reflexivity | simpl in Hf; lia | exact Hr].
Qed.

(** [finditer] on a block of readable lines finds one match per line,
    with the key and the value as its groups. *)
Lemma finditer_block fs :
  forallb readable fs = true ->
  map m_groups (finditer true name_value (block fs)) = map line_groups fs.
Proof.
  intros Hr. unfold finditer, finditer_tail.
  replace (2 * length (block fs) + 2)%nat with (S (2 * length (block fs) + 1))
    by lia.
  rewrite finditer_from_scan.
  apply scan_block; [reflexivity | | exact Hr].
  assert (length fs <= length (block fs))%nat; [| lia].
  clear Hr. induction fs as [|kv fs IH]; [simpl; lia |].
  unfold block in *. cbn [map concat]. rewrite length_app.
  unfold line at 1. rewrite !length_app. simpl. lia.
Qed.

End BlockFacts.

Module RoundTripFacts.
Import PyStr Core Core.MetaData LineMatchFacts LineMatchProps BlockFacts BlockProps RoundTripProps.

(** ** The blocks that are read back as written *)

Lemma well_formed_classes :
  well_formed ScriptInfo = true /\ well_formed ProjectGarbage = true.
Proof. split; vm_compute; reflexivity. Qed.

(** ** Decoding *)

Lemma mem_In k l : mem k l = true <-> In k l.
Proof.
  unfold mem. rewrite existsb_exists. split.
  - intros (x & Hx & E). apply String.eqb_eq in E. now subst.
  - intros H. exists k. split; [exact H | apply String.eqb_refl].
Qed.

Lemma step_field cls o m kv :
  Re.m_groups m = line_groups (enc kv) ->
  attr_name (key_name (fst kv)) = fst kv ->
  canonical cls kv = true ->
  from_text_step cls o m = Ok (store_all cls o [kv]).
Proof.
  intros Hg Hk Hc. unfold from_text_step, Re.group. rewrite Hg.
  cbn [line_groups enc Re.lookup_group fst snd String.eqb Ascii.eqb Bool.eqb].
  rewrite Hk. unfold str, chars. rewrite string_of_list_ascii_of_string.
  unfold canonical in Hc. apply andb_true_iff in Hc. destruct Hc as [_ Hc].
  unfold store_all. cbn [fold_left].
  unfold decode, annot_for, store_key, setattr_md in *.
  destruct (mem (fst kv) (slots cls)) eqn:Es.
  - destruct (annotation_of (fst kv) (annotations cls)) as [a|]; [| discriminate].
    simpl. simpl in Hc. destruct (coerce a (snd kv)); [reflexivity | discriminate].
  - cbn [orb negb andb] in *.
    destruct (annotation_of _ (annotations cls)) as [a|]; [| discriminate].
    destruct (mem (fst kv) (slots_ex cls)); [| discriminate].
    simpl. destruct (coerce a (snd kv)); [reflexivity | discriminate].
Qed.

Lemma loop_fields cls : forall fields ms o,
  map Re.m_groups ms = map line_groups (map enc fields) ->
  forallb (fun kv => String.eqb (attr_name (key_name (fst kv))) (fst kv)) fields = true ->
  forallb (canonical cls) fields = true ->
  from_text_loop cls o ms = Ok (store_all cls o fields).
Proof.
  induction fields as [|kv fields IH]; intros ms o Hg Hk Hc;
    destruct ms as [|m ms]; try discriminate; [reflexivity |].
  simpl in Hg. injection Hg as Hm Hg.
  simpl in Hk, Hc.
  apply andb_true_iff in Hk. destruct Hk as [Hk1 Hk].
  apply andb_true_iff in Hc. destruct Hc as [Hc1 Hc].
  apply String.eqb_eq in Hk1.
  cbn [from_text_loop]. rewrite (step_field cls o m kv Hm Hk1 Hc1).
  cbn [rbind]. rewrite (IH ms _ Hg Hk Hc). reflexivity.
Qed.

(** ** Encoding *)

Lemma as_text_emit cls o :
  as_text cls o [] = str (emit cls o (all_slots cls)).
Proof.
  unfold as_text, iter_md, emit. cbn [app]. f_equal.
  induction (all_slots cls) as [|n ns IH]; [reflexivity |].
  cbn [flat_map]. rewrite flat_map_app, IH. f_equal.
  destruct (getattr_md cls o n); [| reflexivity].
  cbn [flat_map]. now rewrite app_nil_r.
Qed.

Lemma emit_publics cls o names :
  emit cls o names
  = emit cls o (List.filter (fun n => negb (is_private n)) names).
Proof.
  unfold emit. induction names as [|n ns IH]; [reflexivity |].
  cbn [flat_map List.filter]. destruct (is_private n) eqn:E; cbn [negb].
  - rewrite IH. now destruct (getattr_md cls o n).
  - cbn [flat_map]. now rewrite IH, E.
Qed.

Lemma getattr_store_key cls o n :
  name_ok cls n = true -> getattr_md cls o n = o !! store_key cls n.
Proof.
  unfold name_ok, getattr_md, store_key. intros H.
  repeat (apply andb_true_iff in H; destruct H as [H ?]).
  destruct (mem n (slots cls)); [reflexivity |].
  cbn [orb] in H. now rewrite H.
Qed.

Lemma mem_cons k x l : mem k (x :: l) = String.eqb k x || mem k l.
Proof. reflexivity. Qed.

Lemma store_all_other cls : forall fields o k',
  mem k' (map (store_key cls) (map fst fields)) = false ->
  store_all cls o fields !! k' = o !! k'.
Proof.
  induction fields as [|kv fields IH]; intros o k' H; [reflexivity |].
  cbn [map] in H. rewrite mem_cons in H.
  apply orb_false_iff in H. destruct H as [Hne H].
  apply String.eqb_neq in Hne.
  unfold store_all. cbn [fold_left]. fold (store_all cls).
  destruct (decode cls kv).
  - fold (store_all cls (<[store_key cls (fst kv) := v]> o) fields).
    rewrite (IH _ _ H). apply lookup_insert_ne. congruence.
  - fold (store_all cls o fields). apply (IH _ _ H).
Qed.

Lemma subseq_not_mem (f : string -> string) x : forall names ks,
  subseq ks names = true ->
  mem x (map f names) = false -> mem x (map f ks) = false.
Proof.
  induction names as [|n ns IH]; intros ks Hs Hm.
  - destruct ks; [reflexivity | discriminate].
  - destruct ks as [|k ks]; [reflexivity |].
    cbn [map] in Hm. rewrite mem_cons in Hm.
    apply orb_false_iff in Hm. destruct Hm as [Hn Hm].
    cbn [subseq] in Hs. destruct (String.eqb k n) eqn:E.
    + apply String.eqb_eq in E. subst k.
      cbn [map]. rewrite mem_cons, Hn. cbn [orb]. now apply IH.
    + now apply IH.
Qed.

Lemma subseq_forallb (P : string -> bool) : forall names ks,
  subseq ks names = true -> forallb P names = true -> forallb P ks = true.
Proof.
  induction names as [|n ns IH]; intros ks Hs Hp.
  - destruct ks; [reflexivity | discriminate].
  - destruct ks as [|k ks]; [reflexivity |].
    cbn [forallb] in Hp. apply andb_true_iff in Hp. destruct Hp as [Hn Hp].
    cbn [subseq] in Hs. destruct (String.eqb k n) eqn:E.
    + apply String.eqb_eq in E. subst k.
      cbn [forallb]. rewrite Hn. cbn [andb]. now apply IH.
    + now apply IH.
Qed.

Lemma emit_store cls : forall names fields o0,
  subseq (map fst fields) names = true ->
  nodupb (map (store_key cls) names) = true ->
  forallb (name_ok cls) names = true ->
  forallb (canonical cls) fields = true ->
  (forall n, In n names -> o0 !! store_key cls n = None) ->
  emit cls (store_all cls o0 fields) names = block (map enc fields).
Proof.
  induction names as [|n ns IH]; intros fields o0 Hs Hd Hn Hc Ho.
  - destruct fields; [reflexivity | discriminate].
  - cbn [map nodupb] in Hd. apply andb_true_iff in Hd. destruct Hd as [Hfresh Hd].
    apply negb_true_iff in Hfresh.
    cbn [forallb] in Hn. apply andb_true_iff in Hn. destruct Hn as [Hn1 Hn].
    unfold emit. cbn [flat_map]. fold (emit cls (store_all cls o0 fields) ns).
    rewrite (getattr_store_key _ _ _ Hn1).
    destruct fields as [|[k v] fs].
    + unfold store_all at 1. cbn [fold_left].
      rewrite (Ho n (or_introl eq_refl)). cbn [app].
      apply (IH [] o0);
        [now destruct ns | exact Hd | exact Hn | reflexivity
        | intros n' Hn'; apply Ho; now right].
    + cbn [map fst subseq] in Hs. destruct (String.eqb k n) eqn:E.
      * apply String.eqb_eq in E. subst k.
        cbn [forallb] in Hc. apply andb_true_iff in Hc. destruct Hc as [Hc1 Hc].
        pose proof Hc1 as Hcan. unfold canonical in Hc1.
        apply andb_true_iff in Hc1. destruct Hc1 as [_ Hc1].
        destruct (decode cls (n, v)) as [x|] eqn:Ed; [| discriminate].
        apply String.eqb_eq in Hc1. cbn [snd] in Hc1.
        assert (Est : store_all cls o0 ((n, v) :: fs)
                      = store_all cls (<[store_key cls n := x]> o0) fs).
        { unfold store_all. cbn [fold_left]. now rewrite Ed. }
        rewrite Est.
        rewrite store_all_other
          by (apply (subseq_not_mem (store_key cls) _ ns); assumption).
        rewrite lookup_insert_eq.
        unfold name_ok in Hn1.
        repeat (apply andb_true_iff in Hn1; destruct Hn1 as [Hn1 ?]).
        match goal with H : negb (is_private n) = true |- _ =>
          apply negb_true_iff in H; rewrite H end.
        rewrite Hc1.
        rewrite (IH fs (<[store_key cls n := x]> o0) Hs Hd Hn Hc).
        -- cbn [map block]. unfold block. cbn [map concat].
           unfold line, enc. cbn [fst snd]. now rewrite <- !app_assoc.
        -- intros n' Hn'. rewrite lookup_insert_ne.
           ++ apply Ho. now right.
           ++ intros Heq. rewrite Heq in Hfresh.
              assert (mem (store_key cls n') (map (store_key cls) ns) = true).
              { apply mem_In. now apply in_map. }
              congruence.
      * rewrite store_all_other.
        -- rewrite (Ho n (or_introl eq_refl)). cbn [app].
           apply (IH ((k, v) :: fs) o0);
             [exact Hs | exact Hd | exact Hn | exact Hc
             | intros n' Hn'; apply Ho; now right].
        -- apply (subseq_not_mem (store_key cls) _ ns (k :: map fst fs)); assumption.
Qed.

(** ** The round trip *)

Lemma canonical_readable cls kv :
  name_ok cls (fst kv) = true -> canonical cls kv = true ->
  readable (enc kv) = true.
Proof.
  unfold name_ok, canonical, readable, enc. cbn [fst snd]. intros Hn Hc.
  repeat (apply andb_true_iff in Hn; destruct Hn as [Hn ?]).
  repeat (apply andb_true_iff in Hc; destruct Hc as [Hc ?]).
  repeat (apply andb_true_iff; split); assumption.
Qed.

Lemma fields_ok cls (fields : list (string * string)) :
  well_formed cls = true ->
  subseq (map fst fields) (publics cls) = true ->
  forallb (fun kv => name_ok cls (fst kv)) fields = true.
Proof.
  unfold well_formed. intros Hw Hs.
  apply andb_true_iff in Hw. destruct Hw as [Hw _].
  pose proof (subseq_forallb _ _ _ Hs Hw) as H.
  clear -H. induction fields as [|kv fs IH]; [reflexivity |].
  cbn [map forallb] in *. apply andb_true_iff in H. destruct H as [H1 H].
  rewrite H1. cbn [andb]. now apply IH.
Qed.

Lemma round_trip_well_formed cls fields :
  well_formed cls = true ->
  subseq (map fst fields) (publics cls) = true ->
  forallb (canonical cls) fields = true ->
  from_text cls (block_text fields) = Ok (store_all cls ∅ fields)
  /\ as_text cls (store_all cls ∅ fields) [] = block_text fields.
Proof.
  intros Hw Hs Hc. pose proof (fields_ok cls fields Hw Hs) as Hn. split.
  - unfold from_text, block_text, chars, str.
    rewrite list_ascii_of_string_of_list_ascii.
    apply loop_fields.
    + rewrite <- finditer_block; [reflexivity |].
      clear -Hn Hc. induction fields as [|kv fs IH]; [reflexivity |].
      cbn [map forallb] in *.
      apply andb_true_iff in Hn. destruct Hn as [Hn1 Hn].
      apply andb_true_iff in Hc. destruct Hc as [Hc1 Hc].
      rewrite (canonical_readable cls kv Hn1 Hc1). cbn [andb]. now apply IH.
    + clear -Hn. induction fields as [|kv fs IH]; [reflexivity |].
      cbn [forallb] in *. apply andb_true_iff in Hn. destruct Hn as [Hn1 Hn].
      rewrite (IH Hn), andb_true_r.
      unfold name_ok in Hn1.
      repeat (apply andb_true_iff in Hn1; destruct Hn1 as [Hn1 ?]). assumption.
    + exact Hc.
  - rewrite as_text_emit, emit_publics. fold (publics cls).
    unfold block_text. f_equal.
    unfold well_formed in Hw. apply andb_true_iff in Hw. destruct Hw as [Hw1 Hw2].
    apply emit_store; auto.
Qed.

(** C2 (amended).  For a [ScriptInfo] or a [ProjectGarbage], a block made
    only of [Name: Value] lines, each ended by a newline, whose names are
    distinct public fields of the class in the order the class declares
    them, and whose values are on one line, hold no colon followed by a
    space and are in the form the field's type writes them, is decoded
    by [from_text] to an object that [as_text] encodes to the very same
    text. *)
Theorem meta_round_trip (cls : MetaDataClass) (fields : list (string * string))
  (Hcls : cls = ScriptInfo \/ cls = ProjectGarbage)
  (Horder : subseq (map fst fields) (publics cls) = true)
  (Hvalues : forallb (canonical cls) fields = true) :
  exists o, from_text cls (block_text fields) = Ok o
            /\ as_text cls o [] = block_text fields.
Proof.
  exists (store_all cls ∅ fields).
  apply round_trip_well_formed; try assumption.
  destruct Hcls as [-> | ->];
    [exact (proj1 well_formed_classes) | exact (proj2 well_formed_classes)].
Qed.

Lemma meta_round_trip_witness :
  (exists o, from_text ScriptInfo (block_text fields0) = Ok o
             /\ as_text ScriptInfo o [] = block_text fields0) /\
  (exists o, from_text ProjectGarbage (block_text fields_floats) = Ok o
             /\ as_text ProjectGarbage o [] = block_text fields_floats).
Proof.
  split.
  - apply (meta_round_trip ScriptInfo fields0).
    + left. reflexivity.
    + vm_compute. reflexivity.
    + vm_compute. reflexivity.
  - apply (meta_round_trip ProjectGarbage fields_floats).
    + right. reflexivity.
    + vm_compute. reflexivity.
    + vm_compute. reflexivity.
Defined.

(** A float that is not in the form [str] writes it in is not written
    back as it was read: [0.00001] comes back as [1e-05]. *)
Lemma meta_round_trip_rewritten_float :
  forallb (canonical ProjectGarbage) fields_plain = false /\
  exists o, from_text ProjectGarbage (block_text fields_plain) = Ok o
            /\ as_text ProjectGarbage o []
               = block_text [("video__a_r__value", "1e-05")].
Proof.
  split; [vm_compute; reflexivity |].
  exists (store_all ProjectGarbage ∅ fields_plain).
  split; vm_compute; reflexivity.
Qed.

(** C2 as stated fails: both names are recognised fields of
    [ScriptInfo], yet the block is written back with the two lines in
    the order of the class, the title first. *)
Lemma meta_round_trip_counterexample :
  exists o, from_text ScriptInfo swapped = Ok o
            /\ as_text ScriptInfo o []
               = block_text [("title", "x"); ("script_type", "v4.00+")]
            /\ as_text ScriptInfo o [] <> swapped.
Proof.
  exists (store_all ScriptInfo ∅ [("script_type", "v4.00+"); ("title", "x")]).
  split; [vm_compute; reflexivity |].
  split; [vm_compute; reflexivity | vm_compute; discriminate].
Qed.

End RoundTripFacts.

(** * Rounding to the nearest double *)

Module FloatFacts.
Import PyNum.

Lemma two_pos : 1 < 2.
Proof. reflexivity. Qed.

Lemma two_nonzero : ~ 2 == 0.
Proof. discriminate. Qed.

Lemma pow2_pos e : 0 < pow2 e.
Proof. apply Qpower_0_lt. reflexivity. Qed.

Lemma pow2_nonneg e : (0 <= e)%Z -> pow2 e == inject_Z (2 ^ e).
Proof. intros H. unfold pow2. now rewrite Zpower_Qpower. Qed.

Lemma round_proper (p q : Q) : p == q -> round p = round q.
Proof.
  intros H. unfold round. rewrite (Qfloor_comp _ _ H).
  assert (E : p - inject_Z (Qfloor q) == q - inject_Z (Qfloor q))
    by (rewrite H; reflexivity).
  now rewrite (Qcompare_comp _ _ E (1 # 2) (1 # 2) (Qeq_refl _)).
Qed.

Lemma round_integer (z : Z) : round (inject_Z z) = z.
Proof.
  unfold round. rewrite Qfloor_Z.
  assert (E : inject_Z z - inject_Z z == 0) by ring.
  now rewrite (Qcompare_comp _ _ E (1 # 2) (1 # 2) (Qeq_refl _)).
Qed.

(** The binary logarithm is not above the number. *)
Lemma ilog2_lower (q : Q) : 0 < q -> pow2 (ilog2 q) <= q.
Proof.
  intros Hq. unfold ilog2.
  set (a := Z.log2 (Qnum q)). set (b := Z.log2 (Z.pos (Qden q))).
  destruct (Qle_bool (pow2 (a - b)) q) eqn:E; [now apply Qle_bool_iff |].
  assert (Hn : (0 < Qnum q)%Z).
  { unfold Qlt in Hq. cbn in Hq. lia. }
  pose proof (Z.log2_spec _ Hn) as [Ha _]. fold a in Ha.
  pose proof (Z.log2_spec (Z.pos (Qden q)) ltac:(lia)) as [_ Hb]. fold b in Hb.
  pose proof (Z.log2_nonneg (Qnum q)) as Ha0. fold a in Ha0.
  pose proof (Z.log2_nonneg (Z.pos (Qden q))) as Hb0. fold b in Hb0.
  replace (a - b - 1)%Z with (a - Z.succ b)%Z by lia.
  unfold pow2. rewrite (Qpower_minus 2 a (Z.succ b) two_nonzero).
  change (2 ^ a) with (pow2 a). change (2 ^ Z.succ b) with (pow2 (Z.succ b)).
  rewrite (pow2_nonneg a Ha0), (pow2_nonneg (Z.succ b) ltac:(lia)).
  assert (HB : (0 < 2 ^ Z.succ b)%Z) by (apply Z.pow_pos_nonneg; lia).
  apply Qle_shift_div_r.
  - change 0 with (inject_Z 0). rewrite <- Zlt_Qlt. exact HB.
  - destruct q as [n d]. unfold Qle, Qmult, inject_Z.
    cbn [Qnum Qden] in *. rewrite !Z.mul_1_r, Pos.mul_1_r.
    generalize dependent (2 ^ a)%Z. generalize dependent (2 ^ Z.succ b)%Z.
    intros B HB' HB A HA. nia.
Qed.

(** A number that fits in 53 bits, the last one no smaller than
    [2^-1074], is its own rounding. *)
Lemma nearest_pos_exact (q : Q) (k j : Z) :
  q == inject_Z k * pow2 j -> (0 < k < 2 ^ 53)%Z -> (-1074 <= j)%Z ->
  nearest_pos q == q.
Proof.
  intros Eq Hk Hj.
  assert (Hq : 0 < q).
  { rewrite Eq. apply Qmult_lt_0_compat; [| apply pow2_pos].
    unfold Qlt. cbn. lia. }
  pose proof (ilog2_lower q Hq) as Hlow.
  assert (Hup : q < pow2 (53 + j)).
  { rewrite Eq. unfold pow2. rewrite (Qpower_plus 2 53 j two_nonzero).
    apply Qmult_lt_compat_r; [apply pow2_pos |].
    change (2 ^ 53) with (inject_Z (2 ^ 53)). rewrite <- Zlt_Qlt. lia. }
  assert (HL : (ilog2 q < 53 + j)%Z).
  { apply (Qpower_lt_compat_l_inv 2); [| exact two_pos].
    eapply Qle_lt_trans; [exact Hlow | exact Hup]. }
  unfold nearest_pos. set (e := Z.max (ilog2 q - 52) (-1074)).
  assert (He : (e <= j)%Z) by (unfold e; lia).
  rewrite Qred_correct.
  assert (Ediv : q / pow2 e == inject_Z (k * 2 ^ (j - e))).
  { rewrite Eq, inject_Z_mult, <- (pow2_nonneg (j - e)) by lia.
    unfold pow2. rewrite (Qpower_minus 2 j e two_nonzero). field.
    apply Qpower_not_0, two_nonzero. }
  rewrite (round_proper _ _ Ediv), round_integer, <- Ediv.
  field. apply Qpower_not_0, two_nonzero.
Qed.

Lemma nearest_exact (q : Q) (k j : Z) :
  q == inject_Z k * pow2 j -> (Z.abs k < 2 ^ 53)%Z -> (-1074 <= j)%Z ->
  nearest q == q.
Proof.
  intros Eq Hk Hj. unfold nearest.
  destruct (Qcompare q 0) eqn:Ec.
  - apply Qeq_alt in Ec. now rewrite Ec.
  - apply Qlt_alt in Ec. rewrite Qred_correct.
    rewrite (nearest_pos_exact (- q) (- k) j); [ring | | | exact Hj].
    + rewrite Eq, inject_Z_opp. ring.
    + destruct (Z.lt_trichotomy k 0) as [Hn | [-> | Hp]]; [lia | |]; exfalso.
      * rewrite Eq in Ec. change (inject_Z 0) with 0 in Ec. lra.
      * assert (0 < inject_Z k * pow2 j); [| lra].
        apply Qmult_lt_0_compat; [| apply pow2_pos]. unfold Qlt. cbn. lia.
  - apply Qgt_alt in Ec.
    apply (nearest_pos_exact q k j Eq); [| exact Hj].
    split; [| lia].
    destruct (Z.lt_trichotomy k 0) as [Hn | [-> | Hp]]; [| | exact Hp]; exfalso.
    + assert (E2 : inject_Z k * pow2 j == - (inject_Z (- k) * pow2 j))
        by (rewrite inject_Z_opp; ring).
      assert (P : 0 < inject_Z (- k) * pow2 j).
      { apply Qmult_lt_0_compat; [| apply pow2_pos]. unfold Qlt. cbn. lia. }
      rewrite Eq, E2 in Ec. lra.
    + rewrite Eq in Ec. change (inject_Z 0) with 0 in Ec. lra.
Qed.

End FloatFacts.

(** * Properties of [pyonfx/misc.py] *)

Module MiscFacts.
Import Misc CroundProps.

Lemma Qltb_ge a b : Qltb a b = false <-> b <= a.
Proof.
  unfold Qltb. rewrite negb_false_iff. apply Qle_bool_iff.
Qed.

(** X1.  With [min_val <= max_val], [clamp_value] returns a value between
    the two bounds, returns [val] itself when [val] already lies between
    them, and clamping its result again changes nothing. *)
Theorem clamp_value_range (val min_val max_val : Q)
  (Hbounds : min_val <= max_val) :
  min_val <= clamp_value val min_val max_val <= max_val /\
  (min_val <= val <= max_val -> clamp_value val min_val max_val = val) /\
  clamp_value (clamp_value val min_val max_val) min_val max_val
  = clamp_value val min_val max_val.
Proof.
  unfold clamp_value.
  destruct (Qltb val min_val) eqn:E1.
  - apply Qltb_lt in E1.
    destruct (Qltb min_val min_val) eqn:E2.
    { apply Qltb_lt in E2. lra. }
    destruct (Qltb max_val min_val) eqn:E3.
    { apply Qltb_lt in E3. lra. }
    repeat split; try lra; intros [? ?]; lra.
  - apply Qltb_ge in E1.
    destruct (Qltb max_val val) eqn:E2.
    + apply Qltb_lt in E2.
      destruct (Qltb max_val min_val) eqn:E3.
      { apply Qltb_lt in E3. lra. }
      destruct (Qltb max_val max_val) eqn:E4.
      { apply Qltb_lt in E4. lra. }
      repeat split; try lra; intros [? ?]; lra.
    + apply Qltb_ge in E2. rewrite (proj2 (Qltb_ge _ _) E1), (proj2 (Qltb_ge _ _) E2).
      repeat split; auto.
Qed.

Lemma clamp_value_range_witness :
  0 <= clamp_value 300 0 255 <= 255 /\
  (0 <= 300 <= 255 -> clamp_value 300 0 255 = 300) /\
  clamp_value (clamp_value 300 0 255) 0 255 = clamp_value 300 0 255.
Proof.
  apply (clamp_value_range 300 0 255). vm_compute. discriminate.
Defined.


Lemma chunk_iter_concat {A} (s : nat) : forall fuel (l : list A),
  (length l < fuel)%nat -> concat (chunk_iter fuel l (S s)) = l.
Proof.
  induction fuel as [|fuel IH]; intros l Hl; [lia |].
  destruct l as [|a l]; [reflexivity |].
  cbn [chunk_iter firstn]. cbn [concat]. rewrite IH.
  - cbn [skipn app]. f_equal. apply firstn_skipn.
  - cbn [skipn]. rewrite length_skipn. simpl in Hl. lia.
Qed.

Lemma chunk_iter_nth {A} (s : nat) : forall fuel (l : list A) i,
  (length l < fuel)%nat ->
  nth_error (chunk_iter fuel l (S s)) i
  = if (i * S s <? length l)%nat
    then Some (firstn (S s) (skipn (i * S s) l)) else None.
Proof.
  induction fuel as [|fuel IH]; intros l i Hl; [lia |].
  destruct l as [|a l].
  - cbn [chunk_iter firstn]. destruct i; reflexivity.
  - cbn [chunk_iter firstn]. destruct i as [|i].
    + reflexivity.
    + cbn [nth_error]. rewrite IH by (cbn [skipn]; rewrite length_skipn; simpl in Hl; lia).
      cbn [skipn]. rewrite length_skipn, skipn_skipn.
      replace (S i * S s)%nat with (S (i * S s + s)) by lia.
      cbn [skipn length].
      destruct (Nat.ltb_spec (i * S s) (length l - s));
        destruct (Nat.ltb_spec (S (i * S s + s)) (S (length l))); try lia; reflexivity.
Qed.

(** X3.  For a positive [size], [chunk] cuts the iterable into
    consecutive pieces: chunk number [i] is the slice
    [iterable[i*size : (i+1)*size]] as long as [i*size] is inside the
    iterable, there is no further chunk, and the chunks put end to end
    give the iterable back (the last one may be shorter, none is
    empty). *)
Theorem chunk_slices {A} (iterable : list A) (size : Z)
  (Hsize : (0 < size)%Z) :
  exists cs,
    chunk iterable size = Ok cs /\
    concat cs = iterable /\
    forall i : nat,
      nth_error cs i
      = if (Z.of_nat i * size <? Z.of_nat (length iterable))%Z
        then Some (firstn (Z.to_nat size) (skipn (i * Z.to_nat size) iterable))
        else None.
Proof.
  unfold chunk. destruct (Z.ltb_spec size 0); [lia |].
  eexists. split; [reflexivity |].
  destruct (Z.to_nat size) as [|s] eqn:Es; [lia |].
  split.
  - apply chunk_iter_concat. lia.
  - intros i. rewrite chunk_iter_nth by lia.
    destruct (Nat.ltb_spec (i * S s) (length iterable));
      destruct (Z.ltb_spec (Z.of_nat i * size) (Z.of_nat (length iterable)));
      try reflexivity; nia.
Qed.

Lemma chunk_slices_witness :
  exists cs,
    chunk [1; 2; 3; 4; 5]%Z 2 = Ok cs /\
    concat cs = [1; 2; 3; 4; 5]%Z /\
    forall i : nat,
      nth_error cs i
      = if (Z.of_nat i * 2 <? Z.of_nat (length [1; 2; 3; 4; 5]%Z))%Z
        then Some (firstn (Z.to_nat 2) (skipn (i * Z.to_nat 2) [1; 2; 3; 4; 5]%Z))
        else None.
Proof.
  apply (chunk_slices [1; 2; 3; 4; 5]%Z 2). lia.
Defined.


Lemma half_dyadic (m : Z) : inject_Z m / 2 == inject_Z m * PyNum.pow2 (-1).
Proof. unfold PyNum.pow2. change (2 ^ (-1)) with (/ 2). field. Qed.

Lemma whole_dyadic (m : Z) : inject_Z m == inject_Z m * PyNum.pow2 0.
Proof. unfold PyNum.pow2. change (2 ^ 0) with 1. ring. Qed.

Lemma Qfloor_half (n : Z) : Qfloor (inject_Z n + (1 # 2)) = n.
Proof.
  pose proof (Qfloor_le (inject_Z n + (1 # 2))) as H1.
  pose proof (Qlt_floor (inject_Z n + (1 # 2))) as H2.
  set (f := Qfloor (inject_Z n + (1 # 2))) in *.
  assert (A : (f < n + 1)%Z).
  { rewrite Zlt_Qlt, inject_Z_plus. change (inject_Z 1) with 1. lra. }
  assert (B : (n < f + 1)%Z).
  { rewrite Zlt_Qlt. lra. }
  lia.
Qed.

(** X2.  [cround] rounds halves away from zero and leaves integers as
    they are, for magnitudes below [2^52]: [cround(n + 0.5) = n + 1],
    [cround(-(n + 0.5)) = -(n + 1)], [cround(n) = n] and
    [cround(-n) = -n], where the built-in [round] sends [0.5] to [0].
    It does not always give a nearest integer, because the sum
    [x + 0.5] is itself rounded to a double: for the double
    [0.49999999999999994], just below one half, the sum is [1.0] and
    [cround] gives [1]. *)
Theorem cround_half_away_from_zero (n : Z) (Hn : (0 <= n < 2 ^ 52)%Z) :
  cround (inject_Z n + (1 # 2)) = (n + 1)%Z /\
  cround (- (inject_Z n + (1 # 2))) = (- (n + 1))%Z /\
  cround (inject_Z n) = n /\
  cround (- inject_Z n) = (- n)%Z /\
  PyNum.round (1 # 2) = 0%Z /\
  PyNum.float_of (PyStr.chars "0.49999999999999994")
  = Some (PyNum.Finite just_below_half) /\
  cround just_below_half = 1%Z.
Proof.
  assert (Hw : forall m, (Z.abs m < 2 ^ 53)%Z -> forall q, q == inject_Z m ->
                         PyNum.nearest q == inject_Z m).
  { intros m Hm q E. rewrite <- E.
    apply (FloatFacts.nearest_exact q m 0); [| exact Hm | lia].
    rewrite E. apply whole_dyadic. }
  assert (Hh : forall m, (Z.abs m < 2 ^ 53)%Z -> forall q, q == inject_Z m / 2 ->
                         PyNum.nearest q == inject_Z m / 2).
  { intros m Hm q E. rewrite <- E.
    apply (FloatFacts.nearest_exact q m (-1)); [| exact Hm | lia].
    rewrite E. apply half_dyadic. }
  assert (Hpos : Qltb 0 (inject_Z n + (1 # 2)) = true).
  { apply Qltb_lt. assert (0 <= inject_Z n); [| lra].
    change 0 with (inject_Z 0). rewrite <- Zle_Qle. lia. }
  assert (Hneg : forall q, q <= 0 -> Qltb 0 q = false).
  { intros q Hq. now apply Qltb_ge. }
  assert (Hn0 : 0 <= inject_Z n).
  { change 0 with (inject_Z 0). rewrite <- Zle_Qle. lia. }
  split; [| split; [| split; [| split;
    [| split; [| split]; vm_compute; reflexivity]]]].
  - unfold cround. rewrite Hpos.
    rewrite (Qfloor_comp _ (inject_Z (n + 1))); [apply Qfloor_Z |].
    apply Hw; [lia |]. rewrite inject_Z_plus. change (inject_Z 1) with 1. ring.
  - unfold cround. rewrite Hneg by lra. unfold Qceiling.
    rewrite (Qfloor_comp _ (inject_Z (n + 1))); [now rewrite Qfloor_Z |].
    rewrite (Hw (- (n + 1))%Z); [rewrite inject_Z_opp; ring | lia |].
    rewrite inject_Z_opp, inject_Z_plus. change (inject_Z 1) with 1. ring.
  - unfold cround. destruct (Qltb 0 (inject_Z n)) eqn:E.
    + rewrite (Qfloor_comp _ (inject_Z (2 * n + 1) / 2)).
      * rewrite inject_Z_plus, inject_Z_mult.
        change (inject_Z 2) with 2. change (inject_Z 1) with 1.
        rewrite (Qfloor_comp _ (inject_Z n + (1 # 2))) by field.
        apply Qfloor_half.
      * apply Hh; [lia |]. rewrite inject_Z_plus, inject_Z_mult.
        change (inject_Z 2) with 2. change (inject_Z 1) with 1. field.
    + apply Qltb_ge in E.
      assert (En : n = 0%Z).
      { apply Z.le_antisymm; [| lia]. rewrite Zle_Qle. exact E. }
      subst n. reflexivity.
  - unfold cround. rewrite Hneg by lra. unfold Qceiling.
    rewrite (Qfloor_comp _ (inject_Z (2 * n + 1) / 2)).
    + rewrite inject_Z_plus, inject_Z_mult.
      change (inject_Z 2) with 2. change (inject_Z 1) with 1.
      rewrite (Qfloor_comp _ (inject_Z n + (1 # 2))) by field.
      now rewrite Qfloor_half.
    + rewrite (Hh (- (2 * n + 1))%Z); [rewrite inject_Z_opp; field | lia |].
      rewrite inject_Z_opp, inject_Z_plus, inject_Z_mult.
      change (inject_Z 2) with 2. change (inject_Z 1) with 1. field.
Qed.

Lemma cround_half_away_from_zero_witness :
  cround (5 # 2) = 3%Z /\ cround (- (5 # 2)) = (-3)%Z /\ cround 2 = 2%Z.
Proof.
  destruct (cround_half_away_from_zero 2 ltac:(lia)) as (H1 & H2 & H3 & _).
  split; [exact H1 | split; [exact H2 | exact H3]].
Defined.

End MiscFacts.

(** * Properties of the classes of [pyonfx/types.py] *)

Module InclExclFacts.
Import PTypes ValueRangeInclExcl.

Lemma inside_spec r v : inside r v = true <-> x r < v /\ v <= y r.
Proof.
  unfold inside. now rewrite andb_true_iff, Qltb_lt, Qle_bool_iff.
Qed.

Lemma check_each_ok r vs :
  check_each r vs = Ok tt <-> forall v, In v vs -> x r < v /\ v <= y r.
Proof.
  induction vs as [|v vs IH]; simpl.
  - split; [intros _ v [] | reflexivity].
  - destruct (inside r v) eqn:E; simpl.
    + rewrite IH. apply inside_spec in E. split.
      * intros H w [<- | Hw]; auto.
      * intros H w Hw. apply H. now right.
    + split; [discriminate |].
      intros H. assert (Hv : inside r v = true) by (apply inside_spec, H; now left).
      congruence.
Qed.

(** X5.  [ValueRangeInclExcl.check] returns without raising exactly when
    its argument is a float or an iterable all of whose values satisfy
    [x < v <= y].  So, whatever the name of the class says, the lower
    bound is refused and the upper bound is accepted: [Nb8bit] refuses
    0 and accepts 256; and a bare int, which is not iterable, raises
    [TypeError]. *)
Theorem check_excludes_lower_includes_upper :
  (forall r val,
     check r val = Ok tt <->
     (forall z, val <> PyInt z) /\
     forall v, In v (checked_values val) -> x r < v /\ v <= y r) /\
  (forall r, check r (PyFloat (x r)) = Raise ValueError) /\
  (forall r, check r (PyFloat (y r)) = Ok tt <-> x r < y r) /\
  check Nb8bit (PyIter [0]) = Raise ValueError /\
  check Nb8bit (PyIter [256]) = Ok tt /\
  (forall r z, check r (PyInt z) = Raise TypeError).
Proof.
  split; [| split; [| split; [| repeat split]]].
  - intros r [v | z | vs]; cbn [check checked_values].
    + rewrite check_each_ok. split.
      * intros H. split; [discriminate | exact H].
      * intros [_ H]. exact H.
    + split; [discriminate | intros [H _]; now destruct (H z)].
    + rewrite check_each_ok. split.
      * intros H. split; [discriminate | exact H].
      * intros [_ H]. exact H.
  - intros r. cbn [check check_each].
    destruct (inside r (x r)) eqn:E; [| reflexivity].
    apply inside_spec in E. destruct E as [E _]. now apply Qlt_irrefl in E.
  - intros r. cbn [check]. rewrite check_each_ok. split.
    + intros H. apply (H (y r)). now left.
    + intros H v [<- | []]. split; [exact H | apply Qle_refl].
Qed.

End InclExclFacts.

Module NamedSequenceFacts.
Import PySeq NamedMutableSequence.

Lemma index_nat {A} (l : list A) (i : nat) (a : A) :
  nth_error l i = Some a -> index l (Z.of_nat i) = Ok a.
Proof.
  intros H. unfold index.
  assert (Hi : (i < length l)%nat) by (apply nth_error_Some; congruence).
  destruct (Z.ltb_spec (Z.of_nat i) 0); [lia |].
  destruct (Z.leb_spec 0 (Z.of_nat i)); [| lia].
  destruct (Z.ltb_spec (Z.of_nat i) (Z.of_nat (length l))); [| lia].
  cbn [andb]. now rewrite Nat2Z.id, H.
Qed.

(** An index below zero designates the element [len] places further. *)
Lemma index_negative {A} (l : list A) (i : Z) :
  (0 <= i < Z.of_nat (length l))%Z ->
  index l (i - Z.of_nat (length l)) = index l i.
Proof.
  intros H. unfold index.
  destruct (Z.ltb_spec (i - Z.of_nat (length l)) 0); [| lia].
  destruct (Z.ltb_spec i 0); [lia |].
  now replace (i - Z.of_nat (length l) + Z.of_nat (length l))%Z with i by lia.
Qed.

Lemma index_out_of_range {A} (l : list A) (i : Z) :
  (i < - Z.of_nat (length l) \/ Z.of_nat (length l) <= i)%Z ->
  index l i = Raise IndexError.
Proof.
  intros H. unfold index.
  destruct (Z.ltb_spec i 0).
  - destruct (Z.leb_spec 0 (i + Z.of_nat (length l))); [lia | reflexivity].
  - destruct (Z.leb_spec 0 i); [| lia].
    destruct (Z.ltb_spec i (Z.of_nat (length l))); [lia | reflexivity].
Qed.

Section Values.
Context {V : Type}.
Variable slots : list string.

Abbreviation obj := (gmap string (option V)).

Lemma fold_keywords (f : string -> option V) : forall (ks : list string) (o : obj) k,
  fold_left (fun (self : obj) k => <[k := f k]> self) ks o !! k
  = if in_dec string_dec k ks then Some (f k) else o !! k.
Proof.
  induction ks as [|s ks IH]; intros o k; cbn [fold_left].
  - destruct (in_dec string_dec k []) as [[] |]; reflexivity.
  - rewrite IH. destruct (in_dec string_dec k ks) as [Hin | Hn].
    + destruct (in_dec string_dec k (s :: ks)) as [| Hc]; [reflexivity |].
      exfalso. apply Hc. now right.
    + destruct (decide (k = s)) as [-> | Hne].
      * rewrite lookup_insert_eq.
        destruct (in_dec string_dec s (s :: ks)) as [| Hc]; [reflexivity |].
        exfalso. apply Hc. now left.
      * rewrite lookup_insert_ne by congruence.
        destruct (in_dec string_dec k (s :: ks)) as [[Hc | Hc] |]; [congruence | contradiction | reflexivity].
Qed.

Lemma fold_positional_other : forall (ks : list string) (args : list (option V)) (o : obj) k,
  ~ In k ks ->
  fold_left (fun (self : obj) kv => <[fst kv := snd kv]> self) (combine ks args) o !! k
  = o !! k.
Proof.
  induction ks as [|s ks IH]; intros args o k Hk; [reflexivity |].
  destruct args as [|a args]; [reflexivity |].
  cbn [combine fold_left fst snd]. rewrite IH by (intros H; apply Hk; now right).
  apply lookup_insert_ne. intros ->. apply Hk. now left.
Qed.

Lemma fold_positional : forall (ks : list string) (args : list (option V)) (o : obj) i k,
  List.NoDup ks -> nth_error ks i = Some k ->
  fold_left (fun (self : obj) kv => <[fst kv := snd kv]> self) (combine ks args) o !! k
  = match nth_error args i with
    | Some v => Some v
    | None => o !! k
    end.
Proof.
  induction ks as [|s ks IH]; intros args o i k Hnd Hi.
  - destruct i; discriminate.
  - inversion Hnd as [| ? ? Hs Hnd']; subst.
    destruct args as [|a args].
    + cbn [combine fold_left]. now destruct i.
    + cbn [combine fold_left fst snd]. destruct i as [|i]; cbn [nth_error] in *.
      * injection Hi as ->. rewrite fold_positional_other by assumption.
        apply lookup_insert_eq.
      * rewrite (IH args _ i k Hnd' Hi).
        destruct (nth_error args i); [reflexivity |].
        apply lookup_insert_ne. intros ->. apply Hs. eapply nth_error_In, Hi.
Qed.

(** X6.  After the [__init__] of a [NamedMutableSequence]
    whose slot names are distinct, item number [i] is the [i]-th
    positional argument when there is one, and otherwise the keyword
    argument named like the slot, or [None] when there is none: a
    positional argument wins over a keyword, and no item is left
    unassigned. *)
Theorem init_positional_wins (args : list (option V))
  (kwargs : gmap string (option V)) (i : nat) (k : string)
  (Hslots : List.NoDup slots) (Hi : nth_error slots i = Some k) :
  getitem_int slots (init slots args kwargs) (Z.of_nat i)
  = Ok (match nth_error args i with
        | Some v => v
        | None => default None (kwargs !! k)
        end).
Proof.
  unfold getitem_int. rewrite (index_nat _ _ _ Hi). cbn [rbind].
  unfold init. rewrite (fold_positional _ _ _ i k Hslots Hi).
  destruct (nth_error args i); [reflexivity |].
  rewrite fold_keywords.
  destruct (in_dec string_dec k slots) as [| Hn]; [reflexivity |].
  exfalso. apply Hn. eapply nth_error_In, Hi.
Qed.

(** X7.  [__setitem__] followed by [__getitem__] at the same index gives
    the value back and leaves the items of the other slots as they
    were; an index [i - len] below zero designates the same item as
    [i]; and an index outside [-len, len) raises [IndexError]. *)
Theorem setitem_getitem (self self' : gmap string (option V)) (item : Z)
  (value : option V)
  (Hset : setitem slots self item value = Ok self') :
  getitem_int slots self' item = Ok value /\
  (forall j k kj, index slots item = Ok k -> index slots j = Ok kj -> kj <> k ->
     getitem_int slots self' j = getitem_int slots self j) /\
  ((0 <= item < Z.of_nat (len slots))%Z ->
     getitem_int slots self' (item - Z.of_nat (len slots)) = Ok value) /\
  (forall j, (j < - Z.of_nat (len slots) \/ Z.of_nat (len slots) <= j)%Z ->
     setitem slots self j value = Raise IndexError /\
     getitem_int slots self j = Raise IndexError).
Proof.
  unfold setitem in Hset.
  destruct (index slots item) as [k|e] eqn:Ek; [| discriminate].
  cbn [rbind] in Hset. injection Hset as <-.
  assert (Hget : getitem_int slots (<[k := value]> self) item = Ok value).
  { unfold getitem_int. rewrite Ek. cbn [rbind]. now rewrite lookup_insert_eq. }
  split; [exact Hget |]. split; [| split].
  - intros j k' kj Hk Hj Hne. injection Hk as <-.
    unfold getitem_int. rewrite Hj. cbn [rbind].
    now rewrite lookup_insert_ne by congruence.
  - intros Hr. unfold getitem_int, len in *. now rewrite index_negative.
  - intros j Hj. unfold setitem, getitem_int, len in *.
    now rewrite index_out_of_range.
Qed.

End Values.

Lemma init_positional_wins_witness :
  getitem_int ["a"; "b"] (init ["a"; "b"] [Some 1%Z] {["a" := Some 5%Z; "b" := Some 7%Z]}) (Z.of_nat 0)
  = Ok (match nth_error [Some 1%Z] 0 with
        | Some v => v
        | None => default None (({["a" := Some 5%Z; "b" := Some 7%Z]} : gmap string (option Z)) !! "a")
        end).
Proof.
  apply (init_positional_wins ["a"; "b"] [Some 1%Z] {["a" := Some 5%Z; "b" := Some 7%Z]} 0 "a").
  - repeat constructor; simpl; intuition discriminate.
  - reflexivity.
Defined.

Lemma setitem_getitem_witness :
  let self := init ["a"; "b"] [Some 1%Z] ∅ in
  let self' := <["b" := Some 9%Z]> self in
  getitem_int ["a"; "b"] self' 1 = Ok (Some 9%Z).
Proof.
  intros self self'.
  assert (Hset : setitem ["a"; "b"] self 1 (Some 9%Z) = Ok self')
    by (vm_compute; reflexivity).
  exact (proj1 (setitem_getitem ["a"; "b"] self self' 1 (Some 9%Z) Hset)).
Defined.

End NamedSequenceFacts.

Module DequeFacts.
Import PySeq SliceableDeque.
Local Open Scope nat_scope.

Section Elements.
Context {T : Type}.
Implicit Types d A B : list T.

Lemma rotate_left_app A B :
  rotate (- Z.of_nat (length A)) (A ++ B) = B ++ A.
Proof.
  unfold rotate. destruct (A ++ B) as [|x l] eqn:E.
  - apply app_eq_nil in E. destruct E as [-> ->]. reflexivity.
  - rewrite <- E. clear x l E. rewrite length_app.
    set (a := length A). set (b := length B).
    destruct (Nat.eq_dec a 0) as [Ha | Ha].
    + assert (A = []) by (now apply length_zero_iff_nil). subst A.
      replace (- Z.of_nat a)%Z with 0%Z by lia. rewrite Zmod_0_l.
      cbn [Z.to_nat]. rewrite Nat.sub_0_r. cbn [app].
      rewrite Ha. cbn [Nat.add]. unfold b.
      now rewrite skipn_all, firstn_all, app_nil_r.
    + destruct (Nat.eq_dec b 0) as [Hb | Hb].
      * assert (B = []) by (now apply length_zero_iff_nil). subst B.
        rewrite Hb, Nat.add_0_r.
        replace (- Z.of_nat a)%Z with (0 + (-1) * Z.of_nat a)%Z by lia.
        rewrite Z_mod_plus_full, Zmod_0_l.
        cbn [Z.to_nat]. rewrite Nat.sub_0_r, app_nil_r. unfold a.
        now rewrite skipn_all, firstn_all.
      * replace (- Z.of_nat a)%Z with (Z.of_nat b + (-1) * Z.of_nat (a + b))%Z by lia.
        rewrite Z_mod_plus_full, Z.mod_small by lia.
        rewrite Nat2Z.id. replace (a + b - b)%nat with a by lia. unfold a.
        now rewrite skipn_app, skipn_all, Nat.sub_diag, firstn_app, firstn_all,
          Nat.sub_diag, app_nil_r.
Qed.

Lemma rotate_right_app A B :
  rotate (Z.of_nat (length A)) (B ++ A) = A ++ B.
Proof.
  unfold rotate. destruct (B ++ A) as [|x l] eqn:E.
  - apply app_eq_nil in E. destruct E as [-> ->]. reflexivity.
  - rewrite <- E. clear x l E. rewrite length_app.
    set (a := length A). set (b := length B).
    destruct (Nat.eq_dec b 0) as [Hb | Hb].
    + assert (B = []) by (now apply length_zero_iff_nil). subst B.
      rewrite Hb. cbn [Nat.add app].
      destruct (Nat.eq_dec a 0) as [Ha | Ha].
      * assert (A = []) by (now apply length_zero_iff_nil). subst A. reflexivity.
      * rewrite Z.mod_same by lia. cbn [Z.to_nat]. rewrite Nat.sub_0_r. unfold a.
        now rewrite skipn_all, firstn_all, app_nil_r.
    + rewrite Z.mod_small by lia. rewrite Nat2Z.id.
      replace (b + a - a)%nat with b by lia. unfold b.
      now rewrite skipn_app, skipn_all, Nat.sub_diag, firstn_app, firstn_all,
        Nat.sub_diag, app_nil_r.
Qed.

(** Rotating to the left by [a] places, for [a] within the deque. *)
Lemma rotate_left d (a : Z) :
  (0 <= a <= Z.of_nat (length d))%Z ->
  rotate (- a) d = skipn (Z.to_nat a) d ++ firstn (Z.to_nat a) d.
Proof.
  intros H.
  rewrite <- (firstn_skipn (Z.to_nat a) d) at 1.
  replace a with (Z.of_nat (length (firstn (Z.to_nat a) d))) at 1
    by (rewrite length_firstn; lia).
  apply rotate_left_app.
Qed.

Lemma rotate_back d (a : Z) :
  (0 <= a <= Z.of_nat (length d))%Z ->
  rotate a (skipn (Z.to_nat a) d ++ firstn (Z.to_nat a) d) = d.
Proof.
  intros H.
  replace a with (Z.of_nat (length (firstn (Z.to_nat a) d))) at 1
    by (rewrite length_firstn; lia).
  rewrite rotate_right_app. apply firstn_skipn.
Qed.

Lemma islice_step_one (l : list T) : islice_from 0 1 l = l.
Proof. induction l as [|x l IH]; [reflexivity |]. cbn. now rewrite IH. Qed.

(** X8.  A slice of a [SliceableDeque] with the default step (or step 1)
    whose resolved bounds satisfy [0 <= start <= len] and
    [start <= stop] gives the first [stop - start] elements of the
    deque turned left by [start] places, and leaves the deque as it
    was.  Up to [stop <= len] this is the slice a list would give; past
    the end of the deque the slice wraps around and goes on with the
    elements before [start]. *)
Theorem getitem_slice_wraps d (s : slice) (a b : Z)
  (Hres : resolve_slice d s = (a, b, step s))
  (Hstep : step s = None \/ step s = Some 1%Z)
  (Hstart : (0 <= a <= Z.of_nat (length d))%Z)
  (Hstop : (a <= b)%Z) :
  getitem_slice d s
  = (Ok (firstn (Z.to_nat (b - a))
           (skipn (Z.to_nat a) d ++ firstn (Z.to_nat a) d)), d) /\
  ((b <= Z.of_nat (length d))%Z ->
   getitem_slice d s
   = (Ok (firstn (Z.to_nat (b - a)) (skipn (Z.to_nat a) d)), d)) /\
  ((Z.of_nat (length d) <= b - a)%Z ->
   getitem_slice d s = (Ok (skipn (Z.to_nat a) d ++ firstn (Z.to_nat a) d), d)).
Proof.
  assert (Hmain : getitem_slice d s
    = (Ok (firstn (Z.to_nat (b - a))
             (skipn (Z.to_nat a) d ++ firstn (Z.to_nat a) d)), d)).
  { unfold getitem_slice. rewrite Hres.
    destruct (Z.ltb_spec (b - a) 0); [lia |].
    rewrite (rotate_left d a Hstart), (rotate_back d a Hstart).
    destruct Hstep as [-> | ->].
    - unfold islice. now rewrite islice_step_one.
    - destruct (Z.ltb_spec 1 1); [lia |].
      unfold islice. change (Z.to_nat 1) with 1%nat. now rewrite islice_step_one. }
  split; [exact Hmain |]. split.
  - intros Hb. rewrite Hmain. do 2 f_equal.
    rewrite firstn_app. rewrite length_skipn.
    replace (Z.to_nat (b - a) - (length d - Z.to_nat a))%nat with 0%nat by lia.
    cbn [firstn]. apply app_nil_r.
  - intros Hb. rewrite Hmain. do 2 f_equal.
    apply firstn_all2. rewrite length_app, length_skipn, length_firstn. lia.
Qed.

(** X9.  A slice whose resolved stop lies before its start makes
    [__getitem__] raise [ValueError] - where a list gives the empty
    list - and the deque is left turned left by [start] places: the
    rotation made before [islice] is called is not undone. *)
Theorem getitem_slice_reversed_bounds d (s : slice) (a b : Z)
  (Hres : resolve_slice d s = (a, b, step s))
  (Hstart : (0 <= a <= Z.of_nat (length d))%Z)
  (Hstop : (b < a)%Z) :
  getitem_slice d s
  = (Raise ValueError, skipn (Z.to_nat a) d ++ firstn (Z.to_nat a) d).
Proof.
  unfold getitem_slice. rewrite Hres.
  destruct (Z.ltb_spec (b - a) 0); [| lia].
  now rewrite (rotate_left d a Hstart).
Qed.

Lemma skipn_S_tail d n x l : skipn n d = x :: l -> skipn (S n) d = l.
Proof.
  revert d. induction n as [|n IH]; intros d H.
  - change (d = x :: l) in H. subst d. reflexivity.
  - destruct d as [|y d]; [discriminate |]. cbn [skipn] in *. now apply IH.
Qed.

Lemma delete_loop_range d (a : nat) : forall (n i : nat),
  (a + i + n <= length d)%nat ->
  delete_loop (firstn a d ++ skipn (a + i) d) (Z.of_nat i)
    (map (fun j => (Z.of_nat a + Z.of_nat j * 1)%Z) (seq i n))
  = (Ok tt, firstn a d ++ skipn (a + i + n) d).
Proof.
  induction n as [|n IH]; intros i H.
  - cbn [seq map delete_loop]. now rewrite Nat.add_0_r.
  - cbn [seq map delete_loop]. unfold delete_step.
    replace (- (Z.of_nat a + Z.of_nat i * 1) + Z.of_nat i)%Z
      with (- Z.of_nat (length (firstn a d)))%Z by (rewrite length_firstn; lia).
    rewrite rotate_left_app.
    destruct (skipn (a + i) d) as [|x l] eqn:E.
    { apply (f_equal (@length T)) in E. rewrite length_skipn in E. simpl in E. lia. }
    cbn [app].
    replace (Z.of_nat a + Z.of_nat i * 1 - Z.of_nat i)%Z
      with (Z.of_nat (length (firstn a d))) by (rewrite length_firstn; lia).
    rewrite rotate_right_app.
    apply skipn_S_tail in E. rewrite <- E.
    replace (S (a + i)) with (a + S i)%nat by lia.
    replace (Z.of_nat i + 1)%Z with (Z.of_nat (S i)) by lia.
    rewrite IH by lia. do 3 f_equal. lia.
Qed.

(** X10.  [del d[a:b:1]] with [0 <= a <= b <= len] removes the elements
    numbered [a] to [b - 1] and keeps the others in their order; the
    same slice written without a step, [del d[a:b]], raises [TypeError]
    and removes nothing, since [range] refuses the step [None]. *)
Theorem delitem_slice_range d (a b : Z)
  (Hrange : (0 <= a <= b)%Z /\ (b <= Z.of_nat (length d))%Z) :
  delitem_slice d (mkSlice (Some a) (Some b) (Some 1%Z))
  = (Ok tt, firstn (Z.to_nat a) d ++ skipn (Z.to_nat b) d) /\
  delitem_slice d (mkSlice (Some a) (Some b) None) = (Raise TypeError, d).
Proof.
  split; [| reflexivity].
  unfold delitem_slice. cbn [start stop step].
  change (1 =? 0)%Z with false. cbv iota.
  unfold range3. change (0 <? 1)%Z with true. cbv iota.
  replace ((b - a + 1 - 1) / 1)%Z with (b - a)%Z by (rewrite Z.div_1_r; lia).
  pose proof (delete_loop_range d (Z.to_nat a) (Z.to_nat (b - a)) 0) as H.
  rewrite Nat.add_0_r in H. rewrite firstn_skipn in H.
  replace (Z.to_nat a + Z.to_nat (b - a))%nat with (Z.to_nat b) in H by lia.
  rewrite Z2Nat.id in H by lia.
  apply H. lia.
Qed.

End Elements.

Lemma getitem_slice_wraps_witness :
  getitem_slice [1; 2; 3; 4]%Z (mkSlice (Some 2%Z) (Some 10%Z) None)
  = (Ok [3; 4; 1; 2]%Z, [1; 2; 3; 4]%Z).
Proof.
  exact (proj1 (getitem_slice_wraps [1; 2; 3; 4]%Z (mkSlice (Some 2%Z) (Some 10%Z) None)
                  2 10 eq_refl (or_introl eq_refl) ltac:(simpl; lia) ltac:(lia))).
Defined.

Lemma getitem_slice_reversed_bounds_witness :
  getitem_slice [1; 2; 3; 4]%Z (mkSlice (Some 3%Z) (Some 1%Z) None)
  = (Raise ValueError, [4; 1; 2; 3]%Z).
Proof.
  exact (getitem_slice_reversed_bounds [1; 2; 3; 4]%Z (mkSlice (Some 3%Z) (Some 1%Z) None)
           3 1 eq_refl ltac:(simpl; lia) ltac:(lia)).
Defined.

Lemma delitem_slice_range_witness :
  delitem_slice [1; 2; 3; 4; 5]%Z (mkSlice (Some 1%Z) (Some 3%Z) (Some 1%Z))
  = (Ok tt, [1; 4; 5]%Z).
Proof.
  exact (proj1 (delitem_slice_range [1; 2; 3; 4; 5]%Z 1 3 ltac:(simpl; lia))).
Defined.

End DequeFacts.

(** * Further properties of [PList.strip_empty] *)

Module StripFacts.
Import Core PList PListFacts StripProps.

Section Elements.
Context {A : Type}.
Variable py_eq : A -> A -> bool.
Variable text_of : A -> string.
Variable duration_of : A -> Q.

Abbreviation nonempty := (nonempty text_of duration_of).
Abbreviation remove := (remove py_eq).
Abbreviation strip_loop := (strip_loop py_eq text_of duration_of).
Abbreviation strip_data := (strip_data py_eq text_of duration_of).
Abbreviation strip_empty := (strip_empty py_eq text_of duration_of).
Abbreviation self_equal := (PListProps.self_equal py_eq).
Abbreviation eq_keeps_emptiness := (eq_keeps_emptiness py_eq text_of duration_of).
Abbreviation no_adjacent_empty := (no_adjacent_empty text_of duration_of).

Abbreviation respects := (respects py_eq text_of duration_of).

Lemma eq_keeps_emptiness_spec data :
  eq_keeps_emptiness data = true -> respects data.
Proof.
  unfold StripProps.eq_keeps_emptiness, StripProps.respects. intros H x y Hx Hy E.
  rewrite forallb_forall in H. specialize (H x Hx).
  rewrite forallb_forall in H. specialize (H y Hy).
  rewrite E in H. cbn [implb] in H. now apply eqb_prop in H.
Qed.

Lemma respects_sub data data' :
  (forall z, In z data' -> In z data) -> respects data -> respects data'.
Proof. unfold StripProps.respects. auto. Qed.

Lemma remove_filter x : forall data data',
  nonempty x = false ->
  (forall y, In y data -> py_eq y x = true -> nonempty y = false) ->
  remove x data = Ok data' ->
  List.filter nonempty data' = List.filter nonempty data.
Proof.
  induction data as [|y data IH]; intros data' Hx Hresp Hr; [discriminate |].
  cbn [PList.remove] in Hr. destruct (py_eq y x) eqn:E.
  - injection Hr as <-. cbn [List.filter].
    now rewrite (Hresp y (or_introl eq_refl) E).
  - destruct (remove x data) as [d|] eqn:Ed; [| discriminate].
    cbn [rbind] in Hr. injection Hr as <-. cbn [List.filter].
    rewrite (IH d Hx); [reflexivity | | reflexivity].
    intros z Hz. apply Hresp. now right.
Qed.

Lemma strip_loop_keeps fuel : forall i data,
  self_equal data -> respects data ->
  exists data', strip_loop fuel i data = Ok data' /\
                List.filter nonempty data' = List.filter nonempty data.
Proof.
  induction fuel as [|fuel IH]; intros i data Hse Hresp; cbn [PList.strip_loop].
  - eauto.
  - destruct (nth_error data i) as [x|] eqn:Hx; [| eauto].
    destruct (PList.nonempty text_of duration_of x) eqn:Hne; [apply IH; auto |].
    apply nth_error_In in Hx.
    destruct (remove_member py_eq x data Hx (self_equal_In py_eq _ _ Hse Hx))
      as (d & Hd & _ & Hsub).
    rewrite Hd. cbn [rbind].
    destruct (IH (S i) d (self_equal_sub py_eq _ _ Hsub Hse) (respects_sub _ _ Hsub Hresp))
      as (d' & -> & Hf).
    exists d'. split; [reflexivity |]. rewrite Hf.
    apply (remove_filter x data d Hne); [| exact Hd].
    intros y Hy E. rewrite (Hresp x y Hx Hy E). exact Hne.
Qed.

(** X11.  On a list whose elements are equal to themselves, and where
    elements equal under [==] are both empty or both not, in-place
    [strip_empty] returns [None] and never loses an element that is not
    empty: the elements with text and a positive duration are the same
    afterwards as before, in the same order and as many times. *)
Theorem strip_empty_keeps_nonempty
  (self : positive) (data : list A) (h : gmap positive (list A))
  (Hself : h !! self = Some data)
  (Heq : self_equal data)
  (Hresp : eq_keeps_emptiness data = true) :
  exists data',
    strip_empty self false h = Ok (None, <[self := data']> h) /\
    List.filter nonempty data' = List.filter nonempty data /\
    (length data' <= length data)%nat.
Proof.
  destruct (strip_loop_keeps (length data) 0 data Heq (eq_keeps_emptiness_spec _ Hresp))
    as (data' & Hd & Hf).
  exists data'. split; [| split; [exact Hf |]].
  - unfold PList.strip_empty. rewrite Hself. cbn [getattr rbind].
    unfold PList.strip_data. rewrite Hd. reflexivity.
  - destruct (strip_loop_total py_eq text_of duration_of (length data) 0 data Heq)
      as (d2 & Hd2 & _).
    clear Hd2 d2.
    assert (Hlen : forall fuel i d d', strip_loop fuel i d = Ok d' ->
                                       (length d' <= length d)%nat).
    { induction fuel as [|fuel IH]; intros i d d' H; cbn [PList.strip_loop] in H.
      - injection H as <-. lia.
      - destruct (nth_error d i) as [x|]; [| injection H as <-; lia].
        destruct (PList.nonempty text_of duration_of x); [now apply (IH (S i)) |].
        destruct (remove x d) as [d1|] eqn:Hr; [| discriminate].
        cbn [rbind] in H. apply IH in H.
        apply (remove_length py_eq) in Hr. lia. }
    apply (Hlen _ _ _ _ Hd).
Qed.

Lemma remove_at pre x rest :
  Forall (fun y => nonempty y = true) pre ->
  nonempty x = false -> py_eq x x = true ->
  respects (pre ++ x :: rest) ->
  remove x (pre ++ x :: rest) = Ok (pre ++ rest).
Proof.
  intros Hpre Hx Hxx Hresp.
  induction pre as [|y pre IH]; cbn [app PList.remove].
  - now rewrite Hxx.
  - inversion Hpre as [| ? ? Hy Hpre']; subst.
    destruct (py_eq y x) eqn:E.
    + assert (nonempty y = nonempty x).
      { apply Hresp; [| now left | exact E].
        right. apply in_or_app. right. now left. }
      congruence.
    + rewrite IH; [reflexivity | exact Hpre' |].
      eapply respects_sub; [| exact Hresp]. intros z Hz. now right.
Qed.

Lemma strip_loop_exact : forall rest fuel pre,
  (length rest <= fuel)%nat ->
  Forall (fun y => nonempty y = true) pre ->
  no_adjacent_empty rest = true ->
  self_equal (pre ++ rest) -> respects (pre ++ rest) ->
  strip_loop fuel (length pre) (pre ++ rest) = Ok (pre ++ List.filter nonempty rest).
Proof.
  intros rest. remember (length rest) as n eqn:Hn.
  revert rest Hn. induction n as [n IHn] using lt_wf_ind.
  intros rest Hn fuel pre Hfuel Hpre Hadj Hse Hresp.
  destruct rest as [|x rest].
  - cbn [List.filter]. rewrite !app_nil_r.
    destruct fuel; cbn [PList.strip_loop]; [reflexivity |].
    now rewrite (proj2 (nth_error_None pre (length pre)) (Nat.le_refl _)).
  - destruct fuel as [|fuel]; [simpl in *; lia |].
    cbn [PList.strip_loop].
    rewrite nth_error_app2 by lia. rewrite Nat.sub_diag. cbn [nth_error].
    destruct (PList.nonempty text_of duration_of x) eqn:Hx.
    + specialize (IHn (length rest) ltac:(simpl in Hn; lia) rest eq_refl fuel (pre ++ [x])).
      rewrite length_app in IHn. cbn [length] in IHn.
      rewrite Nat.add_1_r in IHn. rewrite <- !app_assoc in IHn. cbn [app] in IHn.
      rewrite IHn; [cbn [List.filter]; now rewrite Hx | simpl in *; lia | | | exact Hse | exact Hresp].
      * apply Forall_app. split; [exact Hpre | now constructor].
      * destruct rest; [reflexivity |]. cbn [StripProps.no_adjacent_empty] in Hadj.
        apply andb_true_iff in Hadj. apply Hadj.
    + assert (Hxx : py_eq x x = true).
      { apply (self_equal_In py_eq _ _ Hse). apply in_or_app. right. now left. }
      rewrite (remove_at pre x rest Hpre Hx Hxx Hresp). cbn [rbind List.filter].
      rewrite Hx.
      assert (Hsub : forall z, In z (pre ++ rest) -> In z (pre ++ x :: rest)).
      { intros z Hz. apply in_app_or in Hz. apply in_or_app.
        destruct Hz; [now left | right; now right]. }
      destruct rest as [|y rest].
      * cbn [List.filter]. rewrite !app_nil_r.
        destruct fuel; cbn [PList.strip_loop]; [reflexivity |].
        now rewrite (proj2 (nth_error_None pre (S (length pre))) (Nat.le_succ_diag_r _)).
      * cbn [StripProps.no_adjacent_empty] in Hadj.
        apply andb_true_iff in Hadj. destruct Hadj as [Hxy Hadj].
        rewrite Hx in Hxy. cbn [orb] in Hxy.
        specialize (IHn (length rest) ltac:(simpl in Hn; lia) rest eq_refl fuel (pre ++ [y])).
        rewrite length_app in IHn. cbn [length] in IHn.
        rewrite Nat.add_1_r in IHn. rewrite <- !app_assoc in IHn. cbn [app] in IHn.
        rewrite IHn; [cbn [List.filter]; now rewrite Hxy | simpl in *; lia | | | | ].
        -- apply Forall_app. split; [exact Hpre | now constructor].
        -- destruct rest; [reflexivity |]. cbn [StripProps.no_adjacent_empty] in Hadj.
           apply andb_true_iff in Hadj. apply Hadj.
        -- apply (self_equal_sub py_eq _ _ Hsub Hse).
        -- apply (respects_sub _ _ Hsub Hresp).
Qed.

(** X12.  When, besides, no empty element comes right after another
    empty one, in-place [strip_empty] does what its docstring says: the
    list is left with exactly its elements that are not empty, in their
    order. *)
Theorem strip_empty_exact
  (self : positive) (data : list A) (h : gmap positive (list A))
  (Hself : h !! self = Some data)
  (Heq : self_equal data)
  (Hresp : eq_keeps_emptiness data = true)
  (Hadj : no_adjacent_empty data = true) :
  strip_empty self false h = Ok (None, <[self := List.filter nonempty data]> h).
Proof.
  unfold PList.strip_empty. rewrite Hself. cbn [getattr rbind].
  unfold PList.strip_data.
  pose proof (strip_loop_exact data (length data) [] (Nat.le_refl _)
                (List.Forall_nil _) Hadj Heq (eq_keeps_emptiness_spec _ Hresp)) as H.
  cbn [app length] in H. rewrite H. reflexivity.
Qed.

End Elements.


Import Samples.

Lemma strip_empty_keeps_nonempty_witness :
  exists data',
    PList.strip_empty Eq.unit u_text u_duration 1%positive false
      {[1%positive := empty_syls]}
    = Ok (None, <[1%positive := data']> {[1%positive := empty_syls]}) /\
    List.filter (PList.nonempty u_text u_duration) data'
    = List.filter (PList.nonempty u_text u_duration) empty_syls /\
    (length data' <= length empty_syls)%nat.
Proof.
  apply (strip_empty_keeps_nonempty Eq.unit u_text u_duration 1%positive
           empty_syls {[1%positive := empty_syls]});
    vm_compute; reflexivity.
Defined.

Lemma strip_empty_exact_witness :
  PList.strip_empty Eq.unit u_text u_duration 1%positive false
    {[1%positive := tl empty_syls]}
  = Ok (None, <[1%positive := List.filter (PList.nonempty u_text u_duration) (tl empty_syls)]>
                {[1%positive := tl empty_syls]}).
Proof.
  apply (strip_empty_exact Eq.unit u_text u_duration 1%positive
           (tl empty_syls) {[1%positive := tl empty_syls]});
    vm_compute; reflexivity.
Defined.

End StripFacts.

(** * Further properties of [_MetaData.from_text] *)

Module DecodeFacts.
Import PyStr Core Core.MetaData LineMatchProps BlockProps RoundTripProps.
Import BlockFacts RoundTripFacts DecodeProps.

Lemma annotation_of_slot cls k :
  mem k (slots cls) = true -> exists a, annotation_of k (annotations cls) = Ok a.
Proof.
  unfold slots. induction (annotations cls) as [|[n a] l IH]; cbn [map mem existsb annotation_of].
  - discriminate.
  - unfold mem in *. cbn [map existsb fst]. rewrite String.eqb_sym.
    destruct (String.eqb n k); [eauto | exact IH].
Qed.

Lemma annotation_of_ex cls k :
  annotated cls = true -> mem k (slots_ex cls) = true ->
  exists a, annotation_of (String "_" k) (annotations cls) = Ok a.
Proof.
  unfold annotated. intros H Hk. rewrite forallb_forall in H.
  apply mem_In in Hk. specialize (H k Hk).
  destruct (annotation_of (String "_" k) (annotations cls)); [eauto | discriminate].
Qed.


(** What one round of the loop does with the line [kv]. *)
Lemma step_line cls o m kv :
  Re.m_groups m = line_groups kv ->
  annotated cls = true ->
  from_text_step cls o m
  = match recognised cls (fst kv) with
    | Some (s, a) => do x <- coerce a (str (snd kv)); Ok (<[s := x]> o)
    | None => Ok o
    end.
Proof.
  intros Hg Hann. unfold from_text_step, Re.group. rewrite Hg.
  cbn [line_groups Re.lookup_group String.eqb Ascii.eqb Bool.eqb].
  unfold recognised, annot_for, store_key, setattr_md.
  destruct (mem (attr_name (fst kv)) (slots cls)) eqn:Es.
  - destruct (annotation_of_slot cls _ Es) as [a ->]. cbn [orb rbind]. reflexivity.
  - cbn [orb negb andb].
    destruct (mem (attr_name (fst kv)) (slots_ex cls)) eqn:Ex.
    + destruct (annotation_of_ex cls _ Hann Ex) as [a ->]. cbn [rbind]. reflexivity.
    + now destruct (annotation_of _ (annotations cls)).
Qed.

Lemma loop_last_value cls (Hann : annotated cls = true) : forall fs ms o0 o,
  map Re.m_groups ms = map line_groups fs ->
  from_text_loop cls o0 ms = Ok o ->
  forall s, o !! s = match last_value cls s fs with
                     | Some x => Some x
                     | None => o0 !! s
                     end.
Proof.
  induction fs as [|kv fs IH]; intros ms o0 o Hg Hl s;
    destruct ms as [|m ms]; try discriminate.
  - cbn in Hl. now injection Hl as <-.
  - cbn [map] in Hg. injection Hg as Hm Hg.
    cbn [from_text_loop] in Hl. rewrite (step_line cls o0 m kv Hm Hann) in Hl.
    cbn [last_value]. unfold stored.
    destruct (recognised cls (fst kv)) as [[s' a]|].
    + destruct (coerce a (str (snd kv))) as [x|e]; [| discriminate].
      cbn [rbind] in Hl. rewrite (IH ms _ o Hg Hl s).
      destruct (last_value cls s fs); [reflexivity |].
      destruct (String.eqb_spec s' s) as [-> | Hne].
      * apply lookup_insert_eq.
      * now apply lookup_insert_ne.
    + cbn [rbind] in Hl. rewrite (IH ms _ o Hg Hl s).
      now destruct (last_value cls s fs).
Qed.

Lemma from_text_block cls fs :
  forallb readable fs = true ->
  exists ms, from_text cls (str (block fs)) = from_text_loop cls ∅ ms /\
             map Re.m_groups ms = map line_groups fs.
Proof.
  intros Hr. unfold from_text, chars, str.
  rewrite list_ascii_of_string_of_list_ascii.
  eexists. split; [reflexivity | now apply finditer_block].
Qed.

(** X13.  In the object that [from_text] decodes from a block of
    [name: value] lines (the name being all that stands before the last
    colon-space of the line), every slot holds the value of the last
    line that names it, coerced to the type of the field; a slot that no
    line names stays unassigned, and lines whose name is that of no
    field leave no trace. *)
Theorem from_text_last_wins (cls : MetaDataClass)
  (fs : list (list ascii * list ascii)) (o : attrs)
  (Hann : annotated cls = true)
  (Hread : forallb readable fs = true)
  (Hdec : from_text cls (str (block fs)) = Ok o) :
  forall s, o !! s = last_value cls s fs.
Proof.
  intros s. destruct (from_text_block cls fs Hread) as (ms & E & Hg).
  rewrite E in Hdec.
  rewrite (loop_last_value cls Hann fs ms ∅ o Hg Hdec s).
  destruct (last_value cls s fs); [reflexivity | apply lookup_empty].
Qed.



Lemma from_text_last_wins_witness :
  decoded0 !! "title" = last_value ScriptInfo "title" lines0 /\
  decoded0 !! "play_res_y" = last_value ScriptInfo "play_res_y" lines0.
Proof.
  split; apply (from_text_last_wins ScriptInfo lines0 decoded0);
    vm_compute; reflexivity.
Defined.


Lemma value_eqb_eq a b : value_eqb a b = true -> a = b.
Proof.
  destruct a as [s|m|p|c], b as [t|n|q|d]; cbn [value_eqb]; try discriminate.
  - intros H. apply String.eqb_eq in H. now subst.
  - intros H. apply Z.eqb_eq in H. now subst.
  - destruct p as [p| |a|], q as [q| |b|]; cbn [PyNum.same_float];
      try discriminate; try reflexivity.
    + intros H. apply andb_true_iff in H. destruct H as [H1 H2].
      apply Z.eqb_eq in H1. apply Pos.eqb_eq in H2.
      destruct p, q. cbn in *. now subst.
    + intros H. apply eqb_prop in H. now subst.
  - intros H. apply eqb_prop in H. now subst.
Qed.

Lemma emit_fields cls o : forall names,
  forallb (name_ok cls) names = true ->
  emit cls o names = block (map enc (fields_from cls o names)).
Proof.
  induction names as [|n ns IH]; intros Hn; [reflexivity |].
  cbn [forallb] in Hn. apply andb_true_iff in Hn. destruct Hn as [Hn1 Hn].
  unfold emit, fields_from. cbn [flat_map].
  fold (emit cls o ns). fold (fields_from cls o ns).
  rewrite (getattr_store_key _ _ _ Hn1), (IH Hn).
  destruct (o !! store_key cls n) as [x|]; [| reflexivity].
  unfold name_ok in Hn1.
  repeat (apply andb_true_iff in Hn1; destruct Hn1 as [Hn1 ?]).
  match goal with H : negb (is_private n) = true |- _ =>
    apply negb_true_iff in H; rewrite H end.
  cbn [app map]. unfold block. cbn [map concat]. unfold line, enc. cbn [fst snd].
  now rewrite <- !app_assoc.
Qed.

Lemma subseq_weaken : forall ns ks,
  (forall n, subseq ks ns = true -> subseq ks (n :: ns) = true) /\
  (forall k, subseq (k :: ks) ns = true -> subseq ks ns = true).
Proof.
  induction ns as [|m ns IH]; intros ks.
  - split.
    + intros n H. destruct ks; [reflexivity | discriminate].
    + intros k H. discriminate.
  - assert (Htail : forall k, subseq (k :: ks) (m :: ns) = true ->
                              subseq ks (m :: ns) = true).
    { intros k H. cbn [subseq] in H. apply (proj1 (IH ks)).
      destruct (String.eqb k m); [exact H | now apply (proj2 (IH ks) k)]. }
    split; [| exact Htail].
    intros n H. destruct ks as [|k ks]; [reflexivity |].
    change (subseq (k :: ks) (n :: m :: ns))
      with (if String.eqb k n then subseq ks (m :: ns) else subseq (k :: ks) (m :: ns)).
    destruct (String.eqb k n); [| exact H].
    clear Htail. cbn [subseq] in H. apply (proj1 (IH ks)).
    destruct (String.eqb k m); [exact H | now apply (proj2 (IH ks) k)].
Qed.

Lemma fields_from_subseq cls o : forall names,
  subseq (map fst (fields_from cls o names)) names = true.
Proof.
  induction names as [|n ns IH]; [reflexivity |].
  unfold fields_from. cbn [flat_map]. fold (fields_from cls o ns).
  destruct (o !! store_key cls n) as [x|].
  - cbn [app map fst subseq]. now rewrite String.eqb_refl.
  - cbn [app]. now apply subseq_weaken.
Qed.

Lemma store_all_fields cls o : forall names o0 s,
  nodupb (map (store_key cls) names) = true ->
  (forall n x, In n names -> o !! store_key cls n = Some x ->
               decode cls (n, render x) = Some x) ->
  store_all cls o0 (fields_from cls o names) !! s
  = match (if mem s (map (store_key cls) names) then o !! s else None) with
    | Some x => Some x
    | None => o0 !! s
    end.
Proof.
  induction names as [|n ns IH]; intros o0 s Hnd Hdec; [reflexivity |].
  cbn [map nodupb] in Hnd. apply andb_true_iff in Hnd. destruct Hnd as [Hfresh Hnd].
  apply negb_true_iff in Hfresh.
  assert (Hdec' : forall n x, In n ns -> o !! store_key cls n = Some x ->
                              decode cls (n, render x) = Some x).
  { intros n' x Hn'. apply Hdec. now right. }
  unfold fields_from. cbn [flat_map]. fold (fields_from cls o ns).
  cbn [map]. rewrite mem_cons.
  destruct (o !! store_key cls n) as [x|] eqn:Ex.
  - cbn [app]. unfold store_all. cbn [fold_left fst].
    rewrite (Hdec n x (or_introl eq_refl) Ex).
    fold (store_all cls (<[store_key cls n := x]> o0) (fields_from cls o ns)).
    rewrite (IH _ s Hnd Hdec').
    destruct (String.eqb_spec s (store_key cls n)) as [-> | Hne].
    + rewrite Hfresh. cbn [orb]. rewrite Ex. apply lookup_insert_eq.
    + cbn [orb]. destruct (mem s (map (store_key cls) ns)).
      * destruct (o !! s); [reflexivity |]. now apply lookup_insert_ne.
      * now apply lookup_insert_ne.
  - cbn [app]. rewrite (IH _ s Hnd Hdec').
    destruct (String.eqb_spec s (store_key cls n)) as [-> | Hne].
    + rewrite Hfresh. cbn [orb]. now rewrite Ex.
    + reflexivity.
Qed.

(** X15.  Encoding then decoding: for a class whose tables are
    consistent (as those of [ScriptInfo] and [ProjectGarbage] are) and an
    object of which only slots written by [as_text] are assigned, with
    values whose text is on one line, has no colon-space and is read
    back as the same value, [from_text] applied to the text that
    [as_text] writes gives the object back. *)
Theorem as_text_from_text (cls : MetaDataClass) (o : attrs)
  (Hcls : well_formed cls = true)
  (Henc : encodable cls o = true) :
  from_text cls (as_text cls o []) = Ok o.
Proof.
  unfold encodable in Henc.
  apply andb_true_iff in Henc. destruct Henc as [Henc Hdom].
  apply andb_true_iff in Henc. destruct Henc as [Hcan Hback].
  pose proof Hcls as Hw. unfold well_formed in Hw.
  apply andb_true_iff in Hw. destruct Hw as [Hnames Hnd].
  assert (Htext : as_text cls o [] = block_text (fields_of cls o)).
  { rewrite as_text_emit, emit_publics. fold (publics cls).
    unfold block_text, fields_of. f_equal. now apply emit_fields. }
  rewrite Htext.
  destruct (round_trip_well_formed cls (fields_of cls o) Hcls
              (fields_from_subseq cls o (publics cls)) Hcan) as [-> _].
  f_equal. apply map_eq. intros s.
  unfold fields_of. rewrite (store_all_fields cls o (publics cls) ∅ s Hnd).
  - destruct (mem s (map (store_key cls) (publics cls))) eqn:Es.
    + destruct (o !! s); [reflexivity | apply lookup_empty].
    + rewrite lookup_empty. destruct (o !! s) as [x|] eqn:Ex; [| reflexivity].
      exfalso. rewrite forallb_forall in Hdom.
      assert (Hin : In s (map fst (map_to_list o))).
      { apply in_map_iff. exists (s, x). split; [reflexivity |].
        apply list_elem_of_In. now apply elem_of_map_to_list. }
      rewrite (Hdom s Hin) in Es. discriminate.
  - intros n x Hn Ex. unfold decodes_back in Hback.
    rewrite forallb_forall in Hback. specialize (Hback n Hn).
    rewrite Ex in Hback.
    destruct (decode cls (n, render x)) as [x'|]; [| discriminate].
    now rewrite (value_eqb_eq _ _ Hback).
Qed.

Lemma as_text_from_text_witness :
  from_text ScriptInfo (as_text ScriptInfo object0 []) = Ok object0.
Proof.
  apply (as_text_from_text ScriptInfo object0); vm_compute; reflexivity.
Defined.

End DecodeFacts.

(** * Further properties of [Style] *)

Module StyleFacts.
Import Core GridProps.

Lemma an_in_spec s l : Style.an_in s l = true <-> In (Style.alignment s) l.
Proof.
  unfold Style.an_in. rewrite existsb_exists. split.
  - intros (z & Hz & E). apply Z.eqb_eq in E. now subst.
  - intros H. exists (Style.alignment s). split; [exact H | apply Z.eqb_refl].
Qed.

(** X16.  The six alignment tests of a style read the numeric-keypad
    grid: for an alignment from 1 to 9 exactly one of [an_is_left],
    [an_is_center], [an_is_right] holds and exactly one of
    [an_is_bottom], [an_is_middle], [an_is_top], and the two determine
    the alignment (column plus three times the row); for any other
    alignment none of the six holds. *)
Theorem alignment_grid (s : Style.t) :
  let a := Style.alignment s in
  let col := ((if Style.an_is_left s then 1 else 0)
              + (if Style.an_is_center s then 2 else 0)
              + (if Style.an_is_right s then 3 else 0))%Z in
  let row := ((if Style.an_is_bottom s then 1 else 0)
              + (if Style.an_is_middle s then 2 else 0)
              + (if Style.an_is_top s then 3 else 0))%Z in
  ((1 <= a <= 9)%Z ->
     exactly_one (Style.an_is_left s) (Style.an_is_center s)
       (Style.an_is_right s) /\
     exactly_one (Style.an_is_bottom s) (Style.an_is_middle s)
       (Style.an_is_top s) /\
     a = (col + 3 * (row - 1))%Z) /\
  (~ (1 <= a <= 9)%Z ->
     Style.an_is_left s = false /\ Style.an_is_center s = false /\
     Style.an_is_right s = false /\ Style.an_is_bottom s = false /\
     Style.an_is_middle s = false /\ Style.an_is_top s = false).
Proof.
  unfold Style.an_is_left, Style.an_is_center, Style.an_is_right,
    Style.an_is_bottom, Style.an_is_middle, Style.an_is_top, Style.an_in,
    exactly_one.
  cbn [existsb].
  generalize (Style.alignment s). intros a. cbv zeta.
  split.
  - intros H.
    assert (Ha : (a = 1 \/ a = 2 \/ a = 3 \/ a = 4 \/ a = 5 \/ a = 6 \/
                  a = 7 \/ a = 8 \/ a = 9)%Z) by lia.
    repeat (destruct Ha as [-> | Ha]); try subst a; cbn;
      (split; [| split; [| reflexivity]]); tauto.
  - intros H.
    repeat match goal with
           | |- context [Z.eqb a ?k] =>
               rewrite (proj2 (Z.eqb_neq a k)) by lia
           end.
    repeat split.
Qed.

Lemma inject_zero z : Qeq_bool (inject_Z z) 0 = (z =? 0)%Z.
Proof.
  destruct (Z.eqb_spec z 0) as [-> | Hne]; [reflexivity |].
  apply not_true_iff_false. intros H. apply Qeq_bool_iff in H.
  apply Hne. unfold Qeq in H. cbn in H. lia.
Qed.

Lemma div_inject (a b : Z) :
  PyNum.div (inject_Z a) (inject_Z b)
  = if (b =? 0)%Z then Raise ZeroDivisionError else Ok (inject_Z a / inject_Z b).
Proof. unfold PyNum.div. now rewrite inject_zero. Qed.

Lemma ratio_zero (a b : Z) :
  b <> 0%Z -> Qeq_bool (inject_Z a / inject_Z b) 0 = (a =? 0)%Z.
Proof.
  intros Hb. destruct (Z.eqb_spec a 0) as [-> | Hne].
  - apply Qeq_bool_iff. unfold Qdiv. apply Qmult_0_l.
  - apply not_true_iff_false. intros H. apply Qeq_bool_iff in H.
    assert (Hb' : ~ inject_Z b == 0).
    { intros E. apply Hb. unfold Qeq in E. cbn in E. lia. }
    assert (E : inject_Z a == 0).
    { rewrite <- (Qmult_div_r (inject_Z a) (inject_Z b) Hb'), H. ring. }
    apply Hne. unfold Qeq in E. cbn in E. lia.
Qed.

Lemma div_ratio (x : Q) (a b : Z) :
  b <> 0%Z ->
  PyNum.div x (inject_Z a / inject_Z b)
  = if (a =? 0)%Z then Raise ZeroDivisionError
    else Ok (x / (inject_Z a / inject_Z b)).
Proof. intros Hb. unfold PyNum.div. now rewrite (ratio_zero a b Hb). Qed.

(** X17.  With a source resolution given as a pair, [Style.resample]
    raises [ZeroDivisionError] when one of the four numbers - source
    width or height, target width or height - is zero, and returns a
    resampled style in every other case. *)
Theorem resample_zero_division (s : Style.t) (ax ay bx by_ : Z) (sbas : bool) :
  ((ax = 0 \/ ay = 0 \/ bx = 0 \/ by_ = 0)%Z ->
     Style.resample s (Style.SrcTuple (ax, ay)) (bx, by_) sbas
     = Raise ZeroDivisionError) /\
  ((ax <> 0 /\ ay <> 0 /\ bx <> 0 /\ by_ <> 0)%Z ->
     exists s', Style.resample s (Style.SrcTuple (ax, ay)) (bx, by_) sbas = Ok s').
Proof.
  unfold Style.resample. cbn [Style.resample_source rbind].
  rewrite !div_inject.
  destruct (Z.eqb_spec ax 0) as [Hax | Hax].
  { split; [reflexivity | intros (H & _); contradiction]. }
  cbn [rbind].
  destruct (Z.eqb_spec ay 0) as [Hay | Hay].
  { split; [reflexivity | intros (_ & H & _); contradiction]. }
  cbn [rbind].
  destruct (Z.eqb_spec by_ 0) as [Hby | Hby].
  { split; [reflexivity | intros (_ & _ & _ & H); contradiction]. }
  cbn [rbind]. rewrite !(div_ratio _ bx by_ Hby).
  destruct (Z.eqb_spec bx 0) as [Hbx | Hbx].
  { split; [reflexivity | intros (_ & _ & H & _); contradiction]. }
  cbn [rbind].
  split; [intros [H | [H | [H | H]]]; contradiction |].
  intros _.
  match goal with |- context [Qltb ?p ?q] => destruct (Qltb p q) end.
  - rewrite (div_ratio _ ax ay Hay).
    destruct (Z.eqb_spec ax 0); [contradiction |]. cbn [rbind]. eauto.
  - cbn [rbind]. eauto.
Qed.

Lemma round_eq (p q : Q) : p == q -> PyNum.round p = PyNum.round q.
Proof.
  intros H. unfold PyNum.round. rewrite (Qfloor_comp _ _ H).
  assert (E : p - inject_Z (Qfloor q) == q - inject_Z (Qfloor q)) by (rewrite H; reflexivity).
  now rewrite (Qcompare_comp _ _ E (1 # 2) (1 # 2) (Qeq_refl _)).
Qed.

Lemma round_inject (z : Z) : PyNum.round (inject_Z z) = z.
Proof.
  unfold PyNum.round. rewrite Qfloor_Z.
  assert (E : inject_Z z - inject_Z z == 0) by ring.
  now rewrite (Qcompare_comp _ _ E (1 # 2) (1 # 2) (Qeq_refl _)).
Qed.

(** X18.  Resampling a style from a resolution to the same resolution
    (both numbers not zero) is not the identity on floats: the font size
    comes back rounded to the nearest integer (halves to the even one),
    and outline and shadow rounded to five decimals when border and
    shadow are scaled; the margins, the alignment and the names are
    unchanged and horizontal scale and spacing keep their value. *)
Theorem resample_same_resolution (s : Style.t) (w h : Z) (sbas : bool)
  (Hw : w <> 0%Z) (Hh : h <> 0%Z) :
  exists s',
    Style.resample s (Style.SrcTuple (w, h)) (w, h) sbas = Ok s' /\
    Style.fontsize s' = inject_Z (PyNum.round (Style.fontsize s)) /\
    Style.outline s'
    = (if sbas then PyNum.round5 (Style.outline s) else Style.outline s) /\
    Style.shadow s'
    = (if sbas then PyNum.round5 (Style.shadow s) else Style.shadow s) /\
    Style.margin_l s' = Style.margin_l s /\
    Style.margin_r s' = Style.margin_r s /\
    Style.margin_v s' = Style.margin_v s /\
    Style.scale_x s' == Style.scale_x s /\
    Style.spacing s' == Style.spacing s /\
    Style.alignment s' = Style.alignment s /\
    Style.name s' = Style.name s /\ Style.fontname s' = Style.fontname s.
Proof.
  assert (Nw : ~ inject_Z w == 0).
  { intros E. apply Hw. unfold Qeq in E. cbn in E. lia. }
  assert (Nh : ~ inject_Z h == 0).
  { intros E. apply Hh. unfold Qeq in E. cbn in E. lia. }
  assert (Ew : inject_Z w / inject_Z w == 1) by (field; exact Nw).
  assert (Eh : inject_Z h / inject_Z h == 1) by (field; exact Nh).
  unfold Style.resample. cbn [Style.resample_source rbind].
  rewrite !div_inject.
  destruct (Z.eqb_spec w 0); [contradiction |].
  destruct (Z.eqb_spec h 0); [contradiction |].
  cbn [rbind]. rewrite (div_ratio _ w h Hh).
  destruct (Z.eqb_spec w 0); [contradiction |]. cbn [rbind].
  assert (Hd : Qltb (1 # 100)
                 (PyNum.abs (inject_Z w / inject_Z h - inject_Z w / inject_Z h)
                  / (inject_Z w / inject_Z h)) = false).
  { apply MiscFacts.Qltb_ge. unfold PyNum.abs.
    assert (E : inject_Z w / inject_Z h - inject_Z w / inject_Z h == 0) by ring.
    rewrite E. cbn [Qabs]. unfold Qdiv. rewrite Qmult_0_l. discriminate. }
  rewrite Hd. cbn [rbind].
  eexists. split; [reflexivity |]. cbn.
  repeat split.
  - f_equal. apply round_eq. rewrite Eh. ring.
  - destruct sbas; [| reflexivity]. unfold PyNum.round5. do 2 f_equal.
    apply round_eq. rewrite Eh. ring.
  - destruct sbas; [| reflexivity]. unfold PyNum.round5. do 2 f_equal.
    apply round_eq. rewrite Eh. ring.
  - rewrite <- (round_inject (Style.margin_l s)) at 2. apply round_eq. rewrite Ew. ring.
  - rewrite <- (round_inject (Style.margin_r s)) at 2. apply round_eq. rewrite Ew. ring.
  - rewrite <- (round_inject (Style.margin_v s)) at 2. apply round_eq. rewrite Eh. ring.
  - ring.
  - rewrite Ew. ring.
Qed.

Lemma resample_same_resolution_witness :
  exists s',
    Style.resample Samples.style24 (Style.SrcTuple (1920, 1080)%Z) (1920, 1080)%Z true = Ok s' /\
    Style.fontsize s' = inject_Z (PyNum.round (Style.fontsize Samples.style24)).
Proof.
  destruct (resample_same_resolution Samples.style24 1920 1080 true
              ltac:(discriminate) ltac:(discriminate)) as (s' & H1 & H2 & _).
  exists s'. split; assumption.
Defined.

End StyleFacts.


(** * The indexes and the text of the chars of a line *)

Module CharIndexFacts.
Import Core CharIndexProps.
Local Open Scope nat_scope.

Lemma copy_vertical_id self a a' :
  Line.copy_vertical self a = Ok a' -> i a' = i a /\ text a' = text a.
Proof.
  unfold Line.copy_vertical. intros H. repeat inv_ok H. injection H as <-.
  split; reflexivity.
Qed.

Lemma chars_h_id self style : forall cs cur_x cs',
  Line.chars_h self style cur_x cs = Ok cs' ->
  map char_index cs' = map char_index cs /\ map char_text cs' = map char_text cs.
Proof.
  induction cs as [|c cs IH]; intros cur_x cs' H; cbn [Line.chars_h] in H.
  - injection H as <-. split; reflexivity.
  - repeat inv_ok H. injection H as <-.
    match goal with H : Line.copy_vertical _ _ = Ok _ |- _ =>
      apply copy_vertical_id in H; destruct H as [Hi Ht] end.
    match goal with H : Line.chars_h _ _ _ cs = Ok _ |- _ =>
      apply IH in H; destruct H as [IHi IHt] end.
    cbn [map]. unfold char_index, char_text in *. cbn [Unit.set_base Unit.base].
    rewrite Hi, Ht, IHi, IHt.
    destruct (Style.an_is_left style), (Style.an_is_center style); split; reflexivity.
Qed.

Lemma chars_v_id self style si max_width : forall cs cur_y cs',
  Line.chars_v self style si max_width cur_y cs = Ok cs' ->
  map char_index cs' = map char_index cs /\ map char_text cs' = map char_text cs.
Proof.
  induction cs as [|c cs IH]; intros cur_y cs' H; cbn [Line.chars_v] in H.
  - injection H as <-. split; reflexivity.
  - repeat inv_ok H.
    match goal with H : (let '(_, _) := ?p in _) = Ok _ |- _ => destruct p end.
    repeat inv_ok H. injection H as <-.
    match goal with H : Line.chars_v _ _ _ _ _ cs = Ok _ |- _ =>
      apply IH in H; destruct H as [IHi IHt] end.
    cbn [map]. unfold char_index, char_text in *. cbn [Unit.set_base Unit.base].
    rewrite IHi, IHt. split; reflexivity.
Qed.

Lemma place_chars_id vertical_kanji self cs self' :
  Line.place_chars vertical_kanji (Line.set_chars self cs) cs = Ok self' ->
  exists cs', Line.chars self' = Some cs' /\
    map char_index cs' = map char_index cs /\ map char_text cs' = map char_text cs.
Proof.
  unfold Line.place_chars. intros H. inv_ok H.
  destruct v as [[meta style]|].
  - destruct (Style.an_is_top style || Style.an_is_bottom style || negb vertical_kanji).
    + repeat inv_ok H. injection H as <-.
      eexists. split; [reflexivity |]. eapply chars_h_id; eassumption.
    + repeat inv_ok H. injection H as <-.
      eexists. split; [reflexivity |]. eapply chars_v_id; eassumption.
  - injection H as <-. exists cs. repeat split.
Qed.

Lemma new_chars_spec font self el : forall el_text char_index0 ci prev cs,
  Line.new_chars font self el char_index0 ci prev el_text = Ok cs ->
  map char_index cs = seq char_index0 (length el_text) /\
  map char_text cs = map (fun c => String c "") el_text.
Proof.
  induction el_text as [|c tl IH]; intros k ci prev cs H; cbn [Line.new_chars] in H.
  - injection H as <-. split; reflexivity.
  - repeat inv_ok H. injection H as <-.
    match goal with H : Line.new_chars _ _ _ _ _ _ tl = Ok _ |- _ =>
      apply IH in H; destruct H as [IHi IHt] end.
    cbn [map length seq]. rewrite IHi, IHt.
    destruct (Unit.cls el); split; reflexivity.
Qed.

Lemma chars_of_spec font self : forall els k cs,
  Line.chars_of font self k els = Ok cs ->
  map char_index cs = index_runs k els /\
  map char_text cs = map (fun c => String c "") (concat (map element_text els)).
Proof.
  induction els as [|el els IH]; intros k cs H; cbn [Line.chars_of] in H.
  - injection H as <-. split; reflexivity.
  - repeat inv_ok H. injection H as <-.
    match goal with H : Line.new_chars _ _ _ _ _ _ _ = Ok _ |- _ =>
      apply new_chars_spec in H; destruct H as [Hi Ht] end.
    match goal with H : Line.chars_of _ _ _ els = Ok _ |- _ =>
      apply IH in H; destruct H as [IHi IHt] end.
    assert (Etext : PyStr.times " " v ++ PyStr.chars (text (Unit.base el))
                    ++ PyStr.times " " v0 = element_text el).
    { unfold element_text.
      repeat match goal with
             | H : Line.u_prespace el = Ok _ |- _ =>
                 unfold Line.u_prespace in H; apply getattr_ok in H; rewrite H
             | H : Line.u_postspace el = Ok _ |- _ =>
                 unfold Line.u_postspace in H; apply getattr_ok in H; rewrite H
             end.
      reflexivity. }
    rewrite Etext in Hi, Ht.
    cbn [index_runs map concat]. rewrite !map_app, Hi, Ht, IHi, IHt.
    split; reflexivity.
Qed.

(** X21.  In the chars that [add_chars] builds, the index [i] does not
    count the chars of the line: the chars of the element (syllable, or
    word when there are no syllables) at position [k] are numbered
    [k], [k + 1], [k + 2], ... so that the numbering starts again one
    higher at each element and indexes repeat from one element to the
    next.  The texts of the chars are, in order, the single characters
    of the elements' texts with their leading and trailing spaces
    written out. *)
Theorem add_chars_index_restart (font : Font) (vertical_kanji : bool)
  (self self' : Line.t)
  (Hrun : Line.add_chars font vertical_kanji self = Ok self') :
  exists cs,
    Line.chars self' = Some cs /\
    map char_index cs = index_runs 0 (words_or_syls self) /\
    map char_text cs
    = map (fun c => String c "") (concat (map element_text (words_or_syls self))).
Proof.
  unfold Line.add_chars in Hrun. cbn [Line.syls Line.words Line.set_chars] in Hrun.
  inv_ok Hrun. inv_ok Hrun.
  apply getattr_ok in Hrun0. unfold words_or_syls. rewrite Hrun0.
  destruct v as [|s ss].
  - apply getattr_ok in Hrun1. rewrite Hrun1. cbn [default from_option id].
    destruct v0 as [|w ws].
    + injection Hrun as <-. exists []. repeat split.
    + inv_ok Hrun.
      apply chars_of_spec in Hrun2. destruct Hrun2 as [Hi Ht].
      apply place_chars_id in Hrun. destruct Hrun as (cs' & Hc & Hi' & Ht').
      exists cs'. split; [exact Hc |]. split; congruence.
  - assert (Hgo : (do cs <- Line.chars_of font (Line.set_chars self []) 0 (s :: ss);
                   Line.place_chars vertical_kanji
                     (Line.set_chars (Line.set_chars self []) cs) cs) = Ok self').
    { destruct v0; exact Hrun. }
    clear Hrun. inv_ok Hgo.
    apply chars_of_spec in Hgo0. destruct Hgo0 as [Hi Ht].
    assert (Eset : Line.set_chars (Line.set_chars self []) v = Line.set_chars self v)
      by reflexivity.
    rewrite Eset in Hgo.
    apply place_chars_id in Hgo. destruct Hgo as (cs' & Hc & Hi' & Ht').
    exists cs'. split; [exact Hc |]. split; congruence.
Qed.

Lemma add_chars_index_restart_witness :
  exists cs,
    Line.chars Samples.after_chars7 = Some cs /\
    map char_index cs = [0; 1; 2; 1; 2].
Proof.
  destruct (add_chars_index_restart Samples.font0 false Samples.before_chars7
              Samples.after_chars7 ltac:(vm_compute; reflexivity))
    as (cs & Hc & Hi & _).
  exists cs. split; [exact Hc |]. rewrite Hi. vm_compute. reflexivity.
Defined.

End CharIndexFacts.

(** * The words of a line *)

Module WordFacts.
Import PyStr Re Core ReFacts GreedyProps GreedyFacts LineMatchFacts BlockFacts WordProps.
Local Open Scope nat_scope.

Abbreviation word_pattern := Line.word_pattern.

Lemma forallb_Forall {A} (p : A -> bool) l :
  forallb p l = true -> Forall (fun x => p x = true) l.
Proof.
  induction l as [|x l IH]; cbn [forallb]; intros H; constructor.
  - now apply andb_true_iff in H.
  - apply IH. now apply andb_true_iff in H.
Qed.

Lemma nonspace_false c : is_space c = true -> nonspace c = false.
Proof. unfold nonspace. now intros ->. Qed.

Lemma rmatch_chr ml p bef c tl cs k :
  rmatch ml (Chr p) (mkState bef (c :: tl) cs) k
  = if p c then k (mkState (c :: bef) tl cs) else None.
Proof. reflexivity. Qed.

Lemma rmatch_chr_nil ml p bef cs k :
  rmatch ml (Chr p) (mkState bef [] cs) k = None.
Proof. reflexivity. Qed.

(** The continuation of the leading whitespace refuses a text of
    whitespace only. *)
Lemma greedy_none p k cs : forall txt bef,
  (forall b t, k (mkState b t cs) = None) ->
  greedy p k bef txt cs = None.
Proof.
  induction txt as [|c tl IH]; intros bef Hk; cbn [greedy]; [apply Hk |].
  destruct (p c); [| apply Hk]. now rewrite IH, Hk.
Qed.

Lemma greedy_spaces_none k cs : forall txt bef,
  Forall (fun x => is_space x = true) txt ->
  (forall b t, Forall (fun x => is_space x = true) t -> k (mkState b t cs) = None) ->
  greedy is_space k bef txt cs = None.
Proof.
  induction txt as [|c tl IH]; intros bef Hs Hk; cbn [greedy].
  - apply Hk. constructor.
  - inversion Hs as [|? ? Hc Htl]; subst. rewrite Hc.
    rewrite IH by assumption. apply Hk. now constructor.
Qed.

Lemma match_spaces_none adv bef sp :
  Forall (fun x => is_space x = true) sp ->
  match_here false word_pattern adv (mkState bef sp []) = None.
Proof.
  intros Hs. unfold match_here, word_pattern, Line.word_pattern. cbn [before rest].
  rewrite rmatch_seq, rmatch_group, rmatch_star_greedy.
  apply greedy_spaces_none; [exact Hs |].
  intros b t Ht. unfold capture. cbn [before rest caps].
  rewrite rmatch_seq, rmatch_group. unfold Plus. rewrite rmatch_seq.
  destruct t as [|c t]; [reflexivity |].
  rewrite rmatch_chr.
  inversion Ht as [|? ? Hc _]; subst. now rewrite Hc.
Qed.

Lemma search_spaces_none : forall sp adv bef sk,
  Forall (fun x => is_space x = true) sp ->
  search false word_pattern adv bef sk sp = None.
Proof.
  induction sp as [|c sp IH]; intros adv bef sk Hs;
    rewrite search_unfold, match_spaces_none by exact Hs.
  - reflexivity.
  - inversion Hs; subst. now apply IH.
Qed.

(** One word with the whitespace around it, matched where it stands. *)
Lemma match_word adv bef sp w s tail :
  Forall (fun x => is_space x = true) sp ->
  w <> [] -> Forall (fun x => nonspace x = true) w ->
  Forall (fun x => is_space x = true) s ->
  stops is_space tail -> stops nonspace (s ++ tail) ->
  match_here false word_pattern adv (mkState bef (sp ++ w ++ s ++ tail) [])
  = Some (mkState (rev s ++ rev w ++ rev sp ++ bef) tail
            [("3", s); ("2", w); ("1", sp)]).
Proof.
  intros Hsp Hw Hns Hs Htail Hstop.
  unfold match_here, word_pattern, Line.word_pattern. cbn [before rest].
  rewrite rmatch_seq, rmatch_group, rmatch_star_greedy.
  destruct w as [|x w]; [contradiction |].
  inversion Hns as [|? ? Hx Hns']; subst.
  apply greedy_longest; [exact Hsp | | ].
  { cbn [app stops]. unfold nonspace in Hx. now apply negb_true_iff in Hx. }
  assert (Hx' := Hx).
  unfold capture. cbn [before rest caps]. rewrite consumed_app.
  rewrite rmatch_seq, rmatch_group. unfold Plus. rewrite rmatch_seq.
  cbn [app]. rewrite rmatch_chr.
  unfold nonspace in Hx. rewrite Hx. fold nonspace.
  rewrite rmatch_star_greedy.
  apply greedy_longest; [exact Hns' | exact Hstop |].
  unfold capture. cbn [before rest caps].
  change (x :: w ++ s ++ tail) with ((x :: w) ++ s ++ tail).
  rewrite consumed_app.
  rewrite rmatch_group, rmatch_star_greedy.
  apply greedy_longest; [exact Hs | exact Htail |].
  unfold capture. cbn [before rest caps]. rewrite consumed_app.
  match goal with |- context [(adv && ?b)%bool] =>
    assert (Hadv : (adv && b)%bool = false) end.
  { apply andb_false_iff. right. apply Nat.eqb_neq.
    cbn [app]. rewrite !length_app. cbn [length]. rewrite !length_app. lia. }
  rewrite Hadv.
  do 2 f_equal. cbn [rev]. now rewrite <- !app_assoc.
Qed.


Lemma spaced_cons w s ws :
  spaced ((w, s) :: ws) = true ->
  w <> [] /\ Forall (fun x => nonspace x = true) w /\
  Forall (fun x => is_space x = true) s /\
  stops is_space (flat ws) /\ stops nonspace (s ++ flat ws) /\ spaced ws = true.
Proof.
  cbn [spaced]. intros H.
  repeat (apply andb_true_iff in H; destruct H as [H ?]).
  assert (Hw : w <> []) by (destruct w; [discriminate | discriminate]).
  split; [exact Hw |]. split; [now apply forallb_Forall |].
  split; [now apply forallb_Forall |].
  assert (Hflat : stops is_space (flat ws)).
  { destruct ws as [|[w2 s2] ws]; [exact I |].
    match goal with H : spaced _ = true |- _ => cbn [spaced] in H;
      repeat (apply andb_true_iff in H; destruct H as [H ?]) end.
    destruct w2 as [|x w2]; [discriminate |].
    unfold flat. cbn [map concat fst app stops].
    match goal with H : forallb nonspace (x :: w2) = true |- _ =>
      cbn [forallb] in H; apply andb_true_iff in H; destruct H as [H _];
      unfold nonspace in H; now apply negb_true_iff in H end. }
  split; [exact Hflat |]. split; [| assumption].
  destruct s as [|c s].
  - cbn [app]. destruct ws as [|p ws]; [exact I |].
    match goal with H : (is_nil (p :: ws) || negb (is_nil []))%bool = true |- _ =>
      discriminate H end.
  - cbn [app stops].
    match goal with H : forallb is_space (c :: s) = true |- _ =>
      cbn [forallb] in H; apply andb_true_iff in H; destruct H as [H _];
      unfold nonspace; now rewrite H end.
Qed.

Lemma spaced_length : forall ws, spaced ws = true -> length ws <= length (flat ws).
Proof.
  induction ws as [|[w s] ws IH]; intros H; [cbn; lia |].
  destruct (spaced_cons _ _ _ H) as (Hw & _ & _ & _ & _ & Hws).
  unfold flat in *. cbn [map concat fst snd length]. rewrite !length_app.
  specialize (IH Hws). destruct w; [contradiction |]. cbn [length]. lia.
Qed.

(** [finditer] finds the words one after the other. *)
Lemma finditer_words : forall ws fuel bef sp,
  spaced ws = true -> Forall (fun x => is_space x = true) sp ->
  length ws < fuel ->
  map m_groups (fst (finditer_from false word_pattern fuel false bef (sp ++ flat ws)))
  = word_groups sp ws.
Proof.
  induction ws as [|[w s] ws IH]; intros fuel bef sp Hws Hsp Hfuel;
    (destruct fuel as [|fuel]; [lia |]); cbn [finditer_from].
  - unfold flat. cbn [map concat]. rewrite app_nil_r.
    now rewrite search_spaces_none.
  - destruct (spaced_cons _ _ _ Hws) as (Hw & Hns & Hs & Htail & Hstop & Hws').
    assert (Etext : sp ++ flat ((w, s) :: ws) = sp ++ w ++ s ++ flat ws).
    { unfold flat. cbn [map concat fst snd]. now rewrite <- app_assoc. }
    rewrite Etext, search_unfold.
    rewrite (match_word false bef sp w s (flat ws) Hsp Hw Hns Hs Htail Hstop).
    assert (Econs : consumed (mkState bef (sp ++ w ++ s ++ flat ws) [])
                      (mkState (rev s ++ rev w ++ rev sp ++ bef) (flat ws)
                         [("3", s); ("2", w); ("1", sp)]) = sp ++ w ++ s).
    { replace (sp ++ w ++ s ++ flat ws) with ((sp ++ w ++ s) ++ flat ws)
        by (now rewrite <- !app_assoc).
      apply consumed_app. }
    rewrite Econs. cbn [m_text before rest caps].
    assert (Enil : match sp ++ w ++ s with [] => true | _ :: _ => false end = false).
    { destruct sp; [| reflexivity]. destruct w; [contradiction | reflexivity]. }
    rewrite Enil.
    specialize (IH fuel (rev s ++ rev w ++ rev sp ++ bef) [] Hws' (Forall_nil_2 _)
                  ltac:(cbn [length] in Hfuel; lia)).
    cbn [app] in IH.
    destruct (finditer_from false word_pattern fuel false _ (flat ws)) as [ms tl].
    cbn [fst map m_groups word_groups]. cbn [fst] in IH. now rewrite IH.
Qed.

Lemma new_words_spec font self : forall ms k us,
  Line.new_words font self k ms = Ok us ->
  map (fun u => text (Unit.base u)) us
  = map (fun g => str (lookup_group "2" g)) (map m_groups ms) /\
  map (fun u => i (Unit.base u)) us = seq k (length ms) /\
  map Unit.prespace us
  = map (fun g => Some (length (lookup_group "1" g))) (map m_groups ms) /\
  map Unit.postspace us
  = map (fun g => Some (length (lookup_group "3" g))) (map m_groups ms).
Proof.
  induction ms as [|m ms IH]; intros k us H; cbn [Line.new_words] in H.
  - injection H as <-. repeat split.
  - inv_ok H. inv_ok H. injection H as <-.
    match goal with H : Line.new_words _ _ _ ms = Ok _ |- _ =>
      apply IH in H; destruct H as (H1 & H2 & H3 & H4) end.
    match goal with H : Line.new_word _ _ _ _ = Ok _ |- _ =>
      unfold Line.new_word in H; repeat inv_ok H; injection H as <- end.
    cbn [map length seq]. rewrite H1, H2, H3, H4.
    repeat split.
Qed.

Lemma word_groups_spec : forall ws sp,
  map (fun g => str (lookup_group "2" g)) (word_groups sp ws)
  = map (fun p => str (fst p)) ws /\
  map (fun g => Some (length (lookup_group "1" g))) (word_groups sp ws)
  = prespaces sp ws /\
  map (fun g => Some (length (lookup_group "3" g))) (word_groups sp ws)
  = map (fun p => Some (length (snd p))) ws /\
  length (word_groups sp ws) = length ws.
Proof.
  induction ws as [|[w s] ws IH]; intros sp; [repeat split |].
  destruct (IH []) as (H1 & H2 & H3 & H4).
  cbn [word_groups map prespaces fst snd length lookup_group String.eqb Ascii.eqb Bool.eqb].
  rewrite H1, H3, H4. repeat split. f_equal.
  rewrite H2. destruct ws as [|? ws]; [reflexivity |]. reflexivity.
Qed.


(** What the layout passes leave untouched in a unit. *)
Lemma words_h_id self style space_width : forall ws cur_x ws',
  Line.words_h self style space_width cur_x ws = Ok ws' ->
  map (fun u => text (Unit.base u)) ws' = map (fun u => text (Unit.base u)) ws /\
  map (fun u => i (Unit.base u)) ws' = map (fun u => i (Unit.base u)) ws /\
  map Unit.prespace ws' = map Unit.prespace ws /\
  map Unit.postspace ws' = map Unit.postspace ws.
Proof.
  induction ws as [|u ws IH]; intros cur_x ws' H; cbn [Line.words_h] in H.
  - injection H as <-. repeat split.
  - repeat inv_ok H. injection H as <-.
    match goal with H : Line.copy_vertical _ _ = Ok _ |- _ =>
      apply CharIndexFacts.copy_vertical_id in H; cbn [place_h set_pos i text] in H;
      destruct H as [Hi Ht] end.
    match goal with H : Line.words_h _ _ _ _ ws = Ok _ |- _ =>
      apply IH in H; destruct H as (W1 & W2 & W3 & W4) end.
    cbn [map Unit.set_base Unit.base Unit.prespace Unit.postspace].
    rewrite Hi, Ht, W1, W2, W3, W4. repeat split.
Qed.

Lemma words_v_id self style play_res_x max_width : forall ws cur_y ws',
  Line.words_v self style play_res_x max_width cur_y ws = Ok ws' ->
  map (fun u => text (Unit.base u)) ws' = map (fun u => text (Unit.base u)) ws /\
  map (fun u => i (Unit.base u)) ws' = map (fun u => i (Unit.base u)) ws /\
  map Unit.prespace ws' = map Unit.prespace ws /\
  map Unit.postspace ws' = map Unit.postspace ws.
Proof.
  induction ws as [|u ws IH]; intros cur_y ws' H; cbn [Line.words_v] in H.
  - injection H as <-. repeat split.
  - repeat inv_ok H.
    match goal with H : (let '(_, _) := ?p in _) = Ok _ |- _ => destruct p end.
    repeat inv_ok H. injection H as <-.
    match goal with H : Line.words_v _ _ _ _ _ ws = Ok _ |- _ =>
      apply IH in H; destruct H as (W1 & W2 & W3 & W4) end.
    cbn [map Unit.set_base Unit.base Unit.prespace Unit.postspace].
    rewrite W1, W2, W3, W4. repeat split.
Qed.

Lemma place_words_id font self ws self' :
  Line.place_words font (Line.set_words self ws) ws = Ok self' ->
  exists ws', Line.words self' = Some ws' /\
    map (fun u => text (Unit.base u)) ws' = map (fun u => text (Unit.base u)) ws /\
    map (fun u => i (Unit.base u)) ws' = map (fun u => i (Unit.base u)) ws /\
    map Unit.prespace ws' = map Unit.prespace ws /\
    map Unit.postspace ws' = map Unit.postspace ws.
Proof.
  unfold Line.place_words. intros H. inv_ok H.
  destruct v as [[[play_res_x play_res_y] style]|].
  - destruct (Style.an_is_top style || Style.an_is_bottom style).
    + repeat inv_ok H. injection H as <-.
      eexists. split; [reflexivity |]. eapply words_h_id; eassumption.
    + repeat inv_ok H. injection H as <-.
      eexists. split; [reflexivity |]. eapply words_v_id; eassumption.
  - injection H as <-. exists ws. repeat split.
Qed.

(** X22.  [add_words] cuts the text of the line at its whitespace: for
    a text made of leading whitespace [sp] followed by words, each a
    run of characters that are not whitespace followed by whitespace,
    the words of the line are these runs, numbered from 0; the
    whitespace after a word is counted as its [postspace], so that only
    the first word can have a [prespace], the length of [sp], and all
    the other words have a [prespace] of 0.  A text of whitespace only
    gives no word. *)
Theorem add_words_split (font : Font) (self self' : Line.t)
  (sp : list ascii) (ws : list (list ascii * list ascii))
  (Hrun : Line.add_words font self = Ok self')
  (Htext : chars (text (Line.base self)) = sp ++ flat ws)
  (Hsp : forallb is_space sp = true)
  (Hws : spaced ws = true) :
  exists us,
    Line.words self' = Some us /\
    map (fun u => text (Unit.base u)) us = map (fun p => str (fst p)) ws /\
    map (fun u => i (Unit.base u)) us = seq 0 (length ws) /\
    map Unit.prespace us = prespaces sp ws /\
    map Unit.postspace us = map (fun p => Some (length (snd p))) ws.
Proof.
  unfold Line.add_words in Hrun. inv_ok Hrun.
  apply new_words_spec in Hrun0. destruct Hrun0 as (H1 & H2 & H3 & H4).
  apply place_words_id in Hrun. destruct Hrun as (us & Hu & G1 & G2 & G3 & G4).
  assert (Hg : map m_groups (finditer false word_pattern (chars (text (Line.base self))))
               = word_groups sp ws).
  { rewrite Htext. unfold finditer, finditer_tail.
    apply finditer_words; [exact Hws | now apply forallb_Forall |].
    pose proof (spaced_length ws Hws). rewrite length_app. lia. }
  fold word_pattern in H1, H2, H3, H4.
  rewrite Hg in H1, H3, H4.
  assert (Hlen : length (finditer false word_pattern (chars (text (Line.base self))))
                 = length ws).
  { rewrite <- (length_map m_groups), Hg. apply word_groups_spec. }
  rewrite Hlen in H2.
  destruct (word_groups_spec ws sp) as (W1 & W2 & W3 & _).
  exists us. split; [exact Hu |]. repeat split; congruence.
Qed.

Lemma add_words_split_witness :
  exists us,
    Line.words spaced_line_words = Some us /\
    map (fun u => text (Unit.base u)) us = ["Hello"; "world"]%string /\
    map (fun u => i (Unit.base u)) us = [0; 1] /\
    map Unit.prespace us = [Some 1; Some 0] /\
    map Unit.postspace us = [Some 2; Some 1].
Proof.
  destruct (add_words_split Samples.font0 spaced_line spaced_line_words
              (chars " ") [(chars "Hello", chars "  "); (chars "world", chars " ")]
              ltac:(vm_compute; reflexivity) ltac:(vm_compute; reflexivity)
              ltac:(vm_compute; reflexivity) ltac:(vm_compute; reflexivity))
    as (us & Hu & H1 & H2 & H3 & H4).
  exists us. repeat split; assumption.
Defined.

End WordFacts.

(** * Reading a line of the [Events] section *)

Module LazyFacts.
Import PyStr Re LazyProps.
Local Open Scope nat_scope.

Lemma star_lazy ml p k : forall txt n bef cs,
  length txt < n ->
  star_loop (rmatch ml (Chr p)) false k n (mkState bef txt cs)
  = lazy p k bef txt cs.
Proof.
  induction txt as [|c tl IH]; intros n bef cs Hn;
    (destruct n as [|n]; [simpl in Hn; lia |]); cbn [star_loop lazy].
  - destruct (k _); reflexivity.
  - destruct (k _); [reflexivity |].
    cbn [rmatch rest before caps]. destruct (p c); [| reflexivity].
    cbn [rest length].
    replace (length tl <? S (length tl)) with true
      by (symmetry; apply Nat.ltb_lt; lia).
    apply IH. simpl in Hn. lia.
Qed.

Lemma rmatch_star_lazy ml p k bef txt cs :
  rmatch ml (Star false (Chr p)) (mkState bef txt cs) k
  = lazy p k bef txt cs.
Proof.
  change (star_loop (rmatch ml (Chr p)) false k (S (length txt))
            (mkState bef txt cs) = lazy p k bef txt cs).
  apply star_lazy. lia.
Qed.

(** The lazy run goes over [a] when the continuation refuses every
    earlier stop and accepts after [a]. *)
Lemma lazy_reach p k cs r : forall a bef c,
  Forall (fun x => p x = true) a ->
  (forall a1 a2, a = a1 ++ a2 -> a2 <> [] ->
     k (mkState (rev a1 ++ bef) (a2 ++ c) cs) = None) ->
  k (mkState (rev a ++ bef) c cs) = Some r ->
  lazy p k bef (a ++ c) cs = Some r.
Proof.
  induction a as [|x a IH]; intros bef c Fa Hno Hk.
  - cbn [app rev] in *. destruct c; cbn [lazy]; now rewrite Hk.
  - inversion Fa as [|? ? Hx Fa']; subst. cbn [app lazy].
    pose proof (Hno [] (x :: a) eq_refl ltac:(discriminate)) as H0.
    cbn [rev app] in H0. rewrite H0, Hx.
    apply IH; [exact Fa' | |].
    + intros a1 a2 E Hne. specialize (Hno (x :: a1) a2).
      cbn [app rev] in Hno. rewrite <- app_assoc in Hno. apply Hno; [now rewrite E | exact Hne].
    + cbn [rev] in Hk. now rewrite <- app_assoc in Hk.
Qed.

End LazyFacts.

Module ParseFacts.
Import PyStr Re Core LineMatchProps GreedyFacts LineMatchFacts BlockFacts ReFacts.
Import LazyProps LazyFacts ParseProps.
Local Open Scope nat_scope.

Abbreviation comma := [","%char].

(** ** Splitting and joining at commas *)

Lemma split_from_nonempty sep : forall s skip cur, split_from sep skip cur s <> [].
Proof.
  induction s as [|c s IH]; intros skip cur; cbn [split_from]; [discriminate |].
  destruct skip; [| apply IH].
  destruct (startswith sep (c :: s)); [discriminate | apply IH].
Qed.

Lemma join_cons sep p ps :
  ps <> [] -> join sep (p :: ps) = p ++ sep ++ join sep ps.
Proof. destruct ps; [contradiction | reflexivity]. Qed.

Lemma join_split : forall t cur,
  join comma (split_from comma 0 cur t) = rev cur ++ t.
Proof.
  induction t as [|c t IH]; intros cur; cbn [split_from].
  - cbn [join]. now rewrite app_nil_r.
  - cbn [startswith length Nat.sub]. rewrite andb_true_r.
    destruct (eqc "," c) eqn:E.
    + rewrite join_cons by apply split_from_nonempty.
      rewrite IH. cbn [rev app].
      unfold eqc in E. apply Ascii.eqb_eq in E. now subst c.
    + rewrite IH. cbn [rev]. now rewrite <- app_assoc.
Qed.

Lemma split_field : forall f cur rest,
  comma_free f = true ->
  split_from comma 0 cur (f ++ ","%char :: rest)
  = (rev cur ++ f) :: split_from comma 0 [] rest.
Proof.
  induction f as [|c f IH]; intros cur rest Hf.
  - cbn [app split_from startswith length Nat.sub].
    unfold eqc. rewrite Ascii.eqb_refl. cbn [andb]. now rewrite app_nil_r.
  - cbn [comma_free forallb] in Hf. apply andb_true_iff in Hf. destruct Hf as [Hc Hf].
    apply negb_true_iff in Hc.
    cbn [app split_from startswith length Nat.sub]. rewrite Hc. cbn [andb].
    rewrite IH by exact Hf. cbn [rev]. now rewrite <- app_assoc.
Qed.

Lemma split_join : forall fs t,
  forallb comma_free fs = true ->
  split comma (join comma (fs ++ [t])) = fs ++ split comma t.
Proof.
  unfold split. induction fs as [|f fs IH]; intros t Hfs; [reflexivity |].
  cbn [forallb] in Hfs. apply andb_true_iff in Hfs. destruct Hfs as [Hf Hfs].
  cbn [app]. rewrite join_cons by (destruct fs; discriminate).
  cbn [app]. rewrite split_field by exact Hf. cbn [rev app].
  now rewrite IH.
Qed.

Lemma one_line_app a b : one_line (a ++ b) = one_line a && one_line b.
Proof. unfold one_line. apply forallb_app. Qed.

Lemma one_line_join : forall fs,
  forallb one_line fs = true -> one_line (join comma fs) = true.
Proof.
  induction fs as [|f fs IH]; intros H; [reflexivity |].
  cbn [forallb] in H. apply andb_true_iff in H. destruct H as [Hf Hfs].
  destruct fs as [|g fs]; [exact Hf |].
  rewrite join_cons by discriminate. rewrite !one_line_app, Hf, (IH Hfs).
  reflexivity.
Qed.

(** ** The pattern of a line *)

Lemma startswith_app : forall a b s,
  startswith (a ++ b) s = startswith a s && startswith b (skipn (length a) s).
Proof.
  induction a as [|x a IH]; intros b s; [reflexivity |].
  destruct s as [|y s]; [reflexivity |].
  cbn [app startswith length skipn]. rewrite IH. now rewrite andb_assoc.
Qed.

Lemma startswith_self : forall a s, startswith a (a ++ s) = true.
Proof.
  induction a as [|x a IH]; intros s; [reflexivity |].
  cbn [app startswith]. unfold eqc. now rewrite Ascii.eqb_refl, IH.
Qed.

Lemma skipn_self {A} (a s : list A) : skipn (length a) (a ++ s) = s.
Proof. induction a; [reflexivity | assumption]. Qed.

Lemma consumed_all b t c1 b' c2 :
  consumed (mkState b t c1) (mkState b' [] c2) = t.
Proof.
  unfold consumed. cbn [rest length]. rewrite Nat.sub_0_r. apply firstn_all.
Qed.

(** What follows the keyword: the colon and space, the lazy group, the
    end of the text. *)
Lemma match_body k r bef body cs :
  body <> [] -> one_line body = true ->
  k (mkState (rev body ++ rev sep ++ bef) [] (("2", body) :: cs)) = Some r ->
  rmatch false (Seq (Lit sep) (Seq (Group "2" (Plus false Dot)) Eol))
    (mkState bef (sep ++ body) cs) k = Some r.
Proof.
  intros Hne Hol Hk. destruct body as [|x body]; [contradiction |].
  rewrite rmatch_seq, rmatch_lit, startswith_self, skipn_self.
  rewrite rmatch_seq, rmatch_group. unfold Plus. rewrite rmatch_seq.
  unfold Dot at 1. rewrite WordFacts.rmatch_chr.
  unfold one_line in Hol. cbn [forallb] in Hol.
  apply andb_true_iff in Hol. destruct Hol as [Hx Hol].
  change (negb (eqc x newline)) with (dotp x). rewrite Hx.
  unfold Dot. rewrite rmatch_star_lazy.
  rewrite <- (app_nil_r body) at 1.
  apply lazy_reach.
  - now apply one_line_Forall.
  - intros a1 a2 E Hne2. unfold capture. cbn [before rest caps rmatch].
    destruct a2 as [|y a2]; [contradiction |].
    assert (Hy : dotp y = true).
    { subst body. unfold one_line in Hol. rewrite forallb_app in Hol.
      apply andb_true_iff in Hol. destruct Hol as [_ Hol]. cbn [forallb] in Hol.
      now apply andb_true_iff in Hol. }
    unfold at_eol. cbn [rest app].
    unfold dotp, nl in Hy. apply negb_true_iff in Hy. now rewrite Hy.
  - unfold capture. cbn [before rest caps rmatch at_eol].
    rewrite consumed_all.
    cbn [rev] in Hk. rewrite <- !app_assoc in Hk. cbn [app] in Hk.
    exact Hk.
Qed.


Lemma rmatch_alt ml r1 r2 s k :
  rmatch ml (Alt r1 r2) s k
  = match rmatch ml r1 s k with
    | Some s' => Some s'
    | None => rmatch ml r2 s k
    end.
Proof. reflexivity. Qed.

Abbreviation line_pattern := Line.line_pattern.

Lemma match_line_pattern kind body :
  kind = chars "Dialogue" \/ kind = chars "Comment" ->
  body <> [] -> one_line body = true ->
  re_match false line_pattern (kind ++ sep ++ body)
  = Some (mkMatch [] (kind ++ sep ++ body) [("2", body); ("1", kind)]).
Proof.
  intros Hkind Hne Hol. unfold re_match, match_here, line_pattern, Line.line_pattern.
  cbn [before rest].
  rewrite rmatch_seq, rmatch_group, rmatch_alt, !rmatch_lit.
  assert (Hgo : forall bef0,
    rmatch false (Seq (Lit (chars ": ")) (Seq (Group "2" (Plus false Dot)) Eol))
      (capture "1" (mkState [] (kind ++ sep ++ body) [])
         (mkState (rev kind ++ bef0) (sep ++ body) []))
      (fun s1 => if (false && (length (rest s1) =? length (kind ++ sep ++ body)))%bool
                 then None else Some s1)
    = Some (mkState (rev body ++ rev sep ++ rev kind ++ bef0) []
              [("2", body); ("1", kind)])).
  { intros bef0. unfold capture. cbn [before rest caps]. rewrite consumed_app.
    apply (match_body _ _ (rev kind ++ bef0) body [("1", kind)] Hne Hol).
    reflexivity. }
  destruct Hkind as [-> | ->].
  - rewrite startswith_self, skipn_self, (Hgo []).
    now rewrite consumed_all.
  - replace (startswith (chars "Dialogue") (chars "Comment" ++ sep ++ body))
      with false by reflexivity.
    rewrite startswith_self, skipn_self, (Hgo []).
    now rewrite consumed_all.
Qed.

Lemma no_match text :
  startswith (chars "Dialogue: ") text = false ->
  startswith (chars "Comment: ") text = false ->
  re_match false line_pattern text = None.
Proof.
  intros HD HC. unfold re_match, match_here, line_pattern, Line.line_pattern.
  cbn [before rest].
  rewrite rmatch_seq, rmatch_group, rmatch_alt, !rmatch_lit.
  change (chars "Dialogue: ") with (chars "Dialogue" ++ chars ": ") in HD.
  change (chars "Comment: ") with (chars "Comment" ++ chars ": ") in HC.
  rewrite startswith_app in HD, HC.
  assert (Hk : forall (kw : list ascii) bef0,
    startswith (chars ": ") (skipn (length kw) text) = false ->
    rmatch false (Seq (Lit (chars ": ")) (Seq (Group "2" (Plus false Dot)) Eol))
      (capture "1" (mkState [] text [])
         (mkState bef0 (skipn (length kw) text) []))
      (fun s1 => if (false && (length (rest s1) =? length text))%bool
                 then None else Some s1) = None).
  { intros kw bef0 H. unfold capture. cbn [before rest caps].
    rewrite rmatch_seq, rmatch_lit. now rewrite H. }
  destruct (startswith (chars "Dialogue") text).
  - cbn [andb] in HD. rewrite (Hk (chars "Dialogue") _ HD).
    destruct (startswith (chars "Comment") text); [| reflexivity].
    cbn [andb] in HC. now rewrite (Hk (chars "Comment") _ HC).
  - destruct (startswith (chars "Comment") text); [| reflexivity].
    cbn [andb] in HC. now rewrite (Hk (chars "Comment") _ HC).
Qed.

Lemma chars_str l : chars (str l) = l.
Proof. apply list_ascii_of_string_of_list_ascii. Qed.

Section FromText.
Variable from_assts : string -> Q -> bool -> result PTime.Time.

(** X23.  A text that starts neither with [Dialogue: ] nor with
    [Comment: ] is refused by [Line.from_text] with
    [MatchNotFoundError], whatever the other arguments. *)
Theorem from_text_no_match (text : string) (i : nat) (fps : Q)
  (meta : option Meta) (styles : list Style.t) (fix_timestamps : bool)
  (HD : startswith (chars "Dialogue: ") (chars text) = false)
  (HC : startswith (chars "Comment: ") (chars text) = false) :
  Line.from_text from_assts text i fps meta styles fix_timestamps
  = Raise MatchNotFoundError.
Proof.
  unfold Line.from_text. now rewrite (no_match _ HD HC).
Qed.

(** X24.  For a line [Dialogue: f0,...,f8,t] or [Comment: f0,...,f8,t]
    written on one line, with nine fields without comma and a text [t]
    that may hold commas, the line that [Line.from_text] returns is a
    comment exactly for the keyword [Comment]; its layer and its three
    margins are the numbers written in fields 0, 5, 6 and 7, its actor
    and effect are fields 4 and 8, and its raw text and its text are
    [t] whole, commas included; its index is the one given and its
    duration is the difference of its end and start times. *)
Theorem from_text_fields (kind : list ascii) (fs : list (list ascii))
  (t : list ascii) (i0 : nat) (fps : Q) (meta : option Meta)
  (styles : list Style.t) (fix_timestamps : bool) (line : Line.t)
  (Hkind : kind = chars "Dialogue" \/ kind = chars "Comment")
  (Hfs : length fs = 9)
  (Hplain : forallb plain_field fs = true)
  (Ht : one_line t = true)
  (Hline : Line.from_text from_assts (str (kind ++ sep ++ join comma (fs ++ [t])))
             i0 fps meta styles fix_timestamps = Ok line) :
  Line.comment line = String.eqb (str kind) "Comment" /\
  int_of (nth_field fs 0) = Some (Line.layer line) /\
  Line.actor line = str (nth_field fs 4) /\
  int_of (nth_field fs 5) = Some (Line.margin_l line) /\
  int_of (nth_field fs 6) = Some (Line.margin_r line) /\
  int_of (nth_field fs 7) = Some (Line.margin_v line) /\
  Line.effect line = str (nth_field fs 8) /\
  Line.raw_text line = str t /\
  text (Line.base line) = str t /\
  i (Line.base line) = i0 /\
  duration (Line.base line)
  = PTime.sub (end_time (Line.base line)) (start_time (Line.base line)).
Proof.
  assert (Hol : forallb one_line (fs ++ [t]) = true).
  { rewrite forallb_app. cbn [forallb]. rewrite Ht, andb_true_r.
    clear -Hplain. induction fs as [|f fs IH]; [reflexivity |].
    cbn [forallb] in *. apply andb_true_iff in Hplain. destruct Hplain as [Hf Hfs].
    unfold plain_field in Hf. apply andb_true_iff in Hf. destruct Hf as [Hf _].
    now rewrite Hf, (IH Hfs). }
  assert (Hcf : forallb comma_free fs = true).
  { clear -Hplain. induction fs as [|f fs IH]; [reflexivity |].
    cbn [forallb] in *. apply andb_true_iff in Hplain. destruct Hplain as [Hf Hfs].
    unfold plain_field in Hf. apply andb_true_iff in Hf. destruct Hf as [_ Hf].
    now rewrite Hf, (IH Hfs). }
  assert (Hne : join comma (fs ++ [t]) <> []).
  { destruct fs as [|f0 fs]; [discriminate Hfs |].
    cbn [app]. rewrite join_cons by (destruct fs; discriminate).
    destruct f0; discriminate. }
  unfold Line.from_text in Hline. rewrite chars_str in Hline.
  rewrite (match_line_pattern kind _ Hkind Hne (one_line_join _ Hol)) in Hline.
  unfold group in Hline.
  cbn [m_groups lookup_group String.eqb Ascii.eqb Bool.eqb] in Hline.
  rewrite (split_join fs t Hcf) in Hline.
  destruct fs as [|f0 [|f1 [|f2 [|f3 [|f4 [|f5 [|f6 [|f7 [|f8 [|f9 fs]]]]]]]]]];
    try discriminate.
  cbn [app skipn] in Hline.
  unfold Line.field in Hline. cbn [nth_error] in Hline.
  change (skipn 0 (split comma t)) with (split comma t) in Hline.
  unfold split in Hline. rewrite join_split in Hline.
  cbn [rev app] in Hline.
  unfold Line.int in Hline. cbn [rbind] in Hline. rewrite !chars_str in Hline.
  unfold nth_field. cbn [nth].
  destruct (int_of f0) as [z0|]; [| discriminate]. cbn [rbind] in Hline.
  inv_ok Hline. inv_ok Hline.
  destruct (int_of f5) as [z5|]; [| discriminate]. cbn [rbind] in Hline.
  destruct (int_of f6) as [z6|]; [| discriminate]. cbn [rbind] in Hline.
  destruct (int_of f7) as [z7|]; [| discriminate]. cbn [rbind] in Hline.
  inv_ok Hline. injection Hline as <-.
  cbn. repeat split; reflexivity.
Qed.

End FromText.

Lemma from_text_no_match_witness :
  Line.from_text Samples.no_assts "Style: Default,Arial,20" 0 Samples.fps0 None []
    false = Raise MatchNotFoundError.
Proof.
  apply (from_text_no_match Samples.no_assts "Style: Default,Arial,20");
    vm_compute; reflexivity.
Defined.

Lemma from_text_fields_witness :
  exists line,
    Line.from_text Samples.no_assts
      (str (chars "Comment" ++ sep ++ join comma (fields1 ++ [text1])))
      7 Samples.fps0 None [] false = Ok line /\
    Line.comment line = true /\
    Line.raw_text line = "Hello, world"%string /\
    Line.actor line = "me"%string /\
    int_of (chars "3") = Some (Line.layer line).
Proof.
  destruct (Line.from_text Samples.no_assts
              (str (chars "Comment" ++ sep ++ join comma (fields1 ++ [text1])))
              7 Samples.fps0 None [] false) as [line|e] eqn:E;
    [| vm_compute in E; discriminate].
  exists line. split; [reflexivity |].
  destruct (from_text_fields Samples.no_assts (chars "Comment") fields1 text1
              7 Samples.fps0 None [] false line
              (or_intror eq_refl) eq_refl ltac:(vm_compute; reflexivity)
              ltac:(vm_compute; reflexivity) E)
    as (H1 & H2 & H3 & _ & _ & _ & _ & H8 & _).
  repeat split; assumption.
Defined.

End ParseFacts.

(** * Removing the tag blocks *)

Module TagFacts.
Import PyStr Re Core LineMatchProps GreedyFacts LineMatchFacts BlockFacts ReFacts.
Import LazyProps LazyFacts TagProps LineTags.
Local Open Scope nat_scope.

Abbreviation tag_block := Line.tag_block.

Lemma match_open_none adv bef c tl :
  eqc "{" c = false ->
  match_here false tag_block adv (mkState bef (c :: tl) []) = None.
Proof.
  intros H. unfold match_here, tag_block, Line.tag_block. cbn [before rest].
  rewrite rmatch_seq. unfold Lit1. now rewrite WordFacts.rmatch_chr, H.
Qed.

Lemma match_end_none adv bef :
  match_here false tag_block adv (mkState bef [] []) = None.
Proof. reflexivity. Qed.

(** A text without opening brace holds no tag block. *)
Lemma search_plain : forall p adv bef sk,
  open_free p = true -> search false tag_block adv bef sk p = None.
Proof.
  induction p as [|c p IH]; intros adv bef sk H; rewrite search_unfold.
  - now rewrite match_end_none.
  - cbn [open_free forallb] in H. apply andb_true_iff in H. destruct H as [Hc Hp].
    apply negb_true_iff in Hc. rewrite (match_open_none _ _ _ _ Hc). now apply IH.
Qed.

(** A tag block matched where it stands. *)
Lemma match_tag adv bef t tail :
  one_line t = true -> close_free t = true ->
  match_here false tag_block adv (mkState bef ("{"%char :: t ++ "}"%char :: tail) [])
  = Some (mkState ("}"%char :: rev t ++ "{"%char :: bef) tail []).
Proof.
  intros Hol Hcf. unfold match_here, tag_block, Line.tag_block. cbn [before rest].
  rewrite rmatch_seq. unfold Lit1 at 1. rewrite WordFacts.rmatch_chr.
  unfold eqc at 1. rewrite Ascii.eqb_refl.
  rewrite rmatch_seq. unfold Dot. rewrite rmatch_star_lazy.
  apply lazy_reach.
  - now apply one_line_Forall.
  - intros a1 a2 E Hne. destruct a2 as [|y a2]; [contradiction |].
    cbn [app]. unfold Lit1. rewrite WordFacts.rmatch_chr.
    assert (Hy : eqc "}" y = false).
    { subst t. unfold close_free in Hcf. rewrite forallb_app in Hcf.
      apply andb_true_iff in Hcf. destruct Hcf as [_ Hcf]. cbn [forallb] in Hcf.
      apply andb_true_iff in Hcf. destruct Hcf as [Hcf _].
      now apply negb_true_iff in Hcf. }
    now rewrite Hy.
  - unfold Lit1. rewrite WordFacts.rmatch_chr. unfold eqc at 1.
    rewrite Ascii.eqb_refl. cbn [rest length].
    assert (Hadv : (adv && (length tail =? S (length (t ++ "}"%char :: tail))))%bool = false).
    { apply andb_false_iff. right. apply Nat.eqb_neq.
      rewrite length_app. cbn [length]. lia. }
    now rewrite Hadv.
Qed.

(** The leftmost tag block after a plain text. *)
Lemma search_piece : forall p adv bef sk t tail,
  open_free p = true -> one_line t = true -> close_free t = true ->
  search false tag_block adv bef sk (p ++ "{"%char :: t ++ "}"%char :: tail)
  = Some (mkMatch (rev sk ++ p) ("{"%char :: t ++ ["}"%char]) [],
          mkState ("}"%char :: rev t ++ "{"%char :: rev p ++ bef) tail []).
Proof.
  induction p as [|c p IH]; intros adv bef sk t tail Hp Hol Hcf; rewrite search_unfold.
  - cbn [app]. rewrite (match_tag _ _ _ _ Hol Hcf). cbn [caps rev app].
    assert (Ec : forall b1 b2,
              consumed (mkState b1 ("{"%char :: t ++ "}"%char :: tail) [])
                (mkState b2 tail []) = "{"%char :: t ++ ["}"%char]).
    { intros b1 b2.
      replace ("{"%char :: t ++ "}"%char :: tail)
        with (("{"%char :: t ++ ["}"%char]) ++ tail)
        by (cbn [app]; now rewrite <- app_assoc).
      apply consumed_app. }
    now rewrite Ec, app_nil_r.
  - cbn [open_free forallb] in Hp. apply andb_true_iff in Hp. destruct Hp as [Hc Hp].
    apply negb_true_iff in Hc. cbn [app]. rewrite (match_open_none _ _ _ _ Hc).
    rewrite (IH false (c :: bef) (c :: sk) t tail Hp Hol Hcf).
    cbn [rev]. now rewrite <- !app_assoc.
Qed.

Lemma finditer_pieces : forall pts fuel bef last,
  forallb piece_ok pts = true -> open_free last = true ->
  length pts < fuel ->
  let '(ms, tl) := finditer_from false tag_block fuel false bef (tagged pts ++ last) in
  concat (map (fun m => m_skipped m ++ []) ms) ++ tl = plain pts ++ last.
Proof.
  induction pts as [|[p t] pts IH]; intros fuel bef last Hpts Hlast Hfuel;
    (destruct fuel as [|fuel]; [lia |]); cbn [finditer_from].
  - cbn [tagged plain map concat app]. now rewrite (search_plain _ _ _ _ Hlast).
  - cbn [forallb] in Hpts. apply andb_true_iff in Hpts. destruct Hpts as [Hpt Hpts].
    unfold piece_ok in Hpt. cbn [fst snd] in Hpt.
    apply andb_true_iff in Hpt. destruct Hpt as [Hpt Hcf].
    apply andb_true_iff in Hpt. destruct Hpt as [Hp Hol].
    assert (Etext : tagged ((p, t) :: pts) ++ last
                    = p ++ "{"%char :: t ++ "}"%char :: (tagged pts ++ last)).
    { unfold tagged. cbn [map concat fst snd]. rewrite <- !app_assoc. cbn [app].
      now rewrite <- !app_assoc. }
    rewrite Etext, (search_piece p false bef [] t _ Hp Hol Hcf).
    cbn [m_text before rest].
    specialize (IH fuel ("}"%char :: rev t ++ "{"%char :: rev p ++ bef) last Hpts Hlast
                  ltac:(cbn [length] in Hfuel; lia)).
    destruct (finditer_from false tag_block fuel false _ (tagged pts ++ last)) as [ms tl].
    cbn [map concat m_skipped rev app]. rewrite app_nil_r, <- app_assoc, IH.
    unfold plain. cbn [map concat fst]. now rewrite <- app_assoc.
Qed.

Lemma tagged_length pts : length pts <= length (tagged pts).
Proof.
  induction pts as [|[p t] pts IH]; [cbn; lia |].
  unfold tagged in *. cbn [map concat fst snd length]. rewrite !length_app.
  cbn [length]. lia.
Qed.

Lemma strip_tags_pieces pts last :
  forallb piece_ok pts = true -> open_free last = true ->
  Line.strip_tags (str (tagged pts ++ last)) = str (plain pts ++ last).
Proof.
  intros Hpts Hlast. unfold Line.strip_tags, sub, finditer_tail. f_equal.
  unfold chars, str. rewrite list_ascii_of_string_of_list_ascii.
  pose proof (finditer_pieces pts (2 * length (tagged pts ++ last) + 2) [] last
                Hpts Hlast) as H.
  fold tag_block.
  destruct (finditer_from false tag_block _ false [] (tagged pts ++ last)) as [ms tl].
  apply H. pose proof (tagged_length pts). rewrite length_app. lia.
Qed.

Lemma open_free_app a b : open_free (a ++ b) = open_free a && open_free b.
Proof. unfold open_free. apply forallb_app. Qed.

Lemma plain_open_free : forall pts,
  forallb piece_ok pts = true -> open_free (plain pts) = true.
Proof.
  induction pts as [|[p t] pts IH]; intros H; [reflexivity |].
  cbn [forallb] in H. apply andb_true_iff in H. destruct H as [Hpt Hpts].
  unfold piece_ok in Hpt. cbn [fst snd] in Hpt.
  apply andb_true_iff in Hpt. destruct Hpt as [Hpt _].
  apply andb_true_iff in Hpt. destruct Hpt as [Hp _].
  unfold plain in *. cbn [map concat fst]. now rewrite open_free_app, Hp, (IH Hpts).
Qed.

(** X25.  On a raw text made of plain texts without opening brace, each
    followed by a tag block in braces (its inside on one line, without
    closing brace), and of a last plain text, [clean_tags] leaves in
    [raw_text] and in [text] the plain texts put end to end; the same
    text is what [add_data] computes as [text]; and cleaning the tags a
    second time changes nothing. *)
Theorem clean_tags_pieces (self : Line.t)
  (pts : list (list ascii * list ascii)) (last : list ascii)
  (Hraw : Line.raw_text self = str (tagged pts ++ last))
  (Hpts : forallb piece_ok pts = true)
  (Hlast : open_free last = true) :
  Line.raw_text (clean_tags self) = str (plain pts ++ last) /\
  text (Line.base (clean_tags self)) = str (plain pts ++ last) /\
  Line.strip_tags (Line.raw_text self) = str (plain pts ++ last) /\
  clean_tags (clean_tags self) = clean_tags self.
Proof.
  assert (E : Line.strip_tags (Line.raw_text self) = str (plain pts ++ last)).
  { rewrite Hraw. now apply strip_tags_pieces. }
  assert (E2 : Line.strip_tags (str (plain pts ++ last)) = str (plain pts ++ last)).
  { pose proof (strip_tags_pieces [] (plain pts ++ last) eq_refl) as H.
    cbn [tagged plain map concat app] in H. apply H.
    now rewrite open_free_app, (plain_open_free _ Hpts), Hlast. }
  unfold clean_tags. cbn [Line.raw_text Line.base set_text text].
  rewrite E. repeat split.
  cbn [Line.raw_text Line.base Line.comment Line.layer Line.leadin Line.leadout
       Line.actor Line.margin_l Line.margin_r Line.margin_v Line.effect
       Line.words Line.syls Line.chars].
  rewrite E2. reflexivity.
Qed.

Lemma clean_tags_pieces_witness :
  Line.raw_text (clean_tags Samples.parsed1) = "Hello"%string /\
  clean_tags (clean_tags Samples.parsed1) = clean_tags Samples.parsed1.
Proof.
  destruct (clean_tags_pieces Samples.parsed1
              [([], Line.backslash :: chars "k50");
               (chars "Hel", Line.backslash :: chars "k50")] (chars "lo")
              ltac:(vm_compute; reflexivity) ltac:(vm_compute; reflexivity)
              ltac:(vm_compute; reflexivity)) as (H1 & _ & _ & H4).
  split; [exact H1 | exact H4].
Defined.

End TagFacts.

(** * The vertical placement of a line *)

Module VerticalFacts.
Import Core.

Lemma classes_of (s : Style.t) :
  (Style.an_is_middle s = true -> Style.an_is_top s = false) /\
  (Style.an_is_bottom s = true ->
     Style.an_is_top s = false /\ Style.an_is_middle s = false) /\
  (~ (1 <= Style.alignment s <= 9)%Z ->
     Style.an_is_top s = false /\ Style.an_is_middle s = false /\
     Style.an_is_left s = false /\ Style.an_is_center s = false).
Proof.
  unfold Style.an_is_top, Style.an_is_middle, Style.an_is_bottom,
    Style.an_is_left, Style.an_is_center, Style.an_in.
  cbn [existsb]. generalize (Style.alignment s). intros a.
  repeat split; intros;
    repeat match goal with
           | |- context [Z.eqb ?a ?b] => destruct (Z.eqb_spec a b)
           | H0 : context [Z.eqb ?a ?b] |- _ => destruct (Z.eqb_spec a b)
           end; cbn in *; try reflexivity; try discriminate; lia.
Qed.

(** X26.  Vertical placement in [add_data], for a line that has a style
    and a play resolution: with [margin_v] the margin in effect (that of
    the line when it is not 0, else that of the style), [top] is
    [margin_v] for the top alignments, [play_res_y/2 - height/2] for
    the middle ones and [play_res_y - margin_v - height] for the bottom
    ones, with [y] equal to [top], [middle] or [bottom] accordingly;
    [middle] and [bottom] are always [top + height/2] and
    [top + height].  An alignment outside 1..9 is placed like alignment
    3: [x] is the right edge and [y] the bottom edge. *)
Theorem add_data_vertical (font : Font) (self : Line.t) (rx ry : Z)
  (sty : Style.t)
  (Hres : meta_play_res (meta (Line.base self)) = Ok (rx, ry))
  (Hsty : style (Line.base self) = Some sty) :
  let h := snd (text_extents font (Line.strip_tags (Line.raw_text self))) in
  let mv := inject_Z (if (Line.margin_v self =? 0)%Z then Style.margin_v sty
                      else Line.margin_v self) in
  exists self' T M B Y X R,
    Line.add_data font self = Ok self' /\
    height (Line.base self') = Some h /\
    top (pos (Line.base self')) = Some T /\
    middle (pos (Line.base self')) = Some M /\
    bottom (pos (Line.base self')) = Some B /\
    y (pos (Line.base self')) = Some Y /\
    x (pos (Line.base self')) = Some X /\
    right (pos (Line.base self')) = Some R /\
    M == T + h / 2 /\ B == T + h /\
    (Style.an_is_top sty = true -> T == mv /\ Y = T) /\
    (Style.an_is_middle sty = true -> T == inject_Z ry / 2 - h / 2 /\ Y = M) /\
    (Style.an_is_bottom sty = true -> T == inject_Z ry - mv - h /\ Y = B) /\
    (~ (1 <= Style.alignment sty <= 9)%Z ->
       T == inject_Z ry - mv - h /\ Y = B /\ X = R).
Proof.
  intros h mv. unfold Line.add_data.
  unfold Line.layout_context. simpl. rewrite Hres, Hsty. simpl.
  unfold Line.effective. fold h mv.
  do 7 eexists. split; [reflexivity |]. simpl.
  do 7 (split; [reflexivity |]).
  split; [reflexivity |]. split; [reflexivity |].
  destruct (classes_of sty) as (Hm & Hb & Hout).
  split; [| split; [| split]].
  - intros H. rewrite H. split; reflexivity.
  - intros H. rewrite (Hm H), H. split; reflexivity.
  - intros H. destruct (Hb H) as [-> ->]. split; reflexivity.
  - intros H. destruct (Hout H) as (-> & -> & -> & ->). repeat split; reflexivity.
Qed.

(** A middle line; a top line that takes the margin 10 of its style and
    one that keeps its own margin 50; a bottom line whose bottom edge is
    the margin in effect above the bottom of the screen. *)
Lemma add_data_vertical_witness :
  (exists self' T Y,
     Line.add_data Samples.font0 Samples.line5 = Ok self' /\
     top (pos (Line.base self')) = Some T /\
     y (pos (Line.base self')) = Some Y /\
     T == 540 - snd (text_extents Samples.font0
                       (Line.strip_tags (Line.raw_text Samples.line5))) / 2) /\
  (exists self' T,
     Line.add_data Samples.font0 Samples.line7 = Ok self' /\
     top (pos (Line.base self')) = Some T /\ T == 10) /\
  (exists self' T,
     Line.add_data Samples.font0 Samples.line7m = Ok self' /\
     top (pos (Line.base self')) = Some T /\ T == 50) /\
  (exists self' B,
     Line.add_data Samples.font0 Samples.line3 = Ok self' /\
     bottom (pos (Line.base self')) = Some B /\ B == 1080 - 10) /\
  (exists self' B,
     Line.add_data Samples.font0 Samples.line3m = Ok self' /\
     bottom (pos (Line.base self')) = Some B /\ B == 1080 - 50).
Proof.
  split; [| split; [| split; [| split]]].
  - destruct (add_data_vertical Samples.font0 Samples.line5 1920 1080
                Samples.style5
                ltac:(vm_compute; reflexivity) ltac:(reflexivity))
      as (self' & T & M & B & Y & X & R & Hrun & _ & HT & _ & _ & HY & _ & _ & _ & _
          & _ & Hmid & _).
    exists self', T, Y.
    destruct Hmid as [Hm _]; [reflexivity |].
    repeat split; try assumption. rewrite Hm. reflexivity.
  - destruct (add_data_vertical Samples.font0 Samples.line7 1920 1080
                Samples.style7
                ltac:(vm_compute; reflexivity) ltac:(reflexivity))
      as (self' & T & M & B & Y & X & R & Hrun & _ & HT & _ & _ & _ & _ & _ & _ & _
          & Htop & _).
    exists self', T. destruct Htop as [Ht _]; [reflexivity |].
    repeat split; assumption.
  - destruct (add_data_vertical Samples.font0 Samples.line7m 1920 1080
                Samples.style7
                ltac:(vm_compute; reflexivity) ltac:(reflexivity))
      as (self' & T & M & B & Y & X & R & Hrun & _ & HT & _ & _ & _ & _ & _ & _ & _
          & Htop & _).
    exists self', T. destruct Htop as [Ht _]; [reflexivity |].
    repeat split; assumption.
  - destruct (add_data_vertical Samples.font0 Samples.line3 1920 1080
                Samples.style3
                ltac:(vm_compute; reflexivity) ltac:(reflexivity))
      as (self' & T & M & B & Y & X & R & Hrun & _ & _ & _ & HB & _ & _ & _ & _ & HBT
          & _ & _ & Hbot & _).
    exists self', B. destruct Hbot as [Ht _]; [reflexivity |].
    split; [exact Hrun |]. split; [exact HB |].
    rewrite HBT, Ht. cbn [Samples.line3 Samples.style3 Line.margin_v Style.margin_v Z.eqb].
    ring.
  - destruct (add_data_vertical Samples.font0 Samples.line3m 1920 1080
                Samples.style3
                ltac:(vm_compute; reflexivity) ltac:(reflexivity))
      as (self' & T & M & B & Y & X & R & Hrun & _ & _ & _ & HB & _ & _ & _ & _ & HBT
          & _ & _ & Hbot & _).
    exists self', B. destruct Hbot as [Ht _]; [reflexivity |].
    split; [exact Hrun |]. split; [exact HB |].
    rewrite HBT, Ht. cbn [Samples.line3m Samples.style3 Line.margin_v Style.margin_v Z.eqb].
    ring.
Defined.

End VerticalFacts.

(** * The chars of a line, side by side *)

Module AdjacentFacts.
Import Core AdjacentProps.

Lemma chars_h_side_by_side self sty : forall cs cur_x cs',
  Line.chars_h self sty cur_x cs = Ok cs' ->
  side_by_side (Style.spacing sty) cur_x self cs'.
Proof.
  induction cs as [|c cs IH]; intros cur_x cs' H; cbn [Line.chars_h] in H.
  - injection H as <-. exact I.
  - inv_ok H. inv_ok H. inv_ok H. injection H as <-.
    apply getattr_ok in H0.
    unfold Line.copy_vertical in H1.
    inv_ok H1. inv_ok H1. inv_ok H1. inv_ok H1. injection H1 as <-.
    unfold Line.get_top, Line.get_middle, Line.get_bottom, Line.get_y in *.
    repeat match goal with H : getattr _ = Ok _ |- _ => apply getattr_ok in H end.
    cbn [side_by_side]. exists v.
    cbn [Unit.set_base Unit.base].
    repeat match goal with H : _ = Some _ |- _ => rewrite H end.
    destruct (Style.an_is_left sty), (Style.an_is_center sty);
      (repeat split; [exact H0 | eapply IH; eassumption]).
Qed.

Lemma side_by_side_base (l1 l2 : Line.t) spacing :
  Line.base l1 = Line.base l2 ->
  forall cs x0, side_by_side spacing x0 l1 cs -> side_by_side spacing x0 l2 cs.
Proof.
  intros E. induction cs as [|c cs IH]; intros x0 H.
  - exact I.
  - cbn [side_by_side] in *. destruct H as (w & H). exists w.
    rewrite <- E. decompose [and] H. repeat split; try assumption.
    now apply IH.
Qed.

(** X27.  In the left-to-right pass of [add_chars] (top or bottom
    alignment, or [vertical_kanji] off) the chars are laid side by side
    from the left edge of the line: the first char starts at
    [line.left], each following char starts at the right edge of the
    char before plus the spacing of the style, the centre and right edge
    of a char lie at half and at the whole of its width from its left
    edge, and every char has the [top], [middle], [bottom] and [y] of
    the line. *)
Theorem add_chars_side_by_side (font : Font) (vertical_kanji : bool)
  (self self' : Line.t) (sty : Style.t) (m : Meta) (L : Q)
  (Hrun : Line.add_chars font vertical_kanji self = Ok self')
  (Hsty : style (Line.base self) = Some sty)
  (Hmeta : meta (Line.base self) = Some m)
  (Hleft : left (pos (Line.base self)) = Some L)
  (Hpass : Style.an_is_top sty || Style.an_is_bottom sty
           || negb vertical_kanji = true) :
  exists cs,
    Line.chars self' = Some cs /\
    side_by_side (Style.spacing sty) L self cs.
Proof.
  unfold Line.add_chars in Hrun.
  inv_ok Hrun. inv_ok Hrun.
  assert (Hlay : forall cs0,
    Line.place_chars vertical_kanji (Line.set_chars (Line.set_chars self []) cs0) cs0
      = Ok self' ->
    exists cs, Line.chars self' = Some cs /\
               side_by_side (Style.spacing sty) L self cs).
  { intros cs0 H. unfold Line.place_chars in H. simpl in H.
    rewrite Hmeta, Hsty in H. simpl in H.
    rewrite Hpass in H. inv_ok H. inv_ok H. injection H as <-.
    unfold Line.get_left in H0. simpl in H0. rewrite Hleft in H0.
    injection H0 as <-.
    simpl. eexists; split; [reflexivity |].
    apply chars_h_side_by_side in H1.
    eapply side_by_side_base; [| exact H1]. reflexivity. }
  destruct v as [|s0 ss]; destruct v0 as [|w0 ws];
    try (injection Hrun as <-; simpl; eexists; split; [reflexivity | exact I]);
    inv_ok Hrun; eapply Hlay; exact Hrun.
Qed.

Lemma add_chars_side_by_side_witness :
  exists cs,
    Line.chars Samples.after_chars7 = Some cs /\
    side_by_side (Style.spacing Samples.style7) 10 Samples.before_chars7 cs.
Proof.
  apply (add_chars_side_by_side Samples.font0 false Samples.before_chars7
           Samples.after_chars7 Samples.style7 Samples.meta0 10);
    vm_compute; reflexivity.
Defined.

End AdjacentFacts.

(** * The original events written by [Ass.save] *)

Module SaveFacts.
Import PyStr Re Save SaveProps GreedyFacts LineMatchFacts BlockFacts ReFacts ParseFacts.
Local Open Scope nat_scope.

Lemma linebreak_newline c : is_linebreak c = false -> eqc c newline = false.
Proof.
  intros H. unfold eqc. destruct (Ascii.eqb_spec c newline) as [-> |]; [| reflexivity].
  discriminate H.
Qed.

Lemma unbroken_rev s : unbroken s -> unbroken (rev s).
Proof. unfold unbroken. apply Forall_rev. Qed.

Lemma splitlines_unbroken : forall n s cur,
  length s <= n -> unbroken cur ->
  Forall unbroken (splitlines_from cur s).
Proof.
  induction n as [|n IH]; intros s cur Hn Hcur.
  - destruct s; [| cbn in Hn; lia]. cbn.
    destruct cur; [constructor |].
    constructor; [now apply unbroken_rev | constructor].
  - destruct s as [|c tl].
    + cbn. destruct cur; [constructor |].
      constructor; [now apply unbroken_rev | constructor].
    + cbn [splitlines_from]. cbn [length] in Hn.
      destruct (is_linebreak c) eqn:Ec.
      * constructor; [now apply unbroken_rev |].
        destruct tl as [|c' tl']; [constructor |].
        cbn [length] in Hn.
        destruct (eqc c cr && eqc c' newline);
          apply IH; try (cbn [length]; lia); constructor.
      * apply IH; [lia |]. constructor; assumption.
Qed.

Lemma join_unbroken : forall ls, Forall unbroken ls -> unbroken (join [] ls).
Proof.
  induction ls as [|l ls IH]; intros H; [constructor |].
  inversion H as [|? ? Hl Hls]; subst.
  specialize (IH Hls).
  destruct ls as [|l' ls'].
  - exact Hl.
  - cbn [join] in *. unfold unbroken in *. apply Forall_app. split; [exact Hl |].
    exact IH.
Qed.

Lemma events_txt_unbroken text : unbroken (events_txt text).
Proof.
  unfold events_txt. apply join_unbroken.
  pose proof (splitlines_unbroken (length (strip text)) (strip text) []
                (le_n _) (List.Forall_nil _)) as H.
  unfold splitlines. destruct (splitlines_from [] (strip text)); [constructor |].
  now inversion H.
Qed.

(** Where the alternative anchored at a line start cannot match. *)
Definition inert (bef txt : list ascii) : Prop :=
  at_bol true (mkState bef txt []) = false \/
  startswith (chars "Dialogue:") txt = false.

Lemma match_inert adv bef txt :
  inert bef txt ->
  match_here true original_event adv (mkState bef txt []) =
  if startswith (chars "Comment:") txt
  then Some (mkState (rev (chars "Comment:") ++ bef) (skipn 8 txt) [])
  else None.
Proof.
  intros Hin. unfold match_here, original_event. cbn [before rest].
  rewrite rmatch_alt, rmatch_seq.
  assert (E : rmatch true Bol (mkState bef txt [])
                (fun s1 => rmatch true (Lit (chars "Dialogue:")) s1
                   (fun s2 => if adv && (length (rest s2) =? length txt)
                              then None else Some s2)) = None).
  { cbn [rmatch]. destruct Hin as [Hb | Hd].
    - now rewrite Hb.
    - destruct (at_bol true _); [| reflexivity].
      rewrite rmatch_lit. now rewrite Hd. }
  rewrite E. rewrite rmatch_lit.
  destruct (startswith (chars "Comment:") txt) eqn:Ec; [| reflexivity].
  cbn [rest].
  assert (Hlen : (length (skipn (length (chars "Comment:")) txt) =? length txt) = false).
  { apply Nat.eqb_neq. rewrite length_skipn.
    destruct txt as [|c txt]; [discriminate Ec |]. cbn [length chars list_ascii_of_string]. lia. }
  rewrite Hlen, andb_false_r. reflexivity.
Qed.

Lemma startswith_split : forall w s,
  startswith w s = true -> s = w ++ skipn (length w) s.
Proof.
  induction w as [|a w IH]; intros s H; [reflexivity |].
  destruct s as [|b s]; [discriminate |].
  cbn [startswith] in H. apply andb_true_iff in H. destruct H as [Hab Hw].
  unfold eqc in Hab. apply Ascii.eqb_eq in Hab. subst b.
  cbn [length skipn app]. f_equal. now apply IH.
Qed.

(** The next match in a one-line text, away from its start: an
    occurrence of [Comment:], found after the text skipped. *)
Lemma search_inert : forall txt adv bef sk m s1,
  unbroken txt -> inert bef txt ->
  search true original_event adv bef sk txt = Some (m, s1) ->
  exists pre,
    txt = pre ++ chars "Comment:" ++ rest s1 /\
    m_skipped m = rev sk ++ pre /\
    m_text m <> [] /\
    before s1 <> [] /\ at_bol true (mkState (before s1) (rest s1) []) = false.
Proof.
  induction txt as [|c txt IH]; intros adv bef sk m s1 Hun Hin H;
    rewrite search_unfold, (match_inert _ _ _ Hin) in H.
  - discriminate H.
  - destruct (startswith (chars "Comment:") (c :: txt)) eqn:Ec.
    + injection H as <- <-. exists []. cbn [rest before m_skipped m_text app].
      rewrite app_nil_r.
      pose proof (startswith_split _ _ Ec) as Es.
      split; [exact Es |]. split; [reflexivity |].
      split; [| split; [cbn; discriminate | reflexivity]].
      unfold consumed. cbn [rest]. rewrite length_skipn.
      assert (Hn : forall n, n <> 0 -> firstn n (c :: txt) <> [])
        by (intros [|n] Hn; [congruence | cbn [firstn]; discriminate]).
      apply Hn. cbn [length]. lia.
    + inversion Hun as [|? ? Hc Htxt]; subst.
      assert (Hin' : inert (c :: bef) txt).
      { left. unfold at_bol. cbn [before]. now rewrite (linebreak_newline _ Hc). }
      destruct (IH false (c :: bef) (c :: sk) m s1 Htxt Hin' H)
        as (pre & Et & Esk & Hm & Hb & Hbol).
      exists (c :: pre). repeat split; try assumption.
      * cbn [app]. now f_equal.
      * rewrite Esk. cbn [rev]. now rewrite <- app_assoc.
Qed.

Lemma unbroken_app_r a b : unbroken (a ++ b) -> unbroken b.
Proof. unfold unbroken. intros H. now apply Forall_app in H. Qed.

(** Away from the start of a one-line text the substitution changes
    nothing: every match is a [Comment:], replaced by itself. *)
Lemma finditer_inert : forall fuel adv bef txt,
  unbroken txt -> inert bef txt ->
  let '(ms, tl) := finditer_from true original_event fuel adv bef txt in
  concat (map (fun m => m_skipped m ++ chars "Comment:") ms) ++ tl = txt.
Proof.
  induction fuel as [|fuel IH]; intros adv bef txt Hun Hin; cbn [finditer_from].
  - reflexivity.
  - destruct (search true original_event adv bef [] txt) as [[m s1] |] eqn:Es;
      [| reflexivity].
    destruct (search_inert _ _ _ _ _ _ Hun Hin Es) as (pre & Et & Esk & Hm & Hb & Hbol).
    assert (Hrest : unbroken (rest s1)).
    { rewrite Et in Hun. apply unbroken_app_r in Hun. now apply unbroken_app_r in Hun. }
    specialize (IH (match m_text m with [] => true | _ => false end)
                  (before s1) (rest s1) Hrest (or_introl Hbol)).
    destruct (finditer_from true original_event fuel _ (before s1) (rest s1))
      as [ms tl].
    cbn [map concat]. rewrite Esk. cbn [rev app].
    rewrite <- !app_assoc, IH. now rewrite Et.
Qed.

Lemma sub_one_line txt :
  unbroken txt ->
  sub true original_event (chars "Comment:") txt =
  if startswith (chars "Dialogue:") txt
  then chars "Comment:" ++ skipn 9 txt
  else txt.
Proof.
  intros Hun. unfold sub, finditer_tail.
  destruct (startswith (chars "Dialogue:") txt) eqn:Ed.
  - set (fuel := 2 * length txt + 2).
    assert (Hf : exists f, fuel = S f) by (exists (2 * length txt + 1); unfold fuel; lia).
    destruct Hf as [f ->]. cbn [finditer_from].
    rewrite search_unfold.
    assert (Em : match_here true original_event false (mkState [] txt [])
                 = Some (mkState (rev (chars "Dialogue:")) (skipn 9 txt) [])).
    { unfold match_here, original_event. cbn [before rest].
      rewrite rmatch_alt, rmatch_seq. cbn [rmatch at_bol before].
      rewrite rmatch_lit, Ed. cbn [andb]. now rewrite app_nil_r. }
    rewrite Em. cbn [m_text before rest caps].
    pose proof (startswith_split _ _ Ed) as Es.
    change (length (chars "Dialogue:")) with 9 in Es.
    assert (Hrest : unbroken (skipn 9 txt)).
    { rewrite Es in Hun. now apply unbroken_app_r in Hun. }
    pose proof (finditer_inert f
                  (match consumed (mkState [] txt [])
                           (mkState (rev (chars "Dialogue:")) (skipn 9 txt) []) with
                   | [] => true | _ => false end)
                  (rev (chars "Dialogue:")) (skipn 9 txt) Hrest
                  (or_introl eq_refl)) as H.
    destruct (finditer_from true original_event f _ (rev (chars "Dialogue:"))
                (skipn 9 txt)) as [ms tl].
    cbn [map concat m_skipped rev app]. rewrite <- app_assoc. now rewrite H.
  - pose proof (finditer_inert (2 * length txt + 2) false [] txt Hun
                  (or_intror Ed)) as H.
    destruct (finditer_from true original_event _ false [] txt) as [ms tl].
    exact H.
Qed.

(** X28.  The original events that [save] writes back when
    [comment_original] is set are put on ONE line: the lines of the
    events section after its first are joined without separator, so the
    text written holds no line end except the final newline.  Of these
    lines only the first can be turned into a comment: a [Dialogue:] at
    the very start of the joined text is replaced by [Comment:], and
    nothing else is changed.  Without an events section, or with
    [comment_original] off, nothing is written. *)
Theorem save_original_one_line (text : list ascii) :
  unbroken (events_txt text) /\
  write_original true (Some text)
  = (if startswith (chars "Dialogue:") (events_txt text)
     then chars "Comment:" ++ skipn 9 (events_txt text)
     else events_txt text) ++ [newline] /\
  write_original true None = [] /\
  write_original false (Some text) = [].
Proof.
  split; [apply events_txt_unbroken |].
  split; [| split; reflexivity].
  unfold write_original. f_equal. apply sub_one_line, events_txt_unbroken.
Qed.

(** Two dialogue lines and a comment: one line is written, and the
    second dialogue stays a dialogue. *)
Lemma save_original_sample :
  str (write_original true (Some events3))
  = String.append "Comment: 0,aDialogue: 0,bComment: 0,c" (String newline "").
Proof. vm_compute. reflexivity. Qed.

End SaveFacts.

(** * The lines read from the events section *)

Module LoadFacts.
Import PyStr Re Core Load LoadProps.
Local Open Scope nat_scope.

Section Events.

Variable from_assts : string -> Q -> bool -> result PTime.Time.
Variables (fps : Q) (meta0 : option Meta) (styles : list Style.t)
  (fix_timestamps : bool).

Abbreviation from_text := (Line.from_text from_assts).
Abbreviation read_lines := (read_lines from_assts fps meta0 styles fix_timestamps).

Lemma from_text_index text n line :
  from_text text n fps meta0 styles fix_timestamps = Ok line ->
  i (Line.base line) = n /\ meta (Line.base line) = meta0.
Proof.
  unfold Line.from_text. intros H.
  destruct (re_match false Line.line_pattern (chars text)); [| discriminate].
  repeat (let v := fresh "v" in let E := fresh "E" in
          apply rbind_ok in H; destruct H as (v & E & H)).
  injection H as <-. split; reflexivity.
Qed.

Lemma read_lines_numbered : forall ltexts n ls,
  read_lines n ltexts = Ok ls ->
  map (fun l => i (Line.base l)) ls = seq n (length ls) /\
  length ls
  = length (List.filter (fun l => match l with [] => false | _ => true end) ltexts) /\
  Forall (fun l => meta (Line.base l) = meta0) ls.
Proof.
  induction ltexts as [|ltext ltexts IH]; intros n ls H; cbn [Load.read_lines] in H.
  - injection H as <-. repeat split. constructor.
  - destruct ltext as [|c ltext].
    + cbn [List.filter]. now apply IH.
    + inv_ok H. inv_ok H. injection H as <-.
      destruct (from_text_index _ _ _ H0) as [Hi Hm].
      destruct (IH _ _ H1) as (Hs & Hl & Hall).
      cbn [map length seq List.filter]. rewrite Hi, Hs, Hl.
      repeat split. now constructor.
Qed.

(** X29.  The lines that [Ass.__init__] reads from the events section
    are numbered in sequence from 0: the first line of the stripped
    section is dropped whatever it holds, empty lines are passed over
    without using a number, so when the section is read without error
    there is one [Line] for each of the other lines, the index of the
    k-th being k, and each one carries the meta of the file. *)
Theorem read_events_numbered (text : list ascii) (ls : list Line.t)
  (Hread : read_events from_assts fps meta0 styles fix_timestamps text = Ok ls) :
  length ls = length (event_lines text) /\
  map (fun l => i (Line.base l)) ls = seq 0 (length ls) /\
  Forall (fun l => meta (Line.base l) = meta0) ls.
Proof.
  unfold read_events in Hread.
  destruct (read_lines_numbered _ _ _ Hread) as (Hs & Hl & Hall).
  repeat split; assumption.
Qed.

Lemma read_lines_bad : forall ltexts n l,
  In l ltexts -> l <> [] ->
  startswith (chars "Dialogue: ") l = false ->
  startswith (chars "Comment: ") l = false ->
  exists e, read_lines n ltexts = Raise e.
Proof.
  induction ltexts as [|ltext ltexts IH]; intros n l Hin Hne HD HC; [destruct Hin |].
  cbn [Load.read_lines].
  destruct Hin as [-> | Hin].
  - destruct l as [|c l]; [congruence |].
    unfold Line.from_text.
    rewrite ParseFacts.chars_str, (ParseFacts.no_match _ HD HC).
    eexists. reflexivity.
  - destruct ltext as [|c ltext]; [now apply (IH n l) |].
    destruct (Line.from_text from_assts (str (c :: ltext)) n fps meta0 styles
                fix_timestamps) as [line | e]; [| eexists; reflexivity].
    destruct (IH (S n) l Hin Hne HD HC) as [e He].
    cbn [rbind]. exists e. change (rbind (read_lines (S n) ltexts)
                      (fun lines => Ok (line :: lines)) = Raise e).
    now rewrite He.
Qed.

(** X30.  One line that is no event makes the whole reading fail: if
    any line of the events section after the first is not empty (a line
    of spaces is not) and begins neither with [Dialogue: ] nor with
    [Comment: ], [Ass.__init__] raises and no line is returned. *)
Theorem read_events_bad_line (text l : list ascii)
  (Hin : In l (event_lines text))
  (HD : startswith (chars "Dialogue: ") l = false)
  (HC : startswith (chars "Comment: ") l = false) :
  exists e, read_events from_assts fps meta0 styles fix_timestamps text = Raise e.
Proof.
  unfold event_lines in Hin. apply filter_In in Hin. destruct Hin as [Hin Hne].
  unfold read_events. eapply read_lines_bad; eauto.
  destruct l; [discriminate | discriminate].
Qed.

End Events.

Lemma read_events_numbered_witness :
  exists ls,
    read_events Samples.no_assts Samples.fps0 (Some Samples.meta0) [] false
      events_blank = Ok ls /\
    map (fun l => i (Line.base l)) ls = [0; 1].
Proof.
  destruct (read_events Samples.no_assts Samples.fps0 (Some Samples.meta0) []
              false events_blank) as [ls | e] eqn:E; [| vm_compute in E; discriminate].
  exists ls. split; [reflexivity |].
  destruct (read_events_numbered Samples.no_assts Samples.fps0
              (Some Samples.meta0) [] false events_blank ls E) as (Hl & Hs & _).
  rewrite Hs, Hl. reflexivity.
Defined.

Lemma read_events_bad_line_witness :
  exists e,
    read_events Samples.no_assts Samples.fps0 (Some Samples.meta0) [] false
      events_spaces = Raise e.
Proof.
  apply (read_events_bad_line Samples.no_assts Samples.fps0 (Some Samples.meta0)
           [] false events_spaces (chars "  "));
    vm_compute; auto.
Defined.

End LoadFacts.
